(** * codepencil: ink codec, project persistence and the Python bridge

    A shallow embedding of
      - [lib/svg.ts]      (stroke <-> SVG codec, manifest model),
      - [lib/project.ts]  (directory and ZIP persistence),
      - [lib/py.ts] and [workers/py.worker.ts] (execution bridge),
      - [lib/groq.ts]     (the transcription request and its retries),
      - [lib/settings.ts] and [components/SettingsPanel.tsx] (settings),
      - [components/InkCanvas.tsx] (pointer handling and the eraser),
      - [components/NotebookClient.tsx] (the notebook reducer, converting
        and running a cell, opening and importing a project),
    together with the parts of the JavaScript platform they call
    ([Number.prototype.toFixed], [parseFloat], [String.prototype.split],
    [RegExp.prototype.exec], [DOMParser], [Promise], [Map]). *)

From Stdlib Require Import ZArith QArith Qabs Ascii String List Lia.
From stdpp Require Import base option list gmap strings sorting.

Close Scope Q_scope.
Set Warnings "-register-all".
#[local] Arguments String.append : simpl nomatch.
Local Open Scope string_scope.

(* ================================================================== *)
(** * JavaScript primitives *)
(* ================================================================== *)

Module Js.

(** ** Characters and strings

    A string is a sequence of UTF-16 code units; the strings of this
    model are those whose code units lie below 256. *)

Definition ascii_in_range (lo hi c : ascii) : bool :=
  ((N_of_ascii lo <=? N_of_ascii c)%N && (N_of_ascii c <=? N_of_ascii hi)%N)%bool.

(** [\d] *)
Definition is_digit (c : ascii) : bool := ascii_in_range "0" "9" c.

(** [\s], which is also the white space that [parseFloat] skips: below
    256 the class has TAB, LF, VT, FF, CR, SPACE and NO-BREAK SPACE. *)
Definition is_space (c : ascii) : bool :=
  ascii_in_range "009" "013" c || Ascii.eqb c " " || Ascii.eqb c "160".

Definition digit_val (c : ascii) : N := (N_of_ascii c - 48)%N.
Definition digit_char (d : N) : ascii := ascii_of_N (48 + d).

Fixpoint forallb_string (f : ascii -> bool) (s : string) : bool :=
  match s with
  | EmptyString => true
  | String c s' => f c && forallb_string f s'
  end.

(** The longest prefix of [s] whose characters satisfy [f], and the rest. *)
Fixpoint span (f : ascii -> bool) (s : string) : string * string :=
  match s with
  | EmptyString => (EmptyString, EmptyString)
  | String c s' =>
      if f c then let '(a, b) := span f s' in (String c a, b)
      else (EmptyString, s)
  end.

Fixpoint drop_while (f : ascii -> bool) (s : string) : string :=
  match s with
  | EmptyString => EmptyString
  | String c s' => if f c then drop_while f s' else s
  end.

Fixpoint repeat_char (c : ascii) (n : nat) : string :=
  match n with
  | O => EmptyString
  | S n' => String c (repeat_char c n')
  end.

(** [s.endsWith(suffix)] *)
Definition endsWith (s suffix : string) : bool :=
  let n := String.length s in
  let k := String.length suffix in
  (k <=? n)%nat && String.eqb (substring (n - k) k s) suffix.

(** [s.padStart(n, "0")] *)
Definition padStart0 (n : nat) (s : string) : string :=
  repeat_char "0" (n - String.length s) +:+ s.

(** [arr.join(sep)] *)
Fixpoint join (sep : string) (l : list string) : string :=
  match l with
  | [] => EmptyString
  | [a] => a
  | a :: l' => a +:+ sep +:+ join sep l'
  end.

(** [s.split(/\s+/)]: the pieces between maximal runs of white space;
    a leading or trailing run yields an empty piece. *)
Fixpoint split_ws_go (in_run : bool) (cur : string) (s : string) : list string :=
  match s with
  | EmptyString => [cur]
  | String c s' =>
      if is_space c then
        if in_run then split_ws_go true cur s'
        else cur :: split_ws_go true EmptyString s'
      else split_ws_go false (cur +:+ String c EmptyString) s'
  end.

Definition split_ws (s : string) : list string := split_ws_go false EmptyString s.

(** ** Decimal digits of a non-negative integer *)

Fixpoint digits_fuel (fuel : nat) (n : N) (acc : string) : string :=
  match fuel with
  | O => acc
  | S f =>
      let acc' := String (digit_char (n mod 10)) acc in
      if (n <? 10)%N then acc' else digits_fuel f (n / 10) acc'
  end.

(** The decimal representation of [n], without leading zeros ("0" for 0). *)
Definition digits (n : N) : string :=
  digits_fuel (S (N.to_nat (N.log2 n))) n EmptyString.

(** The integer denoted by a string of decimal digits. *)
Fixpoint digits_value_from (acc : N) (s : string) : N :=
  match s with
  | EmptyString => acc
  | String c s' => digits_value_from (10 * acc + digit_val c) s'
  end.

Definition digits_value (s : string) : N := digits_value_from 0 s.

(** ** Numbers

    A JavaScript number is NaN, an infinity, or a finite value.  Finite
    values are kept as exact decimals [m * 10^e]; a double is identified
    with the decimal that [Number::toString] prints for it.  The
    arithmetic of this model is exact: the rounding of a sum or of a
    parsed literal to the nearest double is not modelled, and the two
    zeros are not told apart; a literal beyond the range of the doubles
    is read as an infinity or as zero, as [parseFloat] does.  The
    statements below that compare values are therefore statements about
    the decimal texts the code writes and reads, and they are stated
    where the exact sum and the rounded one print alike. *)

Inductive number : Type :=
  | NaN
  | Infinity (negative : bool)
  | Dec (m : Z) (e : Z).

Definition num (n : Z) : number := Dec n 0.

(** The rational value of a finite number (0 for the others). *)
Definition to_Q (x : number) : Q :=
  match x with
  | Dec m e =>
      if (0 <=? e)%Z then inject_Z (m * 10 ^ e)%Z
      else Qmake m (Z.to_pos (10 ^ (- e))%Z)
  | _ => 0%Q
  end.

Definition is_finite (x : number) : bool :=
  match x with Dec _ _ => true | _ => false end.

(** ToBoolean on a number: NaN and the zeros are falsy. *)
Definition truthy (x : number) : bool :=
  match x with
  | NaN => false
  | Infinity _ => true
  | Dec m _ => negb (m =? 0)%Z
  end.

(** [a || b] on numbers *)
Definition or_else (a b : number) : number := if truthy a then a else b.

(** [x + y] on decimals, without the rounding of the sum to a double. *)
Definition add (x y : number) : number :=
  match x, y with
  | NaN, _ | _, NaN => NaN
  | Infinity a, Infinity b => if Bool.eqb a b then Infinity a else NaN
  | Infinity a, _ => Infinity a
  | _, Infinity b => Infinity b
  | Dec m1 e1, Dec m2 e2 =>
      let e := Z.min e1 e2 in
      Dec (m1 * 10 ^ (e1 - e) + m2 * 10 ^ (e2 - e))%Z e
  end.

(** [abs(x) >= 10^21] for [x = a * 10^e], [a >= 0]. *)
Definition at_least_1e21 (a : Z) (e : Z) : bool :=
  if (0 <=? e)%Z then (10 ^ 21 <=? a * 10 ^ e)%Z
  else (10 ^ 21 * 10 ^ (- e) <=? a)%Z.

(** Remove the trailing decimal zeros of a positive mantissa. *)
Fixpoint strip_zeros (fuel : nat) (a : Z) (e : Z) : Z * Z :=
  match fuel with
  | O => (a, e)
  | S f =>
      if ((a mod 10 =? 0) && negb (a =? 0))%Z
      then strip_zeros f (a / 10) (e + 1)
      else (a, e)
  end.

Definition signed_exponent (e : Z) : string :=
  (if (0 <=? e)%Z then "+" else "-") +:+ digits (Z.to_N (Z.abs e)).

(** [Number::toString] for a positive finite value [a * 10^e]
    (ECMA-262, 6.1.6.1.20): [s] are the significant digits, [k] their
    number and [n] the position of the decimal point. *)
Definition toString_pos (a : Z) (e : Z) : string :=
  let '(a', e') := strip_zeros (Z.to_nat (Z.log2 a) + 1) a e in
  let s := digits (Z.to_N a') in
  let k := Z.of_nat (String.length s) in
  let n := (k + e')%Z in
  if ((k <=? n) && (n <=? 21))%Z then
    s +:+ repeat_char "0" (Z.to_nat (n - k))
  else if ((0 <? n) && (n <=? 21))%Z then
    substring 0 (Z.to_nat n) s +:+ "." +:+
    substring (Z.to_nat n) (Z.to_nat (k - n)) s
  else if ((-6 <? n) && (n <=? 0))%Z then
    "0." +:+ repeat_char "0" (Z.to_nat (- n)) +:+ s
  else if (k =? 1)%Z then
    s +:+ "e" +:+ signed_exponent (n - 1)
  else
    substring 0 1 s +:+ "." +:+ substring 1 (Z.to_nat (k - 1)) s +:+
    "e" +:+ signed_exponent (n - 1).

(** [String(x)], also what a template literal does with a number. *)
Definition toString (x : number) : string :=
  match x with
  | NaN => "NaN"
  | Infinity false => "Infinity"
  | Infinity true => "-Infinity"
  | Dec m e =>
      if (m =? 0)%Z then "0"
      else if (m <? 0)%Z then "-" +:+ toString_pos (- m) e
      else toString_pos m e
  end.

(** [String(n)] for a non-negative integer below [10^21]. *)
Definition String_of_N (n : N) : string := digits n.

(** The integer [n] with [n / 100] closest to [a * 10^e]; of two equally
    close ones the larger (ECMA-262, 21.1.3.3 step 10.a with [f = 2]). *)
Definition round_hundredths (a : Z) (e : Z) : Z :=
  if (-2 <=? e)%Z then (a * 10 ^ (e + 2))%Z
  else let d := (10 ^ (- e - 2))%Z in ((2 * a + d) / (2 * d))%Z.

(** The fixed notation of [n / 100]. *)
Definition fixed2 (n : Z) : string :=
  let m := digits (Z.to_N n) in
  let m := padStart0 3 m in
  let k := String.length m in
  substring 0 (k - 2) m +:+ "." +:+ substring (k - 2) 2 m.

(** [x.toFixed(2)] (ECMA-262, 21.1.3.3).  The value that is rounded is
    the decimal [m * 10^e] as it stands: for a double, its exact
    value, as in the language. *)
Definition toFixed2 (x : number) : string :=
  match x with
  | Dec m e =>
      let s := if (m <? 0)%Z then "-" else EmptyString in
      let a := Z.abs m in
      if at_least_1e21 a e then s +:+ toString (Dec a e)
      else s +:+ fixed2 (round_hundredths a e)
  | _ => toString x
  end.

(** An optional sign in front of a literal. *)
Definition read_sign (s : string) : bool * string :=
  match s with
  | String c r =>
      if Ascii.eqb c "-" then (true, r)
      else if Ascii.eqb c "+" then (false, r)
      else (false, s)
  | EmptyString => (false, s)
  end.

(** The digits after a decimal point, if there is one. *)
Definition read_fraction (s : string) : string * string :=
  match s with
  | String c r => if Ascii.eqb c "." then span is_digit r else (EmptyString, s)
  | EmptyString => (EmptyString, s)
  end.

(** The exponent part of a decimal literal: [e] or [E], an optional sign
    and at least one digit.  Returns the exponent (0 when absent). *)
Definition parse_exponent (s : string) : Z :=
  match s with
  | String c s1 =>
      if Ascii.eqb c "e" || Ascii.eqb c "E" then
        let '(neg, s2) := read_sign s1 in
        let '(ds, _) := span is_digit s2 in
        match ds with
        | EmptyString => 0%Z
        | _ => let v := Z.of_N (digits_value ds) in if neg then (- v)%Z else v
        end
      else 0%Z
  | EmptyString => 0%Z
  end.

Definition starts_with (p s : string) : bool := String.prefix p s.

(** The range of the doubles.  A value of at least [2^1024 - 2^970],
    half way between the largest double and [2^1024], rounds to an
    infinity; a value of at most [2^-1075], half of the smallest double
    above zero, rounds to zero. *)
Definition overflow_bound : Z := Eval vm_compute in (2 ^ 1024 - 2 ^ 970)%Z.
Definition underflow_scale : Z := Eval vm_compute in (2 ^ 1075)%Z.

(** [a * 10^e >= 2^1024 - 2^970], for [a >= 0]. *)
Definition overflows (a e : Z) : bool :=
  if (0 <=? e)%Z then (overflow_bound <=? a * 10 ^ e)%Z
  else (overflow_bound * 10 ^ (- e) <=? a)%Z.

(** [0 < a * 10^e <= 2^-1075], for [a >= 0]. *)
Definition underflows (a e : Z) : bool :=
  (0 <? a)%Z && (e <? 0)%Z && (a * underflow_scale <=? 10 ^ (- e))%Z.

(** The number that a decimal literal [a * 10^e] with its sign denotes. *)
Definition literal (neg : bool) (a e : Z) : number :=
  if overflows a e then Infinity neg
  else if underflows a e then num 0
  else Dec (if neg then (- a)%Z else a) e.

(** [parseFloat(s)] (ECMA-262, 19.2.4): leading white space is skipped and
    the longest prefix that is a decimal literal is converted; NaN when
    there is none. *)
Definition parseFloat (s : string) : number :=
  let s0 := drop_while is_space s in
  let '(neg, s1) := read_sign s0 in
  if starts_with "Infinity" s1 then Infinity neg
  else
    let '(ip, s2) := span is_digit s1 in
    let '(fp, s3) := read_fraction s2 in
    match ip +:+ fp with
    | EmptyString => NaN
    | ds =>
        let v := Z.of_N (digits_value ds) in
        literal neg v (parse_exponent s3 - Z.of_nat (String.length fp))%Z
    end.

(** ** Exceptions and promises *)

(** A thrown value: an [Error] (a [DOMException] is one) with its name
    and message, or a value that is not an [Error], with the text
    [String(e)] gives for it. *)
Inductive Thrown : Type :=
  | ErrorObj (name message : string)
  | NonError (text : string).

(** [String(e)] ([Error.prototype.toString] for an [Error]). *)
Definition String_of_thrown (e : Thrown) : string :=
  match e with
  | ErrorObj name message =>
      match name, message with
      | EmptyString, _ => message
      | _, EmptyString => name
      | _, _ => name +:+ ": " +:+ message
      end
  | NonError text => text
  end.

(** The outcome of a call that may throw, or of an awaited promise. *)
Definition result (A : Type) : Type := (Thrown + A)%type.

Definition bind {A B : Type} (r : result A) (k : A -> result B) : result B :=
  match r with
  | inl e => inl e
  | inr a => k a
  end.

Notation "'await' x ':=' r 'in' k" := (bind r (fun x => k))
  (at level 10, x pattern, r at level 100, k at level 200).

End Js.

Import Js.

(* ================================================================== *)
(** * DOMParser: a well-formed fragment of XML 1.0 *)
(* ================================================================== *)

(** [new DOMParser().parseFromString(text, "image/svg+xml")].

    The fragment read here is: an optional processing instruction (the
    XML declaration) at the very start, then one root element; elements
    with attributes in single or double quotes, empty-element tags, and
    character data.  The documents that [strokesToSvg] writes lie in the
    fragment.  Comments, CDATA sections, document type declarations,
    entity or character references and the binding of name prefixes
    lie outside it: on a text that has them this function is not the
    parser of the browser (it gives the error document, in which no
    [svg] and no [path] element is found, and it takes a prefixed name
    for a declared one).  What is proved of every text is therefore
    proved of [Svg.decode] for every document, whichever parser made
    it. *)

Module Xml.

Inductive node : Type :=
  | Elem (name : string) (attrs : list (string * string)) (children : list node).

Definition node_name (n : node) : string := let 'Elem k _ _ := n in k.
Definition node_attrs (n : node) : list (string * string) := let 'Elem _ a _ := n in a.
Definition node_children (n : node) : list node := let 'Elem _ _ c := n in c.

Definition quot : ascii := "034"%char.
Definition apos : ascii := "039"%char.

Definition is_letter (c : ascii) : bool :=
  ascii_in_range "a" "z" c || ascii_in_range "A" "Z" c.

Definition is_name_start (c : ascii) : bool :=
  is_letter c || Ascii.eqb c "_" || Ascii.eqb c ":".

Definition is_name_char (c : ascii) : bool :=
  is_name_start c || is_digit c || Ascii.eqb c "-" || Ascii.eqb c ".".

(** XML white space: SPACE, TAB, LF, CR. *)
Definition is_xml_space (c : ascii) : bool :=
  Ascii.eqb c " " || Ascii.eqb c "009" || Ascii.eqb c "010" || Ascii.eqb c "013".

Definition snoc (s : string) (c : ascii) : string := s +:+ String c EmptyString.

Definition attr_list := list (string * string).

Inductive mode : Type :=
  | Start
  | LtStart
  | Text
  | Lt
  | PI
  | PIq
  | OpenName (n : string)
  | InTag (n : string) (a : attr_list)
  | AttrName (n : string) (a : attr_list) (k : string)
  | AfterAttrName (n : string) (a : attr_list) (k : string)
  | BeforeValue (n : string) (a : attr_list) (k : string)
  | AttrValue (n : string) (a : attr_list) (k : string) (q : ascii) (v : string)
  | AfterValue (n : string) (a : attr_list)
  | EmptyTagSlash (n : string) (a : attr_list)
  | CloseName (n : string)
  | CloseWs (n : string)
  | Failed.

(** The open elements, innermost first, each with the children read so
    far; and the root element once it is closed. *)
Record pstate : Type := PState {
  ps_mode : mode;
  ps_stack : list (string * attr_list * list node);
  ps_root : option node;
}.

Definition initial : pstate := PState Start [] None.
Definition failed : pstate := PState Failed [] None.

Definition set_mode (m : mode) (st : pstate) : pstate :=
  PState m (ps_stack st) (ps_root st).

(** A finished element becomes the last child of the innermost open
    element, or the root. *)
Definition attach (e : node) (st : pstate) : pstate :=
  match ps_stack st with
  | [] => PState Text [] (Some e)
  | (n, a, ch) :: rest => PState Text ((n, a, (ch ++ [e])%list) :: rest) (ps_root st)
  end.

Definition open_element (n : string) (a : attr_list) (st : pstate) : pstate :=
  PState Text ((n, a, []) :: ps_stack st) (ps_root st).

Definition close_element (n : string) (st : pstate) : pstate :=
  match ps_stack st with
  | (n', a, ch) :: rest =>
      if String.eqb n n' then attach (Elem n' a ch) (PState Text rest (ps_root st))
      else failed
  | [] => failed
  end.

Definition has_attr (k : string) (a : attr_list) : bool :=
  existsb (fun kv => String.eqb (fst kv) k) a.

(** After [<]: a start tag or an end tag.  A second root element is an
    error, and so is an end tag with nothing open. *)
Definition after_lt (c : ascii) (st : pstate) : pstate :=
  if Ascii.eqb c "/" then set_mode (CloseName EmptyString) st
  else if is_name_start c then
    match ps_stack st, ps_root st with
    | [], Some _ => failed
    | _, _ => set_mode (OpenName (String c EmptyString)) st
    end
  else failed.

Definition step (st : pstate) (c : ascii) : pstate :=
  match ps_mode st with
  | Start =>
      if Ascii.eqb c "<" then set_mode LtStart st
      else if is_xml_space c then set_mode Text st
      else failed
  | LtStart =>
      if Ascii.eqb c "?" then set_mode PI st else after_lt c st
  | Text =>
      if Ascii.eqb c "<" then set_mode Lt st
      else if Ascii.eqb c "&" then failed
      else match ps_stack st with
           | [] => if is_xml_space c then st else failed
           | _ => st
           end
  | Lt => after_lt c st
  | PI => if Ascii.eqb c "?" then set_mode PIq st else st
  | PIq =>
      if Ascii.eqb c ">" then set_mode Text st
      else if Ascii.eqb c "?" then st
      else set_mode PI st
  | OpenName n =>
      if is_name_char c then set_mode (OpenName (snoc n c)) st
      else if is_xml_space c then set_mode (InTag n []) st
      else if Ascii.eqb c "/" then set_mode (EmptyTagSlash n []) st
      else if Ascii.eqb c ">" then open_element n [] st
      else failed
  | InTag n a =>
      if is_xml_space c then st
      else if Ascii.eqb c "/" then set_mode (EmptyTagSlash n a) st
      else if Ascii.eqb c ">" then open_element n a st
      else if is_name_start c then set_mode (AttrName n a (String c EmptyString)) st
      else failed
  | AttrName n a k =>
      if is_name_char c then set_mode (AttrName n a (snoc k c)) st
      else if is_xml_space c then set_mode (AfterAttrName n a k) st
      else if Ascii.eqb c "=" then set_mode (BeforeValue n a k) st
      else failed
  | AfterAttrName n a k =>
      if is_xml_space c then st
      else if Ascii.eqb c "=" then set_mode (BeforeValue n a k) st
      else failed
  | BeforeValue n a k =>
      if is_xml_space c then st
      else if Ascii.eqb c quot || Ascii.eqb c apos
      then set_mode (AttrValue n a k c EmptyString) st
      else failed
  | AttrValue n a k q v =>
      if Ascii.eqb c q then
        if has_attr k a then failed
        else set_mode (AfterValue n (a ++ [(k, v)])%list) st
      else if Ascii.eqb c "<" || Ascii.eqb c "&" then failed
      else if is_xml_space c then set_mode (AttrValue n a k q (snoc v " ")) st
      else set_mode (AttrValue n a k q (snoc v c)) st
  | AfterValue n a =>
      if is_xml_space c then set_mode (InTag n a) st
      else if Ascii.eqb c "/" then set_mode (EmptyTagSlash n a) st
      else if Ascii.eqb c ">" then open_element n a st
      else failed
  | EmptyTagSlash n a =>
      if Ascii.eqb c ">" then attach (Elem n a []) st else failed
  | CloseName n =>
      if is_name_char c then set_mode (CloseName (snoc n c)) st
      else if is_xml_space c then set_mode (CloseWs n) st
      else if Ascii.eqb c ">" then close_element n st
      else failed
  | CloseWs n =>
      if is_xml_space c then st
      else if Ascii.eqb c ">" then close_element n st
      else failed
  | Failed => st
  end.

Fixpoint run (st : pstate) (s : string) : pstate :=
  match s with
  | EmptyString => st
  | String c s' => run (step st c) s'
  end.

(** The document: its root element, or [None] for the error document. *)
Definition document := option node.

Definition parseFromString (text : string) : document :=
  let st := run initial text in
  match ps_mode st, ps_stack st with
  | Text, [] => ps_root st
  | _, _ => None
  end.

(** The element and its descendants, in document order. *)
Fixpoint elements (n : node) : list node :=
  match n with
  | Elem _ _ ch => n :: flat_map elements ch
  end.

(** The local part of a qualified name. *)
Fixpoint after_colon (s : string) : option string :=
  match s with
  | EmptyString => None
  | String c s' => if Ascii.eqb c ":" then Some s' else after_colon s'
  end.

Definition local_name (n : node) : string :=
  match after_colon (node_name n) with
  | Some l => l
  | None => node_name n
  end.

(** [doc.querySelectorAll(name)] for a type selector. *)
Definition querySelectorAll (doc : document) (name : string) : list node :=
  match doc with
  | Some r => List.filter (fun n => String.eqb (local_name n) name) (elements r)
  | None => []
  end.

(** [doc.querySelector(name)] *)
Definition querySelector (doc : document) (name : string) : option node :=
  head (querySelectorAll doc name).

(** [el.getAttribute(name)] *)
Fixpoint assoc (k : string) (a : attr_list) : option string :=
  match a with
  | [] => None
  | (k', v) :: a' => if String.eqb k' k then Some v else assoc k a'
  end.

Definition getAttribute (el : node) (name : string) : option string :=
  assoc name (node_attrs el).

End Xml.

(* ================================================================== *)
(** * notebookTypes.ts *)
(* ================================================================== *)

Record Point : Type := mkPoint {
  px : number;   (* x *)
  py : number;   (* y *)
  pp : number;   (* p, pressure *)
  pt : number;   (* t, timestamp *)
}.

Definition Stroke : Type := list Point.

Inductive CellStatus : Type := StatusIdle | StatusConverting | StatusError.
Inductive RunStatus : Type := RunIdle | RunRunning | RunDone | RunError.

Record Cell : Type := mkCell {
  cell_id : string;
  cell_strokes : list Stroke;
  cell_recognizedCode : option string;
  cell_status : option CellStatus;
  cell_error : option string;
  cell_runStatus : option RunStatus;
  cell_stdout : option string;
  cell_stderr : option string;
  cell_height : option number;
}.

Record Notebook : Type := mkNotebook {
  nb_version : nat;
  nb_cells : list Cell;
}.

(* ================================================================== *)
(** * svg.ts *)
(* ================================================================== *)

Module Svg.

Definition nl : string := String "010"%char EmptyString.
Definition dq : string := String Xml.quot EmptyString.

Definition nonempty (s : string) : bool :=
  match s with EmptyString => false | _ => true end.

Definition moveTo (q : Point) : string :=
  "M" +:+ toFixed2 (px q) +:+ " " +:+ toFixed2 (py q).

Definition lineTo (q : Point) : string :=
  "L" +:+ toFixed2 (px q) +:+ " " +:+ toFixed2 (py q).

Definition tenth : number := Dec 1 (-1).

(** Convert a stroke to an SVG path d attribute. *)
Definition strokeToPathD (stroke : Stroke) : string :=
  match stroke with
  | [] => EmptyString
  | [q] =>
      "M" +:+ toFixed2 (px q) +:+ " " +:+ toFixed2 (py q) +:+
      " L" +:+ toFixed2 (add (px q) tenth) +:+ " " +:+ toFixed2 (add (py q) tenth)
  | q0 :: rest => join " " (moveTo q0 :: map lineTo rest)
  end.

Definition path_element (d : string) (strokeWidth : number) : string :=
  "  <path d=" +:+ dq +:+ d +:+ dq +:+
  " stroke=" +:+ dq +:+ "#000" +:+ dq +:+
  " stroke-width=" +:+ dq +:+ toString strokeWidth +:+ dq +:+
  " fill=" +:+ dq +:+ "none" +:+ dq +:+
  " stroke-linecap=" +:+ dq +:+ "round" +:+ dq +:+
  " stroke-linejoin=" +:+ dq +:+ "round" +:+ dq +:+ "/>".

(** Convert strokes to an SVG string; [strokeWidth] defaults to 4. *)
Definition strokesToSvg (strokes : list Stroke) (width height : number)
    (strokeWidth : option number) : string :=
  let sw := default (num 4) strokeWidth in
  let paths :=
    join nl
      (List.filter nonempty
         (map (fun stroke =>
                 let d := strokeToPathD stroke in
                 if nonempty d then path_element d sw else EmptyString)
              strokes)) in
  "<?xml version=" +:+ dq +:+ "1.0" +:+ dq +:+
  " encoding=" +:+ dq +:+ "UTF-8" +:+ dq +:+ "?>" +:+ nl +:+
  "<svg xmlns=" +:+ dq +:+ "http://www.w3.org/2000/svg" +:+ dq +:+
  " viewBox=" +:+ dq +:+ "0 0 " +:+ toString width +:+ " " +:+ toString height +:+ dq +:+
  " width=" +:+ dq +:+ toString width +:+ dq +:+
  " height=" +:+ dq +:+ toString height +:+ dq +:+ ">" +:+ nl +:+
  paths +:+ nl +:+
  "</svg>".

(** The character class [[\d.-]]. *)
Definition is_coord_char (c : ascii) : bool :=
  is_digit c || Ascii.eqb c "." || Ascii.eqb c "-".

(** [[ML]] under the [i] flag. *)
Definition is_command (c : ascii) : bool :=
  Ascii.eqb c "M" || Ascii.eqb c "L" || Ascii.eqb c "m" || Ascii.eqb c "l".

(** One attempt of [/([ML])\s*([\d.-]+)\s+([\d.-]+)/] at the start of
    [s]: the two captured coordinates and the text after the match.
    The two classes are disjoint, so the greedy choice is the only one
    that can succeed. *)
Definition match_here (s : string) : option (string * string * string) :=
  match s with
  | String c s1 =>
      if is_command c then
        let s2 := drop_while is_space s1 in
        let '(xs, s3) := span is_coord_char s2 in
        let '(ws, s4) := span is_space s3 in
        let '(ys, s5) := span is_coord_char s4 in
        if nonempty xs && nonempty ws && nonempty ys
        then Some (xs, ys, s5) else None
      else None
  | EmptyString => None
  end.

(** The [while ((match = regex.exec(d)) !== null)] loop of a global
    regular expression: the leftmost match from the current position,
    then on from its end. *)
Fixpoint exec_all (fuel : nat) (s : string) : list (string * string) :=
  match fuel with
  | O => []
  | S f =>
      match s with
      | EmptyString => []
      | String _ tl =>
          match match_here s with
          | Some (xs, ys, rest) => (xs, ys) :: exec_all f rest
          | None => exec_all f tl
          end
      end
  end.

Definition isNaN (x : number) : bool :=
  match x with NaN => true | _ => false end.

Definition half : number := Dec 5 (-1).

(** Parse an SVG path d attribute to stroke points. *)
Definition parsePathD (d : string) : Stroke :=
  flat_map
    (fun '(xs, ys) =>
       let x := parseFloat xs in
       let y := parseFloat ys in
       if negb (isNaN x) && negb (isNaN y)
       then [mkPoint x y half (num 0)] else [])
    (exec_all (String.length d) d).

Record Decoded : Type := mkDecoded {
  dec_strokes : list Stroke;
  dec_width : number;
  dec_height : number;
}.

(** A non-null, non-empty attribute value. *)
Definition present (v : option string) : option string :=
  match v with
  | Some s => if nonempty s then Some s else None
  | None => None
  end.

(** The dimensions read from the [svg] element: from [viewBox] when the
    attribute is there, otherwise from [width] and [height]. *)
Definition dimensions (svg : option Xml.node) : number * number :=
  let width := num 800 in
  let height := num 320 in
  match svg with
  | Some el =>
      match present (Xml.getAttribute el "viewBox") with
      | Some viewBox =>
          let parts := split_ws viewBox in
          if (4 <=? List.length parts)%nat then
            (or_else (parseFloat (nth 2 parts EmptyString)) width,
             or_else (parseFloat (nth 3 parts EmptyString)) height)
          else (width, height)
      | None =>
          let w := present (Xml.getAttribute el "width") in
          let h := present (Xml.getAttribute el "height") in
          (match w with Some w' => or_else (parseFloat w') width | None => width end,
           match h with Some h' => or_else (parseFloat h') height | None => height end)
      end
  | None => (width, height)
  end.

(** The strokes of the [path] elements, in document order; a path
    without points is left out. *)
Definition path_strokes (paths : list Xml.node) : list Stroke :=
  flat_map
    (fun path =>
       match present (Xml.getAttribute path "d") with
       | Some d =>
           let stroke := parsePathD d in
           match stroke with [] => [] | _ => [stroke] end
       | None => []
       end)
    paths.

(** What [svgToStrokes] reads off the document that the parser
    returned (lines 62-98). *)
Definition decode (doc : Xml.document) : Decoded :=
  let svg := Xml.querySelector doc "svg" in
  let '(width, height) := dimensions svg in
  let paths := Xml.querySelectorAll doc "path" in
  mkDecoded (path_strokes paths) width height.

(** Parse an SVG string to strokes. *)
Definition svgToStrokes (svgString : string) : Decoded :=
  decode (Xml.parseFromString svgString).

(** Project manifest type. *)
Record ManifestCell : Type := mkManifestCell {
  mc_file : string;
  mc_height : option number;
  mc_recognizedCode : option string;
}.

(** [cells] is [None] for a parsed value that has no (truthy) [cells]
    member; [createManifest] always fills it. *)
Record ProjectManifest : Type := mkManifest {
  pm_version : nat;
  pm_cells : option (list ManifestCell);
  pm_strokeWidth : option number;
}.

(** [`cell-${String(i + 1).padStart(3, "0")}.svg`] *)
Definition cell_filename (i : nat) : string :=
  "cell-" +:+ padStart0 3 (String_of_N (N.of_nat (i + 1))) +:+ ".svg".

(** Create manifest from cells. *)
Definition createManifest (cells : list Cell) (strokeWidth : number) : ProjectManifest :=
  mkManifest 1
    (Some (imap (fun idx cell =>
                   mkManifestCell (cell_filename idx) (cell_height cell)
                                  (cell_recognizedCode cell))
                cells))
    (Some strokeWidth).

End Svg.

(* ================================================================== *)
(** * project.ts *)
(* ================================================================== *)

Module Project.

Import Svg.

(** ** The host *)

(** What the code takes from its surroundings: the JSON codec at the
    manifest type, the collation of [localeCompare], and the stream of
    tokens handed out by [id()] (module [./id]). *)
Class Host : Type := {
  JSON_parse : string -> result ProjectManifest;
  JSON_stringify : ProjectManifest -> string;
  localeCompare : string -> string -> Z;
  id : nat -> string;
}.

(** The content of a stored document: text, or a read that fails. *)
Inductive Blob : Type :=
  | Readable (text : string)
  | Unreadable (e : Thrown).

Definition read_text (b : Blob) : result string :=
  match b with
  | Readable text => inr text
  | Unreadable e => inl e
  end.

Fixpoint lookup_name {A : Type} (name : string) (l : list (string * A)) : option A :=
  match l with
  | [] => None
  | (k, v) :: l' => if String.eqb k name then Some v else lookup_name name l'
  end.

(** [arr.sort(cmp)]: a stable sort. *)
Fixpoint insert_by {A : Type} (cmp : A -> A -> Z) (x : A) (l : list A) : list A :=
  match l with
  | [] => [x]
  | y :: l' => if (cmp x y <=? 0)%Z then x :: l else y :: insert_by cmp x l'
  end.

Fixpoint sort_by {A : Type} (cmp : A -> A -> Z) (l : list A) : list A :=
  match l with
  | [] => []
  | x :: l' => insert_by cmp x (sort_by cmp l')
  end.

(** The comparison of [arr.sort()] on strings: by code units. *)
Definition code_unit_compare (a b : string) : Z :=
  match String.compare a b with
  | Lt => (-1)%Z
  | Eq => 0%Z
  | Gt => 1%Z
  end.

(** ** Results *)

Record SaveResult : Type := mkSaveResult {
  sr_success : bool;
  sr_error : option string;
}.

Record LoadResult : Type := mkLoadResult {
  lr_success : bool;
  lr_notebook : option Notebook;
  lr_strokeWidth : option number;
  lr_error : option string;
}.

Definition load_failure (msg : string) : LoadResult :=
  mkLoadResult false None None (Some msg).

Definition load_success (cells : list Cell) (m : option ProjectManifest) : LoadResult :=
  mkLoadResult true (Some (mkNotebook 1 cells))
               (m ≫= pm_strokeWidth) None.

Definition save_failure (msg : string) : SaveResult := mkSaveResult false (Some msg).
Definition save_success : SaveResult := mkSaveResult true None.

(** The live adapter's [catch]: an [AbortError] is a cancellation. *)
Definition catch_picker (fallback : string) (e : Thrown) : string :=
  match e with
  | ErrorObj name message =>
      if String.eqb name "AbortError" then "Cancelled" else message
  | NonError _ => fallback
  end.

(** The archive adapter's [catch]. *)
Definition catch_plain (fallback : string) (e : Thrown) : string :=
  match e with
  | ErrorObj _ message => message
  | NonError _ => fallback
  end.

(** The cell pushed for a manifest entry whose document has been read. *)
Definition manifest_cell `{Host} (n : nat) (cellInfo : ManifestCell) (svgText : string) : Cell :=
  let d := svgToStrokes svgText in
  mkCell (id n) (dec_strokes d) (mc_recognizedCode cellInfo)
         None None None None None
         (Some (default (dec_height d) (mc_height cellInfo))).

(** The cell pushed for a scanned document. *)
Definition scanned_cell `{Host} (n : nat) (svgText : string) : Cell :=
  let d := svgToStrokes svgText in
  mkCell (id n) (dec_strokes d) None None None None None None
         (Some (dec_height d)).

(** The [manifest && manifest.cells] test. *)
Definition manifest_cells (manifest : option ProjectManifest) : option (list ManifestCell) :=
  manifest ≫= pm_cells.

(** ** The live-handle adapter *)

Inductive DirEntry : Type :=
  | FileEntry (content : Blob)
  | SubDirectory.

(** The entries of the picked directory, in the order [entries()]
    yields them. *)
Definition Directory : Type := list (string * DirEntry).

(** [dirHandle.getFileHandle(name)] *)
Definition getFileHandle (d : Directory) (name : string) : result Blob :=
  match lookup_name name d with
  | Some (FileEntry b) => inr b
  | Some SubDirectory => inl (ErrorObj "TypeMismatchError" "The path supplied exists, but was not an entry of requested type.")
  | None => inl (ErrorObj "NotFoundError" "A requested file or directory could not be found.")
  end.

(** Lines 75-82: any failure leaves [manifest] null. *)
Definition read_manifest_live `{Host} (d : Directory) : option ProjectManifest :=
  match (await manifestHandle := getFileHandle d "manifest.json" in
         await manifestText := read_text manifestHandle in
         JSON_parse manifestText) with
  | inr m => Some m
  | inl _ => None
  end.

(** Lines 88-105: cells in manifest order; a document that cannot be
    fetched is skipped. *)
Fixpoint load_cells_live `{Host} (d : Directory) (infos : list ManifestCell) (n : nat) : list Cell :=
  match infos with
  | [] => []
  | cellInfo :: rest =>
      match (await fileHandle := getFileHandle d (mc_file cellInfo) in
             read_text fileHandle) with
      | inr svgText => manifest_cell n cellInfo svgText :: load_cells_live d rest (S n)
      | inl _ => load_cells_live d rest n
      end
  end.

(** Lines 110-114: the files directly under the root whose name ends
    in [.svg], each with its handle. *)
Definition svg_entry (entry : string * DirEntry) : option (string * Blob) :=
  match snd entry with
  | FileEntry b => if endsWith (fst entry) ".svg" then Some (fst entry, b) else None
  | SubDirectory => None
  end.

Definition compare_names `{Host} (a b : string * Blob) : Z :=
  localeCompare (fst a) (fst b).

(** Lines 119-129. *)
Fixpoint scan_cells_live `{Host} (svgFiles : list (string * Blob)) (n : nat) : result (list Cell) :=
  match svgFiles with
  | [] => inr []
  | (_, handle) :: rest =>
      await svgText := read_text handle in
      await cells := scan_cells_live rest (S n) in
      inr (scanned_cell n svgText :: cells)
  end.

Definition load_directory `{Host} (d : Directory) (n : nat) : result LoadResult :=
  let manifest := read_manifest_live d in
  await cells :=
    match manifest_cells manifest with
    | Some infos => inr (load_cells_live d infos n)
    | None =>
        let svgFiles := omap svg_entry d in
        scan_cells_live (sort_by compare_names svgFiles) n
    end in
  match cells with
  | [] => inr (load_failure "No cells found in project")
  | _ => inr (load_success cells manifest)
  end.

(** Load project from a directory using the File System Access API.
    [picked] is what [showDirectoryPicker] gives, [n] the number of
    tokens [id()] has handed out so far. *)
Definition loadProject `{Host} (hasFileSystemAccess : bool)
    (picked : result Directory) (n : nat) : LoadResult :=
  if negb hasFileSystemAccess
  then load_failure "File System Access API not supported"
  else
    match (await dirHandle := picked in load_directory dirHandle n) with
    | inr r => r
    | inl e => load_failure (catch_picker "Load failed" e)
    end.

(** ** Writing through a directory handle *)

Inductive FsOp : Type :=
  | OpGetFileHandle (name : string)      (* getFileHandle(name, {create: true}) *)
  | OpCreateWritable (name : string)
  | OpWrite (name : string) (content : string)
  | OpClose (name : string).

Definition op_name (o : FsOp) : string :=
  match o with
  | OpGetFileHandle n | OpCreateWritable n | OpWrite n _ | OpClose n => n
  end.

(** A computation that appends to the log of completed operations and
    may throw; the log survives a throw. *)
Definition Writer (A : Type) : Type := list FsOp -> list FsOp * result A.

Definition wret {A : Type} (a : A) : Writer A := fun log => (log, inr a).

Definition wbind {A B : Type} (m : Writer A) (k : A -> Writer B) : Writer B :=
  fun log =>
    match m log with
    | (log', inr a) => k a log'
    | (log', inl e) => (log', inl e)
    end.

Notation "m1 ';;;' m2" := (wbind m1 (fun _ => m2))
  (at level 100, m2 at level 200, right associativity).

(** One awaited operation: it throws when the host says so, and is
    logged otherwise. *)
Definition perform (fault : FsOp -> option Thrown) (o : FsOp) : Writer unit :=
  fun log =>
    match fault o with
    | Some e => (log, inl e)
    | None => ((log ++ [o])%list, inr tt)
    end.

(** Lines 34-37 and 42-45. *)
Definition write_file (fault : FsOp -> option Thrown) (name content : string) : Writer unit :=
  perform fault (OpGetFileHandle name) ;;;
  perform fault (OpCreateWritable name) ;;;
  perform fault (OpWrite name content) ;;;
  perform fault (OpClose name).

Definition cell_document (cell : Cell) (strokeWidth canvasWidth : number) : string :=
  strokesToSvg (cell_strokes cell) canvasWidth
               (default (num 320) (cell_height cell)) (Some strokeWidth).

(** Lines 29-38, from index [i] on. *)
Fixpoint write_cells (fault : FsOp -> option Thrown) (cells : list Cell) (i : nat)
    (strokeWidth canvasWidth : number) : Writer unit :=
  match cells with
  | [] => wret tt
  | cell :: rest =>
      write_file fault (cell_filename i) (cell_document cell strokeWidth canvasWidth) ;;;
      write_cells fault rest (S i) strokeWidth canvasWidth
  end.

Definition save_directory `{Host} (fault : FsOp -> option Thrown) (cells : list Cell)
    (strokeWidth canvasWidth : number) : Writer unit :=
  write_cells fault cells 0 strokeWidth canvasWidth ;;;
  write_file fault "manifest.json" (JSON_stringify (createManifest cells strokeWidth)).

(** Save project to a directory using the File System Access API:
    the operations completed on the directory, and the outcome. *)
Definition saveProject `{Host} (hasFileSystemAccess : bool) (picked : result unit)
    (fault : FsOp -> option Thrown)
    (cells : list Cell) (strokeWidth canvasWidth : number) : list FsOp * SaveResult :=
  if negb hasFileSystemAccess
  then ([], save_failure "File System Access API not supported")
  else
    match picked with
    | inl e => ([], save_failure (catch_picker "Save failed" e))
    | inr _ =>
        match save_directory fault cells strokeWidth canvasWidth [] with
        | (log, inr _) => (log, save_success)
        | (log, inl e) => (log, save_failure (catch_picker "Save failed" e))
        end
    end.

(** ** The archive adapter *)

Inductive ZipEntry : Type :=
  | ZipFile (content : Blob)
  | ZipFolder.

(** [zip.files], in insertion order. *)
Definition Archive : Type := list (string * ZipEntry).

(** [zip.file(name)]: the member, or null when there is none or it is a
    folder. *)
Definition zip_file (zip : Archive) (name : string) : option Blob :=
  match lookup_name name zip with
  | Some (ZipFile b) => Some b
  | _ => None
  end.

(** [zip.file(name, content)] *)
Fixpoint zip_add (zip : list (string * string)) (name content : string) : list (string * string) :=
  match zip with
  | [] => [(name, content)]
  | (k, v) :: rest =>
      if String.eqb k name then (k, content) :: rest
      else (k, v) :: zip_add rest name content
  end.

Fixpoint add_cells (zip : list (string * string)) (cells : list Cell) (i : nat)
    (strokeWidth canvasWidth : number) : list (string * string) :=
  match cells with
  | [] => zip
  | cell :: rest =>
      add_cells (zip_add zip (cell_filename i) (cell_document cell strokeWidth canvasWidth))
                rest (S i) strokeWidth canvasWidth
  end.

(** The members of the archive built by lines 160-172. *)
Definition build_archive `{Host} (cells : list Cell) (strokeWidth canvasWidth : number)
    : list (string * string) :=
  zip_add (add_cells [] cells 0 strokeWidth canvasWidth)
          "manifest.json" (JSON_stringify (createManifest cells strokeWidth)).

(** Export project as a downloadable ZIP.  [jszip] is the outcome of the
    dynamic import, [download] that of generating and handing over the
    blob; the archive is returned when it was handed over. *)
Definition exportProjectAsZip `{Host} (jszip download : result unit)
    (cells : list Cell) (strokeWidth canvasWidth : number)
    : option (list (string * string)) * SaveResult :=
  match (await _ := jszip in
         let zip := build_archive cells strokeWidth canvasWidth in
         await _ := download in
         inr zip) with
  | inr zip => (Some zip, save_success)
  | inl e => (None, save_failure (catch_plain "Export failed" e))
  end.

(** Lines 205-210: a missing manifest leaves [manifest] null; a failing
    read or parse throws. *)
Definition read_manifest_zip `{Host} (zip : Archive) : result (option ProjectManifest) :=
  match zip_file zip "manifest.json" with
  | Some manifestFile =>
      await manifestText := read_text manifestFile in
      await m := JSON_parse manifestText in
      inr (Some m)
  | None => inr None
  end.

(** Lines 215-228: cells in manifest order; a missing member is skipped. *)
Fixpoint load_cells_zip `{Host} (zip : Archive) (infos : list ManifestCell) (n : nat)
    : result (list Cell) :=
  match infos with
  | [] => inr []
  | cellInfo :: rest =>
      match zip_file zip (mc_file cellInfo) with
      | Some svgFile =>
          await svgText := read_text svgFile in
          await cells := load_cells_zip zip rest (S n) in
          inr (manifest_cell n cellInfo svgText :: cells)
      | None => load_cells_zip zip rest n
      end
  end.

(** Lines 235-247. *)
Fixpoint scan_cells_zip `{Host} (zip : Archive) (svgFiles : list string) (n : nat)
    : result (list Cell) :=
  match svgFiles with
  | [] => inr []
  | name :: rest =>
      match zip_file zip name with
      | Some svgFile =>
          await svgText := read_text svgFile in
          await cells := scan_cells_zip zip rest (S n) in
          inr (scanned_cell n svgText :: cells)
      | None => scan_cells_zip zip rest n
      end
  end.

Definition load_archive `{Host} (zip : Archive) (n : nat) : result LoadResult :=
  await manifest := read_manifest_zip zip in
  await cells :=
    match manifest_cells manifest with
    | Some infos => load_cells_zip zip infos n
    | None =>
        let svgFiles :=
          sort_by code_unit_compare
                  (List.filter (fun name => endsWith name ".svg") (map fst zip)) in
        scan_cells_zip zip svgFiles n
    end in
  match cells with
  | [] => inr (load_failure "No cells found in ZIP")
  | _ => inr (load_success cells manifest)
  end.

(** Import project from a ZIP file.  [jszip] is the outcome of the
    dynamic import and [loaded] that of [JSZip.loadAsync(file)]. *)
Definition importProjectFromZip `{Host} (jszip : result unit)
    (loaded : result Archive) (n : nat) : LoadResult :=
  match (await _ := jszip in
         await zip := loaded in
         load_archive zip n) with
  | inr r => r
  | inl e => load_failure (catch_plain "Import failed" e)
  end.

End Project.

(* ================================================================== *)
(** * py.ts: the execution bridge *)
(* ================================================================== *)

Module Bridge.

Record Output : Type := mkOutput {
  stdout : string;
  stderr : string;
}.

(** The messages on the wire. *)
Record Request : Type := mkRequest {
  req_id : string;
  req_code : string;
}.

Record Response : Type := mkResponse {
  res_id : string;
  res_stdout : string;
  res_stderr : string;
}.

Inductive PromiseState : Type :=
  | Pending
  | Fulfilled (v : Output)
  | Rejected (reason : Thrown).

(** The module state.  A promise is named by its position in
    [promises], the order of the [runPython] calls; [pending] maps a
    token to the promise whose [resolve] function it stores; [calls]
    logs every invocation of a [resolve] function and [posted] every
    message handed to the worker, oldest first. *)
Record State : Type := mkState {
  worker : bool;
  pending : gmap string nat;
  reqId : N;
  promises : list PromiseState;
  calls : list (nat * Output);
  posted : list Request;
}.

Definition initial : State := mkState false ∅ 0 [] [] [].

(** [++reqId] on a double: exact up to [2^53], where it stays. *)
Definition incr (n : N) : N := if (n <? 2 ^ 53)%N then (n + 1)%N else n.

(** A promise's [resolve] function: it settles a pending promise and
    does nothing to a settled one. *)
Definition settle (k : nat) (s : PromiseState) (ps : list PromiseState) : list PromiseState :=
  match ps !! k with
  | Some Pending => <[k := s]> ps
  | _ => ps
  end.

Definition call_resolve (k : nat) (v : Output) (st : State) : State :=
  mkState (worker st) (pending st) (reqId st)
          (settle k (Fulfilled v) (promises st))
          (calls st ++ [(k, v)])%list (posted st).

(** [worker.onmessage] *)
Definition onmessage (data : Response) (st : State) : State :=
  match pending st !! res_id data with
  | Some p =>
      call_resolve p (mkOutput (res_stdout data) (res_stderr data))
        (mkState (worker st) (delete (res_id data) (pending st)) (reqId st)
                 (promises st) (calls st) (posted st))
  | None => st
  end.

(** [getWorker()]; [new_Worker] says whether the [Worker] constructor
    throws. *)
Definition getWorker (new_Worker : option Thrown) (st : State) : result State :=
  if worker st then inr st
  else match new_Worker with
       | Some e => inl e
       | None => inr (mkState true (pending st) (reqId st) (promises st) (calls st) (posted st))
       end.

(** [runPython(code)]: the new state and the promise returned.  An
    executor that throws rejects its promise. *)
Definition runPython (new_Worker : option Thrown) (code : string) (st : State) : State * nat :=
  let p := List.length (promises st) in
  let n := incr (reqId st) in
  let id := String_of_N n in
  let st1 := mkState (worker st) (<[id := p]> (pending st)) n
                     (promises st ++ [Pending])%list (calls st) (posted st) in
  match getWorker new_Worker st1 with
  | inr st2 =>
      (mkState (worker st2) (pending st2) (reqId st2) (promises st2) (calls st2)
               (posted st2 ++ [mkRequest id code])%list, p)
  | inl e =>
      (mkState (worker st1) (pending st1) (reqId st1)
               (settle p (Rejected e) (promises st1)) (calls st1) (posted st1), p)
  end.

(** What can happen to the module: a call of [runPython], or a message
    from the worker (whose handler exists once the worker does). *)
Inductive Event : Type :=
  | Submit (new_Worker : option Thrown) (code : string)
  | Deliver (data : Response).

Definition step (st : State) (ev : Event) : State :=
  match ev with
  | Submit w code => fst (runPython w code st)
  | Deliver data => if worker st then onmessage data st else st
  end.

Definition run (evs : list Event) (st : State) : State := fold_left step evs st.

(** The token of the promise with index [k]. *)
Definition token_of (k : nat) : string :=
  String_of_N (N.min (N.of_nat k + 1) (2 ^ 53)).

End Bridge.

(* ================================================================== *)
(** * A host to run the adapters on *)
(* ================================================================== *)

(** [JSON.stringify(manifest, null, 2)], and a host whose [JSON.parse]
    reads back the manifests of a given table and rejects every other
    text. *)

Module Json.

Import Svg Project.

Definition bs : string := String "092"%char EmptyString.

Definition hex_digit (n : N) : ascii :=
  if (n <? 10)%N then digit_char n else ascii_of_N (87 + n).

Definition escape_char (c : ascii) : string :=
  if Ascii.eqb c Xml.quot then bs +:+ dq
  else if Ascii.eqb c "092" then bs +:+ bs
  else if Ascii.eqb c "008" then bs +:+ "b"
  else if Ascii.eqb c "009" then bs +:+ "t"
  else if Ascii.eqb c "010" then bs +:+ "n"
  else if Ascii.eqb c "012" then bs +:+ "f"
  else if Ascii.eqb c "013" then bs +:+ "r"
  else if (N_of_ascii c <? 32)%N then
    bs +:+ "u00" +:+ String (hex_digit (N_of_ascii c / 16)) (String (hex_digit (N_of_ascii c mod 16)) EmptyString)
  else String c EmptyString.

Fixpoint escape (s : string) : string :=
  match s with
  | EmptyString => EmptyString
  | String c s' => escape_char c +:+ escape s'
  end.

(** [JSON.stringify(s)] for a string *)
Definition quote (s : string) : string := dq +:+ escape s +:+ dq.

Definition number_text (x : number) : string :=
  if is_finite x then toString x else "null".

Definition member (indent key value : string) : string :=
  indent +:+ quote key +:+ ": " +:+ value.

Definition cell_text (c : ManifestCell) : string :=
  let members :=
    ([member "      " "file" (quote (mc_file c))] ++
     match mc_height c with
     | Some h => [member "      " "height" (number_text h)]
     | None => []
     end ++
     match mc_recognizedCode c with
     | Some code => [member "      " "recognizedCode" (quote code)]
     | None => []
     end)%list in
  "    {" +:+ nl +:+ join ("," +:+ nl) members +:+ nl +:+ "    }".

Definition cells_text (cs : list ManifestCell) : string :=
  match cs with
  | [] => "[]"
  | _ => "[" +:+ nl +:+ join ("," +:+ nl) (map cell_text cs) +:+ nl +:+ "  ]"
  end.

Definition stringify (m : ProjectManifest) : string :=
  let members :=
    ([member "  " "version" (String_of_N (N.of_nat (pm_version m)))] ++
     match pm_strokeWidth m with
     | Some w => [member "  " "strokeWidth" (number_text w)]
     | None => []
     end ++
     match pm_cells m with
     | Some cs => [member "  " "cells" (cells_text cs)]
     | None => []
     end)%list in
  "{" +:+ nl +:+ join ("," +:+ nl) members +:+ nl +:+ "}".

Definition parse_known (known : list ProjectManifest) (text : string) : result ProjectManifest :=
  match List.find (fun m => String.eqb (stringify m) text) known with
  | Some m => inr m
  | None => inl (ErrorObj "SyntaxError" "Unexpected token in JSON")
  end.

Definition host (known : list ProjectManifest) : Host :=
  {| JSON_parse := parse_known known;
     JSON_stringify := stringify;
     localeCompare := code_unit_compare;
     id := fun n => "id-" +:+ String_of_N (N.of_nat n) |}.

End Json.

(* ================================================================== *)
(** * py.worker.ts *)
(* ================================================================== *)

Module Worker.

Import Bridge.

(** Pyodide as the worker uses it.  The Python interpreter has a state
    that lasts from one message to the next.  Each call is taken to
    return: with a value or by throwing, and with the state in which it
    leaves the interpreter.  The value of [runPython] is given as the
    text that [run] takes it for. *)
Record Pyodide : Type := mkPyodide {
  interp : Type;
  importScripts : option Thrown;        (* what [importScripts(url)] throws *)
  loadPyodide : result interp;          (* [await loadPyodide()] *)
  loadPackage : interp -> option Thrown * interp;
                                        (* [await pyodide.loadPackage([...])] *)
  runPython : string -> interp -> result string * interp;
  runPythonAsync : string -> interp -> option Thrown * interp;
}.

Definition nl : string := String "010"%char EmptyString.

(** The snippets that the worker runs. *)
Definition imports_src : string :=
  nl +:+ "import sys" +:+ nl +:+ "from io import StringIO" +:+ nl +:+
  "import numpy as np" +:+ nl +:+ "import micropip" +:+ nl.

Definition redirect_src : string :=
  nl +:+ "_stdout = StringIO()" +:+ nl +:+ "_stderr = StringIO()" +:+ nl +:+
  "sys.stdout = _stdout" +:+ nl +:+ "sys.stderr = _stderr" +:+ nl.

Definition restore_src : string :=
  nl +:+ "sys.stdout = sys.__stdout__" +:+ nl +:+ "sys.stderr = sys.__stderr__" +:+ nl.

Definition stdout_src : string := "_stdout.getvalue()".
Definition stderr_src : string := "_stderr.getvalue()".

(** [`sys.stderr.write(${JSON.stringify(text)})`] *)
Definition write_src (text : string) : string :=
  "sys.stderr.write(" +:+ Json.quote text +:+ ")".

(** [init()]: the variable [pyodide] afterwards ([None] for null), and
    the interpreter, or what was thrown.  The variable is assigned
    before the packages are loaded and the imports are run: when one of
    these throws, the next call of [init] finds [pyodide] set and
    returns at once. *)
Definition init (py : Pyodide) (pyodide : option (interp py))
    : option (interp py) * result (interp py) :=
  match pyodide with
  | Some i => (Some i, inr i)
  | None =>
      match importScripts py with
      | Some e => (None, inl e)
      | None =>
          match loadPyodide py with
          | inl e => (None, inl e)
          | inr i0 =>
              match loadPackage py i0 with
              | (Some e, i1) => (Some i1, inl e)
              | (None, i1) =>
                  match runPython py imports_src i1 with
                  | (inl e, i2) => (Some i2, inl e)
                  | (inr _, i2) => (Some i2, inr i2)
                  end
              end
          end
      end
  end.

(** Calls of the interpreter, one after the other until one throws. *)
Definition Py (py : Pyodide) (A : Type) : Type := interp py -> result A * interp py.

Definition pret {py : Pyodide} {A : Type} (a : A) : Py py A := fun i => (inr a, i).

Definition pbind {py : Pyodide} {A B : Type} (m : Py py A) (k : A -> Py py B) : Py py B :=
  fun i =>
    match m i with
    | (inr a, i') => k a i'
    | (inl e, i') => (inl e, i')
    end.

Notation "'call' x ':=' m 'in' k" := (pbind m (fun x => k))
  (at level 10, x pattern, m at level 100, k at level 200).

(** Lines 26-30: the code is run, and what it raises is written to
    [sys.stderr]. *)
Definition guarded (py : Pyodide) (code : string) : Py py string :=
  fun i =>
    match runPythonAsync py code i with
    | (Some e, i') => runPython py (write_src (String_of_thrown e)) i'
    | (None, i') => (inr EmptyString, i')
    end.

(** [run(code)] behind [await init()]. *)
Definition body (py : Pyodide) (code : string) : Py py Output :=
  call _ := runPython py redirect_src in
  call _ := guarded py code in
  call out := runPython py stdout_src in
  call err := runPython py stderr_src in
  call _ := runPython py restore_src in
  pret (mkOutput out err).

(** [run(code)]: the variable [pyodide] afterwards, and the result. *)
Definition run (py : Pyodide) (pyodide : option (interp py)) (code : string)
    : option (interp py) * result Output :=
  match init py pyodide with
  | (pyodide', inl e) => (pyodide', inl e)
  | (_, inr i) => let '(r, i') := body py code i in (Some i', r)
  end.

(** [onmessage]: the variable [pyodide] afterwards, and the message
    posted back. *)
Definition onmessage (py : Pyodide) (pyodide : option (interp py)) (data : Request)
    : option (interp py) * Response :=
  match run py pyodide (req_code data) with
  | (pyodide', inr r) => (pyodide', mkResponse (req_id data) (stdout r) (stderr r))
  | (pyodide', inl err) =>
      (pyodide', mkResponse (req_id data) EmptyString (String_of_thrown err))
  end.

End Worker.

(* ================================================================== *)
(** * InkCanvas.tsx: the pointer handlers *)
(* ================================================================== *)

(** The handlers of the canvas, as functions of the props of the render
    they belong to, of the refs and of the event: they give the refs
    afterwards and the argument of [onChange], when they call it.  What
    they paint ([redraw]) and the pointer capture are left out: neither
    is read back. *)

Module Ink.

(** ** Arithmetic on numbers *)

(** The handlers subtract, multiply and add doubles, and each of these
    operations rounds its result to a double.  The rounding is not
    modelled: the component is defined over any three operations on
    numbers, and what is proved of it for every [Arith] holds of the
    operations on doubles. *)
Class Arith : Type := mkArith {
  sub : number -> number -> number;   (* [x - y] *)
  mul : number -> number -> number;   (* [x * y] *)
  add : number -> number -> number;   (* [x + y] *)
}.

(** The operations without rounding.  They are those on doubles
    wherever no result needs rounding, as on the small integers of the
    examples. *)
Definition neg (x : number) : number :=
  match x with
  | NaN => NaN
  | Infinity s => Infinity (negb s)
  | Dec m e => Dec (- m) e
  end.

Definition exact_sub (x y : number) : number := Js.add x (neg y).

Definition exact_mul (x y : number) : number :=
  match x, y with
  | NaN, _ | _, NaN => NaN
  | Infinity a, Infinity b => Infinity (xorb a b)
  | Infinity a, Dec m _ | Dec m _, Infinity a =>
      if (m =? 0)%Z then NaN else Infinity (xorb a (m <? 0)%Z)
  | Dec m1 e1, Dec m2 e2 => Dec (m1 * m2) (e1 + e2)
  end.

#[export] Instance exact_arith : Arith :=
  {| sub := exact_sub; mul := exact_mul; add := Js.add |}.

(** [x < y]: the comparison of two doubles does not round. *)
Definition lt (x y : number) : bool :=
  match x, y with
  | NaN, _ | _, NaN => false
  | Infinity a, Infinity b => a && negb b
  | Infinity a, Dec _ _ => a
  | Dec _ _, Infinity b => negb b
  | Dec m1 e1, Dec m2 e2 =>
      let e := Z.min e1 e2 in
      (m1 * 10 ^ (e1 - e) <? m2 * 10 ^ (e2 - e))%Z
  end.

(** ** The component *)

Inductive Tool : Type := Pen | Eraser.

(** The fields of a pointer event that the handlers read. *)
Record PointerEvent : Type := mkPointerEvent {
  button : Z;
  pointerType : string;
  pointerId : Z;
  clientX : number;
  clientY : number;
  pressure : option number;   (* [None]: not a number *)
}.

(** What the handlers read from the page at an event: the place of the
    canvas and the clock. *)
Record Env : Type := mkEnv {
  rect_left : number;
  rect_top : number;
  now : number;
}.

Record Props : Type := mkProps {
  strokes : list Stroke;
  tool : Tool;
}.

Record Refs : Type := mkRefs {
  drawing : bool;                  (* drawingRef *)
  activeStroke : Stroke;           (* activeStrokeRef *)
  activePointerId : option Z;      (* activePointerIdRef, [None] for null *)
}.

Definition idle : Refs := mkRefs false [] None.

Definition isPointNearStroke `{Arith} (x y : number) (stroke : Stroke) (threshold : number) : bool :=
  existsb (fun q =>
             let dx := sub (px q) x in
             let dy := sub (py q) y in
             lt (add (mul dx dx) (mul dy dy)) (mul threshold threshold))
          stroke.

Definition eventPoint `{Arith} (env : Env) (e : PointerEvent) : Point :=
  let x := sub (clientX e) (rect_left env) in
  let y := sub (clientY e) (rect_top env) in
  let p := match pressure e with
           | Some v => if lt (num 0) v then v else Svg.half
           | None => Svg.half
           end in
  mkPoint x y p (now env).

Definition acceptPointer (e : PointerEvent) : bool :=
  String.eqb (pointerType e) "pen" || String.eqb (pointerType e) "mouse".

(** [handleErase(x, y)]: the argument of [onChange], if it is called. *)
Definition handleErase `{Arith} (props : Props) (x y : number) : option (list Stroke) :=
  let threshold := num 20 in
  let remaining :=
    List.filter (fun s => negb (isPointNearStroke x y s threshold)) (strokes props) in
  if negb (List.length remaining =? List.length (strokes props))%nat
  then Some remaining else None.

Definition is_active (refs : Refs) (e : PointerEvent) : bool :=
  match activePointerId refs with
  | Some k => (pointerId e =? k)%Z
  | None => false
  end.

Definition onPointerDown `{Arith} (props : Props) (env : Env) (refs : Refs) (e : PointerEvent)
    : Refs * option (list Stroke) :=
  if negb (button e =? 0)%Z || negb (acceptPointer e) then (refs, None)
  else if drawing refs then (refs, None)
  else
    match tool props with
    | Eraser =>
        let q := eventPoint env e in
        (mkRefs true (activeStroke refs) (Some (pointerId e)),
         handleErase props (px q) (py q))
    | Pen => (mkRefs true [eventPoint env e] (Some (pointerId e)), None)
    end.

Definition onPointerMove `{Arith} (props : Props) (env : Env) (refs : Refs) (e : PointerEvent)
    : Refs * option (list Stroke) :=
  if negb (drawing refs) || negb (is_active refs e) then (refs, None)
  else
    match tool props with
    | Eraser =>
        let q := eventPoint env e in
        (refs, handleErase props (px q) (py q))
    | Pen =>
        (mkRefs (drawing refs) (activeStroke refs ++ [eventPoint env e])%list
                (activePointerId refs), None)
    end.

Definition onPointerUp (props : Props) (refs : Refs) (e : PointerEvent)
    : Refs * option (list Stroke) :=
  if negb (drawing refs) || negb (is_active refs e) then (refs, None)
  else
    match tool props with
    | Pen =>
        let stroke := activeStroke refs in
        (mkRefs false [] None,
         if (1 <=? List.length stroke)%nat
         then Some (strokes props ++ [stroke])%list else None)
    | Eraser => (mkRefs false (activeStroke refs) None, None)
    end.

Definition onPointerCancel (refs : Refs) (e : PointerEvent) : Refs * option (list Stroke) :=
  if negb (is_active refs e) then (refs, None)
  else (mkRefs false [] None, None).

Inductive Kind : Type := Down | Move | Up | Cancel.

(** One event at the canvas, with the props of the render it meets. *)
Record Input : Type := mkInput {
  kind : Kind;
  props : Props;
  env : Env;
  event : PointerEvent;
}.

Definition handle `{Arith} (refs : Refs) (i : Input) : Refs * option (list Stroke) :=
  match kind i with
  | Down => onPointerDown (props i) (env i) refs (event i)
  | Move => onPointerMove (props i) (env i) refs (event i)
  | Up => onPointerUp (props i) refs (event i)
  | Cancel => onPointerCancel refs (event i)
  end.

(** The refs after a sequence of events, and the calls of [onChange]
    made on the way. *)
Fixpoint handle_all `{Arith} (refs : Refs) (inputs : list Input) : Refs * list (list Stroke) :=
  match inputs with
  | [] => (refs, [])
  | i :: rest =>
      let '(refs1, change) := handle refs i in
      let '(refs2, changes) := handle_all refs1 rest in
      (refs2, (match change with Some c => [c] | None => [] end ++ changes)%list)
  end.

End Ink.


(* ================================================================== *)
(** * groq.ts: the transcription request *)
(* ================================================================== *)

(** Strings are taken here as sequences of code units below 256. *)

Module Groq.

(** White space and line terminators below 256: TAB, LF, VT, FF, CR,
    SPACE and NO-BREAK SPACE. *)
Definition is_white (c : ascii) : bool :=
  is_space c || Ascii.eqb c "160".

(** [\w] *)
Definition is_word (c : ascii) : bool :=
  ascii_in_range "a" "z" c || ascii_in_range "A" "Z" c || is_digit c || Ascii.eqb c "_".

Fixpoint trim_end (s : string) : string :=
  match s with
  | EmptyString => EmptyString
  | String c s' =>
      match trim_end s' with
      | EmptyString => if is_white c then EmptyString else String c EmptyString
      | r => String c r
      end
  end.

(** [s.trim()] *)
Definition trim (s : string) : string := trim_end (drop_while is_white s).

(** [p] is a prefix of [s]. *)
Fixpoint starts (p s : string) : bool :=
  match p, s with
  | EmptyString, _ => true
  | String a p', String b s' => Ascii.eqb a b && starts p' s'
  | String _ _, EmptyString => false
  end.

Fixpoint skip (n : nat) (s : string) : string :=
  match n, s with
  | S n', String _ s' => skip n' s'
  | _, _ => s
  end.

(** The leftmost occurrence of [sep] (not empty) in [s]: the text before
    it and the text after it. *)
Fixpoint find_sep (sep s : string) : option (string * string) :=
  match s with
  | EmptyString => None
  | String c s' =>
      if starts sep s then Some (EmptyString, skip (String.length sep) s)
      else match find_sep sep s' with
           | Some (a, b) => Some (String c a, b)
           | None => None
           end
  end.

(** [s.includes(sep)] *)
Definition includes (sep s : string) : bool :=
  match find_sep sep s with Some _ => true | None => false end.

(** [s.split(sep)]: the texts between the occurrences of [sep], found
    from left to right, each search starting behind the last find. *)
Fixpoint split_fuel (fuel : nat) (sep s : string) : list string :=
  match fuel with
  | O => [s]
  | S f =>
      match find_sep sep s with
      | Some (a, b) => a :: split_fuel f sep b
      | None => [s]
      end
  end.

Definition split (sep s : string) : list string := split_fuel (String.length s) sep s.

(** [s.replace(/sep/g, e)] for a literal [sep] and the empty string [e] *)
Fixpoint remove_all_fuel (fuel : nat) (sep s : string) : string :=
  match fuel with
  | O => s
  | S f =>
      match find_sep sep s with
      | Some (a, b) => a +:+ remove_all_fuel f sep b
      | None => s
      end
  end.

Definition remove_all (sep s : string) : string := remove_all_fuel (String.length s) sep s.

(** [s.replace(/^\w+\n/, e)] for the empty string [e] *)
Definition strip_word_line (s : string) : string :=
  let '(w, rest) := span is_word s in
  match w, rest with
  | String _ _, String c r => if Ascii.eqb c "010" then r else s
  | _, _ => s
  end.

Definition fence : string := "```".

Definition extractCode (s : string) : string :=
  let t := trim s in
  if negb (includes fence t) then t
  else
    let parts := split fence t in
    if (List.length parts <? 3)%nat then trim (remove_all fence t)
    else trim (strip_word_line (nth 1 parts EmptyString)).

(** What one request comes to. *)
Inductive Reply : Type :=
  | Rejects (e : Thrown)                        (* [fetch] rejects *)
  | NotOk (status : N) (text : result string)   (* [!r.ok], with what [r.text()] gives *)
  | Ok (content : result (option string)).
      (* [r.json()] rejects, or gives a value whose
         [choices[0].message.content] is this string, or is no string *)

Definition Error (message : string) : Thrown := ErrorObj "Error" message.

(** The body of the [try]. *)
Definition attempt (r : Reply) : result string :=
  match r with
  | Rejects e => inl e
  | NotOk status text =>
      let txt := match text with inr t => t | inl _ => EmptyString end in
      inl (Error ("Groq API error " +:+ String_of_N status +:+
                  (if Svg.nonempty txt then ": " +:+ substring 0 300 txt else EmptyString)))
  | Ok (inl e) => inl e
  | Ok (inr None) => inl (Error "Empty model response")
  | Ok (inr (Some content)) =>
      if Svg.nonempty (trim content) then inr (extractCode content)
      else inl (Error "Empty model response")
  end.

(** What the function does besides computing: the requests (all alike)
    and the pauses, in milliseconds. *)
Inductive Effect : Type :=
  | Fetch
  | Sleep (ms : N).

(** The loop from [attempt] on, with [fuel] rounds left; [replies k] is
    what the request of round [k] comes to.  Gives the error of the last
    round that failed, or the code. *)
Fixpoint rounds (replies : nat -> Reply) (round : nat) (fuel : nat) (lastErr : option Thrown)
    : list Effect * (option Thrown + string) :=
  match fuel with
  | O => ([], inl lastErr)
  | S f =>
      match attempt (replies round) with
      | inr code => ([Fetch], inr code)
      | inl e =>
          let '(trace, r) := rounds replies (S round) f (Some e) in
          (Fetch ::
             (if (round <? 2)%nat then [Sleep (400 * (N.of_nat round + 1))] else [])
             ++ trace,
           r)%list
      end
  end.

(** [convertHandwritingToPython] *)
Definition convertHandwritingToPython (replies : nat -> Reply) : list Effect * result string :=
  match rounds replies 0 3 None with
  | (trace, inr code) => (trace, inr code)
  | (trace, inl lastErr) =>
      (trace,
       inl (match lastErr with
            | Some (ErrorObj name message) => ErrorObj name message
            | _ => Error "Groq request failed"
            end))
  end.

End Groq.


(* ================================================================== *)
(** * settings.ts and SettingsPanel.tsx *)
(* ================================================================== *)

Module Settings.

Import Project.

(** A value that [JSON.parse] returns; an object lists each key once. *)
Inductive json : Type :=
  | JNull
  | JBool (b : bool)
  | JNumber (x : number)
  | JString (s : string)
  | JArray (items : list json)
  | JObject (members : list (string * json)).

Record Settings : Type := mkSettings {
  version : nat;
  groqKey : string;
  model : string;
}.

(** The JSON codec: [JSON.parse], and [JSON.stringify] at the type of
    the settings. *)
Class Codec : Type := {
  JSON_parse : string -> result json;
  JSON_stringify : Settings -> string;
}.

Definition STORAGE_KEY : string := "codepencil:settings:v2".
Definition DEFAULT_MODEL : string := "meta-llama/llama-4-scout-17b-16e-instruct".

(** The page's [localStorage]: whether there is a [window] at all,
    whether reading or writing the storage throws (access denied, quota
    exceeded), and the items. *)
Record Storage : Type := mkStorage {
  has_window : bool;
  read_fails : option Thrown;
  write_fails : option Thrown;
  items : gmap string string;
}.

Definition no_localStorage : Thrown := ErrorObj "ReferenceError" "localStorage is not defined".

Definition getItem (st : Storage) (key : string) : result (option string) :=
  if negb (has_window st) then inl no_localStorage
  else match read_fails st with
       | Some e => inl e
       | None => inr (items st !! key)
       end.

Definition setItem (st : Storage) (key value : string) : result Storage :=
  if negb (has_window st) then inl no_localStorage
  else match write_fails st with
       | Some e => inl e
       | None => inr (mkStorage (has_window st) (read_fails st) (write_fails st)
                                (<[key := value]> (items st)))
       end.

Definition removeItem (st : Storage) (key : string) : result Storage :=
  if negb (has_window st) then inl no_localStorage
  else match write_fails st with
       | Some e => inl e
       | None => inr (mkStorage (has_window st) (read_fails st) (write_fails st)
                                (delete key (items st)))
       end.

(** [v[key]] for a key that no prototype has: it throws on null, and is
    undefined ([None]) on the other values that are not objects and on
    an object without the key. *)
Definition member (key : string) (v : json) : result (option json) :=
  match v with
  | JNull => inl (ErrorObj "TypeError" "Cannot read properties of null")
  | JObject members => inr (lookup_name key members)
  | _ => inr None
  end.

(** [x === n] for an integer [n] *)
Definition number_is (x : number) (n : Z) : bool :=
  match x with
  | Dec m e => if (0 <=? e)%Z then (m * 10 ^ e =? n)%Z else (m =? n * 10 ^ (- e))%Z
  | _ => false
  end.

Definition defaults : Settings := mkSettings 1 EmptyString DEFAULT_MODEL.

Definition loadSettings `{Codec} (st : Storage) : Settings :=
  if negb (has_window st) then defaults
  else
    match (await raw := getItem st STORAGE_KEY in
           match Svg.present raw with
           | None => inr defaults
           | Some raw =>
               await v := JSON_parse raw in
               await version := member "version" v in
               if negb (match version with
                        | Some (JNumber x) => number_is x 1
                        | _ => false
                        end)
               then inr defaults
               else
                 await groqKey := member "groqKey" v in
                 await model := member "model" v in
                 inr (mkSettings 1
                        (match groqKey with Some (JString s) => s | _ => EmptyString end)
                        (match model with
                         | Some (JString s) => if Svg.nonempty s then s else DEFAULT_MODEL
                         | _ => DEFAULT_MODEL
                         end))
           end) with
    | inr s => s
    | inl _ => defaults
    end.

Definition saveSettings `{Codec} (st : Storage) (s : Settings) : result Storage :=
  setItem st STORAGE_KEY (JSON_stringify s).

Definition clearSettings (st : Storage) : result Storage :=
  removeItem st STORAGE_KEY.

(** [model.trim() || DEFAULT_MODEL] *)
Definition model_or_default (model : string) : string :=
  if Svg.nonempty (Groq.trim model) then Groq.trim model else DEFAULT_MODEL.

(** The [save] of the settings panel, for what the two fields hold. *)
Definition panel_save `{Codec} (st : Storage) (key model : string) : result Storage :=
  saveSettings st (mkSettings 1 (Groq.trim key) (model_or_default model)).

(** The [clear] of the settings panel: the storage, and what the two
    fields hold afterwards. *)
Definition panel_clear (st : Storage) : result (Storage * (string * string)) :=
  await st' := clearSettings st in
  inr (st', (EmptyString, DEFAULT_MODEL)).

End Settings.

(* ================================================================== *)
(** * NotebookClient.tsx: the notebook reducer and the handlers *)
(* ================================================================== *)

Module Client.

Import Svg Project Bridge.

Definition DEFAULT_CELL_HEIGHT : number := num 320.

Inductive Action : Type :=
  | Load (notebook : Notebook)
  | AddCell (afterId : option string)
  | DeleteCell (id : string)
  | SetStrokes (id : string) (strokes : list Stroke)
  | ClearCell (id : string)
  | SetRecognized (id : string) (code : string)
  | SetStatus (id : string) (status : option CellStatus) (error : option string)
  | SetRunStatus (id : string) (runStatus : option RunStatus)
  | SetOutput (id : string) (out err : string)
  | SetCellHeight (id : string) (height : number).

(** [arr.findIndex(f)], [None] for -1. *)
Fixpoint findIndex {A : Type} (f : A -> bool) (l : list A) : option nat :=
  match l with
  | [] => None
  | x :: l' => if f x then Some 0 else S <$> findIndex f l'
  end.

(** [arr.splice(i, 0, x)] *)
Definition splice_in {A : Type} (i : nat) (x : A) (l : list A) : list A :=
  (take i l ++ x :: drop i l)%list.

(** [cells.map((c) => (c.id === id ? f(c) : c))] *)
Definition update (id : string) (f : Cell -> Cell) (cells : list Cell) : list Cell :=
  map (fun c => if String.eqb (cell_id c) id then f c else c) cells.

(** The cell made by [addCell] and for the empty notebook; [fresh] is
    what [id()] returns. *)
Definition new_cell (fresh : string) : Cell :=
  mkCell fresh [] None None None None None None (Some DEFAULT_CELL_HEIGHT).

Definition emptyNotebook (fresh : string) : Notebook := mkNotebook 1 [new_cell fresh].

Definition with_cells (state : Notebook) (cells : list Cell) : Notebook :=
  mkNotebook (nb_version state) cells.

(** [reducer(state, a)]; [fresh] is what [id()] returns when the
    reducer calls it (it does for [addCell]). *)
Definition reducer (fresh : string) (state : Notebook) (a : Action) : Notebook :=
  match a with
  | Load notebook => notebook
  | AddCell afterId =>
      let newCell := new_cell fresh in
      match present afterId with
      | None => with_cells state (nb_cells state ++ [newCell])%list
      | Some after =>
          match findIndex (fun c => String.eqb (cell_id c) after) (nb_cells state) with
          | None => with_cells state (nb_cells state ++ [newCell])%list
          | Some idx => with_cells state (splice_in (idx + 1) newCell (nb_cells state))
          end
      end
  | DeleteCell id =>
      with_cells state (List.filter (fun c => negb (String.eqb (cell_id c) id)) (nb_cells state))
  | SetStrokes id strokes =>
      with_cells state
        (update id (fun c => mkCell (cell_id c) strokes (cell_recognizedCode c)
                               (Some StatusIdle) None (cell_runStatus c)
                               (cell_stdout c) (cell_stderr c) (cell_height c))
                (nb_cells state))
  | ClearCell id =>
      with_cells state
        (update id (fun c => mkCell (cell_id c) [] None (Some StatusIdle) None
                               (cell_runStatus c) None None (cell_height c))
                (nb_cells state))
  | SetRecognized id code =>
      with_cells state
        (update id (fun c => mkCell (cell_id c) (cell_strokes c) (Some code)
                               (cell_status c) (cell_error c) (cell_runStatus c)
                               (cell_stdout c) (cell_stderr c) (cell_height c))
                (nb_cells state))
  | SetStatus id status error =>
      with_cells state
        (update id (fun c => mkCell (cell_id c) (cell_strokes c) (cell_recognizedCode c)
                               status error (cell_runStatus c)
                               (cell_stdout c) (cell_stderr c) (cell_height c))
                (nb_cells state))
  | SetRunStatus id runStatus =>
      with_cells state
        (update id (fun c => mkCell (cell_id c) (cell_strokes c) (cell_recognizedCode c)
                               (cell_status c) (cell_error c) runStatus
                               (cell_stdout c) (cell_stderr c) (cell_height c))
                (nb_cells state))
  | SetOutput id out err =>
      with_cells state
        (update id (fun c => mkCell (cell_id c) (cell_strokes c) (cell_recognizedCode c)
                               (cell_status c) (cell_error c) (Some RunDone)
                               (Some out) (Some err) (cell_height c))
                (nb_cells state))
  | SetCellHeight id height =>
      with_cells state
        (update id (fun c => mkCell (cell_id c) (cell_strokes c) (cell_recognizedCode c)
                               (cell_status c) (cell_error c) (cell_runStatus c)
                               (cell_stdout c) (cell_stderr c) (Some height))
                (nb_cells state))
  end.

(** A sequence of dispatched actions; [ids n] is what the [n]-th call
    of [id()] returns, and [n] counts the calls made so far. *)
Fixpoint dispatch_all (ids : nat -> string) (n : nat) (state : Notebook) (actions : list Action)
    : Notebook :=
  match actions with
  | [] => state
  | a :: rest =>
      dispatch_all ids (match a with AddCell _ => S n | _ => n end)
                   (reducer (ids n) state a) rest
  end.

(** [runCell(cellId)] on the notebook [nb] of the render: the code
    handed to [runPython], if any, and the actions dispatched, given how
    the promise of [runPython] ends ([Pending]: it has not settled). *)
Definition runCell (nb : Notebook) (cellId : string) (settled : PromiseState)
    : option string * list Action :=
  let cell := List.find (fun c => String.eqb (cell_id c) cellId) (nb_cells nb) in
  match match cell with
        | Some c => present (cell_recognizedCode c)
        | None => None
        end with
  | None => (None, [])
  | Some code =>
      (Some code,
       SetRunStatus cellId (Some RunRunning) ::
       match settled with
       | Pending => []
       | Fulfilled v => [SetOutput cellId (stdout v) (stderr v)]
       | Rejected e => [SetOutput cellId EmptyString (String_of_thrown e)]
       end)
  end.

(** What the page holds besides the notebook: the stroke size and the
    alerts shown so far. *)
Record Page : Type := mkPage {
  page_nb : Notebook;
  page_strokeSize : number;
  page_alerts : list string;
}.

(** [`${prefix}${error}`] for an optional string. *)
Definition alert_text (prefix : string) (error : option string) : string :=
  prefix +:+ default "undefined" error.

Definition is_cancelled (error : option string) : bool :=
  match error with
  | Some msg => String.eqb msg "Cancelled"
  | None => false
  end.

(** The part of [handleOpen] and [handleFileImport] that takes a
    successful result over. *)
Definition take_over (page : Page) (notebook : Notebook) (strokeWidth : option number) : Page :=
  mkPage notebook
         (match strokeWidth with
          | Some w => if truthy w then w else page_strokeSize page
          | None => page_strokeSize page
          end)
         (page_alerts page).

(** [handleOpen], where the File System Access API is there. *)
Definition handleOpen (page : Page) (result : LoadResult) : Page :=
  match lr_success result, lr_notebook result with
  | true, Some notebook => take_over page notebook (lr_strokeWidth result)
  | _, _ =>
      if is_cancelled (lr_error result) then page
      else mkPage (page_nb page) (page_strokeSize page)
                  (page_alerts page ++ [alert_text "Open failed: " (lr_error result)])%list
  end.

(** [handleFileImport], for a chosen file. *)
Definition handleFileImport (page : Page) (result : LoadResult) : Page :=
  match lr_success result, lr_notebook result with
  | true, Some notebook => take_over page notebook (lr_strokeWidth result)
  | _, _ =>
      mkPage (page_nb page) (page_strokeSize page)
             (page_alerts page ++ [alert_text "Import failed: " (lr_error result)])%list
  end.

(** [convertCell(cellId)]: the requests and pauses it makes, and the
    actions dispatched by the time it returns.  [st] is the storage that
    [loadSettings] reads, [image] what [handle?.toDataURL()] gives
    ([None] without a handle), and [replies] what the requests come to
    (the key, the model and the image only go into their body). *)
Definition convertCell `{Settings.Codec} (st : Settings.Storage) (image : option string)
    (replies : nat -> Groq.Reply) (cellId : string) : list Groq.Effect * list Action :=
  let s := Settings.loadSettings st in
  if negb (nonempty (Settings.groqKey s)) then
    ([], [SetStatus cellId (Some StatusError) (Some "Missing Groq API key")])
  else
    match present image with
    | None => ([], [SetStatus cellId (Some StatusError) (Some "Canvas not ready")])
    | Some imageDataUrl =>
        let '(trace, r) := Groq.convertHandwritingToPython replies in
        (trace,
         SetStatus cellId (Some StatusConverting) None ::
         match r with
         | inr code => [SetRecognized cellId code; SetStatus cellId (Some StatusIdle) None]
         | inl e => [SetStatus cellId (Some StatusError) (Some (catch_plain "Convert failed" e))]
         end)
    end.

End Client.

(* ================================================================== *)
(** * Digits, strings and numbers *)
(* ================================================================== *)

Module JsFacts.

Local Open Scope N_scope.

Lemma is_digit_spec (c : ascii) :
  is_digit c = true <-> 48 <= N_of_ascii c <= 57.
Proof.
  unfold is_digit, ascii_in_range. simpl.
  rewrite andb_true_iff, !N.leb_le. reflexivity.
Qed.

Lemma digit_char_val (d : N) : d < 10 -> digit_val (digit_char d) = d.
Proof.
  intros Hd. unfold digit_val, digit_char.
  rewrite N_ascii_embedding by lia. lia.
Qed.

Lemma digit_char_is_digit (d : N) : d < 10 -> is_digit (digit_char d) = true.
Proof.
  intros Hd. apply is_digit_spec. unfold digit_char.
  rewrite N_ascii_embedding by lia. lia.
Qed.

Lemma digits_fuel_value (fuel : nat) : forall n acc,
  n < 10 ^ N.of_nat fuel ->
  digits_value_from 0 (digits_fuel fuel n acc) = digits_value_from n acc.
Proof.
  induction fuel as [|f IH]; intros n acc Hn.
  - simpl in *. assert (n = 0) as -> by lia. reflexivity.
  - cbn [digits_fuel].
    assert (Hmod : n mod 10 < 10) by (apply N.mod_lt; lia).
    destruct (N.ltb_spec n 10) as [Hlt|Hge].
    + cbn [digits_value_from]. rewrite digit_char_val by lia.
      rewrite N.mod_small by lia. f_equal.
    + rewrite IH.
      * cbn [digits_value_from]. rewrite digit_char_val by lia.
        f_equal. pose proof (N.div_mod n 10). lia.
      * rewrite Nat2N.inj_succ, N.pow_succ_r' in Hn.
        apply N.Div0.div_lt_upper_bound. lia.
Qed.

Lemma enough_fuel (n : N) : n < 10 ^ N.of_nat (S (N.to_nat (N.log2 n))).
Proof.
  rewrite Nat2N.inj_succ, N2Nat.id.
  destruct (N.eq_dec n 0) as [->|Hn]; [reflexivity|].
  pose proof (N.log2_spec n ltac:(lia)) as [_ Hlt].
  eapply N.lt_le_trans; [exact Hlt|].
  apply N.pow_le_mono_l. lia.
Qed.

(** Reading the digits of [n] gives [n] back. *)
Lemma digits_value_digits (n : N) : digits_value (digits n) = n.
Proof.
  unfold digits_value, digits. rewrite digits_fuel_value by apply enough_fuel.
  reflexivity.
Qed.

Lemma digits_fuel_all_digits (fuel : nat) : forall n acc,
  forallb_string is_digit acc = true ->
  forallb_string is_digit (digits_fuel fuel n acc) = true.
Proof.
  induction fuel as [|f IH]; intros n acc Hacc; [exact Hacc|].
  cbn [digits_fuel].
  assert (Hd : forallb_string is_digit (String (digit_char (n mod 10)) acc) = true).
  { cbn [forallb_string]. rewrite digit_char_is_digit, Hacc; [reflexivity|].
    apply N.mod_lt; lia. }
  destruct (n <? 10); [exact Hd|]. apply IH, Hd.
Qed.

Lemma digits_all_digits (n : N) : forallb_string is_digit (digits n) = true.
Proof. apply digits_fuel_all_digits. reflexivity. Qed.

Lemma digits_fuel_length (fuel : nat) : forall n acc,
  (String.length acc <= String.length (digits_fuel fuel n acc))%nat.
Proof.
  induction fuel as [|f IH]; intros n acc; [simpl; lia|].
  cbn [digits_fuel]. destruct (n <? 10); [simpl; lia|].
  etransitivity; [|apply IH]. simpl. lia.
Qed.

Lemma digits_nonempty (n : N) : (1 <= String.length (digits n))%nat.
Proof.
  unfold digits. cbn [digits_fuel]. destruct (n <? 10); [simpl; lia|].
  etransitivity; [|apply digits_fuel_length]. simpl. lia.
Qed.

(** A number below [10^k] has at most [k] digits. *)
Lemma digits_fuel_short (fuel : nat) : forall n acc (k : nat),
  n < 10 ^ N.of_nat k -> (1 <= k)%nat ->
  (String.length (digits_fuel (S fuel) n acc) <= k + String.length acc)%nat.
Proof.
  induction fuel as [|f IH]; intros n acc k Hn Hk.
  - cbn [digits_fuel]. destruct (n <? 10); simpl; lia.
  - cbn [digits_fuel] in *. destruct (N.ltb_spec n 10) as [Hlt|Hge]; [simpl; lia|].
    destruct k as [|[|k]]; [lia|simpl in Hn; lia|].
    specialize (IH (n / 10) (String (digit_char (n mod 10)) acc) (S k)).
    etransitivity; [apply IH|simpl; lia]; [|lia].
    rewrite Nat2N.inj_succ, N.pow_succ_r' in Hn.
    apply N.Div0.div_lt_upper_bound. lia.
Qed.

Lemma digits_short (n : N) (k : nat) :
  n < 10 ^ N.of_nat k -> (1 <= k)%nat -> (String.length (digits n) <= k)%nat.
Proof.
  intros Hn Hk. unfold digits.
  pose proof (digits_fuel_short (N.to_nat (N.log2 n)) n EmptyString k Hn Hk).
  simpl in *. lia.
Qed.

Local Close Scope N_scope.

Lemma length_append (a b : string) :
  String.length (a +:+ b) = String.length a + String.length b.
Proof. induction a as [|c a IH]; simpl; [reflexivity|]. rewrite IH. reflexivity. Qed.

Lemma append_assoc (a b c : string) : (a +:+ b) +:+ c = a +:+ (b +:+ c).
Proof. induction a as [|x a IH]; simpl; [reflexivity|]. rewrite IH. reflexivity. Qed.

Lemma append_nil_r (s : string) : s +:+ EmptyString = s.
Proof. induction s as [|c s IH]; simpl; [reflexivity|]. rewrite IH. reflexivity. Qed.

Lemma forallb_append f (a b : string) :
  forallb_string f (a +:+ b) = forallb_string f a && forallb_string f b.
Proof.
  induction a as [|c a IH]; simpl; [reflexivity|].
  rewrite IH, andb_assoc. reflexivity.
Qed.

Lemma length_repeat_char c n : String.length (repeat_char c n) = n.
Proof. induction n as [|n IH]; simpl; congruence. Qed.

Lemma forallb_repeat_char f c n :
  f c = true -> forallb_string f (repeat_char c n) = true.
Proof. intros Hc. induction n as [|n IH]; simpl; [reflexivity|]. rewrite Hc, IH. reflexivity. Qed.

Lemma digits_value_from_append (a b : string) : forall acc,
  digits_value_from acc (a +:+ b) = digits_value_from (digits_value_from acc a) b.
Proof. induction a as [|c a IH]; intros acc; simpl; [reflexivity|]. apply IH. Qed.

Lemma digits_value_from_zeros n : forall acc,
  acc = 0%N -> digits_value_from acc (repeat_char "0" n) = 0%N.
Proof.
  induction n as [|n IH]; intros acc ->; simpl; [reflexivity|]. apply IH. reflexivity.
Qed.

(** Padding with zeros changes neither the value nor the digits. *)
Lemma padStart0_value k s : digits_value (padStart0 k s) = digits_value s.
Proof.
  unfold digits_value, padStart0. rewrite digits_value_from_append.
  rewrite digits_value_from_zeros; reflexivity.
Qed.

Lemma padStart0_all_digits k s :
  forallb_string is_digit s = true -> forallb_string is_digit (padStart0 k s) = true.
Proof.
  intros Hs. unfold padStart0. rewrite forallb_append, Hs, forallb_repeat_char; reflexivity.
Qed.

Lemma padStart0_length k s :
  String.length (padStart0 k s) = Nat.max k (String.length s).
Proof. unfold padStart0. rewrite length_append, length_repeat_char. lia. Qed.

(** [span] on a run followed by a character outside the class. *)
Lemma span_run f (a b : string) :
  forallb_string f a = true ->
  match b with EmptyString => True | String c _ => f c = false end ->
  span f (a +:+ b) = (a, b).
Proof.
  intros Ha Hb. induction a as [|c a IH]; simpl in *.
  - destruct b as [|c b]; [reflexivity|]. simpl. rewrite Hb. reflexivity.
  - apply andb_true_iff in Ha as [Hc Ha]. rewrite Hc, (IH Ha). reflexivity.
Qed.

Lemma substring_0_0 (s : string) : substring 0 0 s = EmptyString.
Proof. destruct s; reflexivity. Qed.

Lemma substring_whole (s : string) : substring 0 (String.length s) s = s.
Proof. induction s as [|c s IH]; simpl; [reflexivity|]. rewrite IH. reflexivity. Qed.

Lemma substring_split (n : nat) : forall s,
  n <= String.length s ->
  substring 0 n s +:+ substring n (String.length s - n) s = s.
Proof.
  induction n as [|n IH]; intros s Hn.
  - rewrite substring_0_0, Nat.sub_0_r, substring_whole. reflexivity.
  - destruct s as [|c s]; simpl in *; [lia|].
    rewrite IH by lia. reflexivity.
Qed.

Lemma substring_length (n m : nat) : forall s,
  n + m <= String.length s -> String.length (substring n m s) = m.
Proof.
  induction n as [|n IH]; intros s H.
  - revert s H. induction m as [|m IHm]; intros s H.
    + rewrite substring_0_0. reflexivity.
    + destruct s as [|c s]; simpl in *; [lia|]. rewrite IHm by lia. reflexivity.
  - destruct s as [|c s]; simpl in *; [lia|]. apply IH. lia.
Qed.

Lemma forallb_substring f (n m : nat) : forall s,
  forallb_string f s = true -> forallb_string f (substring n m s) = true.
Proof.
  induction n as [|n IH]; intros s H.
  - revert s H. induction m as [|m IHm]; intros s H.
    + rewrite substring_0_0. reflexivity.
    + destruct s as [|c s]; simpl in *; [reflexivity|].
      apply andb_true_iff in H as [Hc Hs]. rewrite Hc, IHm; auto.
  - destruct s as [|c s]; simpl in *; [reflexivity|].
    apply andb_true_iff in H as [Hc Hs]. apply IH, Hs.
Qed.

Lemma span_all f (a : string) : forallb_string f a = true -> span f a = (a, EmptyString).
Proof.
  intros Ha. rewrite <- (append_nil_r a) at 1. apply span_run; [exact Ha|exact I].
Qed.

Lemma drop_while_head f c (s : string) : f c = false -> drop_while f (String c s) = String c s.
Proof. intros Hc. simpl. rewrite Hc. reflexivity. Qed.

(** A digit is none of the other characters the scanners look for. *)
Lemma digit_is_plain (c : ascii) :
  is_digit c = true ->
  is_space c = false /\ Ascii.eqb c "-" = false /\ Ascii.eqb c "+" = false
  /\ Ascii.eqb c "." = false /\ c <> "I"%char.
Proof.
  destruct c as [[] [] [] [] [] [] [] []]; vm_compute; intros Hd;
    try discriminate Hd; repeat split; discriminate.
Qed.

Lemma not_Infinity (c : ascii) (s : string) :
  is_digit c = true -> starts_with "Infinity" (String c s) = false.
Proof.
  intros Hd. unfold starts_with. cbn [String.prefix].
  destruct (ascii_dec "I" c) as [<-|Hne]; [discriminate Hd|reflexivity].
Qed.

(** ** [toFixed(2)] and [parseFloat] *)

(** The fixed notation: digits, a point, two digits. *)
Lemma fixed2_shape (n : Z) :
  exists ip fp,
    fixed2 n = ip +:+ "." +:+ fp
    /\ forallb_string is_digit ip = true
    /\ ip <> EmptyString
    /\ forallb_string is_digit fp = true
    /\ String.length fp = 2
    /\ digits_value (ip +:+ fp) = Z.to_N n.
Proof.
  unfold fixed2.
  set (m := padStart0 3 (digits (Z.to_N n))).
  assert (Hlen : 3 <= String.length m).
  { unfold m. rewrite padStart0_length. lia. }
  assert (Hdig : forallb_string is_digit m = true).
  { apply padStart0_all_digits, digits_all_digits. }
  exists (substring 0 (String.length m - 2) m), (substring (String.length m - 2) 2 m).
  split; [reflexivity|].
  split; [apply forallb_substring, Hdig|].
  split.
  { intros E. apply (f_equal String.length) in E.
    rewrite substring_length in E by lia. simpl in E. lia. }
  split; [apply forallb_substring, Hdig|].
  split; [apply substring_length; lia|].
  pose proof (substring_split (String.length m - 2) m ltac:(lia)) as Hs.
  replace (String.length m - (String.length m - 2)) with 2 in Hs by lia.
  rewrite Hs. unfold m. rewrite padStart0_value. apply digits_value_digits.
Qed.

(** [parseFloat] on an optional minus sign, digits, a point and digits. *)
Lemma parseFloat_decimal (neg : bool) (ip fp : string) :
  forallb_string is_digit ip = true -> ip <> EmptyString ->
  forallb_string is_digit fp = true ->
  parseFloat ((if neg then "-" else EmptyString) +:+ ip +:+ "." +:+ fp)
  = literal neg (Z.of_N (digits_value (ip +:+ fp))) (- Z.of_nat (String.length fp))%Z.
Proof.
  intros Hip Hne Hfp. destruct ip as [|c ip]; [congruence|].
  cbn [forallb_string] in Hip. apply andb_true_iff in Hip as [Hc Hip].
  destruct (digit_is_plain c Hc) as (Hsp & Hm & Hp & Hdot & HI).
  unfold parseFloat.
  assert (Hspan : span is_digit (String c ip +:+ "." +:+ fp) = (String c ip, "." +:+ fp)).
  { apply span_run; [cbn [forallb_string]; rewrite Hc, Hip; reflexivity|reflexivity]. }
  assert (Hrest :
    (if starts_with "Infinity" (String c ip +:+ "." +:+ fp) then Infinity neg
     else
       let '(ip0, s2) := span is_digit (String c ip +:+ "." +:+ fp) in
       let '(fp0, s3) := read_fraction s2 in
       match ip0 +:+ fp0 with
       | EmptyString => NaN
       | ds =>
           literal neg (Z.of_N (digits_value ds))
                   (parse_exponent s3 - Z.of_nat (String.length fp0))%Z
       end)
    = literal neg (Z.of_N (digits_value (String c ip +:+ fp)))
              (- Z.of_nat (String.length fp))%Z).
  { cbn [append]. rewrite not_Infinity by exact Hc.
    cbn [append] in Hspan. rewrite Hspan.
    unfold read_fraction. cbn [append]. rewrite Ascii.eqb_refl.
    rewrite (span_all _ _ Hfp). cbn [append parse_exponent]. f_equal. }
  destruct neg.
  - cbn [append]. rewrite drop_while_head by reflexivity.
    unfold read_sign. rewrite Ascii.eqb_refl. exact Hrest.
  - cbn [append]. rewrite drop_while_head by exact Hsp.
    unfold read_sign. rewrite Hm, Hp. exact Hrest.
Qed.

Lemma round_hundredths_nonneg a e : (0 <= a)%Z -> (0 <= round_hundredths a e)%Z.
Proof.
  intros Ha. unfold round_hundredths. destruct (Z.leb_spec (-2) e) as [He|He].
  - apply Z.mul_nonneg_nonneg; [exact Ha|]. apply Z.pow_nonneg. lia.
  - assert (0 < 10 ^ (- e - 2))%Z by (apply Z.pow_pos_nonneg; lia).
    apply Z.div_pos; lia.
Qed.

(** The hundredths that [toFixed(2)] prints for [m * 10^e]. *)
Definition printed_hundredths (m e : Z) : Z :=
  if (m <? 0)%Z then (- round_hundredths (Z.abs m) e)%Z
  else round_hundredths (Z.abs m) e.

Lemma pow10_pos (k : Z) : (0 <= k -> 0 < 10 ^ k)%Z.
Proof. intros Hk. apply Z.pow_pos_nonneg; lia. Qed.

(** Below [10^21] the hundredths that are printed stay below [10^23]. *)
Lemma round_hundredths_below a e :
  (0 <= a)%Z -> at_least_1e21 a e = false -> (round_hundredths a e <= 10 ^ 23)%Z.
Proof.
  intros Ha Hr. unfold at_least_1e21 in Hr. unfold round_hundredths.
  destruct (Z.leb_spec (-2) e) as [He|He].
  - destruct (Z.leb_spec 0 e) as [He0|He0]; apply Z.leb_gt in Hr.
    + rewrite Z.pow_add_r by lia. change (10 ^ 2)%Z with 100%Z.
      change (10 ^ 21)%Z with 1000000000000000000000%Z in Hr.
      change (10 ^ 23)%Z with 100000000000000000000000%Z. nia.
    + assert (e = -1 \/ e = -2)%Z as [-> | ->] by lia; simpl in *; lia.
  - destruct (Z.leb_spec 0 e) as [He0|He0]; [lia|]. apply Z.leb_gt in Hr.
    set (d := (10 ^ (- e - 2))%Z).
    assert (Hd : (0 < d)%Z) by (apply pow10_pos; lia).
    assert (Hpow : (10 ^ (- e) = 100 * d)%Z).
    { unfold d. replace (- e)%Z with (2 + (- e - 2))%Z at 1 by lia.
      rewrite Z.pow_add_r by lia. reflexivity. }
    rewrite Hpow in Hr. change (10 ^ 21)%Z with 1000000000000000000000%Z in Hr.
    change (10 ^ 23)%Z with 100000000000000000000000%Z.
    apply Z.lt_succ_r, Z.div_lt_upper_bound; nia.
Qed.

(** A number of hundredths up to [10^23] is in the range of the doubles. *)
Lemma literal_hundredths neg (r : Z) :
  (0 <= r <= 10 ^ 23)%Z -> literal neg r (-2) = Dec (if neg then (- r)%Z else r) (-2).
Proof.
  intros Hr. change (10 ^ 23)%Z with 100000000000000000000000%Z in Hr.
  unfold literal, overflows, underflows. cbn [Z.leb Z.ltb Z.compare Z.opp].
  change (10 ^ (- (-2)))%Z with 100%Z.
  assert (Ho : (overflow_bound * 100 <=? r)%Z = false).
  { apply Z.leb_gt. unfold overflow_bound. lia. }
  assert (Hu : ((0 <? r)%Z && true && (r * underflow_scale <=? 100)%Z) = false).
  { destruct (Z.ltb_spec 0 r) as [Hp|Hp]; [|reflexivity]. simpl.
    apply Z.leb_gt. unfold underflow_scale. lia. }
  rewrite Ho, Hu. reflexivity.
Qed.

(** Below [10^21], what [toFixed(2)] prints is read back by
    [parseFloat] as the printed number of hundredths. *)
Lemma parseFloat_toFixed2 (m e : Z) :
  at_least_1e21 (Z.abs m) e = false ->
  parseFloat (toFixed2 (Dec m e)) = Dec (printed_hundredths m e) (-2).
Proof.
  intros Hr. unfold toFixed2, printed_hundredths. rewrite Hr.
  destruct (fixed2_shape (round_hundredths (Z.abs m) e))
    as (ip & fp & -> & Hip & Hne & Hfp & Hlen & Hv).
  rewrite (parseFloat_decimal (m <? 0)%Z ip fp Hip Hne Hfp).
  rewrite Hv, Hlen, Z2N.id by (apply round_hundredths_nonneg; lia).
  change (- Z.of_nat 2)%Z with (-2)%Z.
  rewrite literal_hundredths; [destruct (m <? 0)%Z; reflexivity|].
  split; [apply round_hundredths_nonneg; lia|].
  apply round_hundredths_below; [lia|exact Hr].
Qed.

(** ** Values *)

(** [x] is a multiple of 0.01. *)
Definition two_decimals (x : number) : Prop :=
  is_finite x = true /\ exists n : Z, (to_Q x == n # 100)%Q.

(** [abs(x) < 10^21]: the range in which [toFixed] uses the fixed
    notation. *)
Definition below_1e21 (x : number) : Prop :=
  is_finite x = true /\ (Qabs (to_Q x) < inject_Z (10 ^ 21))%Q.

Lemma to_Q_neg_exp m e :
  (e < 0)%Z -> to_Q (Dec m e) = Qmake m (Z.to_pos (10 ^ (- e))).
Proof. intros He. unfold to_Q. destruct (Z.leb_spec 0 e); [lia|reflexivity]. Qed.

Lemma to_Q_nonneg_exp m e :
  (0 <= e)%Z -> to_Q (Dec m e) = inject_Z (m * 10 ^ e).
Proof. intros He. unfold to_Q. destruct (Z.leb_spec 0 e); [reflexivity|lia]. Qed.

Lemma below_1e21_fixed m e :
  below_1e21 (Dec m e) -> at_least_1e21 (Z.abs m) e = false.
Proof.
  intros [_ Hb]. unfold at_least_1e21.
  destruct (Z.leb_spec 0 e) as [He|He].
  - rewrite to_Q_nonneg_exp in Hb by exact He.
    unfold Qlt, Qabs, inject_Z in Hb. simpl in Hb.
    apply Z.leb_gt. rewrite Z.abs_mul, (Z.abs_eq (10 ^ e)) in Hb
      by (apply Z.lt_le_incl, pow10_pos, He). lia.
  - rewrite to_Q_neg_exp in Hb by exact He.
    unfold Qlt, Qabs, inject_Z in Hb. simpl in Hb.
    rewrite Z2Pos.id in Hb by (apply pow10_pos; lia).
    apply Z.leb_gt. lia.
Qed.

Lemma round_exact (k d : Z) : (0 <= k -> 0 < d -> (2 * (k * d) + d) / (2 * d) = k)%Z.
Proof.
  intros Hk Hd. replace (2 * (k * d) + d)%Z with (k * (2 * d) + d)%Z by ring.
  rewrite Z.div_add_l by lia. rewrite Z.div_small by lia. lia.
Qed.

(** On a multiple of 0.01, [toFixed(2)] prints the number itself. *)
Lemma printed_value m e :
  two_decimals (Dec m e) ->
  (to_Q (Dec (printed_hundredths m e) (-2)) == to_Q (Dec m e))%Q.
Proof.
  intros [_ [n Hn]].
  rewrite (to_Q_neg_exp _ (-2)) by lia. change (Z.to_pos (10 ^ (- -2))) with 100%positive.
  unfold printed_hundredths, round_hundredths.
  destruct (Z.leb_spec (-2) e) as [He|He].
  - assert (Hval : (to_Q (Dec m e) == (m * 10 ^ (e + 2)) # 100)%Q).
    { destruct (Z.leb_spec 0 e) as [He0|He0].
      - rewrite to_Q_nonneg_exp by exact He0. unfold Qeq, inject_Z. simpl.
        rewrite Z.pow_add_r by lia. change (10 ^ 2)%Z with 100%Z.
        generalize (10 ^ e)%Z. intros p. lia.
      - rewrite to_Q_neg_exp by exact He0. unfold Qeq. simpl.
        rewrite Z2Pos.id by (apply pow10_pos; lia).
        assert (e = -1 \/ e = -2)%Z as [-> | ->] by lia; simpl; lia. }
    rewrite Hval. unfold Qeq. simpl. generalize (10 ^ (e + 2))%Z. intros p.
    destruct (Z.ltb_spec m 0) as [Hm|Hm].
    + rewrite Z.abs_neq by lia. lia.
    + rewrite Z.abs_eq by lia. lia.
  - rewrite to_Q_neg_exp in Hn |- * by lia.
    set (d := (10 ^ (- e - 2))%Z).
    assert (Hd : (0 < d)%Z) by (apply pow10_pos; lia).
    assert (Hpow : (10 ^ (- e) = 100 * d)%Z).
    { unfold d. replace (- e)%Z with (2 + (- e - 2))%Z at 1 by lia.
      rewrite Z.pow_add_r by lia. reflexivity. }
    unfold Qeq in Hn |- *. simpl in Hn |- *.
    rewrite Z2Pos.id in Hn |- * by (rewrite Hpow; lia).
    rewrite Hpow in Hn |- *.
    assert (Hm : (m = n * d)%Z) by lia.
    assert (Habs : (Z.abs m = Z.abs n * d)%Z).
    { rewrite Hm, Z.abs_mul, (Z.abs_eq d) by lia. reflexivity. }
    rewrite Habs, round_exact by lia.
    destruct (Z.ltb_spec m 0) as [Hneg|Hpos].
    + assert (n < 0)%Z by nia. rewrite Z.abs_neq by lia. lia.
    + assert (0 <= n)%Z by nia. rewrite Z.abs_eq by lia. lia.
Qed.

(** ** The characters of printed numbers *)

(** Digits, letters, and the point, signs and space. *)
Definition text_char (c : ascii) : bool :=
  is_digit c || Xml.is_letter c || Ascii.eqb c "." || Ascii.eqb c "-"
  || Ascii.eqb c "+" || Ascii.eqb c " ".

Lemma forallb_string_impl (f g : ascii -> bool) (s : string) :
  (forall c, f c = true -> g c = true) ->
  forallb_string f s = true -> forallb_string g s = true.
Proof.
  intros Hfg. induction s as [|c s IH]; simpl; [reflexivity|].
  intros H. apply andb_true_iff in H as [Hc Hs]. rewrite (Hfg c Hc), IH; auto.
Qed.

Lemma digit_text_char c : is_digit c = true -> text_char c = true.
Proof. intros H. unfold text_char. rewrite H. reflexivity. Qed.

Lemma digits_text (n : N) : forallb_string text_char (digits n) = true.
Proof. eapply forallb_string_impl; [apply digit_text_char|apply digits_all_digits]. Qed.

Lemma signed_exponent_text e : forallb_string text_char (signed_exponent e) = true.
Proof.
  unfold signed_exponent. rewrite forallb_append, digits_text.
  destruct (0 <=? e)%Z; reflexivity.
Qed.

Lemma toString_pos_text a e : forallb_string text_char (toString_pos a e) = true.
Proof.
  unfold toString_pos. destruct (strip_zeros _ a e) as [a' e'].
  pose proof (digits_text (Z.to_N a')) as Hd.
  repeat match goal with
         | |- context [if ?b then _ else _] => destruct b
         end;
    rewrite ?forallb_append, ?signed_exponent_text, ?Hd, ?forallb_substring,
      ?forallb_repeat_char by (try exact Hd; reflexivity);
    reflexivity.
Qed.

Lemma toString_text x : forallb_string text_char (toString x) = true.
Proof.
  destruct x as [|[]|m e]; try reflexivity.
  unfold toString. destruct (m =? 0)%Z; [reflexivity|].
  destruct (m <? 0)%Z; [|apply toString_pos_text].
  rewrite forallb_append, toString_pos_text. reflexivity.
Qed.

Lemma fixed2_text n : forallb_string text_char (fixed2 n) = true.
Proof.
  destruct (fixed2_shape n) as (ip & fp & -> & Hip & _ & Hfp & _).
  rewrite !forallb_append.
  rewrite (forallb_string_impl _ _ _ digit_text_char Hip).
  rewrite (forallb_string_impl _ _ _ digit_text_char Hfp). reflexivity.
Qed.

Lemma toFixed2_text x : forallb_string text_char (toFixed2 x) = true.
Proof.
  destruct x as [|[]|m e]; try reflexivity.
  unfold toFixed2. destruct (at_least_1e21 _ _).
  - rewrite forallb_append, toString_text. destruct (m <? 0)%Z; reflexivity.
  - rewrite forallb_append, fixed2_text. destruct (m <? 0)%Z; reflexivity.
Qed.

End JsFacts.

(* ================================================================== *)
(** * The execution bridge: correlation of responses *)
(* ================================================================== *)

Module BridgeFacts.

Import Bridge.
Local Open Scope list_scope.

(** The result carried by a response. *)
Definition out (data : Response) : Output :=
  mkOutput (res_stdout data) (res_stderr data).

(** What holds of the module state after any sequence of events. *)
Record inv (st : State) : Prop := mkInv {
  inv_bound : forall tok k, pending st !! tok = Some k -> k < length (promises st);
  inv_inj : forall t1 t2 k,
      pending st !! t1 = Some k -> pending st !! t2 = Some k -> t1 = t2;
  inv_fresh : forall tok k, pending st !! tok = Some k -> k ∉ (calls st).*1;
  inv_nodup : NoDup (calls st).*1;
  inv_token : forall tok k, pending st !! tok = Some k -> tok = token_of k;
  inv_reqId : reqId st = N.min (N.of_nat (length (promises st))) (2 ^ 53);
  inv_calls : forall k, k ∈ (calls st).*1 -> k < length (promises st);
}.

Lemma settle_length k s ps : length (settle k s ps) = length ps.
Proof.
  unfold settle. destruct (ps !! k) as [[| |]|]; auto.
  apply length_insert.
Qed.

Lemma settle_other k j s ps : j <> k -> settle k s ps !! j = ps !! j.
Proof.
  intros Hne. unfold settle. destruct (ps !! k) as [[| |]|]; auto.
  apply list_lookup_insert_ne. congruence.
Qed.

Lemma settle_pending k s ps :
  ps !! k = Some Pending -> settle k s ps !! k = Some s.
Proof.
  intros Hk. unfold settle. rewrite Hk.
  apply list_lookup_insert_eq. eapply lookup_lt_Some; eauto.
Qed.

Lemma settle_settled k s ps x :
  ps !! k = Some x -> x <> Pending -> settle k s ps = ps.
Proof.
  intros Hk Hx. unfold settle. rewrite Hk. destruct x; congruence.
Qed.

Lemma incr_min (n : N) :
  incr (N.min n (2 ^ 53)) = N.min (n + 1) (2 ^ 53).
Proof.
  unfold incr. destruct (N.ltb_spec (N.min n (2 ^ 53)) (2 ^ 53)); lia.
Qed.

Lemma inv_initial : inv initial.
Proof.
  split; simpl; intros; try (rewrite lookup_empty in *; congruence).
  - constructor.
  - reflexivity.
  - set_solver.
Qed.

(** The token given out by a call of [runPython] is that of the promise
    it returns. *)
Lemma submit_token st :
  inv st -> String_of_N (incr (reqId st)) = token_of (length (promises st)).
Proof.
  intros I. unfold token_of. rewrite (inv_reqId _ I), incr_min. reflexivity.
Qed.

Lemma settle_new s ps :
  settle (length ps) s (ps ++ [Pending]) = ps ++ [s].
Proof.
  unfold settle. rewrite lookup_app_r, Nat.sub_diag by lia. simpl.
  rewrite insert_app_r_alt, Nat.sub_diag by lia. reflexivity.
Qed.

(** The state after a call of [runPython]: one more promise, pending
    unless the worker could not be created. *)
Lemma runPython_shape w code st :
  exists wk s posted',
    fst (runPython w code st) =
      mkState wk (<[String_of_N (incr (reqId st)) := length (promises st)]> (pending st))
              (incr (reqId st)) (promises st ++ [s]) (calls st) posted'
    /\ (s = Pending \/ exists e, w = Some e /\ worker st = false /\ s = Rejected e)
    /\ snd (runPython w code st) = length (promises st).
Proof.
  unfold runPython, getWorker; simpl.
  destruct (worker st) eqn:Hw; [|destruct w]; simpl; rewrite ?settle_new;
    eexists _, _, _; (split; [reflexivity|]); (split; [|reflexivity]); eauto.
Qed.

Lemma inv_submit w code st : inv st -> inv (fst (runPython w code st)).
Proof.
  intros I.
  destruct (runPython_shape w code st) as (wk & s & po & -> & _ & _).
  pose proof (submit_token st I) as Htok.
  split; simpl; rewrite ?length_app; simpl.
  - intros tok k. rewrite lookup_insert. case_decide.
    + intros [= <-]. lia.
    + intros Hk. apply (inv_bound _ I) in Hk. lia.
  - intros t1 t2 k. rewrite !lookup_insert. repeat case_decide; try congruence.
    + intros [= <-] Hk. apply (inv_bound _ I) in Hk. lia.
    + intros Hk [= <-]. apply (inv_bound _ I) in Hk. lia.
    + apply (inv_inj _ I).
  - intros tok k. rewrite lookup_insert. case_decide.
    + intros [= <-] Hin. apply (inv_calls _ I) in Hin. lia.
    + apply (inv_fresh _ I).
  - apply (inv_nodup _ I).
  - intros tok k. rewrite lookup_insert. case_decide.
    + intros [= <-]. congruence.
    + apply (inv_token _ I).
  - rewrite (inv_reqId _ I), incr_min. f_equal. lia.
  - intros k Hk. apply (inv_calls _ I) in Hk. lia.
Qed.

Lemma inv_onmessage data st : inv st -> inv (onmessage data st).
Proof.
  intros I. unfold onmessage.
  destruct (pending st !! res_id data) as [p|] eqn:Hp; [|exact I].
  split; simpl; rewrite ?settle_length.
  - intros tok k Hk. apply lookup_delete_Some in Hk as [_ Hk].
    apply (inv_bound _ I _ _ Hk).
  - intros t1 t2 k H1 H2.
    apply lookup_delete_Some in H1 as [_ H1].
    apply lookup_delete_Some in H2 as [_ H2].
    apply (inv_inj _ I _ _ _ H1 H2).
  - intros tok k Hk. apply lookup_delete_Some in Hk as [Hne Hk].
    rewrite fmap_app. simpl. intros Hin. apply elem_of_app in Hin as [Hin|Hin].
    + apply (inv_fresh _ I _ _ Hk Hin).
    + apply list_elem_of_singleton in Hin. subst k.
      apply Hne. apply (inv_inj _ I _ _ _ Hp Hk).
  - rewrite fmap_app. simpl. apply NoDup_app. split; [apply (inv_nodup _ I)|].
    split; [|apply NoDup_singleton].
    intros k Hk Hin. apply list_elem_of_singleton in Hin. subst k.
    apply (inv_fresh _ I _ _ Hp Hk).
  - intros tok k Hk. apply lookup_delete_Some in Hk as [_ Hk].
    apply (inv_token _ I _ _ Hk).
  - apply (inv_reqId _ I).
  - intros k. rewrite fmap_app. simpl. intros Hin.
    apply elem_of_app in Hin as [Hin|Hin].
    + apply (inv_calls _ I _ Hin).
    + apply list_elem_of_singleton in Hin. subst k. apply (inv_bound _ I _ _ Hp).
Qed.

Lemma inv_step st ev : inv st -> inv (step st ev).
Proof.
  intros I. destruct ev as [w code|data]; simpl.
  - apply inv_submit, I.
  - destruct (worker st); [apply inv_onmessage, I|exact I].
Qed.

Lemma inv_run evs st : inv st -> inv (run evs st).
Proof.
  unfold run. revert st. induction evs as [|ev evs IH]; simpl; intros st I; auto.
  apply IH, inv_step, I.
Qed.

Lemma run_snoc evs ev st : run (evs ++ [ev]) st = step (run evs st) ev.
Proof. unfold run. rewrite fold_left_app. reflexivity. Qed.

(** A response for a token that is not pending changes nothing. *)
Lemma onmessage_unknown data st :
  pending st !! res_id data = None -> onmessage data st = st.
Proof. intros H. unfold onmessage. rewrite H. reflexivity. Qed.

(** A response for a pending token invokes the [resolve] function stored
    under it, once, with the response's own output. *)
Lemma onmessage_known data st p :
  pending st !! res_id data = Some p ->
  calls (onmessage data st) = calls st ++ [(p, out data)]
  /\ pending (onmessage data st) = delete (res_id data) (pending st)
  /\ (promises st !! p = Some Pending ->
      promises (onmessage data st) !! p = Some (Fulfilled (out data)))
  /\ (forall k, k <> p -> promises (onmessage data st) !! k = promises st !! k).
Proof.
  intros H. unfold onmessage. rewrite H. simpl. repeat split.
  - apply settle_pending.
  - intros k Hk. apply settle_other, Hk.
Qed.

Lemma onmessage_idempotent data st :
  onmessage data (onmessage data st) = onmessage data st.
Proof.
  destruct (pending st !! res_id data) as [p|] eqn:Hp.
  - apply onmessage_unknown.
    destruct (onmessage_known data st p Hp) as (_ & -> & _).
    apply lookup_delete_eq.
  - rewrite (onmessage_unknown data st Hp). apply onmessage_unknown, Hp.
Qed.

Lemma lookup_snoc_old {A} (l : list A) (x y : A) k :
  (l ++ [x]) !! k = Some y -> y <> x -> l !! k = Some y.
Proof.
  intros H Hne. destruct (decide (k < length l)) as [Hlt|Hge].
  - rewrite lookup_app_l in H by exact Hlt. exact H.
  - rewrite lookup_app_r in H by lia.
    destruct (k - length l) as [|n]; simpl in H; [congruence|].
    rewrite lookup_nil in H. discriminate.
Qed.

(** A fulfilled promise got its value from a response carrying its token. *)
Lemma fulfilled_by_own_response evs k v :
  promises (run evs initial) !! k = Some (Fulfilled v) ->
  exists data, In (Deliver data) evs /\ res_id data = token_of k /\ v = out data.
Proof.
  induction evs as [|ev evs IH] using rev_ind.
  - simpl. rewrite lookup_nil. discriminate.
  - rewrite run_snoc.
    pose proof (inv_run evs initial inv_initial) as I.
    set (st := run evs initial) in *.
    assert (Hold : promises st !! k = Some (Fulfilled v) ->
                   exists data, In (Deliver data) (evs ++ [ev]) /\
                                res_id data = token_of k /\ v = out data).
    { intros H. destruct (IH H) as (d & Hin & Hd). exists d. split; [|exact Hd].
      apply in_or_app. auto. }
    destruct ev as [w code|data]; simpl.
    + destruct (runPython_shape w code st) as (wk & s & po & -> & Hs & _).
      simpl. intros Hk. apply Hold. eapply lookup_snoc_old; [exact Hk|].
      destruct Hs as [->|(e & _ & _ & ->)]; discriminate.
    + destruct (worker st); [|exact Hold].
      destruct (pending st !! res_id data) as [p|] eqn:Hp.
      * destruct (onmessage_known data st p Hp) as (_ & _ & Hset & Hoth).
        destruct (decide (k = p)) as [->|Hne].
        -- intros Hk.
           destruct (promises st !! p) as [[| |]|] eqn:Hpp.
           ++ rewrite (Hset eq_refl) in Hk. injection Hk as <-.
              exists data. split; [apply in_or_app; right; left; reflexivity|].
              split; [apply (inv_token _ I _ _ Hp)|reflexivity].
           ++ unfold onmessage in Hk. rewrite Hp in Hk. simpl in Hk.
              rewrite (settle_settled _ _ _ _ Hpp) in Hk by discriminate.
              apply Hold. congruence.
           ++ unfold onmessage in Hk. rewrite Hp in Hk. simpl in Hk.
              rewrite (settle_settled _ _ _ _ Hpp) in Hk by discriminate.
              congruence.
           ++ apply (inv_bound _ I) in Hp. apply lookup_ge_None in Hpp. lia.
        -- rewrite (Hoth _ Hne). exact Hold.
      * rewrite (onmessage_unknown _ _ Hp). exact Hold.
Qed.

(** When every call of [runPython] finds or can create its worker, no
    promise is rejected. *)
Definition worker_starts (ev : Event) : Prop :=
  match ev with
  | Submit w _ => w = None
  | Deliver _ => True
  end.

Lemma never_rejected evs k s :
  Forall worker_starts evs ->
  promises (run evs initial) !! k = Some s ->
  s = Pending \/ exists v, s = Fulfilled v.
Proof.
  revert k s. induction evs as [|ev evs IH] using rev_ind; intros k s Hall.
  - simpl. rewrite lookup_nil. discriminate.
  - apply Forall_app in Hall as [Hall Hev]. apply Forall_inv in Hev.
    rewrite run_snoc. set (st := run evs initial) in *.
    destruct ev as [w code|data]; simpl in *.
    + destruct (runPython_shape w code st) as (wk & s0 & po & -> & Hs & _).
      simpl. intros Hk.
      destruct Hs as [->|(e & ? & _)]; [|congruence].
      destruct s as [|v|e]; [auto|eauto|].
      apply (IH k _ Hall). eapply lookup_snoc_old; eauto.
    + destruct (worker st); [|apply IH, Hall].
      unfold onmessage. destruct (pending st !! res_id data) as [p|]; [|apply IH, Hall].
      simpl. destruct (decide (k = p)) as [->|Hne].
      * unfold settle. destruct (promises st !! p) as [[| |]|] eqn:Hpp.
        -- rewrite list_lookup_insert_eq by (eapply lookup_lt_Some; eauto).
           intros [= <-]. eauto.
        -- rewrite Hpp. intros [= <-]. eauto.
        -- rewrite Hpp. intros [= <-]. eapply IH; eauto.
        -- rewrite Hpp. discriminate.
      * rewrite settle_other by exact Hne. apply IH, Hall.
Qed.

Lemma append_empty_r (s : string) : s +:+ EmptyString = s.
Proof. induction s as [|c s IH]; simpl; [reflexivity|]. rewrite IH. reflexivity. Qed.

(** What the worker answers for a piece of code: what [run] returns;
    or, when [run] throws, empty output and the description of what was
    thrown. *)
Definition answer (py : Worker.Pyodide) (pyodide : option (Worker.interp py))
    (code : string) : Output :=
  match snd (Worker.run py pyodide code) with
  | inr r => r
  | inl err => mkOutput EmptyString (String_of_thrown err)
  end.

(** The worker answers every request once, under the request's token. *)
Lemma worker_reply py pyodide q :
  let data := snd (Worker.onmessage py pyodide q) in
  res_id data = req_id q /\ out data = answer py pyodide (req_code q).
Proof.
  unfold Worker.onmessage, answer.
  destruct (Worker.run py pyodide (req_code q)) as [p [e|r]]; simpl; auto.
  destruct r; auto.
Qed.

(** In the state [i] the captured streams can be read and put back, and
    they hold [o] and [e]. *)
Definition holds (py : Worker.Pyodide) (i : Worker.interp py) (o e : string) : Prop :=
  exists i1 i2 u i3,
    Worker.runPython py Worker.stdout_src i = (inr o, i1)
    /\ Worker.runPython py Worker.stderr_src i1 = (inr e, i2)
    /\ Worker.runPython py Worker.restore_src i2 = (inr u, i3).

(** In the state [i], writing [text] to [sys.stderr] as [run] does it
    throws nothing and appends [text] to the captured error stream. *)
Definition appends (py : Worker.Pyodide) (i : Worker.interp py) (text : string) : Prop :=
  exists v i',
    Worker.runPython py (Worker.write_src text) i = (inr v, i')
    /\ forall o e, holds py i o e -> holds py i' o (e +:+ text).

(** What [run] returns when the streams are in place after the code. *)
Lemma body_captures py code i v i1 raised i2 o e :
  Worker.runPython py Worker.redirect_src i = (inr v, i1) ->
  Worker.runPythonAsync py code i1 = (raised, i2) ->
  holds py i2 o e ->
  (forall err, raised = Some err -> appends py i2 (String_of_thrown err)) ->
  fst (Worker.body py code i)
  = inr (mkOutput o (match raised with
                     | Some err => e +:+ String_of_thrown err
                     | None => e
                     end)).
Proof.
  intros Hr Ha Hh Hw. unfold Worker.body, Worker.pbind, Worker.guarded. rewrite Hr, Ha.
  assert (G : forall j o' e', holds py j o' e' ->
    fst (match Worker.runPython py Worker.stdout_src j with
         | (inr a, j1) =>
             match Worker.runPython py Worker.stderr_src j1 with
             | (inr b, j2) =>
                 match Worker.runPython py Worker.restore_src j2 with
                 | (inr _, j3) => Worker.pret (mkOutput a b) j3
                 | (inl x, j3) => (inl x, j3)
                 end
             | (inl x, j2) => (inl x, j2)
             end
         | (inl x, j1) => (inl x, j1)
         end) = inr (mkOutput o' e')).
  { intros j o' e' (j1 & j2 & u & j3 & E1 & E2 & E3). rewrite E1, E2, E3. reflexivity. }
  destruct raised as [err|].
  - destruct (Hw err eq_refl) as (w & i' & Ew & Hh'). rewrite Ew. apply G, Hh', Hh.
  - apply G, Hh.
Qed.

(** A call of [runPython] that has its worker posts its request, and the
    answer to that request fulfils the promise of the call. *)
Lemma submit_then_reply st code data :
  let st1 := fst (runPython None code st) in
  let p := snd (runPython None code st) in
  exists q, last (posted st1) = Some q /\ req_code q = code /\
    (res_id data = req_id q ->
     promises (onmessage data st1) !! p = Some (Fulfilled (out data))).
Proof.
  unfold runPython, getWorker. simpl.
  exists (mkRequest (String_of_N (incr (reqId st))) code).
  assert (Hgoal : forall wk po,
    res_id data = String_of_N (incr (reqId st)) ->
    promises (onmessage data
      (mkState wk (<[String_of_N (incr (reqId st)) := length (promises st)]> (pending st))
               (incr (reqId st)) (promises st ++ [Pending]) (calls st) po))
      !! length (promises st) = Some (Fulfilled (out data))).
  { intros wk po Hid. unfold onmessage. simpl. rewrite Hid, lookup_insert_eq. simpl.
    rewrite settle_new. rewrite lookup_app_r, Nat.sub_diag by lia. reflexivity. }
  destruct (worker st); simpl; rewrite last_snoc; auto.
Qed.

(** C2.  After any sequence of [runPython] calls and of responses, in
    any order: no [resolve] function has been invoked twice; a further
    response invokes at most one, the one stored under the token it
    carries, which belongs to the promise that was given that token, and
    hands it the response's own stdout and stderr, leaving every other
    promise as it was; a response whose token is not pending (unknown,
    or answered before) leaves the state unchanged; and every fulfilled
    promise holds the output of a response that carried its token. *)
Theorem C2_responses_correlate_by_token :
  forall (evs : list Event),
    let st := run evs initial in
    NoDup (calls st).*1
    /\ (forall data,
          match pending st !! res_id data with
          | Some p =>
              calls (onmessage data st) = calls st ++ [(p, out data)]
              /\ res_id data = token_of p
              /\ pending (onmessage data st) = delete (res_id data) (pending st)
              /\ (promises st !! p = Some Pending ->
                  promises (onmessage data st) !! p = Some (Fulfilled (out data)))
              /\ (forall k, k <> p ->
                  promises (onmessage data st) !! k = promises st !! k)
          | None => onmessage data st = st
          end)
    /\ (forall data, onmessage data (onmessage data st) = onmessage data st)
    /\ (forall k v,
          promises st !! k = Some (Fulfilled v) ->
          exists data,
            In (Deliver data) evs /\ res_id data = token_of k /\ v = out data).
Proof.
  intros evs st.
  pose proof (inv_run evs initial inv_initial) as I. fold st in I.
  split; [apply (inv_nodup _ I)|].
  split; [|split].
  - intros data. destruct (pending st !! res_id data) as [p|] eqn:Hp.
    + destruct (onmessage_known data st p Hp) as (H1 & H2 & H3 & H4).
      pose proof (inv_token _ I _ _ Hp). auto.
    + apply onmessage_unknown, Hp.
  - intros data. apply onmessage_idempotent.
  - intros k v. apply fulfilled_by_own_response.
Qed.

(** Two requests answered in the opposite order each get their own
    output. *)
Example swapped_arrival :
  let evs := [Submit None "print(1)"; Submit None "print(2)";
              Deliver (mkResponse "2" "2" EmptyString);
              Deliver (mkResponse "1" "1" EmptyString);
              Deliver (mkResponse "1" "again" EmptyString);
              Deliver (mkResponse "7" "stray" EmptyString)] in
  promises (run evs initial) =
    [Fulfilled (mkOutput "1" EmptyString); Fulfilled (mkOutput "2" EmptyString)]
  /\ calls (run evs initial) =
    [(1, mkOutput "2" EmptyString); (0, mkOutput "1" EmptyString)].
Proof. vm_compute. split; reflexivity. Qed.

Lemma C2_responses_correlate_witness :
  let evs := [Submit None "print(1)"; Submit None "print(2)";
              Deliver (mkResponse "2" "2" EmptyString);
              Deliver (mkResponse "1" "1" EmptyString)] in
  promises (run evs initial) !! 0 = Some (Fulfilled (mkOutput "1" EmptyString))
  /\ exists data,
       In (Deliver data) evs /\ res_id data = token_of 0
       /\ mkOutput "1" EmptyString = out data.
Proof.
  intros evs. split; [reflexivity|].
  destruct (C2_responses_correlate_by_token evs) as (_ & _ & _ & Hful).
  exact (Hful 0 (mkOutput "1" EmptyString) eq_refl).
Defined.

(** ** An interpreter to run the worker on *)

(** A small interpreter that keeps the two captured streams.  Whatever
    the code, it prints [out], warns [warn ] and raises [boom]; code
    that begins with [_stderr = StringIO()] has bound this name anew
    before, so that [_stderr.getvalue()] reads a stream that nothing
    was written to.  Without the imports [StringIO] is not defined.
    The text that is written is taken from between the quotes (the
    texts of these examples need no escape). *)
Record Demo : Type := mkDemo {
  imported : bool;
  out_buf : string;
  err_buf : string;
  own_stderr : bool;
}.

Definition boom : Thrown := ErrorObj "PythonError" "boom".

Definition demo_runPython (src : string) (d : Demo) : result string * Demo :=
  if String.eqb src Worker.imports_src
  then (inr EmptyString, mkDemo true (out_buf d) (err_buf d) (own_stderr d))
  else if String.eqb src Worker.redirect_src then
    if imported d then (inr EmptyString, mkDemo true EmptyString EmptyString true)
    else (inl (ErrorObj "PythonError" "NameError: name 'StringIO' is not defined"), d)
  else if String.eqb src Worker.stdout_src then (inr (out_buf d), d)
  else if String.eqb src Worker.stderr_src
  then (inr (if own_stderr d then err_buf d else EmptyString), d)
  else if String.prefix "sys.stderr.write(" src then
    (inr EmptyString,
     mkDemo (imported d) (out_buf d)
            (err_buf d +:+ substring 18 (String.length src - 20) src) (own_stderr d))
  else (inr EmptyString, d).

Definition demo_runPythonAsync (code : string) (d : Demo) : option Thrown * Demo :=
  (Some boom,
   mkDemo (imported d) (out_buf d +:+ "out") (err_buf d +:+ "warn ")
          (own_stderr d && negb (String.prefix "_stderr = StringIO()" code))).

Definition demo_py : Worker.Pyodide :=
  Worker.mkPyodide Demo None (inr (mkDemo false EmptyString EmptyString false))
    (fun d => (None, d)) demo_runPython demo_runPythonAsync.

(** The same, but the packages cannot be loaded. *)
Definition offline_py : Worker.Pyodide :=
  Worker.mkPyodide Demo None (inr (mkDemo false EmptyString EmptyString false))
    (fun d => (Some (ErrorObj "Error" "Failed to fetch"), d))
    demo_runPython demo_runPythonAsync.



(** Code that binds [_stderr] anew loses what it raises: the text is
    written to [sys.stderr], and [_stderr.getvalue()] reads the new
    stream. *)
Example fault_lost_when_stderr_is_bound_anew :
  answer demo_py None ("_stderr = StringIO()" +:+ Worker.nl +:+ "raise boom")
  = mkOutput "out" EmptyString.
Proof. vm_compute. reflexivity. Qed.

(** When the packages cannot be loaded, [pyodide] is set all the same:
    the first answer describes the failure, and the next request runs
    without the imports. *)
Example second_request_after_failed_init :
  let first := Worker.onmessage offline_py None (mkRequest "1" "print(1)") in
  out (snd first) = mkOutput EmptyString "Error: Failed to fetch"
  /\ out (snd (Worker.onmessage offline_py (fst first) (mkRequest "2" "print(1)")))
     = mkOutput EmptyString "PythonError: NameError: name 'StringIO' is not defined".
Proof. vm_compute. split; reflexivity. Qed.


End BridgeFacts.

(* ================================================================== *)
(** * Persistence: saving *)
(* ================================================================== *)

Module SaveFacts.

Import Svg Project JsFacts.
Local Open Scope list_scope.

(** The four operations that write one file. *)
Definition file_ops (name content : string) : list FsOp :=
  [OpGetFileHandle name; OpCreateWritable name; OpWrite name content; OpClose name].

(** The operations that write the documents of [cells], the first of
    them having index [i]. *)
Fixpoint cell_ops (cells : list Cell) (i : nat) (strokeWidth canvasWidth : number) : list FsOp :=
  match cells with
  | [] => []
  | cell :: rest =>
      file_ops (cell_filename i) (cell_document cell strokeWidth canvasWidth)
      ++ cell_ops rest (S i) strokeWidth canvasWidth
  end.

(** ** Document names *)

(** [cell_filename i] is [cell-], the digits of [i + 1] padded to three
    places, and [.svg]. *)
Lemma cell_filename_digits (i : nat) :
  exists ds,
    cell_filename i = "cell-" +:+ ds +:+ ".svg"
    /\ forallb_string is_digit ds = true
    /\ digits_value ds = N.of_nat (i + 1)
    /\ 3 <= String.length ds
    /\ (i + 1 < 1000 -> String.length ds = 3).
Proof.
  exists (padStart0 3 (String_of_N (N.of_nat (i + 1)))).
  unfold String_of_N. split; [reflexivity|].
  split; [apply padStart0_all_digits, digits_all_digits|].
  split; [rewrite padStart0_value; apply digits_value_digits|].
  rewrite padStart0_length. split; [lia|]. intros Hi.
  assert (String.length (digits (N.of_nat (i + 1))) <= 3); [|lia].
  apply digits_short; [|lia]. simpl. lia.
Qed.

(** The index can be read back from the name. *)
Definition index_of_name (name : string) : N :=
  digits_value (fst (span is_digit (substring 5 (String.length name - 5) name))).

Lemma substring_drop_prefix (a b : string) :
  substring (String.length a) (String.length (a +:+ b) - String.length a) (a +:+ b) = b.
Proof.
  induction a as [|c a IH]; simpl.
  - rewrite Nat.sub_0_r. apply substring_whole.
  - exact IH.
Qed.

Lemma index_of_cell_filename (i : nat) : index_of_name (cell_filename i) = N.of_nat (i + 1).
Proof.
  destruct (cell_filename_digits i) as (ds & -> & Hds & Hv & _).
  unfold index_of_name.
  change 5 with (String.length "cell-").
  rewrite substring_drop_prefix, span_run; [exact Hv|exact Hds|reflexivity].
Qed.

Lemma cell_filename_inj (i j : nat) : cell_filename i = cell_filename j -> i = j.
Proof.
  intros E. apply (f_equal index_of_name) in E.
  rewrite !index_of_cell_filename in E. lia.
Qed.

Lemma cell_filename_not_manifest (i : nat) : cell_filename i <> "manifest.json".
Proof. unfold cell_filename. simpl. discriminate. Qed.

(** ** The log of a save *)

Lemma cell_ops_names cells : forall i sw cw,
  Forall (fun o => op_name o <> "manifest.json") (cell_ops cells i sw cw).
Proof.
  induction cells as [|c cells IH]; intros i sw cw; simpl; [constructor|].
  repeat (constructor; [apply cell_filename_not_manifest|]). apply IH.
Qed.

Lemma cell_ops_lookup cells : forall i j sw cw cell,
  cells !! j = Some cell ->
  exists l1 l2,
    cell_ops cells i sw cw =
      l1 ++ file_ops (cell_filename (i + j)) (cell_document cell sw cw) ++ l2.
Proof.
  induction cells as [|c cells IH]; intros i j sw cw cell Hj; [discriminate|].
  destruct j as [|j]; simpl in Hj.
  - injection Hj as ->. exists [], (cell_ops cells (S i) sw cw).
    rewrite Nat.add_0_r. reflexivity.
  - destruct (IH (S i) j sw cw cell Hj) as (l1 & l2 & E).
    exists (file_ops (cell_filename i) (cell_document c sw cw) ++ l1), l2.
    cbn [cell_ops]. rewrite E, <- app_assoc.
    replace (S i + j) with (i + S j) by lia. reflexivity.
Qed.

Section log.

Variable fault : FsOp -> option Thrown.

(** Writing a file appends an initial part of its four operations, all
    of them unless an operation throws. *)
Lemma write_file_log name content log :
  exists k r,
    write_file fault name content log = (log ++ take k (file_ops name content), r)
    /\ (forall u, r = inr u -> k = 4).
Proof.
  unfold write_file, wbind, perform, file_ops.
  destruct (fault (OpGetFileHandle name)) as [e|].
  { exists 0, (inl e). rewrite app_nil_r. split; [reflexivity|discriminate]. }
  destruct (fault (OpCreateWritable name)) as [e|].
  { exists 1, (inl e). split; [reflexivity|discriminate]. }
  destruct (fault (OpWrite name content)) as [e|].
  { exists 2, (inl e). rewrite <- app_assoc. split; [reflexivity|discriminate]. }
  destruct (fault (OpClose name)) as [e|].
  { exists 3, (inl e). rewrite <- !app_assoc. split; [reflexivity|discriminate]. }
  exists 4, (inr tt). rewrite <- !app_assoc. split; reflexivity.
Qed.

(** Writing the documents logs operations on documents only; when it
    returns, all of them. *)
Lemma write_cells_log cells : forall i sw cw log,
  exists ops r,
    write_cells fault cells i sw cw log = (log ++ ops, r)
    /\ Forall (fun o => op_name o <> "manifest.json") ops
    /\ (forall u, r = inr u -> ops = cell_ops cells i sw cw).
Proof.
  induction cells as [|c cells IH]; intros i sw cw log.
  - exists [], (inr tt). simpl. unfold wret. rewrite app_nil_r. auto.
  - cbn [write_cells]. unfold wbind at 1.
    destruct (write_file_log (cell_filename i) (cell_document c sw cw) log)
      as (k & r & -> & Hk).
    destruct r as [e|[]].
    + exists (take k (file_ops (cell_filename i) (cell_document c sw cw))), (inl e).
      split; [reflexivity|]. split; [|discriminate].
      apply Forall_take. repeat (constructor; [apply cell_filename_not_manifest|]).
      constructor.
    + rewrite (Hk tt eq_refl).
      change (take 4 (file_ops (cell_filename i) (cell_document c sw cw)))
        with (file_ops (cell_filename i) (cell_document c sw cw)).
      destruct (IH (S i) sw cw (log ++ file_ops (cell_filename i) (cell_document c sw cw)))
        as (ops & r & -> & Hnames & Hall).
      exists (file_ops (cell_filename i) (cell_document c sw cw) ++ ops), r.
      rewrite app_assoc. split; [reflexivity|]. split.
      * apply Forall_app. split; [|exact Hnames].
        repeat (constructor; [apply cell_filename_not_manifest|]). constructor.
      * intros u Hu. rewrite (Hall u Hu). reflexivity.
Qed.

(** When no operation throws, all of them are performed. *)
Lemma write_file_unhindered name content log :
  (forall o, fault o = None) ->
  write_file fault name content log = (log ++ file_ops name content, inr tt).
Proof.
  intros Hf. unfold write_file, wbind, perform, file_ops. rewrite !Hf.
  rewrite <- !app_assoc. reflexivity.
Qed.

Lemma write_cells_unhindered cells : forall i sw cw log,
  (forall o, fault o = None) ->
  write_cells fault cells i sw cw log = (log ++ cell_ops cells i sw cw, inr tt).
Proof.
  induction cells as [|c cells IH]; intros i sw cw log Hf.
  - simpl. unfold wret. rewrite app_nil_r. reflexivity.
  - cbn [write_cells cell_ops]. unfold wbind at 1.
    rewrite write_file_unhindered by exact Hf. rewrite IH by exact Hf.
    rewrite <- app_assoc. reflexivity.
Qed.

End log.

Section save.

Context `{Host}.

(** The log of a save: operations on documents, then operations on the
    manifest; the latter only after all the former. *)
Lemma saveProject_log hasFsa picked fault cells sw cw :
  exists ops k,
    fst (saveProject hasFsa picked fault cells sw cw) =
      ops ++ take k (file_ops "manifest.json" (JSON_stringify (createManifest cells sw)))
    /\ Forall (fun o => op_name o <> "manifest.json") ops
    /\ (0 < k -> ops = cell_ops cells 0 sw cw)
    /\ (snd (saveProject hasFsa picked fault cells sw cw) = save_success ->
        ops = cell_ops cells 0 sw cw /\ k = 4).
Proof.
  unfold saveProject.
  destruct hasFsa; simpl.
  2: { exists [], 0. repeat split; try constructor; try lia; discriminate. }
  destruct picked as [e|u]; simpl.
  { exists [], 0. repeat split; try constructor; try lia; discriminate. }
  unfold save_directory, wbind.
  destruct (write_cells_log fault cells 0 sw cw []) as (ops & r & E & Hn & Hall).
  rewrite E. simpl.
  destruct r as [e|[]].
  - exists ops, 0. rewrite app_nil_r. repeat split; auto; try lia; discriminate.
  - destruct (write_file_log fault "manifest.json"
                (JSON_stringify (createManifest cells sw)) ops) as (k & r & -> & Hk).
    exists ops, k. destruct r as [e|[]]; simpl;
      repeat split; eauto; try discriminate.
Qed.

(** Whatever stands in the log before an operation on the manifest
    begins with the complete writes of all the documents; and nothing
    but operations on the manifest comes after it. *)
Lemma documents_first hasFsa picked fault cells sw cw before op after :
  fst (saveProject hasFsa picked fault cells sw cw) = before ++ op :: after ->
  op_name op = "manifest.json" ->
  (exists rest,
      before = cell_ops cells 0 sw cw ++ rest
      /\ Forall (fun o => op_name o = "manifest.json") rest)
  /\ Forall (fun o => op_name o = "manifest.json") after.
Proof.
  intros E Hop.
  destruct (saveProject_log hasFsa picked fault cells sw cw)
    as (ops & k & Hlog & Hn & Hk & _).
  rewrite Hlog in E. clear Hlog.
  assert (Hm : Forall (fun o => op_name o = "manifest.json")
                 (take k (file_ops "manifest.json" (JSON_stringify (createManifest cells sw))))).
  { apply Forall_take. repeat constructor. }
  apply app_eq_inv in E as [(l & E1 & E2)|(l & E1 & E2)].
  - destruct l as [|o l].
    + rewrite app_nil_r in E1. subst ops. simpl in E2.
      assert (0 < k) as Hpos.
      { destruct k; [|lia]. simpl in E2. discriminate. }
      split.
      * exists []. rewrite app_nil_r. split; [apply Hk, Hpos|constructor].
      * rewrite <- E2 in Hm. apply Forall_cons in Hm as [_ Hm]. exact Hm.
    + injection E2 as <- _. subst ops.
      apply Forall_app in Hn as [_ Hn]. apply Forall_inv in Hn. contradiction.
  - assert (0 < k) as Hpos.
    { destruct k; [|lia]. simpl in E2. destruct l; discriminate. }
    rewrite E2 in Hm. apply Forall_app in Hm as [Hm1 Hm2].
    apply Forall_cons in Hm2 as [_ Hm2]. split; [|exact Hm2].
    exists l. rewrite E1, (Hk Hpos). split; [reflexivity|exact Hm1].
Qed.

Lemma saveProject_unhindered fault cells sw cw u :
  (forall o, fault o = None) ->
  saveProject true (inr u) fault cells sw cw
  = (cell_ops cells 0 sw cw
       ++ file_ops "manifest.json" (JSON_stringify (createManifest cells sw)),
     save_success).
Proof.
  intros Hf. unfold saveProject, save_directory, wbind. simpl.
  rewrite write_cells_unhindered by exact Hf. simpl.
  rewrite write_file_unhindered by exact Hf. reflexivity.
Qed.

(** Whatever is written to [manifest.json], also in a save that is
    aborted, is the manifest of the cells. *)
Lemma manifest_content hasFsa picked fault cells sw cw content :
  OpWrite "manifest.json" content ∈ fst (saveProject hasFsa picked fault cells sw cw) ->
  content = JSON_stringify (createManifest cells sw).
Proof.
  destruct (saveProject_log hasFsa picked fault cells sw cw) as (ops & k & -> & Hn & _).
  intros Hin. apply elem_of_app in Hin as [Hin|Hin].
  - rewrite Forall_forall in Hn. exfalso. apply (Hn _ Hin). reflexivity.
  - apply elem_of_take in Hin as (j & Hj & _). unfold file_ops in Hj.
    destruct j as [|[|[|[|j]]]]; simpl in Hj; try discriminate.
    injection Hj as <-. reflexivity.
Qed.

(** The archive that is exported holds the manifest under its name. *)
Lemma zip_add_lookup zip name content :
  lookup_name name (zip_add zip name content) = Some content.
Proof.
  induction zip as [|[k v] zip IH]; simpl.
  - rewrite String.eqb_refl. reflexivity.
  - destruct (String.eqb k name) eqn:E; simpl; rewrite E; [reflexivity|exact IH].
Qed.

Lemma createManifest_entries cells sw :
  exists entries,
    createManifest cells sw = mkManifest 1 (Some entries) (Some sw)
    /\ length entries = length cells
    /\ forall i,
         entries !! i =
           (fun cell => mkManifestCell (cell_filename i) (cell_height cell)
                                       (cell_recognizedCode cell)) <$> cells !! i.
Proof.
  eexists. split; [reflexivity|]. split; [apply length_imap|].
  intros i. apply list_lookup_imap.
Qed.

End save.

Definition demo_cells : list Cell :=
  [mkCell "k1" [[mkPoint (num 1) (num 2) (num 1) (num 0); mkPoint (num 3) (num 4) (num 1) (num 5)]]
          (Some "print(1)") None None None None None (Some (num 200));
   mkCell "k2" [] None None None None None None None].

Definition no_fault : FsOp -> option Thrown := fun _ => None.

(** C7.  The manifest built at a save has one entry per cell, in the
    order of the cells; the entry at position [i] names the document
    [cell-] + (i + 1 in decimal, padded with zeros to three digits) +
    [.svg] and carries the height and the recognized code of the cell at
    position [i]; nothing else of the cells enters the manifest.  A save
    through the directory handle in which nothing throws succeeds and
    writes exactly this manifest (after the documents); so does every
    save that reports success, and whatever a save writes to
    [manifest.json] is this manifest.  An export succeeds whenever JSZip
    can be loaded and the archive handed over, and an export that
    reports success has handed over an archive that holds this manifest
    under the name [manifest.json]. *)
Theorem C7_manifest_mirrors_cells :
  forall (H : Host) (cells : list Cell) (strokeWidth canvasWidth : number),
    let manifest := JSON_stringify (createManifest cells strokeWidth) in
    (exists entries,
        createManifest cells strokeWidth = mkManifest 1 (Some entries) (Some strokeWidth)
        /\ length entries = length cells
        /\ forall i,
             entries !! i =
               (fun cell => mkManifestCell (cell_filename i) (cell_height cell)
                                           (cell_recognizedCode cell)) <$> cells !! i)
    /\ (forall i, exists ds,
           cell_filename i = "cell-" +:+ ds +:+ ".svg"
           /\ forallb_string is_digit ds = true
           /\ digits_value ds = N.of_nat (i + 1)
           /\ 3 <= String.length ds
           /\ (i + 1 < 1000 -> String.length ds = 3))
    /\ (forall cells',
           map (fun c => (cell_height c, cell_recognizedCode c)) cells'
           = map (fun c => (cell_height c, cell_recognizedCode c)) cells ->
           createManifest cells' strokeWidth = createManifest cells strokeWidth)
    /\ (forall u fault,
           (forall o, fault o = None) ->
           saveProject true (inr u) fault cells strokeWidth canvasWidth
           = (cell_ops cells 0 strokeWidth canvasWidth ++ file_ops "manifest.json" manifest,
              save_success))
    /\ (forall hasFsa picked fault,
           (snd (saveProject hasFsa picked fault cells strokeWidth canvasWidth) = save_success ->
            fst (saveProject hasFsa picked fault cells strokeWidth canvasWidth)
            = cell_ops cells 0 strokeWidth canvasWidth ++ file_ops "manifest.json" manifest)
           /\ (forall content,
                 OpWrite "manifest.json" content
                 ∈ fst (saveProject hasFsa picked fault cells strokeWidth canvasWidth) ->
                 content = manifest))
    /\ (forall u u', exists zip,
           exportProjectAsZip (inr u) (inr u') cells strokeWidth canvasWidth
           = (Some zip, save_success)
           /\ lookup_name "manifest.json" zip = Some manifest)
    /\ (forall jszip download,
           snd (exportProjectAsZip jszip download cells strokeWidth canvasWidth) = save_success ->
           exists zip,
             fst (exportProjectAsZip jszip download cells strokeWidth canvasWidth) = Some zip
             /\ lookup_name "manifest.json" zip = Some manifest).
Proof.
  intros H cells sw cw manifest.
  split; [apply createManifest_entries|].
  split; [apply cell_filename_digits|].
  split; [|split; [|split; [|split]]].
  - intros cells' E. unfold createManifest. do 2 f_equal.
    assert (G : forall f : nat -> string, forall cells' : list Cell,
      map (fun c => (cell_height c, cell_recognizedCode c)) cells'
      = map (fun c => (cell_height c, cell_recognizedCode c)) cells ->
      imap (fun idx cell => mkManifestCell (f idx) (cell_height cell) (cell_recognizedCode cell)) cells'
      = imap (fun idx cell => mkManifestCell (f idx) (cell_height cell) (cell_recognizedCode cell)) cells).
    { clear. induction cells as [|c cells IH]; intros f [|c' cells'] E; try discriminate; [reflexivity|].
      simpl in E. injection E as E1 E2 E3. simpl. rewrite E1, E2. f_equal.
      apply (IH (fun i => f (S i))), E3. }
    apply (G cell_filename cells' E).
  - intros u fault Hf. apply saveProject_unhindered, Hf.
  - intros hasFsa picked fault. split.
    + intros Hs.
      destruct (saveProject_log hasFsa picked fault cells sw cw)
        as (ops & k & -> & _ & _ & Hok).
      destruct (Hok Hs) as [-> ->]. reflexivity.
    + intros content. apply manifest_content.
  - intros u u'. eexists. split; [reflexivity|]. apply zip_add_lookup.
  - intros jszip download. unfold exportProjectAsZip.
    destruct jszip as [e|u]; simpl; [discriminate|].
    destruct download as [e|u']; simpl; [discriminate|].
    intros _. eexists. split; [reflexivity|]. apply zip_add_lookup.
Qed.

Lemma C7_manifest_mirrors_cells_witness :
  saveProject (H := Json.host []) true (inr tt) no_fault demo_cells (num 4) (num 800)
  = (cell_ops demo_cells 0 (num 4) (num 800)
       ++ file_ops "manifest.json" (Json.stringify (createManifest demo_cells (num 4))),
     save_success)
  /\ exists zip,
       exportProjectAsZip (H := Json.host []) (inr tt) (inr tt) demo_cells (num 4) (num 800)
       = (Some zip, save_success)
       /\ lookup_name "manifest.json" zip
          = Some (Json.stringify (createManifest demo_cells (num 4))).
Proof.
  destruct (C7_manifest_mirrors_cells (Json.host []) demo_cells (num 4) (num 800))
    as (_ & _ & _ & Hsave & _ & Hzip & _).
  split.
  - exact (Hsave tt no_fault (fun _ => eq_refl)).
  - exact (Hzip tt tt).
Defined.

Example manifest_of_demo_cells :
  createManifest demo_cells (num 4) =
    mkManifest 1
      (Some [mkManifestCell "cell-001.svg" (Some (num 200)) (Some "print(1)");
             mkManifestCell "cell-002.svg" None None])
      (Some (num 4)).
Proof. reflexivity. Qed.

Example thousandth_document : cell_filename 999 = "cell-1000.svg".
Proof. reflexivity. Qed.

(** C8.  In the log of a save through the directory handle, whatever
    precedes an operation on [manifest.json] begins with the complete
    writes (handle, writable, write, close) of the documents of all the
    cells, followed by nothing but earlier operations on the manifest,
    and nothing but operations on the manifest follows it: the manifest
    is written last.  This holds of every save, also of one that an
    operation aborts. *)
Theorem C8_documents_written_before_manifest :
  forall (H : Host) hasFsa picked fault (cells : list Cell)
         (strokeWidth canvasWidth : number) before op after,
    fst (saveProject hasFsa picked fault cells strokeWidth canvasWidth)
    = before ++ op :: after ->
    op_name op = "manifest.json" ->
    (exists rest,
        before = cell_ops cells 0 strokeWidth canvasWidth ++ rest
        /\ Forall (fun o => op_name o = "manifest.json") rest)
    /\ Forall (fun o => op_name o = "manifest.json") after
    /\ Forall (fun o => op_name o <> "manifest.json")
              (cell_ops cells 0 strokeWidth canvasWidth)
    /\ (forall i cell, cells !! i = Some cell ->
          exists l1 l2,
            cell_ops cells 0 strokeWidth canvasWidth
            = l1 ++ file_ops (cell_filename i) (cell_document cell strokeWidth canvasWidth) ++ l2).
Proof.
  intros H hasFsa picked fault cells sw cw before op after E Hop.
  destruct (documents_first hasFsa picked fault cells sw cw before op after E Hop)
    as [Hb Ha].
  split; [exact Hb|]. split; [exact Ha|].
  split; [apply cell_ops_names|].
  intros i cell Hi. apply (cell_ops_lookup cells 0 i sw cw cell Hi).
Qed.

(** A save that is aborted while the manifest is being written. *)
Definition manifest_write_fails : FsOp -> option Thrown :=
  fun o =>
    match o with
    | OpWrite "manifest.json" _ => Some (ErrorObj "NotAllowedError" "The request is not allowed.")
    | _ => None
    end.

Lemma C8_documents_written_before_manifest_witness :
  exists rest,
    cell_ops demo_cells 0 (num 4) (num 800) ++ [OpGetFileHandle "manifest.json"]
    = cell_ops demo_cells 0 (num 4) (num 800) ++ rest
    /\ Forall (fun o => op_name o = "manifest.json") rest.
Proof.
  refine (proj1 (C8_documents_written_before_manifest (Json.host []) true (inr tt)
            manifest_write_fails demo_cells (num 4) (num 800)
            (cell_ops demo_cells 0 (num 4) (num 800) ++ [OpGetFileHandle "manifest.json"])
            (OpCreateWritable "manifest.json") [] _ _)).
  - vm_compute. reflexivity.
  - reflexivity.
Defined.

End SaveFacts.

(* ================================================================== *)
(** * Persistence: loading *)
(* ================================================================== *)

Module LoadFacts.

Import Svg Project JsFacts.
Local Open Scope list_scope.

(** The text of a document of the directory, when it can be fetched. *)
Definition fetch_live (d : Directory) (name : string) : option string :=
  match (await fileHandle := getFileHandle d name in read_text fileHandle) with
  | inr text => Some text
  | inl _ => None
  end.

(** The text of a member of the archive, when it is there and can be
    read. *)
Definition fetch_zip (zip : Archive) (name : string) : option string :=
  match zip_file zip name with
  | Some (Readable text) => Some text
  | _ => None
  end.

(** The manifest entries whose document can be fetched, in manifest
    order, each with the text of its document. *)
Definition loadable (fetch : string -> option string) (infos : list ManifestCell)
    : list (ManifestCell * string) :=
  omap (fun info => pair info <$> fetch (mc_file info)) infos.

(** No member that the manifest refers to fails to be read. *)
Definition members_readable (zip : Archive) (infos : list ManifestCell) : Prop :=
  forall info, info ∈ infos -> forall e, zip_file zip (mc_file info) <> Some (Unreadable e).

Lemma loadable_entries fetch infos :
  (loadable fetch infos).*1 = filter (fun info => is_Some (fetch (mc_file info))) infos.
Proof.
  induction infos as [|info infos IH]; [reflexivity|].
  unfold loadable in *. cbn [omap list_omap]. rewrite filter_cons.
  destruct (decide (is_Some (fetch (mc_file info)))) as [[text E]|Hn].
  - rewrite E. simpl. f_equal. exact IH.
  - destruct (fetch (mc_file info)) as [text|]; [exfalso; eauto|]. exact IH.
Qed.

Lemma loadable_fetched fetch infos it :
  it ∈ loadable fetch infos -> it.1 ∈ infos /\ fetch (mc_file it.1) = Some it.2.
Proof.
  unfold loadable. rewrite list_elem_of_omap. intros (info & Hin & E).
  destruct (fetch (mc_file info)) as [text|] eqn:F; simpl in E; [|discriminate].
  injection E as <-. simpl. auto.
Qed.

Lemma loadable_length fetch infos :
  length (loadable fetch infos)
  + length (filter (fun info => fetch (mc_file info) = None) infos)
  = length infos.
Proof.
  induction infos as [|info infos IH]; [reflexivity|].
  unfold loadable in *. cbn [omap list_omap]. rewrite filter_cons.
  destruct (decide (fetch (mc_file info) = None)) as [E|Hn].
  - rewrite E. simpl. lia.
  - destruct (fetch (mc_file info)) as [text|]; [|congruence]. simpl. lia.
Qed.

Section load.

Context `{Host}.

(** The cells made of fetched documents; the first gets the token
    number [n]. *)
Definition cells_of (n : nat) (l : list (ManifestCell * string)) : list Cell :=
  imap (fun j it => manifest_cell (n + j) it.1 it.2) l.

Lemma cells_of_cons n it l :
  cells_of n (it :: l) = manifest_cell n it.1 it.2 :: cells_of (S n) l.
Proof.
  unfold cells_of. rewrite imap_cons, Nat.add_0_r. f_equal.
  apply imap_ext. intros j x _. simpl. f_equal. lia.
Qed.

Lemma cells_of_nil_inv n l : cells_of n l = [] -> l = [].
Proof. destruct l; [reflexivity|]. rewrite cells_of_cons. discriminate. Qed.

Lemma cells_of_length n l : length (cells_of n l) = length l.
Proof. apply length_imap. Qed.

Lemma cells_of_elem n l cell :
  cell ∈ cells_of n l -> exists k it, it ∈ l /\ cell = manifest_cell k it.1 it.2.
Proof.
  unfold cells_of. intros Hin. apply elem_of_lookup_imap_1 in Hin as (j & it & -> & Hj).
  exists (n + j), it. split; [|reflexivity]. eapply list_elem_of_lookup_2; eauto.
Qed.

Lemma cells_of_codes n l :
  map cell_recognizedCode (cells_of n l) = map (fun it => mc_recognizedCode it.1) l.
Proof.
  revert n. induction l as [|it l IH]; intros n; [reflexivity|].
  rewrite cells_of_cons. simpl. f_equal. apply IH.
Qed.

Lemma cells_of_strokes n l :
  map cell_strokes (cells_of n l) = map (fun it => dec_strokes (svgToStrokes it.2)) l.
Proof.
  revert n. induction l as [|it l IH]; intros n; [reflexivity|].
  rewrite cells_of_cons. simpl. f_equal. apply IH.
Qed.

(** The loop of the directory adapter over the manifest. *)
Lemma load_cells_live_spec d infos : forall n,
  load_cells_live d infos n = cells_of n (loadable (fetch_live d) infos).
Proof.
  induction infos as [|info infos IH]; intros n; [reflexivity|].
  cbn [load_cells_live]. unfold loadable, fetch_live at 1. cbn [omap list_omap].
  destruct (await fileHandle := getFileHandle d (mc_file info) in read_text fileHandle)
    as [e|text]; simpl.
  - apply IH.
  - rewrite cells_of_cons. simpl. f_equal. apply IH.
Qed.

(** The loop of the archive adapter over the manifest: it returns
    exactly when no member it meets fails to be read. *)
Lemma load_cells_zip_readable zip infos : forall n,
  members_readable zip infos ->
  load_cells_zip zip infos n = inr (cells_of n (loadable (fetch_zip zip) infos)).
Proof.
  induction infos as [|info infos IH]; intros n Hr; [reflexivity|].
  assert (Hr' : members_readable zip infos).
  { intros i Hi. apply Hr. right. exact Hi. }
  cbn [load_cells_zip]. unfold loadable, fetch_zip at 1. cbn [omap list_omap].
  destruct (zip_file zip (mc_file info)) as [[text|e]|] eqn:E; simpl.
  - rewrite (IH (S n) Hr'). simpl. rewrite cells_of_cons. reflexivity.
  - exfalso. apply (Hr info (list_elem_of_here _ _) e E).
  - apply IH, Hr'.
Qed.

Lemma load_cells_zip_returns zip infos : forall n cells,
  load_cells_zip zip infos n = inr cells ->
  members_readable zip infos.
Proof.
  induction infos as [|info infos IH]; intros n cells E i Hi e Hz.
  - inversion Hi.
  - cbn [load_cells_zip] in E.
    apply elem_of_cons in Hi as [->|Hi].
    + rewrite Hz in E. simpl in E. discriminate.
    + destruct (zip_file zip (mc_file info)) as [[text|e']|]; simpl in E;
        try discriminate.
      * destruct (load_cells_zip zip infos (S n)) as [?|cells'] eqn:E'; [discriminate|].
        apply (IH _ _ E' i Hi e Hz).
      * apply (IH _ _ E i Hi e Hz).
Qed.

Lemma load_cells_zip_unreadable zip infos n :
  ~ members_readable zip infos ->
  forall cells, load_cells_zip zip infos n <> inr cells.
Proof. intros Hn cells E. apply Hn. eapply load_cells_zip_returns, E. Qed.

(** ** The outcome of a load *)

Definition outcome (fail : string) (cells : list Cell) (m : option ProjectManifest) : LoadResult :=
  match cells with
  | [] => load_failure fail
  | _ => load_success cells m
  end.

Lemma outcome_notebook fail cells m nb :
  lr_notebook (outcome fail cells m) = Some nb -> nb_cells nb = cells /\ cells <> [].
Proof.
  destruct cells; simpl; [discriminate|]. intros [= <-]. simpl. split; [reflexivity|discriminate].
Qed.

Lemma outcome_success fail cells m :
  lr_success (outcome fail cells m) = true ->
  cells <> [] /\ outcome fail cells m = load_success cells m.
Proof. destruct cells; simpl; [discriminate|]. split; [discriminate|reflexivity]. Qed.

Lemma load_directory_manifest d m infos n :
  read_manifest_live d = Some m -> pm_cells m = Some infos ->
  load_directory d n
  = inr (outcome "No cells found in project"
           (cells_of n (loadable (fetch_live d) infos)) (Some m)).
Proof.
  intros Hm Hc. unfold load_directory. rewrite Hm. simpl. rewrite Hc. simpl.
  rewrite load_cells_live_spec. destruct (cells_of _ _); reflexivity.
Qed.

Lemma load_archive_manifest zip m infos n :
  read_manifest_zip zip = inr (Some m) -> pm_cells m = Some infos ->
  load_archive zip n
  = await cells := load_cells_zip zip infos n in
    inr (outcome "No cells found in ZIP" cells (Some m)).
Proof.
  intros Hm Hc. unfold load_archive. rewrite Hm. simpl. rewrite Hc. simpl.
  destruct (load_cells_zip zip infos n) as [e|cells]; simpl; [reflexivity|].
  destruct cells; reflexivity.
Qed.

(** A load that succeeds returns at least one cell. *)
Lemma load_directory_nonempty d n r :
  load_directory d n = inr r -> lr_success r = true ->
  exists cells, lr_notebook r = Some (mkNotebook 1 cells) /\ cells <> [].
Proof.
  unfold load_directory. intros E Hs.
  destruct (match manifest_cells (read_manifest_live d) with
            | Some infos => _ | None => _ end) as [e|cells]; simpl in E; [discriminate|].
  destruct cells as [|c cells]; injection E as <-; simpl in Hs; [discriminate|].
  eexists. split; [reflexivity|discriminate].
Qed.

Lemma load_archive_nonempty zip n r :
  load_archive zip n = inr r -> lr_success r = true ->
  exists cells, lr_notebook r = Some (mkNotebook 1 cells) /\ cells <> [].
Proof.
  unfold load_archive. intros E Hs.
  destruct (read_manifest_zip zip) as [e|manifest]; simpl in E; [discriminate|].
  destruct (match manifest_cells manifest with
            | Some infos => _ | None => _ end) as [e|cells]; simpl in E; [discriminate|].
  destruct cells as [|c cells]; injection E as <-; simpl in Hs; [discriminate|].
  eexists. split; [reflexivity|discriminate].
Qed.

Lemma loadProject_nonempty hasFsa picked n :
  lr_success (loadProject hasFsa picked n) = true ->
  exists cells, lr_notebook (loadProject hasFsa picked n) = Some (mkNotebook 1 cells)
                /\ cells <> [].
Proof.
  unfold loadProject. destruct hasFsa; simpl; [|discriminate].
  destruct picked as [e|d]; simpl; [discriminate|].
  destruct (load_directory d n) as [e|r] eqn:E; simpl; [discriminate|].
  apply (load_directory_nonempty _ _ _ E).
Qed.

Lemma importProjectFromZip_nonempty jszip loaded n :
  lr_success (importProjectFromZip jszip loaded n) = true ->
  exists cells, lr_notebook (importProjectFromZip jszip loaded n) = Some (mkNotebook 1 cells)
                /\ cells <> [].
Proof.
  unfold importProjectFromZip. destruct jszip as [e|u]; simpl; [discriminate|].
  destruct loaded as [e|zip]; simpl; [discriminate|].
  destruct (load_archive zip n) as [e|r] eqn:E; simpl; [discriminate|].
  apply (load_archive_nonempty _ _ _ E).
Qed.

Lemma loadProject_manifest d m infos n :
  read_manifest_live d = Some m -> pm_cells m = Some infos ->
  loadProject true (inr d) n
  = outcome "No cells found in project"
      (cells_of n (loadable (fetch_live d) infos)) (Some m).
Proof.
  intros Hm Hc. unfold loadProject. simpl.
  rewrite (load_directory_manifest d m infos n Hm Hc). reflexivity.
Qed.

Lemma importProjectFromZip_manifest zip m infos n :
  read_manifest_zip zip = inr (Some m) -> pm_cells m = Some infos ->
  members_readable zip infos ->
  importProjectFromZip (inr tt) (inr zip) n
  = outcome "No cells found in ZIP"
      (cells_of n (loadable (fetch_zip zip) infos)) (Some m).
Proof.
  intros Hm Hc Hr. unfold importProjectFromZip. simpl.
  rewrite (load_archive_manifest zip m infos n Hm Hc).
  rewrite (load_cells_zip_readable zip infos n Hr). reflexivity.
Qed.

Lemma importProjectFromZip_notebook zip m infos n nb :
  read_manifest_zip zip = inr (Some m) -> pm_cells m = Some infos ->
  lr_notebook (importProjectFromZip (inr tt) (inr zip) n) = Some nb ->
  members_readable zip infos
  /\ nb_cells nb = cells_of n (loadable (fetch_zip zip) infos).
Proof.
  intros Hm Hc Hnb.
  assert (Hr : members_readable zip infos).
  { unfold importProjectFromZip in Hnb. simpl in Hnb.
    rewrite (load_archive_manifest zip m infos n Hm Hc) in Hnb.
    destruct (load_cells_zip zip infos n) as [e|cells] eqn:E; simpl in Hnb; [discriminate|].
    eapply load_cells_zip_returns, E. }
  split; [exact Hr|].
  rewrite (importProjectFromZip_manifest zip m infos n Hm Hc Hr) in Hnb.
  apply outcome_notebook in Hnb. apply Hnb.
Qed.

(** An unreadable member that the manifest refers to aborts the import:
    no cell is returned. *)
Lemma importProjectFromZip_aborts zip m infos n :
  read_manifest_zip zip = inr (Some m) -> pm_cells m = Some infos ->
  ~ members_readable zip infos ->
  lr_success (importProjectFromZip (inr tt) (inr zip) n) = false
  /\ lr_notebook (importProjectFromZip (inr tt) (inr zip) n) = None.
Proof.
  intros Hm Hc Hn. unfold importProjectFromZip. simpl.
  rewrite (load_archive_manifest zip m infos n Hm Hc).
  destruct (load_cells_zip zip infos n) as [e|cells] eqn:E; simpl; [split; reflexivity|].
  exfalso. apply (load_cells_zip_unreadable zip infos n Hn cells E).
Qed.

(** The height of the cell made of a manifest entry and its document:
    the height of the entry, and without one the height read from the
    document. *)
Definition height_of (it : ManifestCell * string) : number :=
  match mc_height it.1 with
  | Some h => h
  | None => dec_height (svgToStrokes it.2)
  end.

Lemma cells_of_heights n l :
  Forall2 (fun it cell => cell_height cell = Some (height_of it)) l (cells_of n l).
Proof.
  revert n. induction l as [|it l IH]; intros n; [constructor|].
  rewrite cells_of_cons. constructor; [|apply IH].
  unfold manifest_cell, height_of. simpl. destruct (mc_height it.1); reflexivity.
Qed.

End load.

(** The cells a load returns, when it returns any. *)
Definition loaded_cells (r : LoadResult) : option (list Cell) :=
  nb_cells <$> lr_notebook r.

(** ** A project on which to run the adapters *)

Definition svg_a : string :=
  strokesToSvg [[mkPoint (num 1) (num 2) (num 1) (num 0); mkPoint (num 3) (num 4) (num 1) (num 9)]]
               (num 800) (num 320) None.

Definition svg_b : string :=
  strokesToSvg [[mkPoint (num 5) (num 6) (num 1) (num 0); mkPoint (num 7) (num 8) (num 1) (num 9)]]
               (num 800) (num 320) None.

(** A manifest that lists the second document first, and gives it a
    height that differs from the one in the document. *)
Definition manifest_ba : ProjectManifest :=
  mkManifest 1
    (Some [mkManifestCell "cell-002.svg" (Some (num 200)) (Some "B");
           mkManifestCell "cell-001.svg" None (Some "A")])
    (Some (num 4)).

Definition manifest_abc : ProjectManifest :=
  mkManifest 1
    (Some [mkManifestCell "cell-001.svg" None (Some "A");
           mkManifestCell "cell-002.svg" None (Some "B");
           mkManifestCell "cell-003.svg" None None])
    (Some (num 4)).

Definition demo_host : Host := Json.host [manifest_ba; manifest_abc].

Definition dir_ba : Directory :=
  [("cell-001.svg", FileEntry (Readable svg_a));
   ("cell-002.svg", FileEntry (Readable svg_b));
   ("manifest.json", FileEntry (Readable (Json.stringify manifest_ba)))].

Definition zip_ba : Archive :=
  [("cell-001.svg", ZipFile (Readable svg_a));
   ("cell-002.svg", ZipFile (Readable svg_b));
   ("manifest.json", ZipFile (Readable (Json.stringify manifest_ba)))].

(** Three cells listed, the second document missing. *)
Definition dir_gap : Directory :=
  [("manifest.json", FileEntry (Readable (Json.stringify manifest_abc)));
   ("cell-001.svg", FileEntry (Readable svg_a));
   ("cell-003.svg", FileEntry (Readable svg_b))].

Definition zip_gap : Archive :=
  [("manifest.json", ZipFile (Readable (Json.stringify manifest_abc)));
   ("cell-001.svg", ZipFile (Readable svg_a));
   ("cell-003.svg", ZipFile (Readable svg_b))].

(** Three cells listed, the second member corrupt. *)
Definition corrupt : Thrown := ErrorObj "Error" "Corrupted zip : invalid stored block lengths".

Definition zip_corrupt : Archive :=
  [("manifest.json", ZipFile (Readable (Json.stringify manifest_abc)));
   ("cell-001.svg", ZipFile (Readable svg_a));
   ("cell-002.svg", ZipFile (Unreadable corrupt));
   ("cell-003.svg", ZipFile (Readable svg_b))].

Definition dir_corrupt : Directory :=
  [("manifest.json", FileEntry (Readable (Json.stringify manifest_abc)));
   ("cell-001.svg", FileEntry (Readable svg_a));
   ("cell-002.svg", FileEntry (Unreadable corrupt));
   ("cell-003.svg", FileEntry (Readable svg_b))].

(** The manifest lists [B, A]; the document of [A] cannot be read. *)
Definition zip_ba_torn : Archive :=
  [("cell-001.svg", ZipFile (Unreadable corrupt));
   ("cell-002.svg", ZipFile (Readable svg_b));
   ("manifest.json", ZipFile (Readable (Json.stringify manifest_ba)))].

Definition dir_ba_torn : Directory :=
  [("cell-001.svg", FileEntry (Unreadable corrupt));
   ("cell-002.svg", FileEntry (Readable svg_b));
   ("manifest.json", FileEntry (Readable (Json.stringify manifest_ba)))].

Lemma zip_ba_readable :
  members_readable zip_ba
    [mkManifestCell "cell-002.svg" (Some (num 200)) (Some "B");
     mkManifestCell "cell-001.svg" None (Some "A")].
Proof.
  intros info Hin e Hz. apply list_elem_of_In in Hin. simpl in Hin.
  destruct Hin as [<-|[<-|[]]]; vm_compute in Hz; discriminate.
Qed.

(** C4, as the code has it.  When the manifest exists and parses (with
    a [cells] array), both adapters go through its entries in order and
    keep those whose document can be fetched: the cells returned are
    exactly the cells of these entries, in the order of the manifest
    whatever the names of the documents, each with the strokes of its
    own document and the recognized code of its own entry.  The
    directory adapter returns them whenever there is one.  The archive
    adapter does so when no member that the manifest refers to fails to
    be read; when one does, it returns no cell at all. *)
Theorem C4_cells_in_manifest_order :
  forall (H : Host) (d : Directory) (zip : Archive)
         (m : ProjectManifest) (infos : list ManifestCell) (n : nat),
    pm_cells m = Some infos ->
    (read_manifest_live d = Some m ->
       loadProject true (inr d) n
       = outcome "No cells found in project"
           (cells_of n (loadable (fetch_live d) infos)) (Some m))
    /\ (read_manifest_zip zip = inr (Some m) ->
        (members_readable zip infos ->
            importProjectFromZip (inr tt) (inr zip) n
            = outcome "No cells found in ZIP"
                (cells_of n (loadable (fetch_zip zip) infos)) (Some m))
        /\ (~ members_readable zip infos ->
            lr_success (importProjectFromZip (inr tt) (inr zip) n) = false
            /\ lr_notebook (importProjectFromZip (inr tt) (inr zip) n) = None)
        /\ (forall nb,
              lr_notebook (importProjectFromZip (inr tt) (inr zip) n) = Some nb ->
              nb_cells nb = cells_of n (loadable (fetch_zip zip) infos)))
    /\ (forall fetch,
          let kept := loadable fetch infos in
          kept.*1 = filter (fun info => is_Some (fetch (mc_file info))) infos
          /\ (forall it, it ∈ kept -> fetch (mc_file it.1) = Some it.2)
          /\ length (cells_of n kept) = length kept
          /\ map cell_recognizedCode (cells_of n kept)
             = map (fun it => mc_recognizedCode it.1) kept
          /\ map cell_strokes (cells_of n kept)
             = map (fun it => dec_strokes (svgToStrokes it.2)) kept).
Proof.
  intros H d zip m infos n Hc. split; [|split].
  - intros Hm. apply (loadProject_manifest d m infos n Hm Hc).
  - intros Hm. split; [|split].
    + apply (importProjectFromZip_manifest zip m infos n Hm Hc).
    + apply (importProjectFromZip_aborts zip m infos n Hm Hc).
    + intros nb Hnb. apply (importProjectFromZip_notebook zip m infos n nb Hm Hc Hnb).
  - intros fetch kept. split; [apply loadable_entries|].
    split; [intros it Hit; apply (loadable_fetched _ _ _ Hit)|].
    split; [apply cells_of_length|].
    split; [apply cells_of_codes|apply cells_of_strokes].
Qed.

(** The manifest lists the documents as [B, A]: so are the cells, from
    the directory and from the archive. *)
Lemma C4_cells_in_manifest_order_witness :
  (map cell_recognizedCode <$> loaded_cells (loadProject (H := demo_host) true (inr dir_ba) 0))
  = Some [Some "B"; Some "A"]
  /\ (map cell_recognizedCode <$>
        loaded_cells (importProjectFromZip (H := demo_host) (inr tt) (inr zip_ba) 0))
     = Some [Some "B"; Some "A"].
Proof.
  destruct (C4_cells_in_manifest_order demo_host dir_ba zip_ba manifest_ba _ 0 eq_refl)
    as (Hd & Hz & _).
  split.
  - rewrite (Hd eq_refl). vm_compute. reflexivity.
  - rewrite (proj1 (Hz eq_refl) zip_ba_readable). vm_compute. reflexivity.
Defined.

(** C4, as the claim has it, fails for the archive adapter: the
    manifest parses and lists [B, A]; the document of [B] can be
    fetched, that of [A] cannot be read; the import returns no cell,
    where the directory adapter returns the cell of [B]. *)
Lemma C4_import_returns_no_cell_beside_an_unreadable_member :
  read_manifest_zip (H := demo_host) zip_ba_torn = inr (Some manifest_ba)
  /\ (loadable (fetch_zip zip_ba_torn) (default [] (pm_cells manifest_ba))).*1
     = [mkManifestCell "cell-002.svg" (Some (num 200)) (Some "B")]
  /\ loaded_cells (importProjectFromZip (H := demo_host) (inr tt) (inr zip_ba_torn) 0) = None
  /\ (map cell_recognizedCode <$>
        loaded_cells (loadProject (H := demo_host) true (inr dir_ba_torn) 0))
     = Some [Some "B"].
Proof. vm_compute. repeat split; reflexivity. Qed.

(** The manifest lists the documents as [B, A]: so are the cells. *)
Example manifest_order_is_authoritative :
  (map cell_recognizedCode <$> loaded_cells (loadProject (H := demo_host) true (inr dir_ba) 0))
  = Some [Some "B"; Some "A"]
  /\ (map cell_recognizedCode <$>
        loaded_cells (importProjectFromZip (H := demo_host) (inr tt) (inr zip_ba) 0))
     = Some [Some "B"; Some "A"].
Proof. vm_compute. split; reflexivity. Qed.

(** A document 240 high, and a project in which the manifest gives the
    second document the height 200 (the document says 320) and gives
    this one none. *)
Definition svg_low : string :=
  strokesToSvg [[mkPoint (num 1) (num 2) (num 1) (num 0); mkPoint (num 3) (num 4) (num 1) (num 9)]]
               (num 800) (num 240) None.

Definition dir_heights : Directory :=
  [("cell-001.svg", FileEntry (Readable svg_low));
   ("cell-002.svg", FileEntry (Readable svg_b));
   ("manifest.json", FileEntry (Readable (Json.stringify manifest_ba)))].

Definition zip_heights : Archive :=
  [("cell-001.svg", ZipFile (Readable svg_low));
   ("cell-002.svg", ZipFile (Readable svg_b));
   ("manifest.json", ZipFile (Readable (Json.stringify manifest_ba)))].

Lemma zip_heights_readable :
  members_readable zip_heights
    [mkManifestCell "cell-002.svg" (Some (num 200)) (Some "B");
     mkManifestCell "cell-001.svg" None (Some "A")].
Proof.
  intros info Hin e Hz. apply list_elem_of_In in Hin. simpl in Hin.
  destruct Hin as [<-|[<-|[]]]; vm_compute in Hz; discriminate.
Qed.

(** C10.  A load through the manifest, by either adapter, goes through
    the entries whose document can be fetched, in order, and makes one
    cell of each: the cell at a position is the cell of the entry at
    that position and of the document that entry names, and its height
    is the height of that entry when the entry has one, and the height
    read from that document only when it has none.  The directory
    adapter returns these cells; so does the archive adapter when no
    member that the manifest refers to fails to be read, and whenever
    it returns cells they are these. *)
Theorem C10_manifest_height_takes_precedence :
  forall (H : Host) (d : Directory) (zip : Archive)
         (m : ProjectManifest) (infos : list ManifestCell) (n : nat),
    pm_cells m = Some infos ->
    (read_manifest_live d = Some m ->
     let kept := loadable (fetch_live d) infos in
     loadProject true (inr d) n
     = outcome "No cells found in project" (cells_of n kept) (Some m)
     /\ Forall (fun it => it.1 ∈ infos /\ fetch_live d (mc_file it.1) = Some it.2) kept
     /\ Forall2 (fun it cell =>
                   cell_height cell
                   = Some (match mc_height it.1 with
                           | Some h => h
                           | None => dec_height (svgToStrokes it.2)
                           end))
                kept (cells_of n kept))
    /\ (read_manifest_zip zip = inr (Some m) ->
        let kept := loadable (fetch_zip zip) infos in
        (members_readable zip infos ->
         importProjectFromZip (inr tt) (inr zip) n
         = outcome "No cells found in ZIP" (cells_of n kept) (Some m))
        /\ (forall nb,
              lr_notebook (importProjectFromZip (inr tt) (inr zip) n) = Some nb ->
              nb_cells nb = cells_of n kept)
        /\ Forall (fun it => it.1 ∈ infos /\ fetch_zip zip (mc_file it.1) = Some it.2) kept
        /\ Forall2 (fun it cell =>
                      cell_height cell
                      = Some (match mc_height it.1 with
                              | Some h => h
                              | None => dec_height (svgToStrokes it.2)
                              end))
                   kept (cells_of n kept)).
Proof.
  intros H d zip m infos n Hc.
  assert (G : forall fetch,
    Forall (fun it => it.1 ∈ infos /\ fetch (mc_file it.1) = Some it.2) (loadable fetch infos)).
  { intros fetch. apply Forall_forall. intros it Hit. apply (loadable_fetched _ _ _ Hit). }
  split.
  - intros Hm kept. split; [apply (loadProject_manifest d m infos n Hm Hc)|].
    split; [apply G|apply cells_of_heights].
  - intros Hm kept. split; [apply (importProjectFromZip_manifest zip m infos n Hm Hc)|].
    split.
    + intros nb Hnb. apply (importProjectFromZip_notebook zip m infos n nb Hm Hc Hnb).
    + split; [apply G|apply cells_of_heights].
Qed.

(** The document of [cell-002.svg] says 320, its manifest entry 200:
    the cell is 200 high; the entry of [cell-001.svg] has no height and
    the cell takes the 320 of its document. *)
Lemma C10_manifest_height_witness :
  dec_height (svgToStrokes svg_b) = num 320
  /\ dec_height (svgToStrokes svg_low) = num 240
  /\ (map cell_height <$> loaded_cells (loadProject (H := demo_host) true (inr dir_heights) 0))
     = Some [Some (num 200); Some (num 240)]
  /\ (map cell_height <$>
        loaded_cells (importProjectFromZip (H := demo_host) (inr tt) (inr zip_heights) 0))
     = Some [Some (num 200); Some (num 240)].
Proof.
  destruct (C10_manifest_height_takes_precedence demo_host dir_heights zip_heights
              manifest_ba _ 0 eq_refl) as (Hd & Hz).
  split; [vm_compute; reflexivity|]. split; [vm_compute; reflexivity|]. split.
  - rewrite (proj1 (Hd eq_refl)). vm_compute. reflexivity.
  - rewrite (proj1 (Hz eq_refl) zip_heights_readable). vm_compute. reflexivity.
Defined.

(** C5, as the code has it.  With a manifest of [n] entries of which
    [0 < k < n] name a document that cannot be fetched, the directory
    adapter succeeds with the [n - k] other cells, whether the document
    is missing or cannot be read; the archive adapter succeeds with the
    [n - k] other cells when the [k] members are missing and no member
    it needs fails to be read.  And no load of either adapter succeeds
    with an empty list of cells. *)
Theorem C5_partial_tolerance_and_empty_failure :
  forall (H : Host) (d : Directory) (zip : Archive)
         (m : ProjectManifest) (infos : list ManifestCell) (n : nat),
    pm_cells m = Some infos ->
    (read_manifest_live d = Some m ->
     let k := length (filter (fun info => fetch_live d (mc_file info) = None) infos) in
     0 < k < length infos ->
     exists cells,
       loadProject true (inr d) n = load_success cells (Some m)
       /\ length cells = length infos - k
       /\ cells = cells_of n (loadable (fetch_live d) infos))
    /\ (read_manifest_zip zip = inr (Some m) ->
        members_readable zip infos ->
        let k := length (filter (fun info => fetch_zip zip (mc_file info) = None) infos) in
        0 < k < length infos ->
        exists cells,
          importProjectFromZip (inr tt) (inr zip) n = load_success cells (Some m)
          /\ length cells = length infos - k
          /\ cells = cells_of n (loadable (fetch_zip zip) infos))
    /\ (forall hasFsa picked,
          lr_success (loadProject hasFsa picked n) = true ->
          exists cells,
            lr_notebook (loadProject hasFsa picked n) = Some (mkNotebook 1 cells)
            /\ cells <> [])
    /\ (forall jszip loaded,
          lr_success (importProjectFromZip jszip loaded n) = true ->
          exists cells,
            lr_notebook (importProjectFromZip jszip loaded n) = Some (mkNotebook 1 cells)
            /\ cells <> []).
Proof.
  intros H d zip m infos n Hc.
  assert (G : forall fetch fail,
    0 < length (filter (fun info => fetch (mc_file info) = None) infos) < length infos ->
    exists cells,
      outcome fail (cells_of n (loadable fetch infos)) (Some m) = load_success cells (Some m)
      /\ length cells
         = length infos - length (filter (fun info => fetch (mc_file info) = None) infos)
      /\ cells = cells_of n (loadable fetch infos)).
  { intros fetch fail Hk. pose proof (loadable_length fetch infos) as Hl.
    exists (cells_of n (loadable fetch infos)).
    split; [|split; [rewrite cells_of_length; lia|reflexivity]].
    destruct (cells_of n (loadable fetch infos)) eqn:E; [|reflexivity].
    apply cells_of_nil_inv in E. rewrite E in Hl. simpl in Hl. lia. }
  split; [|split; [|split]].
  - intros Hm k Hk. rewrite (loadProject_manifest d m infos n Hm Hc). apply G, Hk.
  - intros Hm Hr k Hk. rewrite (importProjectFromZip_manifest zip m infos n Hm Hc Hr).
    apply G, Hk.
  - intros hasFsa picked. apply loadProject_nonempty.
  - intros jszip loaded. apply importProjectFromZip_nonempty.
Qed.

Lemma C5_partial_tolerance_witness :
  exists cells,
    loadProject (H := demo_host) true (inr dir_corrupt) 0
    = load_success cells (Some manifest_abc)
    /\ length cells = 2.
Proof.
  destruct (proj1 (C5_partial_tolerance_and_empty_failure demo_host dir_corrupt zip_gap
                     manifest_abc _ 0 eq_refl) eq_refl) as (cells & E & L & _).
  { vm_compute. split; lia. }
  exists cells. split; [exact E|exact L].
Defined.

(** C5, as the claim has it, fails for the archive adapter: of three
    members listed the second cannot be read, and the import fails
    instead of returning the other two (which the directory adapter
    does on the same project). *)
Lemma C5_import_fails_on_unreadable_member :
  read_manifest_zip (H := demo_host) zip_corrupt = inr (Some manifest_abc)
  /\ length (filter (fun info => fetch_zip zip_corrupt (mc_file info) = None)
                    (default [] (pm_cells manifest_abc))) = 1
  /\ importProjectFromZip (H := demo_host) (inr tt) (inr zip_corrupt) 0
     = load_failure "Corrupted zip : invalid stored block lengths"
  /\ (length <$> loaded_cells (loadProject (H := demo_host) true (inr dir_corrupt) 0))
     = Some 2.
Proof. vm_compute. repeat split; reflexivity. Qed.

End LoadFacts.

(* ================================================================== *)
(** * Persistence: the two adapters on the same project *)
(* ================================================================== *)

Module AdapterFacts.

Import Svg Project JsFacts SaveFacts LoadFacts.
Local Open Scope list_scope.

(** ** [sort] *)

Section sorting.

Context {A : Type} (cmp : A -> A -> Z).

Definition before (a b : A) : Prop := (cmp a b <= 0)%Z.

Lemma insert_by_perm x l : insert_by cmp x l ≡ₚ x :: l.
Proof.
  induction l as [|y l IH]; simpl; [reflexivity|].
  destruct (cmp x y <=? 0)%Z; [reflexivity|].
  rewrite IH. apply Permutation_swap.
Qed.

Lemma sort_by_perm l : sort_by cmp l ≡ₚ l.
Proof.
  induction l as [|x l IH]; simpl; [reflexivity|].
  rewrite insert_by_perm, IH. reflexivity.
Qed.

Lemma sort_by_elem x l : x ∈ sort_by cmp l <-> x ∈ l.
Proof. rewrite sort_by_perm. reflexivity. Qed.

Hypothesis total : forall a b, before a b \/ before b a.

Lemma insert_by_sorted x l : Sorted before l -> Sorted before (insert_by cmp x l).
Proof.
  induction l as [|y l IH]; intros Hs; simpl.
  - repeat constructor.
  - destruct (Z.leb_spec (cmp x y) 0) as [Hle|Hgt].
    + constructor; [exact Hs|]. constructor. exact Hle.
    + apply Sorted_inv in Hs as [Hs Hhd]. constructor; [apply IH, Hs|].
      assert (Hyx : before y x) by (destruct (total x y); unfold before in *; [lia|assumption]).
      destruct l as [|z l]; simpl.
      * constructor. exact Hyx.
      * destruct (cmp x z <=? 0)%Z; constructor; [exact Hyx|].
        apply HdRel_inv in Hhd. exact Hhd.
Qed.

Lemma sort_by_sorted l : Sorted before (sort_by cmp l).
Proof.
  induction l as [|x l IH]; simpl; [constructor|]. apply insert_by_sorted, IH.
Qed.

End sorting.

Lemma Sorted_weaken {A} (R1 R2 : A -> A -> Prop) l :
  (forall a b, R1 a b -> R2 a b) -> Sorted R1 l -> Sorted R2 l.
Proof.
  intros HR Hs. induction Hs as [|x l Hs IH Hhd]; constructor; [exact IH|].
  destruct Hhd; constructor. auto.
Qed.

Lemma insert_by_ext {A} (c1 c2 : A -> A -> Z) x l :
  (forall b, b ∈ l -> c1 x b = c2 x b) -> insert_by c1 x l = insert_by c2 x l.
Proof.
  induction l as [|y l IH]; intros E; simpl; [reflexivity|].
  rewrite (E y) by left. destruct (c2 x y <=? 0)%Z; [reflexivity|].
  f_equal. apply IH. intros b Hb. apply E. right. exact Hb.
Qed.

Lemma sort_by_ext {A} (c1 c2 : A -> A -> Z) l :
  (forall a b, a ∈ l -> b ∈ l -> c1 a b = c2 a b) -> sort_by c1 l = sort_by c2 l.
Proof.
  induction l as [|x l IH]; intros E; simpl; [reflexivity|].
  rewrite IH by (intros a b Ha Hb; apply E; right; assumption).
  apply insert_by_ext. intros b Hb. apply sort_by_elem in Hb.
  apply E; [left|right; exact Hb].
Qed.

(** The order of [sort()] on strings is stdpp's order on strings. *)
Lemma code_unit_before (a b : string) : before code_unit_compare a b <-> String.le a b.
Proof.
  unfold before, code_unit_compare, String.le, String.leb.
  destruct (String.compare a b); simpl; split; intros; try lia; try exact I; tauto.
Qed.

Lemma code_unit_total (a b : string) :
  before code_unit_compare a b \/ before code_unit_compare b a.
Proof. rewrite !code_unit_before. apply String.le_total. Qed.

(** ** Names and members *)

Lemma lookup_name_elem {A} (l : list (string * A)) k v :
  lookup_name k l = Some v -> (k, v) ∈ l.
Proof.
  induction l as [|[k' v'] l IH]; simpl; [discriminate|].
  destruct (String.eqb_spec k' k) as [->|Hne].
  - intros [= ->]. left.
  - intros Hl. right. apply IH, Hl.
Qed.

Lemma elem_lookup_name {A} (l : list (string * A)) k v :
  NoDup l.*1 -> (k, v) ∈ l -> lookup_name k l = Some v.
Proof.
  induction l as [|[k' v'] l IH]; simpl; intros Hnd Hin; [inversion Hin|].
  apply NoDup_cons in Hnd as [Hk' Hnd].
  apply elem_of_cons in Hin as [[= -> ->]|Hin].
  - rewrite String.eqb_refl. reflexivity.
  - destruct (String.eqb_spec k' k) as [->|Hne]; [|apply IH; assumption].
    exfalso. apply Hk'. apply list_elem_of_fmap. exists (k, v). auto.
Qed.

(** The directory and the archive hold the same files: the same names
    with the same content. *)
Definition same_files (d : Directory) (zip : Archive) : Prop :=
  forall name b,
    lookup_name name d = Some (FileEntry b) <-> lookup_name name zip = Some (ZipFile b).

Lemma zip_file_getFileHandle d zip name :
  same_files d zip ->
  zip_file zip name
  = match getFileHandle d name with inr b => Some b | inl _ => None end.
Proof.
  intros Hs. unfold zip_file, getFileHandle.
  destruct (lookup_name name d) as [[b|]|] eqn:Ed.
  - apply Hs in Ed. rewrite Ed. reflexivity.
  - destruct (lookup_name name zip) as [[b|]|] eqn:Ez; try reflexivity.
    apply Hs in Ez. congruence.
  - destruct (lookup_name name zip) as [[b|]|] eqn:Ez; try reflexivity.
    apply Hs in Ez. congruence.
Qed.

Lemma fetch_same d zip name :
  same_files d zip -> fetch_zip zip name = fetch_live d name.
Proof.
  intros Hs. unfold fetch_zip, fetch_live.
  rewrite (zip_file_getFileHandle d zip name Hs).
  destruct (getFileHandle d name) as [e|[text|e]]; reflexivity.
Qed.

Lemma loadable_same d zip infos :
  same_files d zip -> loadable (fetch_zip zip) infos = loadable (fetch_live d) infos.
Proof.
  intros Hs. unfold loadable.
  induction infos as [|info infos IH]; [reflexivity|].
  cbn [omap list_omap]. rewrite (fetch_same d zip _ Hs), IH. reflexivity.
Qed.

(** The names of the documents a scan of the directory finds. *)
Definition svg_names (d : Directory) : list string := (omap svg_entry d).*1.

Lemma svg_entry_elem (d : list (string * DirEntry)) name b :
  (name, b) ∈ omap svg_entry d
  <-> (name, FileEntry b) ∈ d /\ endsWith name ".svg" = true.
Proof.
  rewrite list_elem_of_omap. split.
  - intros ([k e] & Hin & E). unfold svg_entry in E. simpl in E.
    destruct e as [b'|]; [|discriminate].
    destruct (endsWith k ".svg") eqn:Esvg; [|discriminate].
    injection E as -> ->. auto.
  - intros [Hin Esvg]. exists (name, FileEntry b). split; [exact Hin|].
    unfold svg_entry. simpl. rewrite Esvg. reflexivity.
Qed.

Lemma omap_fst_sublist {A B} (f : string * A -> option (string * B)) (l : list (string * A)) :
  (forall x y, f x = Some y -> y.1 = x.1) -> (omap f l).*1 `sublist_of` l.*1.
Proof.
  intros Hf. induction l as [|x l IH]; simpl; [constructor|].
  destruct (f x) as [y|] eqn:E; simpl.
  - rewrite (Hf x y E). constructor. exact IH.
  - constructor. exact IH.
Qed.

Lemma svg_entries_nodup (d : list (string * DirEntry)) : NoDup d.*1 -> NoDup (omap svg_entry d).*1.
Proof.
  intros Hnd. refine (sublist_NoDup _ _ Hnd _).
  apply omap_fst_sublist. intros [k e] [k' b]. unfold svg_entry. simpl.
  destruct e; [|discriminate]. destruct (endsWith k ".svg"); [|discriminate].
  intros [= -> _]. reflexivity.
Qed.

(** ** The scans *)

Section scans.

Context `{Host}.

(** The member found for a scanned name, if it is a file. *)
Definition member_of (zip : Archive) (name : string) : option (string * Blob) :=
  pair name <$> zip_file zip name.

Lemma scan_cells_zip_live zip names : forall n,
  scan_cells_zip zip names n = scan_cells_live (omap (member_of zip) names) n.
Proof.
  induction names as [|name names IH]; intros n; [reflexivity|].
  cbn [scan_cells_zip omap list_omap]. unfold member_of at 1.
  destruct (zip_file zip name) as [b|]; simpl.
  - rewrite IH. reflexivity.
  - apply IH.
Qed.

Definition by_name (a b : string * Blob) : Prop := String.le a.1 b.1.

Lemma by_name_before (a b : string * Blob) :
  before (fun a b : string * Blob => code_unit_compare a.1 b.1) a b <-> by_name a b.
Proof. apply code_unit_before. Qed.

(** The files the archive adapter scans, in its order. *)
Definition zip_scan (zip : Archive) : list (string * Blob) :=
  omap (member_of zip)
       (sort_by code_unit_compare
                (List.filter (fun name => endsWith name ".svg") (map fst zip))).

Lemma member_of_fst zip name y : member_of zip name = Some y -> y.1 = name.
Proof.
  unfold member_of. destruct (zip_file zip name); simpl; [|discriminate].
  intros [= <-]. reflexivity.
Qed.

Lemma zip_scan_sorted zip : StronglySorted by_name (zip_scan zip).
Proof.
  unfold zip_scan.
  assert (Hs : StronglySorted String.le
                 (sort_by code_unit_compare
                    (List.filter (fun name => endsWith name ".svg") (map fst zip)))).
  { apply Sorted_StronglySorted; [apply _|].
    eapply Sorted_weaken; [|apply sort_by_sorted, code_unit_total].
    intros a b. apply code_unit_before. }
  induction Hs as [|x l Hl IH Hx]; simpl; [constructor|].
  destruct (member_of zip x) as [y|] eqn:E; simpl; [|exact IH].
  constructor; [exact IH|].
  apply Forall_forall. intros z Hz. apply list_elem_of_omap in Hz as (k & Hk & Ez).
  unfold by_name. rewrite (member_of_fst _ _ _ E), (member_of_fst _ _ _ Ez).
  rewrite Forall_forall in Hx. apply Hx, Hk.
Qed.

Lemma zip_scan_elem (zip : list (string * ZipEntry)) name b :
  NoDup zip.*1 ->
  (name, b) ∈ zip_scan zip
  <-> lookup_name name zip = Some (ZipFile b) /\ endsWith name ".svg" = true.
Proof.
  intros Hnd. unfold zip_scan. rewrite list_elem_of_omap. split.
  - intros (k & Hk & E). pose proof (member_of_fst _ _ _ E) as Hfst. simpl in Hfst. subst k.
    apply sort_by_elem, list_elem_of_In, filter_In in Hk as [_ Hsvg].
    split; [|exact Hsvg].
    unfold member_of, zip_file in E.
    destruct (lookup_name name zip) as [[b'|]|]; simpl in E; try discriminate.
    injection E as ->. reflexivity.
  - intros [Hl Hsvg]. exists name. split.
    + apply sort_by_elem, list_elem_of_In, filter_In. split; [|exact Hsvg].
      apply list_elem_of_In, list_elem_of_fmap. exists (name, ZipFile b).
      split; [reflexivity|]. apply lookup_name_elem, Hl.
    + unfold member_of, zip_file. rewrite Hl. reflexivity.
Qed.

Lemma zip_scan_nodup (zip : list (string * ZipEntry)) : NoDup zip.*1 -> NoDup (zip_scan zip).
Proof.
  intros Hnd. apply (NoDup_fmap_1 fst).
  refine (sublist_NoDup _ (sort_by code_unit_compare
            (List.filter (fun name => endsWith name ".svg") (map fst zip))) _ _).
  2: { unfold zip_scan.
    set (names := sort_by code_unit_compare _).
    assert (G : forall l, (omap (member_of zip) l).*1 `sublist_of` l).
    { induction l as [|x l IH]; simpl; [constructor|].
      destruct (member_of zip x) as [y|] eqn:E; simpl.
      - rewrite (member_of_fst _ _ _ E). constructor. exact IH.
      - constructor. exact IH. }
    apply G. }
  rewrite sort_by_perm. apply NoDup_ListNoDup, List.NoDup_filter, NoDup_ListNoDup, Hnd.
Qed.

(** Where the collation agrees with the order of code units on the
    names of the documents, both adapters scan the same files in the
    same order. *)
Lemma scans_agree (d : list (string * DirEntry)) (zip : list (string * ZipEntry)) :
  NoDup d.*1 -> NoDup zip.*1 -> same_files d zip ->
  (forall a b, a ∈ svg_names d -> b ∈ svg_names d ->
               localeCompare a b = code_unit_compare a b) ->
  sort_by compare_names (omap svg_entry d) = zip_scan zip.
Proof.
  intros Hd Hz Hs Hc.
  assert (Hsort : sort_by compare_names (omap svg_entry d)
                  = sort_by (fun a b : string * Blob => code_unit_compare a.1 b.1)
                            (omap svg_entry d)).
  { apply sort_by_ext. intros a b Ha Hb. unfold compare_names.
    apply Hc; apply list_elem_of_fmap; eauto. }
  rewrite Hsort.
  assert (Hx : forall name b, (name, b) ∈ omap svg_entry d ->
                              lookup_name name d = Some (FileEntry b) /\ endsWith name ".svg" = true).
  { intros name b Hin. apply svg_entry_elem in Hin as [Hin Hsvg].
    split; [apply elem_lookup_name; assumption|exact Hsvg]. }
  apply (StronglySorted_unique_strong by_name).
  - intros [k1 b1] [k2 b2] H1 H2 L1 L2. unfold by_name in *. simpl in *.
    assert (k1 = k2) as -> by (apply (anti_symm String.le); assumption).
    apply sort_by_elem, Hx in H1 as [H1 _].
    apply (zip_scan_elem zip _ _ Hz) in H2 as [H2 _]. apply Hs in H2. congruence.
  - apply Sorted_StronglySorted.
    { intros a b c. unfold by_name. apply transitivity. }
    eapply Sorted_weaken; [|apply sort_by_sorted].
    + intros a b. apply by_name_before.
    + intros a b. apply code_unit_total.
  - apply zip_scan_sorted.
  - rewrite sort_by_perm. apply NoDup_Permutation.
    + apply (NoDup_fmap_1 fst), svg_entries_nodup, Hd.
    + apply zip_scan_nodup, Hz.
    + intros [name b]. rewrite (zip_scan_elem zip _ _ Hz). split.
      * intros Hin. apply Hx in Hin as [Hl Hsvg]. split; [apply Hs, Hl|exact Hsvg].
      * intros [Hl Hsvg]. apply svg_entry_elem. split; [|exact Hsvg].
        apply lookup_name_elem, Hs, Hl.
Qed.

(** The manifest, when there is one, can be read and parses. *)
Definition manifest_usable (d : Directory) : Prop :=
  forall b, lookup_name "manifest.json" d = Some (FileEntry b) ->
            exists text m, b = Readable text /\ JSON_parse text = inr m.

Lemma read_manifest_same d zip :
  same_files d zip -> manifest_usable d ->
  read_manifest_zip zip = inr (read_manifest_live d).
Proof.
  intros Hs Hu. unfold read_manifest_zip, read_manifest_live.
  rewrite (zip_file_getFileHandle d zip _ Hs). unfold getFileHandle.
  destruct (lookup_name "manifest.json" d) as [[b|]|] eqn:E; simpl; try reflexivity.
  destruct (Hu b E) as (text & m & -> & Hp). simpl. rewrite Hp. reflexivity.
Qed.

(** Two outcomes that differ at most in the text of the error. *)
Definition same_outcome (r1 r2 : LoadResult) : Prop :=
  lr_success r1 = lr_success r2
  /\ lr_notebook r1 = lr_notebook r2
  /\ lr_strokeWidth r1 = lr_strokeWidth r2.

Lemma same_outcome_of f1 f2 cells m : same_outcome (outcome f1 cells m) (outcome f2 cells m).
Proof. destruct cells; repeat split. Qed.

Lemma adapters_agree (d : list (string * DirEntry)) (zip : list (string * ZipEntry)) n :
  NoDup d.*1 -> NoDup zip.*1 -> same_files d zip -> manifest_usable d ->
  (forall infos, manifest_cells (read_manifest_live d) = Some infos ->
                 members_readable zip infos) ->
  (manifest_cells (read_manifest_live d) = None ->
   forall a b, a ∈ svg_names d -> b ∈ svg_names d ->
               localeCompare a b = code_unit_compare a b) ->
  same_outcome (loadProject true (inr d) n) (importProjectFromZip (inr tt) (inr zip) n).
Proof.
  intros Hd Hz Hs Hu Hr Hc.
  unfold loadProject, importProjectFromZip, load_directory, load_archive. simpl.
  rewrite (read_manifest_same d zip Hs Hu). simpl.
  destruct (manifest_cells (read_manifest_live d)) as [infos|] eqn:Em.
  - simpl. rewrite load_cells_live_spec.
    rewrite (load_cells_zip_readable zip infos n (Hr infos eq_refl)). simpl.
    rewrite (loadable_same d zip infos Hs).
    destruct (cells_of n (loadable (fetch_live d) infos)); repeat split.
  - rewrite scan_cells_zip_live. fold (zip_scan zip).
    rewrite (scans_agree d zip Hd Hz Hs (Hc eq_refl)).
    destruct (scan_cells_live (zip_scan zip) n) as [e|cells]; simpl; [repeat split|].
    destruct cells; repeat split.
Qed.

End scans.

(** ** Saved by one adapter, loaded by the other *)

(** The files that a log of operations has written. *)
Definition written (log : list FsOp) : list (string * string) :=
  omap (fun o => match o with
                 | OpWrite name content => Some (name, content)
                 | _ => None
                 end) log.

(** The directory, or the archive, holds each of the files, readable,
    under its name. *)
Definition dir_holds (d : Directory) (files : list (string * string)) : Prop :=
  forall name content, (name, content) ∈ files ->
    lookup_name name d = Some (FileEntry (Readable content)).

Definition zip_holds (zip : Archive) (files : list (string * string)) : Prop :=
  forall name content, (name, content) ∈ files ->
    lookup_name name zip = Some (ZipFile (Readable content)).

(** The entry of the manifest for the cell at position [i]. *)
Definition entry_of (i : nat) (cell : Cell) : ManifestCell :=
  mkManifestCell (cell_filename i) (cell_height cell) (cell_recognizedCode cell).

Lemma zip_add_elem zip name content : (name, content) ∈ zip_add zip name content.
Proof. apply lookup_name_elem, zip_add_lookup. Qed.

Lemma zip_add_keeps zip name content k v :
  (k, v) ∈ zip -> k <> name -> (k, v) ∈ zip_add zip name content.
Proof.
  induction zip as [|[k' v'] zip IH]; simpl; intros Hin Hne; [inversion Hin|].
  apply elem_of_cons in Hin as [[= <- <-]|Hin].
  - destruct (String.eqb_spec k name) as [->|_]; [contradiction|left].
  - destruct (String.eqb k' name); right; [exact Hin|apply IH; assumption].
Qed.

Lemma add_cells_keeps cells : forall zip i sw cw k v,
  (k, v) ∈ zip -> (forall j, k <> cell_filename (i + j)) ->
  (k, v) ∈ add_cells zip cells i sw cw.
Proof.
  induction cells as [|c cells IH]; intros zip i sw cw k v Hin Hne; [exact Hin|].
  cbn [add_cells]. apply IH.
  - apply zip_add_keeps; [exact Hin|]. specialize (Hne 0).
    rewrite Nat.add_0_r in Hne. exact Hne.
  - intros j. specialize (Hne (S j)). replace (S i + j) with (i + S j) by lia. exact Hne.
Qed.

Lemma add_cells_elem cells : forall zip i j sw cw cell,
  cells !! j = Some cell ->
  (cell_filename (i + j), cell_document cell sw cw) ∈ add_cells zip cells i sw cw.
Proof.
  induction cells as [|c cells IH]; intros zip i j sw cw cell Hj; [discriminate|].
  cbn [add_cells]. destruct j as [|j]; simpl in Hj.
  - injection Hj as ->. rewrite Nat.add_0_r. apply add_cells_keeps; [apply zip_add_elem|].
    intros j E. apply cell_filename_inj in E. lia.
  - replace (i + S j) with (S i + j) by lia. apply IH, Hj.
Qed.

Lemma written_app l1 l2 : written (l1 ++ l2) = written l1 ++ written l2.
Proof. apply omap_app. Qed.

Lemma loadable_saved fetch (cells : list Cell) sw cw :
  (forall i cell, cells !! i = Some cell ->
                  fetch (cell_filename i) = Some (cell_document cell sw cw)) ->
  loadable fetch (imap entry_of cells)
  = imap (fun i cell => (entry_of i cell, cell_document cell sw cw)) cells.
Proof.
  unfold entry_of. generalize cell_filename as f. intros f. revert f.
  induction cells as [|c cells IH]; intros f Hf; [reflexivity|].
  rewrite !imap_cons. unfold loadable. cbn [omap list_omap]. simpl mc_file.
  rewrite (Hf 0 c eq_refl). simpl. f_equal.
  apply (IH (fun i => f (S i))). intros i cell Hi. apply (Hf (S i) cell Hi).
Qed.

Lemma imap_twice {A B C} (g : nat -> B -> C) (f : nat -> A -> B) (l : list A) :
  imap g (imap f l) = imap (fun i x => g i (f i x)) l.
Proof.
  revert f g. induction l as [|x l IH]; intros f g; [reflexivity|].
  rewrite !imap_cons. f_equal. apply (IH (f ∘ S) (g ∘ S)).
Qed.

Section interchange.

Context `{Host}.
Variables (cells : list Cell) (sw cw : number).

(** The files of the saved project are among [files]. *)
Definition project_files (files : list (string * string)) : Prop :=
  ("manifest.json", JSON_stringify (createManifest cells sw)) ∈ files
  /\ forall i cell, cells !! i = Some cell ->
                    (cell_filename i, cell_document cell sw cw) ∈ files.

(** The cells that a load makes of the saved project: one for each
    saved cell, with its entry of the manifest and its document. *)
Definition reloaded (n : nat) : list Cell :=
  imap (fun i cell => manifest_cell (n + i) (entry_of i cell) (cell_document cell sw cw)) cells.

Lemma build_archive_files : project_files (build_archive cells sw cw).
Proof.
  split.
  - apply zip_add_elem.
  - intros i cell Hi. apply zip_add_keeps; [|apply cell_filename_not_manifest].
    apply (add_cells_elem cells [] 0 i sw cw cell Hi).
Qed.

Lemma saved_log_files hasFsa picked fault :
  snd (saveProject hasFsa picked fault cells sw cw) = save_success ->
  project_files (written (fst (saveProject hasFsa picked fault cells sw cw))).
Proof.
  intros Hs.
  destruct (saveProject_log hasFsa picked fault cells sw cw) as (ops & k & -> & _ & _ & Hok).
  destruct (Hok Hs) as [-> ->]. rewrite written_app. split.
  - apply elem_of_app. right. simpl. left.
  - intros i cell Hi. apply elem_of_app. left.
    destruct (cell_ops_lookup cells 0 i sw cw cell Hi) as (l1 & l2 & ->).
    rewrite !written_app. apply elem_of_app. right. apply elem_of_app. left. simpl. left.
Qed.

Lemma cells_of_saved n :
  cells_of n (imap (fun i cell => (entry_of i cell, cell_document cell sw cw)) cells)
  = reloaded n.
Proof.
  unfold cells_of, reloaded. rewrite imap_twice. reflexivity.
Qed.

Hypothesis some_cell : cells <> [].
Hypothesis round_trip :
  JSON_parse (JSON_stringify (createManifest cells sw)) = inr (createManifest cells sw).

Lemma outcome_reloaded fail n m : outcome fail (reloaded n) m = load_success (reloaded n) m.
Proof.
  unfold reloaded. destruct cells as [|c l]; [contradiction|]. reflexivity.
Qed.

Lemma load_saved_directory (d : list (string * DirEntry)) files n :
  project_files files -> dir_holds d files ->
  loadProject true (inr d) n
  = load_success (reloaded n) (Some (createManifest cells sw)).
Proof.
  intros [Hm Hc] Hd.
  rewrite (loadProject_manifest d (createManifest cells sw) (imap entry_of cells) n).
  - rewrite (loadable_saved _ cells sw cw).
    + rewrite cells_of_saved. apply outcome_reloaded.
    + intros i cell Hi. unfold fetch_live, getFileHandle.
      rewrite (Hd _ _ (Hc i cell Hi)). reflexivity.
  - unfold read_manifest_live, getFileHandle. rewrite (Hd _ _ Hm). simpl.
    rewrite round_trip. reflexivity.
  - reflexivity.
Qed.

Lemma load_saved_archive (zip : list (string * ZipEntry)) files n :
  project_files files -> zip_holds zip files ->
  importProjectFromZip (inr tt) (inr zip) n
  = load_success (reloaded n) (Some (createManifest cells sw)).
Proof.
  intros [Hm Hc] Hz.
  rewrite (importProjectFromZip_manifest zip (createManifest cells sw) (imap entry_of cells) n).
  - rewrite (loadable_saved _ cells sw cw).
    + rewrite cells_of_saved. apply outcome_reloaded.
    + intros i cell Hi. unfold fetch_zip, zip_file.
      rewrite (Hz _ _ (Hc i cell Hi)). reflexivity.
  - unfold read_manifest_zip, zip_file. rewrite (Hz _ _ Hm). simpl.
    rewrite round_trip. reflexivity.
  - reflexivity.
  - intros info Hin e. apply elem_of_lookup_imap_1 in Hin as (i & cell & -> & Hi).
    unfold zip_file. simpl. rewrite (Hz _ _ (Hc i cell Hi)). discriminate.
Qed.

End interchange.

(** A saved project on which to run the adapters. *)

Definition save_host : Host := Json.host [createManifest demo_cells (num 4)].

(** The directory, and the archive, that hold just the given files. *)
Definition dir_of (files : list (string * string)) : Directory :=
  map (fun f => (f.1, FileEntry (Readable f.2))) files.

Definition zip_of (files : list (string * string)) : Archive :=
  map (fun f => (f.1, ZipFile (Readable f.2))) files.

Lemma held_by_dir (files : list (string * string)) : NoDup files.*1 -> dir_holds (dir_of files) files.
Proof.
  intros Hnd name content Hin. unfold dir_of.
  apply elem_lookup_name.
  - rewrite <- list_fmap_compose. exact Hnd.
  - apply list_elem_of_fmap. exists (name, content). auto.
Qed.

Lemma held_by_zip (files : list (string * string)) : NoDup files.*1 -> zip_holds (zip_of files) files.
Proof.
  intros Hnd name content Hin. unfold zip_of.
  apply elem_lookup_name.
  - rewrite <- list_fmap_compose. exact Hnd.
  - apply list_elem_of_fmap. exists (name, content). auto.
Qed.

Definition exported : list (string * string) :=
  build_archive (H := save_host) demo_cells (num 4) (num 800).

Definition saved_log : list FsOp :=
  fst (saveProject (H := save_host) true (inr tt) no_fault demo_cells (num 4) (num 800)).

(** A project with a manifest that is not JSON, as a directory and as an
    archive. *)
Definition dir_bad_manifest : Directory :=
  [("manifest.json", FileEntry (Readable "{"));
   ("cell-001.svg", FileEntry (Readable svg_a))].

Definition zip_bad_manifest : Archive :=
  [("manifest.json", ZipFile (Readable "{"));
   ("cell-001.svg", ZipFile (Readable svg_a))].

Lemma same_files_bad_manifest : same_files dir_bad_manifest zip_bad_manifest.
Proof.
  intros name b. unfold dir_bad_manifest, zip_bad_manifest. cbn [lookup_name].
  repeat match goal with
         | |- context [String.eqb ?k name] => destruct (String.eqb k name)
         end; split; intros E; inversion E; reflexivity.
Qed.

Lemma same_files_ba : same_files dir_ba zip_ba.
Proof.
  intros name b. unfold dir_ba, zip_ba. cbn [lookup_name].
  repeat match goal with
         | |- context [String.eqb ?k name] => destruct (String.eqb k name)
         end; split; intros E; inversion E; reflexivity.
Qed.

(** C6, as the code has it.  Let a directory and an archive hold the
    same files.  If the manifest, when there is one, can be read and
    parses; if, when its cells are listed, no member the archive adapter
    needs fails to be read; and if, when the documents are scanned,
    [localeCompare] orders their names as their code units do: then the
    two adapters end alike, with the same success flag, the same cells
    in the same order and the same stroke width (manifest first, a scan
    of the [.svg] files sorted by name otherwise, an entry without
    document skipped).  And a project of at least one cell saved by one
    adapter is loaded by the other, where [JSON.parse] gives back the
    manifest that [JSON.stringify] printed: a directory that holds the
    members of an exported archive, and an archive that holds the files
    a successful save has written, are both loaded into one cell for
    each saved cell, in order, made of its entry of the manifest and of
    its document. *)
Theorem C6_adapters_agree :
  forall (H : Host),
    (forall (d : list (string * DirEntry)) (zip : list (string * ZipEntry)) (n : nat),
        NoDup d.*1 -> NoDup zip.*1 -> same_files d zip -> manifest_usable d ->
        (forall infos, manifest_cells (read_manifest_live d) = Some infos ->
                       members_readable zip infos) ->
        (manifest_cells (read_manifest_live d) = None ->
         forall a b, a ∈ svg_names d -> b ∈ svg_names d ->
                     localeCompare a b = code_unit_compare a b) ->
        same_outcome (loadProject true (inr d) n) (importProjectFromZip (inr tt) (inr zip) n))
    /\ (forall (cells : list Cell) (strokeWidth canvasWidth : number) (n : nat),
          cells <> [] ->
          JSON_parse (JSON_stringify (createManifest cells strokeWidth))
          = inr (createManifest cells strokeWidth) ->
          (forall jszip download files (d : list (string * DirEntry)),
              fst (exportProjectAsZip jszip download cells strokeWidth canvasWidth) = Some files ->
              dir_holds d files ->
              loadProject true (inr d) n
              = load_success (reloaded cells strokeWidth canvasWidth n)
                             (Some (createManifest cells strokeWidth)))
          /\ (forall hasFsa picked fault (zip : list (string * ZipEntry)),
                 snd (saveProject hasFsa picked fault cells strokeWidth canvasWidth) = save_success ->
                 zip_holds zip
                   (written (fst (saveProject hasFsa picked fault cells strokeWidth canvasWidth))) ->
                 importProjectFromZip (inr tt) (inr zip) n
                 = load_success (reloaded cells strokeWidth canvasWidth n)
                                (Some (createManifest cells strokeWidth)))).
Proof.
  intros H. split; [apply adapters_agree|].
  intros cells sw cw n Hne Hrt. split.
  - intros jszip download files d E Hd.
    apply (load_saved_directory cells sw cw Hne Hrt d files n); [|exact Hd].
    unfold exportProjectAsZip in E.
    destruct jszip as [e|u]; simpl in E; [discriminate|].
    destruct download as [e|u']; simpl in E; [discriminate|].
    injection E as <-. apply build_archive_files.
  - intros hasFsa picked fault zip Hs Hz.
    apply (load_saved_archive cells sw cw Hne Hrt zip
             (written (fst (saveProject hasFsa picked fault cells sw cw))) n); [|exact Hz].
    apply saved_log_files, Hs.
Qed.

Lemma C6_adapters_agree_witness :
  (same_outcome (loadProject (H := demo_host) true (inr dir_ba) 0)
                (importProjectFromZip (H := demo_host) (inr tt) (inr zip_ba) 0)
   /\ lr_success (loadProject (H := demo_host) true (inr dir_ba) 0) = true)
  /\ loadProject (H := save_host) true (inr (dir_of exported)) 0
     = load_success (reloaded (H := save_host) demo_cells (num 4) (num 800) 0)
                    (Some (createManifest demo_cells (num 4)))
  /\ importProjectFromZip (H := save_host) (inr tt) (inr (zip_of (written saved_log))) 0
     = load_success (reloaded (H := save_host) demo_cells (num 4) (num 800) 0)
                    (Some (createManifest demo_cells (num 4))).
Proof.
  split; [split; [|reflexivity]|split].
  - apply (proj1 (C6_adapters_agree demo_host) dir_ba zip_ba 0).
    + apply (bool_decide_unpack _). vm_compute. exact I.
    + apply (bool_decide_unpack _). vm_compute. exact I.
    + exact same_files_ba.
    + intros b [= <-]. eexists _, manifest_ba. split; reflexivity.
    + intros infos E. vm_compute in E. injection E as <-.
      intros info Hin e. repeat (apply elem_of_cons in Hin as [->|Hin]); [| |inversion Hin];
        vm_compute; discriminate.
    + intros E. vm_compute in E. discriminate.
  - refine (proj1 (proj2 (C6_adapters_agree save_host) demo_cells (num 4) (num 800) 0 _ _)
                  (inr tt) (inr tt) exported (dir_of exported) eq_refl _).
    + discriminate.
    + vm_compute. reflexivity.
    + apply held_by_dir. apply (bool_decide_unpack _). vm_compute. exact I.
  - refine (proj2 (proj2 (C6_adapters_agree save_host) demo_cells (num 4) (num 800) 0 _ _)
                  true (inr tt) no_fault (zip_of (written saved_log)) eq_refl _).
    + discriminate.
    + vm_compute. reflexivity.
    + apply held_by_zip. apply (bool_decide_unpack _). vm_compute. exact I.
Defined.

Example demo_cells_reloaded :
  map (fun c => (cell_id c, cell_recognizedCode c, cell_height c, length (cell_strokes c)))
      (reloaded (H := save_host) demo_cells (num 4) (num 800) 0)
  = [("id-0", Some "print(1)", Some (num 200), 1);
     ("id-1", None, Some (num 320), 0)].
Proof. vm_compute. reflexivity. Qed.

(** C6, as the claim has it, fails: on the same files, with a manifest
    that does not parse, the directory adapter falls back to the scan
    and succeeds, and the archive adapter fails. *)
Lemma C6_import_fails_on_unparseable_manifest :
  same_files dir_bad_manifest zip_bad_manifest
  /\ (length <$> loaded_cells (loadProject (H := demo_host) true (inr dir_bad_manifest) 0))
     = Some 1
  /\ importProjectFromZip (H := demo_host) (inr tt) (inr zip_bad_manifest) 0
     = load_failure "Unexpected token in JSON".
Proof.
  split; [exact same_files_bad_manifest|]. vm_compute. split; reflexivity.
Qed.

End AdapterFacts.

(* ================================================================== *)
(** * The document parser on generated documents *)
(* ================================================================== *)

Module XmlFacts.

Import Xml JsFacts.
Local Open Scope list_scope.

Lemma run_app st (a b : string) : run st (a +:+ b) = run (run st a) b.
Proof. revert st. induction a as [|c a IH]; intros st; simpl; [reflexivity|]. apply IH. Qed.

(** The characters that stand for themselves in an attribute value in
    double quotes. *)
Definition plain (c : ascii) : bool :=
  negb (Ascii.eqb c quot) && negb (Ascii.eqb c "<") && negb (Ascii.eqb c "&")
  && negb (Ascii.eqb c "009") && negb (Ascii.eqb c "010") && negb (Ascii.eqb c "013").

Lemma text_char_plain (c : ascii) : text_char c = true -> plain c = true.
Proof.
  destruct c as [[] [] [] [] [] [] [] []]; vm_compute; intros Hp;
    try discriminate Hp; reflexivity.
Qed.

Lemma step_value n a k v stack root c :
  plain c = true ->
  step (PState (AttrValue n a k quot v) stack root) c
  = PState (AttrValue n a k quot (snoc v c)) stack root.
Proof.
  destruct c as [[] [] [] [] [] [] [] []]; vm_compute; intros Hp;
    try discriminate Hp; reflexivity.
Qed.

Lemma snoc_append (v : string) (c : ascii) (s : string) :
  snoc v c +:+ s = v +:+ String c s.
Proof. unfold snoc. rewrite append_assoc. reflexivity. Qed.

(** Inside an attribute value, plain text is taken over as it is. *)
Lemma run_value (s : string) : forall n a k v stack root rest,
  forallb_string plain s = true ->
  run (PState (AttrValue n a k quot v) stack root) (s +:+ rest)
  = run (PState (AttrValue n a k quot (v +:+ s)) stack root) rest.
Proof.
  induction s as [|c s IH]; intros n a k v stack root rest Hs.
  - rewrite append_nil_r. reflexivity.
  - cbn [forallb_string] in Hs. apply andb_true_iff in Hs as [Hc Hs].
    cbn [append run]. rewrite step_value by exact Hc.
    rewrite IH by exact Hs. rewrite snoc_append. reflexivity.
Qed.


(** ** The pieces of a generated document *)

Import Svg.

Definition svg_attrs (w h : string) : attr_list :=
  [("xmlns", "http://www.w3.org/2000/svg");
   ("viewBox", "0 0 " +:+ w +:+ " " +:+ h);
   ("width", w); ("height", h)].

Definition path_attrs (d sw : string) : attr_list :=
  [("d", d); ("stroke", "#000"); ("stroke-width", sw); ("fill", "none");
   ("stroke-linecap", "round"); ("stroke-linejoin", "round")].

Definition path_node (sw d : string) : node := Elem "path" (path_attrs d sw) [].

Definition xmlns : attr_list := [("xmlns", "http://www.w3.org/2000/svg")].

Lemma run_prolog rest :
  run initial
      ("<?xml version=" +:+ dq +:+ "1.0" +:+ dq +:+
       " encoding=" +:+ dq +:+ "UTF-8" +:+ dq +:+ "?>" +:+ nl +:+
       "<svg xmlns=" +:+ dq +:+ "http://www.w3.org/2000/svg" +:+ dq +:+
       " viewBox=" +:+ dq +:+ "0 0 " +:+ rest)
  = run (PState (AttrValue "svg" xmlns "viewBox" quot "0 0 ") [] None) rest.
Proof. reflexivity. Qed.

Lemma run_width v rest :
  run (PState (AttrValue "svg" xmlns "viewBox" quot v) [] None)
      (dq +:+ " width=" +:+ dq +:+ rest)
  = run (PState (AttrValue "svg" (xmlns ++ [("viewBox", v)]) "width" quot EmptyString) [] None) rest.
Proof. reflexivity. Qed.

Lemma run_height v w rest :
  run (PState (AttrValue "svg" (xmlns ++ [("viewBox", v)]) "width" quot w) [] None)
      (dq +:+ " height=" +:+ dq +:+ rest)
  = run (PState (AttrValue "svg" (xmlns ++ [("viewBox", v); ("width", w)]) "height" quot EmptyString) [] None) rest.
Proof. reflexivity. Qed.

Lemma run_open v w h rest :
  run (PState (AttrValue "svg" (xmlns ++ [("viewBox", v); ("width", w)]) "height" quot h) [] None)
      (dq +:+ ">" +:+ nl +:+ rest)
  = run (PState Text [("svg", xmlns ++ [("viewBox", v); ("width", w); ("height", h)], [])] None) rest.
Proof. reflexivity. Qed.

Lemma run_path_open n a ch stack root rest :
  run (PState Text ((n, a, ch) :: stack) root) ("  <path d=" +:+ dq +:+ rest)
  = run (PState (AttrValue "path" [] "d" quot EmptyString) ((n, a, ch) :: stack) root) rest.
Proof. reflexivity. Qed.

Lemma run_path_stroke d stack root rest :
  run (PState (AttrValue "path" [] "d" quot d) stack root)
      (dq +:+ " stroke=" +:+ dq +:+ "#000" +:+ dq +:+ " stroke-width=" +:+ dq +:+ rest)
  = run (PState (AttrValue "path" [("d", d); ("stroke", "#000")] "stroke-width" quot EmptyString)
                stack root) rest.
Proof. reflexivity. Qed.

Lemma run_path_close d sw n a ch stack root rest :
  run (PState (AttrValue "path" [("d", d); ("stroke", "#000")] "stroke-width" quot sw)
              ((n, a, ch) :: stack) root)
      (dq +:+ " fill=" +:+ dq +:+ "none" +:+ dq +:+
       " stroke-linecap=" +:+ dq +:+ "round" +:+ dq +:+
       " stroke-linejoin=" +:+ dq +:+ "round" +:+ dq +:+ "/>" +:+ rest)
  = run (PState Text ((n, a, ch ++ [path_node sw d]) :: stack) root) rest.
Proof. reflexivity. Qed.

Lemma run_newline n a ch stack root rest :
  run (PState Text ((n, a, ch) :: stack) root) (nl +:+ rest)
  = run (PState Text ((n, a, ch) :: stack) root) rest.
Proof. reflexivity. Qed.

Lemma run_end a ch :
  run (PState Text [("svg", a, ch)] None) (nl +:+ "</svg>")
  = PState Text [] (Some (Elem "svg" a ch)).
Proof. reflexivity. Qed.

(** One [path] element. *)
Lemma run_path_element d strokeWidth n a ch stack root rest :
  forallb_string plain d = true ->
  run (PState Text ((n, a, ch) :: stack) root) (path_element d strokeWidth +:+ rest)
  = run (PState Text ((n, a, ch ++ [path_node (toString strokeWidth) d]) :: stack) root) rest.
Proof.
  intros Hd. unfold path_element. rewrite !append_assoc.
  rewrite run_path_open, (run_value d) by exact Hd.
  rewrite run_path_stroke, (run_value (toString strokeWidth))
    by (eapply forallb_string_impl; [apply text_char_plain|apply toString_text]).
  apply run_path_close.
Qed.

(** The [path] elements, one per line. *)
Lemma run_path_elements strokeWidth n a stack root (ds : list string) : forall ch rest,
  Forall (fun d => forallb_string plain d = true) ds ->
  run (PState Text ((n, a, ch) :: stack) root)
      (join nl (map (fun d => path_element d strokeWidth) ds) +:+ rest)
  = run (PState Text ((n, a, ch ++ map (path_node (toString strokeWidth)) ds) :: stack) root) rest.
Proof.
  induction ds as [|d ds IH]; intros ch rest Hds.
  - simpl. rewrite app_nil_r. reflexivity.
  - apply Forall_cons in Hds as [Hd Hds]. destruct ds as [|d' ds].
    + cbn [map join]. rewrite run_path_element by exact Hd. reflexivity.
    + change (join nl (map (fun d0 => path_element d0 strokeWidth) (d :: d' :: ds)))
        with (path_element d strokeWidth +:+ nl +:+
              join nl (map (fun d0 => path_element d0 strokeWidth) (d' :: ds))).
      rewrite !append_assoc, run_path_element by exact Hd.
      rewrite run_newline, IH by exact Hds.
      cbn [map]. rewrite <- app_assoc. reflexivity.
Qed.

(** The lines of [path] elements that [strokesToSvg] joins. *)
Definition path_data (strokes : list Stroke) : list string :=
  List.filter nonempty (map strokeToPathD strokes).

Lemma path_element_nonempty d sw : nonempty (path_element d sw) = true.
Proof. reflexivity. Qed.

Lemma path_lines strokes sw :
  List.filter nonempty
    (map (fun stroke =>
            let d := strokeToPathD stroke in
            if nonempty d then path_element d sw else EmptyString) strokes)
  = map (fun d => path_element d sw) (path_data strokes).
Proof.
  unfold path_data. induction strokes as [|s strokes IH]; [reflexivity|].
  cbn [map List.filter]. destruct (nonempty (strokeToPathD s)) eqn:E.
  - rewrite path_element_nonempty. cbn [map]. rewrite IH. reflexivity.
  - cbn [nonempty]. exact IH.
Qed.

Lemma strokeToPathD_plain stroke : forallb_string plain (strokeToPathD stroke) = true.
Proof.
  eapply forallb_string_impl; [apply text_char_plain|].
  assert (Hm : forall q, forallb_string text_char (moveTo q) = true).
  { intros q. unfold moveTo. rewrite !forallb_append, !toFixed2_text. reflexivity. }
  assert (Hl : forall q, forallb_string text_char (lineTo q) = true).
  { intros q. unfold lineTo. rewrite !forallb_append, !toFixed2_text. reflexivity. }
  assert (Hj : forall l, Forall (fun s => forallb_string text_char s = true) l ->
                         forallb_string text_char (join " " l) = true).
  { induction l as [|s l IH]; intros Hall; [reflexivity|].
    apply Forall_cons in Hall as [Hs Hall]. destruct l as [|s' l]; [exact Hs|].
    change (join " " (s :: s' :: l)) with (s +:+ " " +:+ join " " (s' :: l)).
    rewrite !forallb_append, Hs, (IH Hall). reflexivity. }
  destruct stroke as [|q0 [|q1 rest]]; [reflexivity| |].
  - unfold strokeToPathD. rewrite !forallb_append, !toFixed2_text. reflexivity.
  - unfold strokeToPathD. apply Hj. constructor; [apply Hm|].
    apply Forall_forall. intros s Hs. apply list_elem_of_fmap in Hs as (q & -> & _). apply Hl.
Qed.

(** The document that [DOMParser] makes of what [strokesToSvg] writes. *)
Lemma parse_strokesToSvg strokes width height strokeWidth :
  parseFromString (strokesToSvg strokes width height strokeWidth)
  = Some (Elem "svg" (svg_attrs (toString width) (toString height))
               (map (path_node (toString (default (num 4) strokeWidth)))
                    (path_data strokes))).
Proof.
  unfold parseFromString, strokesToSvg. rewrite path_lines.
  assert (Hw : forallb_string plain (toString width) = true)
    by (eapply forallb_string_impl; [apply text_char_plain|apply toString_text]).
  assert (Hh : forallb_string plain (toString height) = true)
    by (eapply forallb_string_impl; [apply text_char_plain|apply toString_text]).
  rewrite run_prolog, (run_value (toString width)) by exact Hw.
  rewrite (run_value " ") by reflexivity.
  rewrite (run_value (toString height)) by exact Hh.
  rewrite run_width, (run_value (toString width)) by exact Hw.
  rewrite run_height, (run_value (toString height)) by exact Hh.
  rewrite run_open, run_path_elements.
  - rewrite run_end. cbn [ps_mode ps_stack ps_root]. rewrite ?append_assoc. reflexivity.
  - apply Forall_forall. intros d Hd. unfold path_data in Hd.
    apply list_elem_of_In, filter_In in Hd as [Hd _].
    apply in_map_iff in Hd as (s & <- & _). apply strokeToPathD_plain.
Qed.

End XmlFacts.

(* ================================================================== *)
(** * The codec: decoding what was encoded *)
(* ================================================================== *)

Module SvgFacts.

Import Xml Svg JsFacts XmlFacts.
Local Open Scope list_scope.

(** ** The path scanner *)

(** A non-empty run of the characters [[\d.-]]. *)
Definition coord_text (s : string) : Prop :=
  forallb_string is_coord_char s = true /\ s <> EmptyString.

Lemma coord_char_not_space (c : ascii) : is_coord_char c = true -> is_space c = false.
Proof.
  destruct c as [[] [] [] [] [] [] [] []]; vm_compute; intros Hc;
    try discriminate Hc; reflexivity.
Qed.

Lemma digit_coord_char (c : ascii) : is_digit c = true -> is_coord_char c = true.
Proof. intros H. unfold is_coord_char. rewrite H. reflexivity. Qed.

(** A stroke segment: the command letter and the two coordinates. *)
Definition segment_text (g : ascii * string * string) : string :=
  let '(c, xs, ys) := g in String c (xs +:+ " " +:+ ys).

Definition good_segment (g : ascii * string * string) : Prop :=
  let '(c, xs, ys) := g in is_command c = true /\ coord_text xs /\ coord_text ys.

(** What follows a segment: nothing, or a space. *)
Definition segment_end (rest : string) : Prop :=
  match rest with
  | EmptyString => True
  | String c _ => c = " "%char
  end.

Lemma match_here_segment c xs ys rest :
  good_segment (c, xs, ys) -> segment_end rest ->
  match_here (String c (xs +:+ " " +:+ ys +:+ rest)) = Some (xs, ys, rest).
Proof.
  intros (Hc & [Hx Hxne] & [Hy Hyne]) Hrest. unfold match_here. rewrite Hc.
  destruct xs as [|x0 xs]; [congruence|]. destruct ys as [|y0 ys]; [congruence|].
  assert (Hx0 : is_space x0 = false).
  { apply coord_char_not_space. cbn [forallb_string] in Hx.
    apply andb_true_iff in Hx. apply Hx. }
  assert (Hy0 : is_space y0 = false).
  { apply coord_char_not_space. cbn [forallb_string] in Hy.
    apply andb_true_iff in Hy. apply Hy. }
  cbn [append]. rewrite drop_while_head by exact Hx0.
  change (String x0 (xs +:+ String " " (String y0 (ys +:+ rest))))
    with (String x0 xs +:+ String " " (String y0 (ys +:+ rest))).
  rewrite span_run; [|exact Hx|reflexivity].
  change (String " " (String y0 (ys +:+ rest)))
    with (" " +:+ String y0 (ys +:+ rest)).
  rewrite span_run; [|reflexivity|exact Hy0].
  change (String y0 (ys +:+ rest)) with (String y0 ys +:+ rest).
  rewrite span_run; [reflexivity|exact Hy|].
  destruct rest as [|r0 rest]; [exact I|]. simpl in Hrest. subst r0. reflexivity.
Qed.

Lemma exec_all_segments (gs : list (ascii * string * string)) : forall fuel,
  Forall good_segment gs ->
  String.length (join " " (map segment_text gs)) <= fuel ->
  exec_all fuel (join " " (map segment_text gs)) = map (fun g => (g.1.2, g.2)) gs.
Proof.
  induction gs as [|[[c xs] ys] gs IH]; intros fuel Hg Hfuel.
  - destruct fuel; reflexivity.
  - apply Forall_cons in Hg as [Hg Hgs]. destruct gs as [|g' gs].
    + cbn [map join segment_text] in *. destruct fuel as [|fuel]; [simpl in Hfuel; lia|].
      cbn [exec_all].
      rewrite <- (append_nil_r ys) at 1.
      rewrite (match_here_segment c xs ys EmptyString Hg I).
      destruct fuel; reflexivity.
    + change (join " " (map segment_text ((c, xs, ys) :: g' :: gs)))
        with (String c (xs +:+ " " +:+ ys) +:+ " " +:+ join " " (map segment_text (g' :: gs))) in *.
      set (tail := join " " (map segment_text (g' :: gs))) in *.
      assert (E : String c (xs +:+ " " +:+ ys) +:+ " " +:+ tail
                  = String c (xs +:+ " " +:+ ys +:+ String " " tail)).
      { cbn [append]. rewrite !append_assoc. reflexivity. }
      rewrite E in *. cbn [String.length] in Hfuel. rewrite !length_append in Hfuel.
      cbn [String.length] in Hfuel.
      destruct fuel as [|[|fuel]]; [lia|lia|].
      cbn [exec_all]. rewrite (match_here_segment c xs ys (String " " tail) Hg eq_refl).
      cbn [match_here is_command]. simpl (Ascii.eqb " " _).
      cbn [orb]. cbn [map]. f_equal. apply IH; [exact Hgs|]. lia.
Qed.

(** ** Coordinates in fixed notation *)

(** A finite number below [10^21] in absolute value. *)
Definition fixed_range (x : number) : Prop :=
  exists m e, x = Dec m e /\ at_least_1e21 (Z.abs m) e = false.

(** What decoding makes of an encoded coordinate. *)
Definition decoded_coord (x : number) : number :=
  match x with
  | Dec m e => Dec (printed_hundredths m e) (-2)
  | _ => x
  end.

Definition decoded_point (q : Point) : Point :=
  mkPoint (decoded_coord (px q)) (decoded_coord (py q)) half (num 0).

Lemma toFixed2_coord_text x : fixed_range x -> coord_text (toFixed2 x).
Proof.
  intros (m & e & -> & Hr). unfold toFixed2. rewrite Hr.
  destruct (fixed2_shape (round_hundredths (Z.abs m) e))
    as (ip & fp & -> & Hip & Hne & Hfp & _). split.
  - rewrite !forallb_append.
    rewrite (forallb_string_impl _ _ _ digit_coord_char Hip).
    rewrite (forallb_string_impl _ _ _ digit_coord_char Hfp).
    destruct (m <? 0)%Z; reflexivity.
  - destruct ip as [|c ip]; [congruence|]. destruct (m <? 0)%Z; discriminate.
Qed.

Lemma parseFloat_fixed x : fixed_range x -> parseFloat (toFixed2 x) = decoded_coord x.
Proof. intros (m & e & -> & Hr). apply parseFloat_toFixed2, Hr. Qed.

Definition good_point (q : Point) : Prop := fixed_range (px q) /\ fixed_range (py q).

Definition segment_of (c : ascii) (q : Point) : ascii * string * string :=
  (c, toFixed2 (px q), toFixed2 (py q)).

Lemma good_segment_of c q :
  is_command c = true -> good_point q -> good_segment (segment_of c q).
Proof.
  intros Hc [Hx Hy]. repeat split; auto; apply toFixed2_coord_text; assumption.
Qed.

(** The scanner recovers the points of a stroke of two or more points. *)
Lemma parsePathD_strokeToPathD (stroke : Stroke) :
  2 <= length stroke -> Forall good_point stroke ->
  parsePathD (strokeToPathD stroke) = map decoded_point stroke.
Proof.
  intros Hlen Hgood. destruct stroke as [|q0 [|q1 rest]]; simpl in Hlen; try lia.
  assert (E : strokeToPathD (q0 :: q1 :: rest)
              = join " " (map segment_text
                            (segment_of "M" q0 :: map (segment_of "L") (q1 :: rest)))).
  { unfold strokeToPathD. f_equal. cbn [map]. f_equal. f_equal.
    rewrite map_map. reflexivity. }
  unfold parsePathD. rewrite E, exec_all_segments; [| |lia].
  - assert (G : forall c (l : list Point), Forall good_point l ->
      flat_map (fun '(xs, ys) =>
                  if negb (isNaN (parseFloat xs)) && negb (isNaN (parseFloat ys))
                  then [mkPoint (parseFloat xs) (parseFloat ys) half (num 0)] else [])
               (map (fun g : ascii * string * string => (g.1.2, g.2)) (map (segment_of c) l))
      = map decoded_point l).
    { intros c l Hl. induction Hl as [|q l [Hx Hy] Hl IH]; [reflexivity|].
      cbn [map flat_map segment_of fst snd].
      rewrite (parseFloat_fixed _ Hx), (parseFloat_fixed _ Hy), IH.
      destruct Hx as (m & e & Ex & _), Hy as (m' & e' & Ey & _).
      unfold decoded_point at 2. rewrite Ex, Ey. reflexivity. }
    apply Forall_cons in Hgood as [H0 Hrest].
    change (segment_of "M" q0 :: map (segment_of "L") (q1 :: rest))
      with (map (segment_of "M") [q0] ++ map (segment_of "L") (q1 :: rest)).
    rewrite map_app, flat_map_app, (G "M"%char [q0]), (G "L"%char (q1 :: rest)); auto.
  - apply Forall_cons in Hgood as [H0 Hrest]. constructor.
    + apply good_segment_of; [reflexivity|exact H0].
    + apply Forall_forall. intros g Hg. apply list_elem_of_fmap in Hg as (q & -> & Hq).
      apply good_segment_of; [reflexivity|]. rewrite Forall_forall in Hrest. apply Hrest, Hq.
Qed.

(** ** Decoding a generated document *)

Lemma dec_strokes_svgToStrokes svgString :
  dec_strokes (svgToStrokes svgString)
  = path_strokes (querySelectorAll (parseFromString svgString) "path").
Proof. unfold svgToStrokes, decode. destruct (dimensions _). reflexivity. Qed.

Lemma paths_of_generated a sw (ds : list string) :
  querySelectorAll (Some (Elem "svg" a (map (path_node sw) ds))) "path"
  = map (path_node sw) ds.
Proof.
  unfold querySelectorAll.
  change (elements (Elem "svg" a (map (path_node sw) ds)))
    with (Elem "svg" a (map (path_node sw) ds) :: flat_map elements (map (path_node sw) ds)).
  cbn [List.filter].
  replace (String.eqb (local_name (Elem "svg" a (map (path_node sw) ds))) "path")
    with false by reflexivity.
  induction ds as [|d ds IH]; [reflexivity|].
  cbn [map flat_map]. unfold path_node at 1. cbn [elements flat_map app List.filter].
  replace (String.eqb (local_name (Elem "path" (path_attrs d sw) [])) "path")
    with true by reflexivity.
  rewrite IH. reflexivity.
Qed.

Lemma path_strokes_generated sw (ds : list string) :
  Forall (fun d => nonempty d = true) ds ->
  path_strokes (map (path_node sw) ds)
  = flat_map (fun d => match parsePathD d with [] => [] | _ :: _ => [parsePathD d] end) ds.
Proof.
  intros Hds. induction Hds as [|d ds Hd Hds IH]; [reflexivity|].
  cbn [map]. unfold path_strokes in *. cbn [flat_map]. rewrite IH. f_equal.
  unfold path_node, getAttribute. cbn [node_attrs path_attrs assoc].
  change (String.eqb "d" "d") with true. cbv iota. unfold present. rewrite Hd. reflexivity.
Qed.

(** The strokes decoded from the document of a list of strokes of two or
    more points in fixed notation. *)
Lemma decode_encode strokes width height strokeWidth :
  Forall (fun stroke => 2 <= length stroke /\ Forall good_point stroke) strokes ->
  dec_strokes (svgToStrokes (strokesToSvg strokes width height strokeWidth))
  = map (map decoded_point) strokes.
Proof.
  intros Hgood.
  rewrite dec_strokes_svgToStrokes, parse_strokesToSvg, paths_of_generated.
  assert (Hne : forall stroke, 2 <= length stroke -> nonempty (strokeToPathD stroke) = true).
  { intros [|q0 [|q1 rest]]; simpl; try lia. }
  assert (Hdata : path_data strokes = map strokeToPathD strokes).
  { unfold path_data. induction Hgood as [|s l [Hl _] _ IH]; [reflexivity|].
    cbn [map List.filter]. rewrite (Hne s Hl), IH. reflexivity. }
  rewrite Hdata, path_strokes_generated.
  - clear Hdata. induction Hgood as [|s l [Hl Hs] _ IH]; [reflexivity|].
    cbn [map flat_map]. rewrite IH, (parsePathD_strokeToPathD s Hl Hs).
    destruct s; [simpl in Hl; lia|reflexivity].
  - apply Forall_forall. intros d Hd. apply list_elem_of_fmap in Hd as (s & -> & Hs).
    rewrite Forall_forall in Hgood. apply Hne, (Hgood s Hs).
Qed.

(** ** Round trip *)

(** A coordinate rounded to two decimals, in the range of the fixed
    notation. *)
Definition good_coord (x : number) : Prop := two_decimals x /\ below_1e21 x.

Lemma good_coord_fixed x : good_coord x -> fixed_range x.
Proof.
  intros [[Hf _] Hb]. destruct x as [| |m e]; try discriminate Hf.
  exists m, e. split; [reflexivity|apply below_1e21_fixed, Hb].
Qed.

Lemma decoded_coord_close x :
  good_coord x ->
  (Qabs (to_Q (decoded_coord x) - to_Q x) <= 1 # 100)%Q
  /\ is_finite (decoded_coord x) = true.
Proof.
  intros [Ht Hb]. pose proof Ht as [Hf _].
  destruct x as [| |m e]; try discriminate Hf. cbn [decoded_coord]. split; [|reflexivity].
  assert (E : (to_Q (Dec (printed_hundredths m e) (-2)) - to_Q (Dec m e) == 0)%Q).
  { rewrite (printed_value m e Ht). unfold Qminus. apply Qplus_opp_r. }
  rewrite E. discriminate.
Qed.

(** A decoded point next to the point that was encoded. *)
Definition close_point (q q' : Point) : Prop :=
  (Qabs (to_Q (px q') - to_Q (px q)) <= 1 # 100)%Q
  /\ (Qabs (to_Q (py q') - to_Q (py q)) <= 1 # 100)%Q
  /\ is_finite (px q') = true /\ is_finite (py q') = true
  /\ pp q' = half /\ pt q' = num 0.

Definition good_stroke (stroke : Stroke) : Prop :=
  2 <= length stroke
  /\ Forall (fun q => good_coord (px q) /\ good_coord (py q)) stroke.

(** C1, as the code has it.  For strokes of two or more points whose
    coordinates are multiples of 0.01 below [10^21] in absolute value,
    and for any width, height and stroke width, decoding the encoded
    document gives as many strokes, in the same order, each with as many
    points in the same order; every decoded coordinate is within 0.01 of
    the original one (it is the same number), and every decoded point
    has pressure 0.5 and timestamp 0 whatever the original ones. *)
Theorem C1_round_trip_below_1e21 :
  forall (strokes : list Stroke) (width height : number) (strokeWidth : option number),
    Forall good_stroke strokes ->
    let decoded := dec_strokes (svgToStrokes (strokesToSvg strokes width height strokeWidth)) in
    length decoded = length strokes
    /\ Forall2 (Forall2 close_point) strokes decoded.
Proof.
  intros strokes width height strokeWidth Hgood decoded. unfold decoded.
  rewrite decode_encode.
  - split; [apply length_map|].
    apply Forall2_fmap_r, Forall_Forall2_diag.
    eapply Forall_impl; [exact Hgood|]. intros stroke [_ Hs].
    apply Forall2_fmap_r, Forall_Forall2_diag.
    eapply Forall_impl; [exact Hs|]. intros q [Hx Hy].
    destruct (decoded_coord_close _ Hx) as [Cx Fx].
    destruct (decoded_coord_close _ Hy) as [Cy Fy].
    repeat split; assumption.
  - eapply Forall_impl; [exact Hgood|]. intros stroke [Hl Hs]. split; [exact Hl|].
    eapply Forall_impl; [exact Hs|]. intros q [Hx Hy].
    split; apply good_coord_fixed; assumption.
Qed.

Lemma good_coord_hundredths (n : Z) :
  (Z.abs n <? 10 ^ 23)%Z = true -> good_coord (Dec n (-2)).
Proof.
  intros Hn. apply Z.ltb_lt in Hn. split; split; try reflexivity.
  - exists n. reflexivity.
  - unfold Qlt, Qabs, to_Q, inject_Z. simpl. lia.
Qed.

Definition sample_stroke : Stroke :=
  [mkPoint (Dec 150 (-2)) (Dec 200 (-2)) (Dec 9 (-1)) (num 17);
   mkPoint (Dec (-300) (-2)) (Dec 5 (-2)) (Dec 3 (-1)) (num 42)].

Lemma C1_round_trip_witness :
  Forall good_stroke [sample_stroke]
  /\ length (dec_strokes (svgToStrokes (strokesToSvg [sample_stroke] (num 800) (num 320) None)))
     = 1.
Proof.
  assert (H : Forall good_stroke [sample_stroke]).
  { repeat constructor; apply good_coord_hundredths; reflexivity. }
  split; [exact H|].
  exact (proj1 (C1_round_trip_below_1e21 [sample_stroke] (num 800) (num 320) None H)).
Defined.

Example sample_round_trip :
  dec_strokes (svgToStrokes (strokesToSvg [sample_stroke] (num 800) (num 320) None))
  = [[mkPoint (Dec 150 (-2)) (Dec 200 (-2)) half (num 0);
      mkPoint (Dec (-300) (-2)) (Dec 5 (-2)) half (num 0)]].
Proof. vm_compute. reflexivity. Qed.

(** C1, as the claim has it, fails: [1e21] is a multiple of 0.01, and
    [toFixed(2)] prints it as [1e+21], which the path pattern does not
    match; the stroke is lost. *)
Lemma C1_stroke_lost_at_1e21 :
  let q := mkPoint (Dec 1 21) (num 0) (num 1) (num 0) in
  two_decimals (px q) /\ two_decimals (py q)
  /\ strokeToPathD [q; q] = "M1e+21 0.00 L1e+21 0.00"
  /\ dec_strokes (svgToStrokes (strokesToSvg [[q; q]] (num 800) (num 320) None)) = [].
Proof.
  split; [|split; [|split]].
  - split; [reflexivity|]. exists (10 ^ 23)%Z. reflexivity.
  - split; [reflexivity|]. exists 0%Z. reflexivity.
  - vm_compute. reflexivity.
  - vm_compute. reflexivity.
Qed.

(** ** Dimensions *)

Definition unspaced (c : ascii) : bool := negb (is_space c).

Lemma digit_unspaced c : is_digit c = true -> unspaced c = true.
Proof.
  destruct c as [[] [] [] [] [] [] [] []]; vm_compute; intros Hc;
    try discriminate Hc; reflexivity.
Qed.

Lemma digits_unspaced (n : N) : forallb_string unspaced (digits n) = true.
Proof. eapply forallb_string_impl; [apply digit_unspaced|apply digits_all_digits]. Qed.

Lemma digits_not_empty (n : N) : digits n <> EmptyString.
Proof.
  intros E. pose proof (digits_nonempty n) as Hl. rewrite E in Hl. simpl in Hl. lia.
Qed.

(** A run of characters that are not white space goes into the piece
    that is being collected. *)
Lemma split_ws_go_word (w : string) : forall b cur rest,
  w <> EmptyString -> forallb_string unspaced w = true ->
  split_ws_go b cur (w +:+ rest) = split_ws_go false (cur +:+ w) rest.
Proof.
  induction w as [|c w IH]; intros b cur rest Hne Hw; [congruence|].
  simpl in Hw. apply andb_true_iff in Hw as [Hc Hw].
  unfold unspaced in Hc. apply negb_true_iff in Hc.
  cbn [append split_ws_go]. rewrite Hc.
  destruct w as [|c' w'].
  - reflexivity.
  - rewrite (IH false _ rest) by (discriminate || exact Hw).
    rewrite append_assoc. reflexivity.
Qed.

(** Four pieces without white space, a space between them. *)
Lemma split_ws_four (a b w h : string) :
  a <> EmptyString -> forallb_string unspaced a = true ->
  b <> EmptyString -> forallb_string unspaced b = true ->
  w <> EmptyString -> forallb_string unspaced w = true ->
  h <> EmptyString -> forallb_string unspaced h = true ->
  split_ws (a +:+ " " +:+ b +:+ " " +:+ w +:+ " " +:+ h) = [a; b; w; h].
Proof.
  intros Ha1 Ha2 Hb1 Hb2 Hw1 Hw2 Hh1 Hh2. unfold split_ws.
  assert (Hsp : forall cur rest,
    split_ws_go false cur (" " +:+ rest) = cur :: split_ws_go true EmptyString rest).
  { intros cur rest. reflexivity. }
  rewrite (split_ws_go_word a false EmptyString _ Ha1 Ha2), Hsp.
  rewrite (split_ws_go_word b true EmptyString _ Hb1 Hb2), Hsp.
  rewrite (split_ws_go_word w true EmptyString _ Hw1 Hw2), Hsp.
  rewrite <- (append_nil_r h) at 1.
  rewrite (split_ws_go_word h true EmptyString EmptyString Hh1 Hh2). reflexivity.
Qed.

(** [parseFloat] on the decimal digits of an integer. *)
Lemma parseFloat_digits (n : N) : parseFloat (digits n) = literal false (Z.of_N n) 0.
Proof.
  pose proof (digits_all_digits n) as Hd. pose proof (digits_value_digits n) as Hv.
  pose proof (digits_not_empty n) as Hne.
  destruct (digits n) as [|c ds]; [congruence|].
  pose proof Hd as Hd'. cbn [forallb_string] in Hd'. apply andb_true_iff in Hd' as [Hc _].
  destruct (digit_is_plain c Hc) as (Hsp & Hm & Hp & _ & _).
  unfold parseFloat. rewrite drop_while_head by exact Hsp.
  unfold read_sign. rewrite Hm, Hp, (not_Infinity c ds Hc), (span_all _ _ Hd).
  cbn [read_fraction append parse_exponent String.length].
  rewrite append_nil_r, Hv. reflexivity.
Qed.

(** An integer above zero and below [2^53] is a double. *)
Lemma literal_integer (n : N) :
  (0 < n < 2 ^ 53)%N -> literal false (Z.of_N n) 0 = Dec (Z.of_N n) 0.
Proof.
  intros Hn. unfold literal, overflows, underflows. cbn [Z.leb Z.ltb Z.compare].
  change (10 ^ 0)%Z with 1%Z. rewrite andb_false_r. cbn [andb].
  assert (Ho : (overflow_bound <=? Z.of_N n * 1)%Z = false).
  { apply Z.leb_gt. unfold overflow_bound.
    assert (Z.of_N n < 2 ^ 53)%Z by (change (2 ^ 53)%Z with (Z.of_N (2 ^ 53)); lia).
    change (2 ^ 53)%Z with 9007199254740992%Z in *. lia. }
  rewrite Ho. reflexivity.
Qed.

Lemma parseFloat_integer (n : N) :
  (0 < n < 2 ^ 53)%N -> parseFloat (digits n) = Dec (Z.of_N n) 0.
Proof. intros Hn. rewrite parseFloat_digits. apply literal_integer, Hn. Qed.

(** The dimension read from an attribute, or the constant. *)
Definition from_attribute (v : option string) (constant : number) : number :=
  match present v with
  | Some s => or_else (parseFloat s) constant
  | None => constant
  end.

(** A piece of a [viewBox]: not empty and without white space. *)
Definition piece (s : string) : Prop :=
  s <> EmptyString /\ forallb_string unspaced s = true.

(** C9, as the code has it, for the document that the parser returned,
    whatever it is.  Without an [svg] element the dimensions are
    800 x 320.  With one: if its [viewBox] attribute is there and not
    empty, it alone decides; split at white space into at least four
    parts, the third and fourth part give width and height, each
    replaced by its constant (800, 320) when it does not parse to a
    number other than zero; with fewer parts both are the constants; the
    [width] and [height] attributes are not looked at.  Only when
    [viewBox] is absent or empty do [width] and [height] give the
    dimensions, each replaced by its constant when absent, empty or not
    parsing to a number other than zero.  So a [viewBox] of four pieces
    that ends in two integers above zero and below [2^53] gives these
    two integers whatever [width] and [height] say, and a [viewBox]
    whose third and fourth piece do not parse gives 800 x 320 even when
    [width] and [height] parse. *)
Theorem C9_dimensions :
  forall (doc : document),
    let r := decode doc in
    (querySelector doc "svg" = None -> dec_width r = num 800 /\ dec_height r = num 320)
    /\ (forall el viewBox,
          querySelector doc "svg" = Some el ->
          present (getAttribute el "viewBox") = Some viewBox ->
          let parts := split_ws viewBox in
          (length parts < 4 -> dec_width r = num 800 /\ dec_height r = num 320)
          /\ (4 <= length parts ->
              dec_width r = or_else (parseFloat (nth 2 parts EmptyString)) (num 800)
              /\ dec_height r = or_else (parseFloat (nth 3 parts EmptyString)) (num 320)))
    /\ (forall el,
          querySelector doc "svg" = Some el ->
          present (getAttribute el "viewBox") = None ->
          dec_width r = from_attribute (getAttribute el "width") (num 800)
          /\ dec_height r = from_attribute (getAttribute el "height") (num 320))
    /\ (forall el (a b : string) (w h : N),
          querySelector doc "svg" = Some el ->
          getAttribute el "viewBox"
          = Some (a +:+ " " +:+ b +:+ " " +:+ digits w +:+ " " +:+ digits h) ->
          piece a -> piece b -> (0 < w < 2 ^ 53)%N -> (0 < h < 2 ^ 53)%N ->
          dec_width r = Dec (Z.of_N w) 0 /\ dec_height r = Dec (Z.of_N h) 0)
    /\ (forall el (a b w h : string),
          querySelector doc "svg" = Some el ->
          getAttribute el "viewBox" = Some (a +:+ " " +:+ b +:+ " " +:+ w +:+ " " +:+ h) ->
          piece a -> piece b -> piece w -> piece h ->
          truthy (parseFloat w) = false -> truthy (parseFloat h) = false ->
          dec_width r = num 800 /\ dec_height r = num 320).
Proof.
  intros doc r.
  assert (Hvb : forall el viewBox,
    querySelector doc "svg" = Some el ->
    present (getAttribute el "viewBox") = Some viewBox ->
    (length (split_ws viewBox) < 4 -> dec_width r = num 800 /\ dec_height r = num 320)
    /\ (4 <= length (split_ws viewBox) ->
        dec_width r = or_else (parseFloat (nth 2 (split_ws viewBox) EmptyString)) (num 800)
        /\ dec_height r
           = or_else (parseFloat (nth 3 (split_ws viewBox) EmptyString)) (num 320))).
  { intros el viewBox Hel Hv. subst r. unfold decode, dimensions. rewrite Hel, Hv.
    destruct (Nat.leb_spec 4 (length (split_ws viewBox))) as [Hl|Hl];
      (split; [intros Hlt|intros Hge]); try lia; split; reflexivity. }
  assert (Hfour : forall el (a b w h : string),
    querySelector doc "svg" = Some el ->
    getAttribute el "viewBox" = Some (a +:+ " " +:+ b +:+ " " +:+ w +:+ " " +:+ h) ->
    piece a -> piece b -> piece w -> piece h ->
    dec_width r = or_else (parseFloat w) (num 800)
    /\ dec_height r = or_else (parseFloat h) (num 320)).
  { intros el a b w h Hel Hv [Ha1 Ha2] [Hb1 Hb2] [Hw1 Hw2] [Hh1 Hh2].
    assert (Hp : present (getAttribute el "viewBox")
                 = Some (a +:+ " " +:+ b +:+ " " +:+ w +:+ " " +:+ h)).
    { rewrite Hv. unfold present. destruct a; [congruence|reflexivity]. }
    destruct (Hvb el _ Hel Hp) as [_ Hge].
    rewrite (split_ws_four a b w h) in Hge by assumption. apply Hge. simpl. lia. }
  split; [|split; [|split; [|split]]].
  - intros Hel. subst r. unfold decode, dimensions. rewrite Hel. split; reflexivity.
  - intros el viewBox Hel Hv parts. apply (Hvb el viewBox Hel Hv).
  - intros el Hel Hv. subst r. unfold decode, dimensions, from_attribute. rewrite Hel, Hv.
    destruct (present (getAttribute el "width")), (present (getAttribute el "height"));
      split; reflexivity.
  - intros el a b w h Hel Hv Ha Hb Hw Hh.
    destruct (Hfour el a b (digits w) (digits h) Hel Hv Ha Hb) as [E1 E2].
    + split; [apply digits_not_empty|apply digits_unspaced].
    + split; [apply digits_not_empty|apply digits_unspaced].
    + rewrite E1, E2, !parseFloat_integer by assumption.
      unfold or_else, truthy.
      assert ((Z.of_N w =? 0)%Z = false) as -> by (apply Z.eqb_neq; lia).
      assert ((Z.of_N h =? 0)%Z = false) as -> by (apply Z.eqb_neq; lia).
      split; reflexivity.
  - intros el a b w h Hel Hv Ha Hb Hw Hh Tw Th.
    destruct (Hfour el a b w h Hel Hv Ha Hb Hw Hh) as [E1 E2].
    rewrite E1, E2. unfold or_else. rewrite Tw, Th. split; reflexivity.
Qed.

(** A [viewBox] of 640 x 480 beside a [width] and a [height] of 100 and
    50: the dimensions are 640 x 480. *)
Lemma C9_dimensions_witness :
  let r := svgToStrokes "<svg viewBox='0 0 640 480' width='100' height='50'/>" in
  dec_width r = num 640 /\ dec_height r = num 480.
Proof.
  refine (proj1 (proj2 (proj2 (proj2
            (C9_dimensions
               (parseFromString "<svg viewBox='0 0 640 480' width='100' height='50'/>")))))
            (Elem "svg" [("viewBox", "0 0 640 480"); ("width", "100"); ("height", "50")] [])
            "0" "0" 640%N 480%N _ _ _ _ _ _);
    try (vm_compute; reflexivity);
    try (split; [discriminate|reflexivity]);
    split; reflexivity.
Defined.

Example dimensions_from_viewBox :
  let r := svgToStrokes "<svg viewBox='0 0 640 480' width='100' height='50'/>" in
  dec_width r = num 640 /\ dec_height r = num 480.
Proof. vm_compute. split; reflexivity. Qed.

Example dimensions_from_attributes :
  let r := svgToStrokes "<svg width='100' height='50'/>" in
  dec_width r = num 100 /\ dec_height r = num 50.
Proof. vm_compute. split; reflexivity. Qed.

Example dimensions_by_default :
  let r := svgToStrokes "<svg width='wide'/>" in
  dec_width r = num 800 /\ dec_height r = num 320.
Proof. vm_compute. split; reflexivity. Qed.

(** A literal beyond the range of the doubles is an infinity, and one
    too small is zero, for which the constant stands in. *)
Example dimensions_out_of_range :
  let r := svgToStrokes "<svg viewBox='0 0 1e400 1e-400'/>" in
  dec_width r = Infinity false /\ dec_height r = num 320.
Proof. vm_compute. split; reflexivity. Qed.

(** C9, as the claim has it, fails: with a [viewBox] that does not parse
    and [width] and [height] attributes that do, the dimensions are the
    constants, not the attributes. *)
Lemma C9_attributes_ignored_after_bad_viewBox :
  let r := svgToStrokes "<svg viewBox='none' width='100' height='50'/>" in
  parseFloat "100" = num 100 /\ parseFloat "50" = num 50
  /\ dec_width r = num 800 /\ dec_height r = num 320.
Proof. vm_compute. repeat split; reflexivity. Qed.

End SvgFacts.

Module ClientFacts.

Import Svg Project Bridge Client LoadFacts.
Local Open Scope list_scope.

(** The cell an action is aimed at, for the actions that update cells
    in place. *)
Definition target (a : Action) : option string :=
  match a with
  | SetStrokes id _ | ClearCell id | SetRecognized id _ | SetStatus id _ _
  | SetRunStatus id _ | SetOutput id _ _ | SetCellHeight id _ => Some id
  | Load _ | AddCell _ | DeleteCell _ => None
  end.

Definition ids (state : Notebook) : list string := map cell_id (nb_cells state).

Lemma with_cells_same state : with_cells state (nb_cells state) = state.
Proof. destruct state. reflexivity. Qed.

Lemma update_ids id f cells :
  (forall c, cell_id (f c) = cell_id c) ->
  map cell_id (update id f cells) = map cell_id cells.
Proof.
  intros Hf. unfold update. rewrite map_map. apply map_ext. intros c.
  destruct (String.eqb (cell_id c) id); [apply Hf|reflexivity].
Qed.

Lemma update_other id f (cells : list Cell) i c :
  cells !! i = Some c -> cell_id c <> id -> update id f cells !! i = Some c.
Proof.
  intros Hi Hne. unfold update. rewrite list_lookup_fmap, Hi. simpl.
  destruct (String.eqb_spec (cell_id c) id); [contradiction|reflexivity].
Qed.

Lemma update_absent id f (cells : list Cell) :
  (forall c, c ∈ cells -> cell_id c <> id) -> update id f cells = cells.
Proof.
  intros Ha. unfold update. induction cells as [|c cells IH]; [reflexivity|].
  simpl. rewrite IH by (intros c' Hc'; apply Ha; right; exact Hc').
  destruct (String.eqb_spec (cell_id c) id) as [E|_]; [|reflexivity].
  exfalso. apply (Ha c); [left|exact E].
Qed.

(** An action that updates cells in place is a map over the cells. *)
Lemma reducer_update a cid :
  target a = Some cid ->
  exists f, (forall c, cell_id (f c) = cell_id c)
            /\ forall fresh state,
                 reducer fresh state a = with_cells state (update cid f (nb_cells state)).
Proof.
  destruct a; intros [= <-]; eexists; (split; [|reflexivity]); reflexivity.
Qed.

(** X1.  An action that sets strokes, clears, sets the recognized code,
    a status, a run status, an output or a height leaves the version,
    the number, the order and the ids of the cells as they are, and
    every cell with another id untouched; when no cell has the id it
    names, the notebook stays as it is. *)
Theorem updates_touch_only_their_cell :
  forall (fresh : string) (state : Notebook) (a : Action) (id : string),
    target a = Some id ->
    nb_version (reducer fresh state a) = nb_version state
    /\ ids (reducer fresh state a) = ids state
    /\ (forall i c, nb_cells state !! i = Some c -> cell_id c <> id ->
                    nb_cells (reducer fresh state a) !! i = Some c)
    /\ ((forall c, c ∈ nb_cells state -> cell_id c <> id) ->
        reducer fresh state a = state).
Proof.
  intros fresh state a id Ht.
  destruct (reducer_update a id Ht) as (f & Hf & E). rewrite E.
  split; [reflexivity|]. split; [apply update_ids, Hf|]. split.
  - intros i c. apply update_other.
  - intros Ha. simpl. rewrite update_absent by exact Ha. apply with_cells_same.
Qed.

Lemma updates_touch_only_their_cell_witness :
  ids (reducer "f" (emptyNotebook "a") (SetOutput "a" "1" "2")) = ["a"].
Proof.
  exact (proj1 (proj2 (updates_touch_only_their_cell "f" (emptyNotebook "a")
                         (SetOutput "a" "1" "2") "a" eq_refl))).
Defined.

(** ** [addCell] *)

Lemma findIndex_split {A} (f : A -> bool) (l : list A) idx :
  findIndex f l = Some idx ->
  exists x, l !! idx = Some x /\ f x = true /\ Forall (fun y => f y = false) (take idx l).
Proof.
  revert idx. induction l as [|y l IH]; intros idx; simpl; [discriminate|].
  destruct (f y) eqn:E.
  - intros [= <-]. exists y. repeat split; [exact E|constructor].
  - destruct (findIndex f l) as [k|]; simpl; [|discriminate].
    intros [= <-]. destruct (IH k eq_refl) as (x & Hx & Hfx & Hall).
    exists x. simpl. repeat split; auto.
Qed.

Lemma findIndex_none {A} (f : A -> bool) (l : list A) :
  findIndex f l = None -> Forall (fun y => f y = false) l.
Proof.
  induction l as [|y l IH]; simpl; [constructor|].
  destruct (f y) eqn:E; [discriminate|].
  destruct (findIndex f l); simpl; [discriminate|]. intros _. constructor; auto.
Qed.

Lemma addCell_split (fresh : string) (state : Notebook) (afterId : option string) :
  nb_version (reducer fresh state (AddCell afterId)) = nb_version state
  /\ exists before behind,
       nb_cells state = before ++ behind
       /\ nb_cells (reducer fresh state (AddCell afterId))
          = before ++ new_cell fresh :: behind
       /\ match present afterId with
          | Some after =>
              (exists first rest,
                  before = first ++ [rest]
                  /\ cell_id rest = after
                  /\ Forall (fun c => cell_id c <> after) first)
              \/ (behind = [] /\ Forall (fun c => cell_id c <> after) before)
          | None => behind = []
          end.
Proof.
  unfold reducer.
  destruct (present afterId) as [after|].
  2: { split; [reflexivity|]. exists (nb_cells state), []. rewrite app_nil_r. auto. }
  destruct (findIndex _ _) as [idx|] eqn:E.
  - split; [reflexivity|].
    destruct (findIndex_split _ _ _ E) as (x & Hx & Hfx & Hall).
    exists (take (idx + 1) (nb_cells state)), (drop (idx + 1) (nb_cells state)).
    rewrite take_drop. split; [reflexivity|]. split; [reflexivity|]. left.
    exists (take idx (nb_cells state)), x. split.
    + replace (idx + 1) with (S idx) by lia. apply take_S_r, Hx.
    + split; [apply String.eqb_eq, Hfx|].
      eapply Forall_impl; [exact Hall|]. intros c Hc. simpl in Hc.
      apply String.eqb_neq, Hc.
  - split; [reflexivity|]. exists (nb_cells state), []. rewrite app_nil_r.
    split; [reflexivity|]. split; [reflexivity|]. right. split; [reflexivity|].
    eapply Forall_impl; [apply (findIndex_none _ _ E)|]. intros c Hc. simpl in Hc.
    apply String.eqb_neq, Hc.
Qed.

(** X2.  [addCell] keeps all the cells in their order and puts one new
    cell (the id from [id()], no strokes, height 320) among them:
    directly behind the first cell whose id is [afterId], and at the end
    when [afterId] is missing, empty, or the id of no cell. *)
Theorem addCell_places_new_cell :
  forall (fresh : string) (state : Notebook) (afterId : option string),
    nb_version (reducer fresh state (AddCell afterId)) = nb_version state
    /\ exists before behind,
         nb_cells state = before ++ behind
         /\ nb_cells (reducer fresh state (AddCell afterId))
            = before ++ new_cell fresh :: behind
         /\ match present afterId with
            | Some after =>
                (exists first rest,
                    before = first ++ [rest]
                    /\ cell_id rest = after
                    /\ Forall (fun c => cell_id c <> after) first)
                \/ (behind = [] /\ Forall (fun c => cell_id c <> after) before)
            | None => behind = []
            end.
Proof. exact addCell_split. Qed.

(** ** Distinct ids *)

Definition not_load (a : Action) : Prop :=
  match a with Load _ => False | _ => True end.

Lemma reducer_ids_nodup fresh state a :
  not_load a -> NoDup (ids state) -> fresh ∉ ids state ->
  NoDup (ids (reducer fresh state a))
  /\ (forall x, x ∈ ids (reducer fresh state a) -> x ∈ ids state \/ (x = fresh /\ exists i, a = AddCell i)).
Proof.
  intros Hl Hnd Hfresh.
  destruct (target a) as [id|] eqn:Ht.
  { destruct (reducer_update a id Ht) as (f & Hf & E). rewrite E.
    unfold ids. simpl. rewrite update_ids by exact Hf. split; [exact Hnd|auto]. }
  destruct a; try discriminate Ht; try contradiction.
  - (* addCell *)
    destruct (addCell_split fresh state afterId) as (_ & before & behind & E1 & E2 & _).
    unfold ids in *. rewrite E2. rewrite E1 in *.
    rewrite !map_app in *. simpl. split.
    + apply NoDup_app in Hnd as (H1 & H2 & H3).
      apply NoDup_app. split; [exact H1|]. split.
      * intros x Hx Hin. apply elem_of_cons in Hin as [->|Hin].
        -- apply Hfresh, elem_of_app. left. exact Hx.
        -- apply (H2 x Hx Hin).
      * apply NoDup_cons. split; [|exact H3].
        intros Hin. apply Hfresh, elem_of_app. right. exact Hin.
    + intros x Hx. apply elem_of_app in Hx as [Hx|Hx].
      * left. apply elem_of_app. left. exact Hx.
      * apply elem_of_cons in Hx as [->|Hx]; [right; eauto|].
        left. apply elem_of_app. right. exact Hx.
  - (* deleteCell *)
    unfold ids in *. simpl. split.
    + clear Hfresh. induction (nb_cells state) as [|c cells IH]; [constructor|].
      simpl in *. apply NoDup_cons in Hnd as [Hc Hnd].
      destruct (negb _); [|apply IH, Hnd].
      simpl. apply NoDup_cons. split; [|apply IH, Hnd].
      intros Hin. apply Hc. apply list_elem_of_fmap in Hin as (c' & -> & Hin).
      apply list_elem_of_fmap. exists c'. split; [reflexivity|].
      apply list_elem_of_In in Hin. apply filter_In in Hin as [Hin _].
      apply list_elem_of_In, Hin.
    + intros x Hx. left. apply list_elem_of_fmap in Hx as (c' & -> & Hin).
      apply list_elem_of_fmap. exists c'. split; [reflexivity|].
      apply list_elem_of_In in Hin. apply filter_In in Hin as [Hin _].
      apply list_elem_of_In, Hin.
Qed.

Lemma dispatch_all_nodup ids_of actions : forall n state,
  (forall i j, ids_of i = ids_of j -> i = j) ->
  (forall k, n <= k -> ids_of k ∉ ids state) ->
  Forall not_load actions ->
  NoDup (ids state) ->
  NoDup (ids (dispatch_all ids_of n state actions)).
Proof.
  induction actions as [|a actions IH]; intros n state Hinj Hfresh Hl Hnd; [exact Hnd|].
  apply Forall_cons in Hl as [Ha Hl]. cbn [dispatch_all].
  destruct (reducer_ids_nodup (ids_of n) state a Ha Hnd (Hfresh n (le_n n))) as [Hnd' Hin].
  apply IH; auto.
  intros k Hk Hx. destruct (Hin _ Hx) as [Hold|[E (i & ->)]].
  - apply (Hfresh k); [|exact Hold]. destruct a; lia.
  - apply Hinj in E. lia.
Qed.

(** X3.  As long as [id()] never returns the same id twice, nor one that
    a cell of the notebook has, the ids of the cells stay pairwise
    distinct under every sequence of actions other than [load]. *)
Theorem ids_stay_distinct :
  forall (ids_of : nat -> string) (n : nat) (state : Notebook) (actions : list Action),
    (forall i j, ids_of i = ids_of j -> i = j) ->
    (forall k, n <= k -> ids_of k ∉ ids state) ->
    Forall not_load actions ->
    NoDup (ids state) ->
    NoDup (ids (dispatch_all ids_of n state actions)).
Proof. intros ids_of n state actions. apply dispatch_all_nodup. Qed.

Definition xs (n : nat) : string := repeat_char "x" (S n).

Lemma xs_length n : String.length (xs n) = S n.
Proof.
  unfold xs. generalize (S n). intros k. induction k; simpl; congruence.
Qed.

Lemma ids_stay_distinct_witness :
  NoDup (ids (dispatch_all xs 0 (emptyNotebook "a")
                [AddCell None; AddCell (Some "a"); DeleteCell "x"; SetStrokes "a" []])).
Proof.
  apply ids_stay_distinct.
  - intros i j E. apply (f_equal String.length) in E. rewrite !xs_length in E. lia.
  - intros k _ Hin. apply list_elem_of_singleton in Hin.
    destruct k; [discriminate Hin|].
    apply (f_equal String.length) in Hin. rewrite xs_length in Hin. simpl in Hin. lia.
  - repeat constructor.
  - apply NoDup_singleton.
Defined.

(** ** [deleteCell] *)

Lemma filter_absent (id : string) (cells : list Cell) :
  (forall c, c ∈ cells -> cell_id c <> id) ->
  List.filter (fun c => negb (String.eqb (cell_id c) id)) cells = cells.
Proof.
  intros Ha. induction cells as [|c cells IH]; [reflexivity|]. simpl.
  destruct (String.eqb_spec (cell_id c) id) as [E|_].
  - exfalso. apply (Ha c); [left|exact E].
  - simpl. f_equal. apply IH. intros c' Hc'. apply Ha. right. exact Hc'.
Qed.

(** X4.  [deleteCell] removes the cells whose id is the given one and
    keeps the others in their order: with pairwise distinct ids that is
    the one cell at its position; an id that no cell has leaves the
    notebook as it is.  The reducer does not keep the last cell back. *)
Theorem deleteCell_removes_its_cell :
  forall (fresh : string) (state : Notebook) (cid : string),
    (forall c, c ∈ nb_cells (reducer fresh state (DeleteCell cid)) <->
               c ∈ nb_cells state /\ cell_id c <> cid)
    /\ nb_cells (reducer fresh state (DeleteCell cid)) `sublist_of` nb_cells state
    /\ ((forall c, c ∈ nb_cells state -> cell_id c <> cid) ->
        reducer fresh state (DeleteCell cid) = state)
    /\ (forall i c, NoDup (ids state) -> nb_cells state !! i = Some c -> cell_id c = cid ->
          nb_cells (reducer fresh state (DeleteCell cid))
          = take i (nb_cells state) ++ drop (S i) (nb_cells state))
    /\ (forall c, nb_cells state = [c] -> cell_id c = cid ->
          nb_cells (reducer fresh state (DeleteCell cid)) = []).
Proof.
  intros fresh state cid. simpl. split; [|split; [|split; [|split]]].
  - intros c. rewrite list_elem_of_In, filter_In, <- list_elem_of_In.
    rewrite negb_true_iff, String.eqb_neq. reflexivity.
  - induction (nb_cells state) as [|c cells IH]; [constructor|]. simpl.
    destruct (negb _); constructor; exact IH.
  - intros Ha. rewrite filter_absent by exact Ha. apply with_cells_same.
  - unfold ids. generalize (nb_cells state). intros cells i. revert cells.
    induction i as [|i IH]; intros [|c' cells] c Hnd Hi Hid; try discriminate.
    + injection Hi as ->. simpl. rewrite Hid, String.eqb_refl. simpl.
      apply NoDup_cons in Hnd as [Hc _]. rewrite drop_0. apply filter_absent.
      intros c' Hin E. apply Hc. rewrite Hid, <- E.
      apply list_elem_of_fmap. eauto.
    + simpl in *. apply NoDup_cons in Hnd as [Hc Hnd].
      destruct (String.eqb_spec (cell_id c') cid) as [E|_].
      * exfalso. apply Hc. rewrite E, <- Hid. apply list_elem_of_fmap.
        exists c. split; [reflexivity|]. eapply list_elem_of_lookup_2, Hi.
      * simpl. f_equal. apply (IH cells c Hnd Hi Hid).
  - intros c -> Hid. simpl. rewrite Hid, String.eqb_refl. reflexivity.
Qed.

(** ** Updates of different cells *)

Lemma update_update_comm id1 id2 f g cells :
  id1 <> id2 ->
  (forall c, cell_id (f c) = cell_id c) -> (forall c, cell_id (g c) = cell_id c) ->
  update id2 g (update id1 f cells) = update id1 f (update id2 g cells).
Proof.
  intros Hne Hf Hg. unfold update. rewrite !map_map. apply map_ext. intros c.
  destruct (String.eqb_spec (cell_id c) id1) as [E1|N1];
    destruct (String.eqb_spec (cell_id c) id2) as [E2|N2].
  - congruence.
  - rewrite Hf. destruct (String.eqb_spec (cell_id c) id2); [contradiction|].
    destruct (String.eqb_spec (cell_id c) id1); [reflexivity|contradiction].
  - rewrite Hg. destruct (String.eqb_spec (cell_id c) id1); [contradiction|].
    destruct (String.eqb_spec (cell_id c) id2); [reflexivity|contradiction].
  - destruct (String.eqb_spec (cell_id c) id1); [contradiction|].
    destruct (String.eqb_spec (cell_id c) id2); [contradiction|reflexivity].
Qed.

(** X5.  Two actions that update cells in place and name different ids
    can be applied in either order: the notebook that results is the
    same. *)
Theorem updates_of_different_cells_commute :
  forall (f1 f2 f3 f4 : string) (state : Notebook) (a b : Action) (ida idb : string),
    target a = Some ida -> target b = Some idb -> ida <> idb ->
    reducer f2 (reducer f1 state a) b = reducer f4 (reducer f3 state b) a.
Proof.
  intros f1 f2 f3 f4 state a b ida idb Ha Hb Hne.
  destruct (reducer_update a ida Ha) as (f & Hf & Ea).
  destruct (reducer_update b idb Hb) as (g & Hg & Eb).
  rewrite !Ea, !Eb. unfold with_cells. simpl. f_equal.
  apply update_update_comm; assumption.
Qed.

Lemma updates_of_different_cells_commute_witness :
  reducer "f" (reducer "f" (mkNotebook 1 [new_cell "a"; new_cell "b"]) (ClearCell "a"))
          (SetCellHeight "b" (num 200))
  = reducer "f" (reducer "f" (mkNotebook 1 [new_cell "a"; new_cell "b"])
                         (SetCellHeight "b" (num 200)))
            (ClearCell "a").
Proof.
  apply (updates_of_different_cells_commute "f" "f" "f" "f" _ _ _ "a" "b");
    [reflexivity|reflexivity|discriminate].
Defined.

(** ** [runCell] *)

(** The cell while its code runs, and once the run has ended. *)
Definition running (c : Cell) : Cell :=
  mkCell (cell_id c) (cell_strokes c) (cell_recognizedCode c) (cell_status c) (cell_error c)
         (Some RunRunning) (cell_stdout c) (cell_stderr c) (cell_height c).

Definition finished (out err : string) (c : Cell) : Cell :=
  mkCell (cell_id c) (cell_strokes c) (cell_recognizedCode c) (cell_status c) (cell_error c)
         (Some RunDone) (Some out) (Some err) (cell_height c).

(** What [runCell] leaves in the cell, by the way the promise ended. *)
Definition shown (settled : PromiseState) : Cell -> Cell :=
  match settled with
  | Pending => running
  | Fulfilled v => finished (stdout v) (stderr v)
  | Rejected e => finished EmptyString (String_of_thrown e)
  end.

Lemma update_update cid f g cells :
  (forall c, cell_id (f c) = cell_id c) ->
  update cid g (update cid f cells) = update cid (fun c => g (f c)) cells.
Proof.
  intros Hf. unfold update. rewrite map_map. apply map_ext. intros c.
  destruct (String.eqb_spec (cell_id c) cid) as [E|N].
  - rewrite Hf. destruct (String.eqb_spec (cell_id c) cid); [reflexivity|contradiction].
  - destruct (String.eqb_spec (cell_id c) cid); [contradiction|reflexivity].
Qed.

Lemma runCell_cells ids_of n nb cid settled code :
  fst (runCell nb cid settled) = Some code ->
  dispatch_all ids_of n nb (snd (runCell nb cid settled))
  = with_cells nb (update cid (shown settled) (nb_cells nb)).
Proof.
  unfold runCell.
  destruct (match List.find _ _ with Some c => _ | None => None end) as [code'|];
    [|discriminate].
  intros _. cbn [snd dispatch_all reducer].
  destruct settled as [|v|e]; cbn [dispatch_all reducer nb_cells with_cells nb_version shown].
  - reflexivity.
  - rewrite update_update by reflexivity. reflexivity.
  - rewrite update_update by reflexivity. reflexivity.
Qed.

Lemma runCell_code nb cid settled :
  fst (runCell nb cid settled) = fst (runCell nb cid Pending).
Proof.
  unfold runCell.
  destruct (match List.find _ _ with Some c => _ | None => None end); reflexivity.
Qed.

(** X6.  [runCell] runs the recognized code of the first cell with the
    given id, when it is there and not empty, and otherwise does
    nothing.  Once the promise of [runPython] has settled, every cell
    with that id is marked done and holds the output: the stdout and
    stderr of the result, or, when the promise was rejected, an empty
    stdout and the text of the error as stderr; until then it is marked
    running.  Nothing else in the notebook changes. *)
Theorem runCell_shows_how_the_run_ended :
  forall (ids_of : nat -> string) (n : nat) (nb : Notebook) (cid : string)
         (settled : PromiseState),
    let r := runCell nb cid settled in
    let nb' := dispatch_all ids_of n nb (snd r) in
    match fst r with
    | None =>
        nb' = nb
        /\ match List.find (fun c => String.eqb (cell_id c) cid) (nb_cells nb) with
           | Some c => cell_recognizedCode c = None \/ cell_recognizedCode c = Some EmptyString
           | None => True
           end
    | Some code =>
        (exists c, List.find (fun c => String.eqb (cell_id c) cid) (nb_cells nb) = Some c
                   /\ cell_recognizedCode c = Some code /\ code <> EmptyString)
        /\ nb_version nb' = nb_version nb
        /\ nb_cells nb' = update cid (shown settled) (nb_cells nb)
    end.
Proof.
  intros ids_of n nb cid settled r nb'.
  destruct (fst r) as [code|] eqn:E.
  - subst nb'. unfold r in *. rewrite (runCell_cells ids_of n nb cid settled code E).
    split; [|split; reflexivity].
    unfold runCell in E.
    destruct (List.find _ _) as [c|]; [|discriminate E].
    exists c. split; [reflexivity|].
    destruct (cell_recognizedCode c) as [[|ch code']|]; try discriminate E.
    simpl in E. injection E as <-. split; [reflexivity|discriminate].
  - subst nb'. unfold r in *. unfold runCell in *.
    destruct (List.find _ _) as [c|]; [|split; [reflexivity|exact I]].
    destruct (cell_recognizedCode c) as [[|ch code']|]; try discriminate E;
      (split; [reflexivity|]); auto.
Qed.

(** [runPython] without a worker, when the constructor throws: the
    promise it returns is rejected with what was thrown. *)
Lemma rejected_without_worker st e code :
  worker st = false ->
  promises (fst (runPython (Some e) code st)) !! snd (runPython (Some e) code st)
  = Some (Rejected e).
Proof.
  intros Hw. unfold runPython, getWorker. simpl. rewrite Hw. simpl.
  rewrite BridgeFacts.settle_new. apply list_lookup_middle. reflexivity.
Qed.

(** X7.  When the [Worker] cannot be created, the rejection of
    [runPython] does not leave the cell running: [runCell] catches it,
    and the cell ends done, with an empty stdout and the text of the
    error as stderr. *)
Theorem runCell_shows_a_worker_that_cannot_start :
  forall (ids_of : nat -> string) (n : nat) (nb : Notebook) (cid code : string)
         (st : State) (e : Thrown),
    worker st = false ->
    fst (runCell nb cid Pending) = Some code ->
    exists settled,
      promises (fst (runPython (Some e) code st)) !! snd (runPython (Some e) code st)
      = Some settled
      /\ nb_cells (dispatch_all ids_of n nb (snd (runCell nb cid settled)))
         = update cid (finished EmptyString (String_of_thrown e)) (nb_cells nb).
Proof.
  intros ids_of n nb cid code st e Hw Hcode.
  exists (Rejected e). split; [apply rejected_without_worker, Hw|].
  rewrite <- (runCell_code nb cid (Rejected e)) in Hcode.
  rewrite (runCell_cells ids_of n nb cid (Rejected e) code Hcode). reflexivity.
Qed.

Definition coded_cell : Cell :=
  mkCell "a" [] (Some "print(1)") None None None None None None.

Lemma runCell_shows_a_worker_that_cannot_start_witness :
  exists settled,
    promises (fst (runPython (Some (NonError "no worker")) "print(1)" initial))
      !! snd (runPython (Some (NonError "no worker")) "print(1)" initial) = Some settled
    /\ nb_cells (dispatch_all xs 0 (mkNotebook 1 [coded_cell])
                   (snd (runCell (mkNotebook 1 [coded_cell]) "a" settled)))
       = [finished EmptyString "no worker" coded_cell].
Proof.
  exact (runCell_shows_a_worker_that_cannot_start xs 0 (mkNotebook 1 [coded_cell])
           "a" "print(1)" initial (NonError "no worker") eq_refl eq_refl).
Defined.

(** X8.  With a worker, the output that ends up in the cell is the
    worker's answer to the request that [runPython] posted for the
    recognized code of the cell, whatever calls and responses went
    before. *)
Theorem runCell_shows_the_answer_of_the_worker :
  forall (ids_of : nat -> string) (n : nat) (nb : Notebook) (cid code : string)
         (evs : list Event) (py : Worker.Pyodide) (pyodide : option (Worker.interp py)),
    fst (runCell nb cid Pending) = Some code ->
    let st1 := fst (runPython None code (run evs initial)) in
    let p := snd (runPython None code (run evs initial)) in
    exists q settled,
      last (posted st1) = Some q
      /\ promises (onmessage (snd (Worker.onmessage py pyodide q)) st1) !! p = Some settled
      /\ nb_cells (dispatch_all ids_of n nb (snd (runCell nb cid settled)))
         = update cid (finished (stdout (BridgeFacts.answer py pyodide code))
                                (stderr (BridgeFacts.answer py pyodide code)))
                  (nb_cells nb).
Proof.
  intros ids_of n nb cid code evs py pyodide Hcode st1 p.
  destruct (BridgeFacts.submit_then_reply (run evs initial) code
              (snd (Worker.onmessage py pyodide
                      (mkRequest (String_of_N (incr (reqId (run evs initial)))) code))))
    as (q & Hq & Hc & Hful).
  assert (q = mkRequest (String_of_N (incr (reqId (run evs initial)))) code) as ->.
  { revert Hq. unfold runPython, getWorker. simpl.
    destruct (worker (run evs initial)); simpl; rewrite last_snoc; congruence. }
  destruct (BridgeFacts.worker_reply py pyodide
              (mkRequest (String_of_N (incr (reqId (run evs initial)))) code)) as (Hid & Hout).
  exists (mkRequest (String_of_N (incr (reqId (run evs initial)))) code),
         (Fulfilled (BridgeFacts.answer py pyodide code)).
  split; [exact Hq|]. split.
  - unfold st1, p. simpl in Hout. rewrite <- Hout. apply Hful, Hid.
  - rewrite <- (runCell_code nb cid (Fulfilled (BridgeFacts.answer py pyodide code))) in Hcode.
    rewrite (runCell_cells ids_of n nb cid _ code Hcode). reflexivity.
Qed.

Lemma runCell_shows_the_answer_of_the_worker_witness :
  exists q settled,
    last (posted (fst (runPython None "print(1)" (run [Submit None "x"] initial)))) = Some q
    /\ promises (onmessage (snd (Worker.onmessage BridgeFacts.demo_py None q))
                           (fst (runPython None "print(1)" (run [Submit None "x"] initial))))
         !! snd (runPython None "print(1)" (run [Submit None "x"] initial)) = Some settled
    /\ nb_cells (dispatch_all xs 0 (mkNotebook 1 [coded_cell])
                   (snd (runCell (mkNotebook 1 [coded_cell]) "a" settled)))
       = [finished "out" "warn PythonError: boom" coded_cell].
Proof.
  exact (runCell_shows_the_answer_of_the_worker xs 0 (mkNotebook 1 [coded_cell])
           "a" "print(1)" [Submit None "x"] BridgeFacts.demo_py None eq_refl).
Defined.

(** ** Opening and importing *)

Lemma take_over_cells page notebook w :
  page_nb (take_over page notebook w) = notebook
  /\ page_alerts (take_over page notebook w) = page_alerts page.
Proof. split; reflexivity. Qed.

Section open.

Context `{Host}.

Lemma handleOpen_loadProject hasFsa picked n page :
  let r := loadProject hasFsa picked n in
  let page' := handleOpen page r in
  (nb_cells (page_nb page) <> [] -> nb_cells (page_nb page') <> [])
  /\ (lr_success r = true ->
      page_alerts page' = page_alerts page
      /\ Some (page_nb page') = lr_notebook r
      /\ page_strokeSize page'
         = match lr_strokeWidth r with
           | Some w => if truthy w then w else page_strokeSize page
           | None => page_strokeSize page
           end)
  /\ (lr_success r = false ->
      page_nb page' = page_nb page /\ page_strokeSize page' = page_strokeSize page
      /\ page_alerts page'
         = if is_cancelled (lr_error r) then page_alerts page
           else page_alerts page ++ [alert_text "Open failed: " (lr_error r)]).
Proof.
  intros r page'. subst page'. unfold handleOpen.
  destruct (lr_success r) eqn:Hs.
  - destruct (loadProject_nonempty hasFsa picked n Hs) as (cells & Hnb & Hne).
    fold r in Hnb. rewrite Hnb. simpl. repeat split; try discriminate.
    intros _. exact Hne.
  - repeat split; try discriminate.
    + intros Hne. destruct (lr_notebook r); destruct (is_cancelled _); exact Hne.
    + destruct (lr_notebook r); destruct (is_cancelled _); reflexivity.
    + destruct (lr_notebook r); destruct (is_cancelled _); reflexivity.
    + destruct (lr_notebook r); destruct (is_cancelled _); reflexivity.
Qed.

Lemma loadProject_cancelled picked_name msg n :
  picked_name = "AbortError" ->
  loadProject true (inl (ErrorObj picked_name msg)) n = load_failure "Cancelled".
Proof. intros ->. reflexivity. Qed.

Lemma handleFileImport_importProjectFromZip jszip loaded n page :
  let r := importProjectFromZip jszip loaded n in
  let page' := handleFileImport page r in
  (nb_cells (page_nb page) <> [] -> nb_cells (page_nb page') <> [])
  /\ (lr_success r = true ->
      page_alerts page' = page_alerts page
      /\ Some (page_nb page') = lr_notebook r
      /\ page_strokeSize page'
         = match lr_strokeWidth r with
           | Some w => if truthy w then w else page_strokeSize page
           | None => page_strokeSize page
           end)
  /\ (lr_success r = false ->
      page_nb page' = page_nb page /\ page_strokeSize page' = page_strokeSize page
      /\ page_alerts page' = page_alerts page ++ [alert_text "Import failed: " (lr_error r)]).
Proof.
  intros r page'. subst page'. unfold handleFileImport.
  destruct (lr_success r) eqn:Hs.
  - destruct (importProjectFromZip_nonempty jszip loaded n Hs) as (cells & Hnb & Hne).
    fold r in Hnb. rewrite Hnb. simpl. repeat split; try discriminate.
    intros _. exact Hne.
  - repeat split; try discriminate.
    intros Hne. destruct (lr_notebook r); exact Hne.
Qed.

End open.


(** ** [convertCell] *)

(** The cell once its handwriting has been recognized, and once the
    conversion has failed. *)
Definition recognized (code : string) (c : Cell) : Cell :=
  mkCell (cell_id c) (cell_strokes c) (Some code) (Some StatusIdle) None
         (cell_runStatus c) (cell_stdout c) (cell_stderr c) (cell_height c).

Definition in_error (msg : string) (c : Cell) : Cell :=
  mkCell (cell_id c) (cell_strokes c) (cell_recognizedCode c) (Some StatusError) (Some msg)
         (cell_runStatus c) (cell_stdout c) (cell_stderr c) (cell_height c).

(** What [convertCell] leaves in the cell. *)
Definition converted `{Settings.Codec} (st : Settings.Storage) (image : option string)
    (replies : nat -> Groq.Reply) : Cell -> Cell :=
  if negb (nonempty (Settings.groqKey (Settings.loadSettings st)))
  then in_error "Missing Groq API key"
  else match present image with
       | None => in_error "Canvas not ready"
       | Some _ =>
           match snd (Groq.convertHandwritingToPython replies) with
           | inr code => recognized code
           | inl e => in_error (catch_plain "Convert failed" e)
           end
       end.

Lemma convertCell_cells `{Settings.Codec} st image replies cid ids_of n nb :
  dispatch_all ids_of n nb (snd (convertCell st image replies cid))
  = with_cells nb (update cid (converted st image replies) (nb_cells nb)).
Proof.
  unfold convertCell, converted.
  destruct (negb _); [reflexivity|].
  destruct (present image); [|reflexivity].
  destruct (Groq.convertHandwritingToPython replies) as [trace [e|code]];
    cbn [snd dispatch_all reducer nb_cells with_cells nb_version];
    rewrite !update_update by reflexivity; reflexivity.
Qed.

(** X10.  [convertCell] never leaves a cell converting.  By the time it
    returns, every cell with the given id is idle, holding the code
    that [convertHandwritingToPython] returned and no error, or it is
    in error, with a message and the recognized code it had: "Missing
    Groq API key" when the settings hold no key and "Canvas not ready"
    when there is no image (both without any request), and otherwise
    the message of what [convertHandwritingToPython] threw.  Nothing
    else in the notebook changes. *)
Theorem convertCell_ends_idle_or_in_error :
  forall (C : Settings.Codec) (st : Settings.Storage) (image : option string)
         (replies : nat -> Groq.Reply) (cid : string)
         (ids_of : nat -> string) (n : nat) (nb : Notebook),
    let r := convertCell st image replies cid in
    let nb' := dispatch_all ids_of n nb (snd r) in
    let ready := nonempty (Settings.groqKey (Settings.loadSettings st))
                 && bool_decide (present image <> None) in
    nb_version nb' = nb_version nb
    /\ (forall c, c ∈ nb_cells nb' -> cell_id c = cid ->
          cell_status c = Some StatusIdle \/ cell_status c = Some StatusError)
    /\ fst r = (if ready then fst (Groq.convertHandwritingToPython replies) else [])
    /\ nb_cells nb'
       = update cid
           (if nonempty (Settings.groqKey (Settings.loadSettings st)) then
              if bool_decide (present image <> None) then
                match snd (Groq.convertHandwritingToPython replies) with
                | inr code => recognized code
                | inl e => in_error (catch_plain "Convert failed" e)
                end
              else in_error "Canvas not ready"
            else in_error "Missing Groq API key")
           (nb_cells nb).
Proof.
  intros C st image replies cid ids_of n nb r nb' ready.
  subst nb' r. rewrite convertCell_cells. cbn [nb_version nb_cells with_cells].
  split; [reflexivity|]. split; [|split].
  - intros c Hc Hid. unfold update in Hc. apply list_elem_of_fmap in Hc as (c0 & -> & _).
    destruct (String.eqb_spec (cell_id c0) cid) as [E|N]; [|contradiction].
    unfold converted.
    destruct (negb _); [right; reflexivity|].
    destruct (present image); [|right; reflexivity].
    destruct (snd _); [right|left]; reflexivity.
  - subst ready. unfold convertCell.
    destruct (nonempty _); simpl; [|reflexivity].
    destruct (present image) as [i|]; simpl.
    + destruct (Groq.convertHandwritingToPython replies) as [trace res]. reflexivity.
    + reflexivity.
  - f_equal. unfold converted.
    destruct (nonempty _); simpl; [|reflexivity].
    destruct (present image) as [i|]; reflexivity.
Qed.

End ClientFacts.

(* ================================================================== *)
(** * The pointer handlers of the canvas *)
(* ================================================================== *)

Module InkFacts.

Import Ink.
Local Open Scope list_scope.

(** A pointer is active exactly while drawing. *)
Definition coherent (refs : Refs) : Prop :=
  match activePointerId refs with
  | Some _ => drawing refs = true
  | None => drawing refs = false
  end.

Lemma handle_coherent `{Arith} refs i : coherent refs -> coherent (fst (handle refs i)).
Proof.
  intros Hc. destruct refs as [d st [k|]]; unfold coherent in *; simpl in Hc; subst d;
    unfold handle, onPointerDown, onPointerMove, onPointerUp, onPointerCancel, is_active;
    simpl; destruct (kind i); simpl;
    repeat match goal with
           | |- context [if ?b then _ else _] =>
               match type of b with bool => destruct b; simpl end
           | |- context [tool ?p] => destruct (tool p); simpl
           end; reflexivity.
Qed.

Lemma handle_all_app `{Arith} refs l1 l2 :
  handle_all refs (l1 ++ l2)
  = (fst (handle_all (fst (handle_all refs l1)) l2),
     snd (handle_all refs l1) ++ snd (handle_all (fst (handle_all refs l1)) l2)).
Proof.
  revert refs. induction l1 as [|i l1 IH]; intros refs.
  - simpl. destruct (handle_all refs l2). reflexivity.
  - cbn [handle_all app]. destruct (handle refs i) as [refs1 change].
    rewrite (IH refs1). destruct (handle_all refs1 l1) as [refs2 changes]. simpl.
    rewrite app_assoc. reflexivity.
Qed.

Lemma handle_all_coherent `{Arith} inputs : forall refs,
  coherent refs -> coherent (fst (handle_all refs inputs)).
Proof.
  induction inputs as [|i inputs IH]; intros refs Hc; [exact Hc|].
  cbn [handle_all]. pose proof (handle_coherent refs i Hc) as Hc1.
  destruct (handle refs i) as [refs1 change]. simpl in Hc1.
  specialize (IH refs1 Hc1). destruct (handle_all refs1 inputs). exact IH.
Qed.

(** While a pointer is active, every pointerdown and every event of
    another pointer is ignored. *)
Lemma handle_foreign `{Arith} refs i k :
  drawing refs = true -> activePointerId refs = Some k ->
  kind i = Down \/ pointerId (event i) <> k ->
  handle refs i = (refs, None).
Proof.
  intros Hd Hk Hf.
  unfold handle, onPointerDown, onPointerMove, onPointerUp, onPointerCancel, is_active.
  rewrite Hd, Hk.
  destruct (kind i) eqn:Ek.
  - destruct (negb _ || negb _); reflexivity.
  - destruct Hf as [?|Hne]; [discriminate|].
    apply Z.eqb_neq in Hne. rewrite Hne. reflexivity.
  - destruct Hf as [?|Hne]; [discriminate|].
    apply Z.eqb_neq in Hne. rewrite Hne. reflexivity.
  - destruct Hf as [?|Hne]; [discriminate|].
    apply Z.eqb_neq in Hne. rewrite Hne. reflexivity.
Qed.

(** X11.  After any sequence of pointer events the canvas draws exactly
    when one pointer is active; and while a pointer is active, every
    pointerdown and every event of any other pointer changes nothing and
    calls nothing. *)
Theorem one_pointer_at_a_time :
  forall (A : Arith) (inputs : list Input),
    let refs := fst (handle_all idle inputs) in
    (drawing refs = true <-> exists k, activePointerId refs = Some k)
    /\ (forall i k, activePointerId refs = Some k ->
          kind i = Down \/ pointerId (event i) <> k ->
          handle refs i = (refs, None)).
Proof.
  intros A inputs refs.
  assert (Hc : coherent refs) by (apply handle_all_coherent; reflexivity).
  unfold coherent in Hc. split.
  - destruct (activePointerId refs) as [k|]; rewrite Hc; split; eauto.
    + discriminate.
    + intros [k Hk]. discriminate.
  - intros i k Hk Hf. rewrite Hk in Hc. apply (handle_foreign refs i k Hc Hk Hf).
Qed.

(** ** Palm rejection *)

(** A pointerdown that the canvas turns away: not the main button, or
    neither a pen nor a mouse. *)
Definition turned_away (i : Input) : Prop :=
  kind i = Down ->
  button (event i) <> 0%Z \/ acceptPointer (event i) = false.

Lemma handle_idle `{Arith} i : turned_away i -> handle idle i = (idle, None).
Proof.
  intros Ht. unfold handle, onPointerDown. destruct (kind i) eqn:Ek; try reflexivity.
  destruct (Ht Ek) as [Hb|Ha].
  - apply Z.eqb_neq in Hb. rewrite Hb. reflexivity.
  - rewrite Ha. rewrite orb_true_r. reflexivity.
Qed.

(** X12.  As long as every pointerdown comes from something else than
    the main button of a pen or a mouse (a finger, a palm), nothing is
    ever drawn or erased: whatever the events, the refs stay idle and
    [onChange] is never called. *)
Theorem touch_never_draws :
  forall (A : Arith) (inputs : list Input),
    Forall turned_away inputs ->
    handle_all idle inputs = (idle, []).
Proof.
  intros A inputs Hall. induction Hall as [|i inputs Hi Hall IH]; [reflexivity|].
  cbn [handle_all]. rewrite (handle_idle i Hi), IH. reflexivity.
Qed.

Definition at_origin : Env := mkEnv (num 0) (num 0) (num 0).

Definition touch (k : Kind) (x y : Z) : Input :=
  mkInput k (mkProps [] Pen) at_origin
          (mkPointerEvent 0 "touch" 7 (num x) (num y) (Some (num 1))).

Lemma touch_never_draws_witness :
  handle_all idle [touch Down 1 1; touch Move 2 2; touch Up 2 2] = (idle, []).
Proof.
  apply (touch_never_draws exact_arith).
  repeat constructor; intros _; right; reflexivity.
Defined.

(** ** A stroke of the pen *)

Definition point_of `{Arith} (i : Input) : Point := eventPoint (env i) (event i).

(** A move of the active pointer [k] with the pen. *)
Definition own_move (k : Z) (i : Input) : bool :=
  match kind i, tool (props i) with
  | Move, Pen => (pointerId (event i) =? k)%Z
  | _, _ => false
  end.

(** Something that happens meanwhile: a pointerdown, or an event of
    another pointer. *)
Definition meanwhile (k : Z) (i : Input) : bool :=
  match kind i with
  | Down => true
  | _ => negb (pointerId (event i) =? k)%Z
  end.

Lemma handle_own_move `{Arith} k st i :
  own_move k i = true ->
  handle (mkRefs true st (Some k)) i = (mkRefs true (st ++ [point_of i]) (Some k), None).
Proof.
  unfold own_move, handle, onPointerMove, is_active. simpl.
  destruct (kind i); try discriminate. destruct (tool (props i)); try discriminate.
  intros ->. reflexivity.
Qed.

Lemma handle_meanwhile `{Arith} k st i :
  meanwhile k i = true ->
  handle (mkRefs true st (Some k)) i = (mkRefs true st (Some k), None).
Proof.
  intros Hm. apply (handle_foreign _ i k); try reflexivity.
  unfold meanwhile in Hm. destruct (kind i); auto; right;
    apply Z.eqb_neq, negb_true_iff, Hm.
Qed.

Lemma handle_all_moves `{Arith} k mid : forall st,
  Forall (fun i => own_move k i = true \/ meanwhile k i = true) mid ->
  handle_all (mkRefs true st (Some k)) mid
  = (mkRefs true (st ++ map point_of (List.filter (own_move k) mid)) (Some k), []).
Proof.
  induction mid as [|i mid IH]; intros st Hall.
  - simpl. rewrite app_nil_r. reflexivity.
  - apply Forall_cons in Hall as [Hi Hall]. cbn [handle_all List.filter].
    destruct (own_move k i) eqn:Eo.
    + rewrite (handle_own_move k st i Eo), (IH _ Hall). simpl.
      rewrite <- app_assoc. reflexivity.
    + destruct Hi as [?|Hm]; [discriminate|].
      rewrite (handle_meanwhile k st i Hm), (IH _ Hall). reflexivity.
Qed.

Lemma eventPoint_pressure `{Arith} env e : lt (num 0) (pp (eventPoint env e)) = true.
Proof.
  unfold eventPoint. cbn [pp]. destruct (pressure e) as [v|]; [|reflexivity].
  destruct (lt (num 0) v) eqn:E; [exact E|reflexivity].
Qed.

(** X13.  A stroke of the pen.  When no pointer is active, a pointerdown
    of the main button of a pen or mouse with the pen tool, then moves
    of that pointer (among pointerdowns and events of other pointers,
    which are ignored), then its pointerup, still with the pen tool,
    call [onChange] once, at the pointerup, with the strokes of that
    render followed by one new stroke: the point of the pointerdown and
    the points of the moves, in order (the pointerup adds none).  Each
    point is the pointer position relative to the canvas, with a
    positive pressure (0.5 where the event has none above 0).  The refs
    are idle again. *)
Theorem pen_stroke_is_committed :
  forall (A : Arith) (refs : Refs) (d u : Input) (mid : list Input),
    drawing refs = false ->
    kind d = Down -> button (event d) = 0%Z -> acceptPointer (event d) = true ->
    tool (props d) = Pen ->
    Forall (fun i => own_move (pointerId (event d)) i = true
                     \/ meanwhile (pointerId (event d)) i = true) mid ->
    kind u = Up -> pointerId (event u) = pointerId (event d) -> tool (props u) = Pen ->
    let stroke :=
      point_of d :: map point_of (List.filter (own_move (pointerId (event d))) mid) in
    handle_all refs (d :: mid ++ [u]) = (idle, [strokes (props u) ++ [stroke]])
    /\ Forall (fun q => lt (num 0) (pp q) = true) stroke
    /\ px (point_of d) = sub (clientX (event d)) (rect_left (env d))
    /\ py (point_of d) = sub (clientY (event d)) (rect_top (env d)).
Proof.
  intros A refs d u mid Hidle Hd Hb Ha Ht Hmid Hu Hk Htu stroke.
  split; [|split; [|split; reflexivity]].
  - cbn [handle_all].
    assert (E : handle refs d = (mkRefs true [point_of d] (Some (pointerId (event d))), None)).
    { unfold handle, onPointerDown. rewrite Hd, Hb, Ha, Hidle, Ht. reflexivity. }
    assert (Eu : forall q st,
      handle_all (mkRefs true (q :: st) (Some (pointerId (event d)))) [u]
      = (idle, [strokes (props u) ++ [q :: st]])).
    { intros q st. cbn [handle_all]. unfold handle. rewrite Hu.
      unfold onPointerUp, is_active. cbn [drawing activePointerId activeStroke].
      rewrite Hk, Z.eqb_refl, Htu. reflexivity. }
    rewrite E, handle_all_app, (handle_all_moves _ mid _ Hmid). cbn [fst snd app].
    rewrite Eu. reflexivity.
  - subst stroke. constructor; [apply eventPoint_pressure|].
    apply Forall_forall. intros q Hq. apply list_elem_of_fmap in Hq as (i & -> & _).
    apply eventPoint_pressure.
Qed.

Definition pen (k : Kind) (id : Z) (x y : Z) (p : option number) : Input :=
  mkInput k (mkProps [] Pen) at_origin (mkPointerEvent 0 "pen" id (num x) (num y) p).

Lemma pen_stroke_is_committed_witness :
  handle_all idle ([pen Down 1 10 10 (Some (Dec 7 (-1)))]
                   ++ [pen Move 1 11 12 (Some (num 0)); touch Move 50 50;
                       pen Move 1 13 14 None]
                   ++ [pen Up 1 13 14 (Some (num 0))])
  = (idle, [[[mkPoint (Dec 10 0) (Dec 10 0) (Dec 7 (-1)) (num 0);
              mkPoint (Dec 11 0) (Dec 12 0) Svg.half (num 0);
              mkPoint (Dec 13 0) (Dec 14 0) Svg.half (num 0)]]]).
Proof.
  refine (proj1 (pen_stroke_is_committed exact_arith idle (pen Down 1 10 10 (Some (Dec 7 (-1))))
                   (pen Up 1 13 14 (Some (num 0)))
                   [pen Move 1 11 12 (Some (num 0)); touch Move 50 50; pen Move 1 13 14 None]
                   eq_refl eq_refl eq_refl eq_refl eq_refl _ eq_refl eq_refl eq_refl)).
  repeat constructor; (left; reflexivity) || (right; reflexivity).
Defined.

(** ** The eraser *)

(** The test that [isPointNearStroke] makes at a point of the stroke,
    with the threshold 20 of [handleErase]. *)
Definition near `{Arith} (x y : number) (q : Point) : bool :=
  let dx := sub (px q) x in
  let dy := sub (py q) y in
  lt (add (mul dx dx) (mul dy dy)) (mul (num 20) (num 20)).

Lemma isPointNearStroke_near `{Arith} x y stroke :
  isPointNearStroke x y stroke (num 20) = existsb (near x y) stroke.
Proof. reflexivity. Qed.

Lemma filter_length_lt {A} (f : A -> bool) (l : list A) :
  length (List.filter f l) <= length l.
Proof. induction l as [|x l IH]; simpl; [lia|]. destruct (f x); simpl; lia. Qed.

Lemma filter_length_eq {A} (f : A -> bool) (l : list A) :
  length (List.filter f l) = length l -> List.filter f l = l.
Proof.
  induction l as [|x l IH]; simpl; [reflexivity|].
  destruct (f x); simpl; intros E.
  - f_equal. apply IH. lia.
  - pose proof (filter_length_lt f l). lia.
Qed.

Lemma filter_sublist {A} (f : A -> bool) (l : list A) : List.filter f l `sublist_of` l.
Proof.
  induction l as [|x l IH]; simpl; [constructor|]. destruct (f x); constructor; exact IH.
Qed.

Lemma handleErase_spec `{Arith} props x y r :
  handleErase props x y = Some r ->
  r = List.filter (fun s => negb (existsb (near x y) s)) (strokes props)
  /\ r `sublist_of` strokes props
  /\ length r < length (strokes props)
  /\ (forall s, s ∈ strokes props -> s ∉ r -> exists q, q ∈ s /\ near x y q = true).
Proof.
  unfold handleErase.
  set (remaining := List.filter _ _).
  destruct (Nat.eqb_spec (length remaining) (length (strokes props))) as [E|N]; [discriminate|].
  intros [= <-]. split; [reflexivity|]. split; [apply filter_sublist|]. split.
  - pose proof (filter_length_lt (fun s => negb (isPointNearStroke x y s (num 20))) (strokes props))
      as Hlen.
    fold remaining in Hlen. lia.
  - intros s Hs Hn.
    destruct (existsb (near x y) s) eqn:Ee.
    + apply existsb_exists in Ee as (q & Hq & Hnear). exists q. split; [|exact Hnear].
      apply list_elem_of_In, Hq.
    + exfalso. apply Hn. apply list_elem_of_In, filter_In. split.
      * apply list_elem_of_In, Hs.
      * rewrite isPointNearStroke_near, Ee. reflexivity.
Qed.

(** X14.  The eraser only removes.  Whatever the arithmetic, whenever
    a handler calls [onChange] while the tool is the eraser, it is with
    the strokes of the render minus those that [isPointNearStroke] finds
    near the pointer: a sublist, shorter than before, in which every
    stroke that is left out has a point for which the test of the code,
    dx * dx + dy * dy < 20 * 20 as the code computes it, holds (so a
    stroke without points is never erased); the stroke being drawn is
    not touched. *)
Theorem eraser_only_removes :
  forall (A : Arith) (refs : Refs) (i : Input) (r : list Stroke),
    tool (props i) = Eraser ->
    snd (handle refs i) = Some r ->
    r = List.filter (fun s => negb (existsb (near (px (point_of i)) (py (point_of i))) s))
                    (strokes (props i))
    /\ r `sublist_of` strokes (props i)
    /\ length r < length (strokes (props i))
    /\ (forall s, s ∈ strokes (props i) -> s ∉ r ->
          exists q, q ∈ s /\ near (px (point_of i)) (py (point_of i)) q = true)
    /\ activeStroke (fst (handle refs i)) = activeStroke refs.
Proof.
  intros A refs i r Ht. unfold handle, onPointerDown, onPointerMove, onPointerUp, onPointerCancel.
  rewrite Ht.
  destruct (kind i).
  - destruct (negb _ || negb _); [discriminate|].
    destruct (drawing refs); [discriminate|]. simpl. intros E.
    destruct (handleErase_spec _ _ _ _ E) as (H1 & H2 & H3 & H4). auto.
  - destruct (negb _ || negb _); [discriminate|]. simpl. intros E.
    destruct (handleErase_spec _ _ _ _ E) as (H1 & H2 & H3 & H4). auto.
  - destruct (negb _ || negb _); discriminate.
  - destruct (negb _); discriminate.
Qed.

Definition dot : Stroke := [mkPoint (num 5) (num 5) Svg.half (num 0)].
Definition far_dot : Stroke := [mkPoint (num 500) (num 5) Svg.half (num 0)].

Definition rub (k : Kind) (x y : Z) : Input :=
  mkInput k (mkProps [far_dot; dot; []] Eraser) at_origin
          (mkPointerEvent 0 "pen" 1 (num x) (num y) None).

Lemma eraser_only_removes_witness :
  snd (handle idle (rub Down 6 6)) = Some [far_dot; []]
  /\ [far_dot; []] `sublist_of` [far_dot; dot; []].
Proof.
  split; [reflexivity|].
  exact (proj1 (proj2 (eraser_only_removes exact_arith idle (rub Down 6 6) [far_dot; []]
                         eq_refl eq_refl))).
Defined.

(** Without rounding, the distance of a finite point to itself is below
    the threshold. *)
Lemma near_self (q : Point) :
  is_finite (px q) = true -> is_finite (py q) = true -> near (px q) (py q) q = true.
Proof.
  unfold near. destruct (px q) as [| |m1 e1]; try discriminate.
  destruct (py q) as [| |m2 e2]; try discriminate. intros _ _.
  unfold sub, mul, add, exact_arith, exact_sub, exact_mul, Js.add, neg, lt, num.
  rewrite !Z.min_id, !Z.sub_diag. simpl Z.pow. rewrite !Z.mul_1_r.
  replace (m1 + - m1)%Z with 0%Z by lia. replace (m2 + - m2)%Z with 0%Z by lia.
  simpl Z.mul. 
  apply Z.ltb_lt.
  set (a := (e1 + e1)%Z). set (b := (e2 + e2)%Z).
  rewrite !Z.mul_0_l. simpl. 
  assert (0 < 10 ^ (0 - Z.min (Z.min a b) 0))%Z by (apply Z.pow_pos_nonneg; lia).
  lia.
Qed.

(** X15.  Erasing at a point of a stroke removes that stroke: when the
    pointer is exactly on a point with finite coordinates of a stroke of
    the render, [handleErase] calls [onChange] and the stroke is not
    among the strokes it passes.  (The differences are 0 there, and
    nothing is rounded: the operations are those of [exact_arith].) *)
Theorem erasing_on_a_point_removes_its_stroke :
  forall (props : Props) (s : Stroke) (q : Point),
    s ∈ strokes props -> q ∈ s ->
    is_finite (px q) = true -> is_finite (py q) = true ->
    exists r, handleErase props (px q) (py q) = Some r /\ s ∉ r.
Proof.
  intros props s q Hs Hq Hx Hy.
  assert (Hnear : isPointNearStroke (px q) (py q) s (num 20) = true).
  { rewrite isPointNearStroke_near. apply existsb_exists. exists q.
    split; [apply list_elem_of_In, Hq|apply near_self; assumption]. }
  assert (Hout : s ∉ List.filter (fun s => negb (isPointNearStroke (px q) (py q) s (num 20)))
                                 (strokes props)).
  { intros Hin. apply list_elem_of_In, filter_In in Hin as [_ Hin].
    rewrite Hnear in Hin. discriminate. }
  unfold handleErase.
  set (remaining := List.filter _ _) in *.
  destruct (Nat.eqb_spec (length remaining) (length (strokes props))) as [E|N].
  - exfalso. apply Hout.
    assert (remaining = strokes props) as ->; [|exact Hs].
    apply filter_length_eq, E.
  - simpl. eauto.
Qed.

Lemma erasing_on_a_point_removes_its_stroke_witness :
  exists r, handleErase (mkProps [far_dot; dot] Eraser) (num 5) (num 5) = Some r /\ dot ∉ r.
Proof.
  apply (erasing_on_a_point_removes_its_stroke (mkProps [far_dot; dot] Eraser) dot
           (mkPoint (num 5) (num 5) Svg.half (num 0))).
  - right. left.
  - left.
  - reflexivity.
  - reflexivity.
Defined.

End InkFacts.

(* ================================================================== *)
(** * The transcription request *)
(* ================================================================== *)

Module GroqFacts.

Import Groq JsFacts.
Local Open Scope list_scope.

(** ** [trim] *)

Lemma trim_end_cons c s :
  trim_end (String c s)
  = match trim_end s with
    | EmptyString => if is_white c then EmptyString else String c EmptyString
    | r => String c r
    end.
Proof. reflexivity. Qed.

Lemma trim_end_idem s : trim_end (trim_end s) = trim_end s.
Proof.
  induction s as [|c s IH]; [reflexivity|]. rewrite trim_end_cons.
  destruct (trim_end s) as [|c' r] eqn:E.
  - destruct (is_white c) eqn:Ec; [reflexivity|]. simpl. rewrite Ec. reflexivity.
  - rewrite trim_end_cons, IH. reflexivity.
Qed.

Lemma trim_end_head c s :
  is_white c = false -> exists r, trim_end (String c s) = String c r.
Proof.
  intros Hc. cbn [trim_end]. destruct (trim_end s); [rewrite Hc|]; eauto.
Qed.

Lemma drop_while_first f s :
  drop_while f s = EmptyString \/ exists c r, drop_while f s = String c r /\ f c = false.
Proof.
  induction s as [|c s IH]; [left; reflexivity|]. simpl.
  destruct (f c) eqn:E; [exact IH|]. right. eauto.
Qed.

Lemma trim_idem s : trim (trim s) = trim s.
Proof.
  unfold trim. destruct (drop_while_first is_white s) as [->|(c & r & -> & Hc)]; [reflexivity|].
  destruct (trim_end_head c r Hc) as (r' & E). rewrite E. simpl drop_while. rewrite Hc.
  rewrite <- E. apply trim_end_idem.
Qed.

(** ** Occurrences *)

Fixpoint occurs (sep s : string) : bool :=
  match s with
  | EmptyString => false
  | String _ s' => starts sep s || occurs sep s'
  end.

Lemma includes_occurs sep s : includes sep s = occurs sep s.
Proof.
  unfold includes. induction s as [|c s IH]; [reflexivity|].
  cbn [find_sep occurs]. destruct (starts sep (String c s)); [reflexivity|].
  simpl. rewrite <- IH. destruct (find_sep sep s) as [[a b]|]; reflexivity.
Qed.

Lemma starts_app p x y : starts p x = true -> starts p (x +:+ y) = true.
Proof.
  revert x. induction p as [|a p IH]; intros x; [reflexivity|].
  destruct x as [|b x]; simpl; [discriminate|].
  destruct (Ascii.eqb a b); simpl; [apply IH|discriminate].
Qed.

Lemma occurs_app_l sep x y : occurs sep x = true -> occurs sep (x +:+ y) = true.
Proof.
  induction x as [|c x IH]; simpl; [discriminate|].
  intros H. apply orb_true_iff in H as [H|H].
  - change (String c (x +:+ y)) with (String c x +:+ y). rewrite (starts_app _ _ _ H).
    reflexivity.
  - rewrite (IH H). apply orb_true_r.
Qed.

Lemma occurs_app_r sep x y : occurs sep y = true -> occurs sep (x +:+ y) = true.
Proof.
  intros H. induction x as [|c x IH]; simpl; [exact H|].
  rewrite IH. apply orb_true_r.
Qed.

Lemma occurs_app_l_false sep x y : occurs sep (x +:+ y) = false -> occurs sep x = false.
Proof.
  intros H. destruct (occurs sep x) eqn:E; [|reflexivity].
  rewrite (occurs_app_l _ _ y E) in H. discriminate.
Qed.

Lemma occurs_app_r_false sep x y : occurs sep (x +:+ y) = false -> occurs sep y = false.
Proof.
  intros H. destruct (occurs sep y) eqn:E; [|reflexivity].
  rewrite (occurs_app_r _ x _ E) in H. discriminate.
Qed.

Lemma drop_while_suffix f s : exists a, s = a +:+ drop_while f s.
Proof.
  induction s as [|c s [a IH]]; [exists EmptyString; reflexivity|]. simpl.
  destruct (f c).
  - exists (String c a). simpl. rewrite <- IH. reflexivity.
  - exists EmptyString. reflexivity.
Qed.

Lemma trim_end_prefix s : exists b, s = trim_end s +:+ b.
Proof.
  induction s as [|c s [b IH]]; [exists EmptyString; reflexivity|]. cbn [trim_end].
  destruct (trim_end s) as [|c' r] eqn:E.
  - destruct (is_white c).
    + exists (String c s). reflexivity.
    + exists b. simpl. rewrite IH at 1. reflexivity.
  - exists b. simpl. rewrite IH at 1. reflexivity.
Qed.

Lemma occurs_trim sep s : occurs sep s = false -> occurs sep (trim s) = false.
Proof.
  intros H. unfold trim.
  destruct (drop_while_suffix is_white s) as [a Ea].
  destruct (trim_end_prefix (drop_while is_white s)) as [b Eb].
  rewrite Ea in H. apply occurs_app_r_false in H. rewrite Eb in H.
  apply occurs_app_l_false in H. exact H.
Qed.

Lemma span_append f s : s = fst (span f s) +:+ snd (span f s).
Proof.
  induction s as [|c s IH]; [reflexivity|]. simpl.
  destruct (f c); [|reflexivity]. destruct (span f s) as [a b]. simpl in *.
  rewrite IH at 1. reflexivity.
Qed.

Lemma strip_word_line_suffix s : exists a, s = a +:+ strip_word_line s.
Proof.
  unfold strip_word_line. pose proof (span_append is_word s) as E.
  destruct (span is_word s) as [w rest]. simpl in E.
  destruct w as [|w0 w]; [exists EmptyString; reflexivity|].
  destruct rest as [|c r]; [exists EmptyString; reflexivity|].
  destruct (Ascii.eqb c "010"); [|exists EmptyString; reflexivity].
  exists (String w0 w +:+ String c EmptyString). rewrite append_assoc. exact E.
Qed.

(** ** The leftmost fence *)

Definition tick : ascii := "`"%char.

Lemma starts_fence s :
  starts fence s
  = match s with
    | String a (String b (String c _)) =>
        Ascii.eqb tick a && Ascii.eqb tick b && Ascii.eqb tick c
    | _ => false
    end.
Proof.
  destruct s as [|a [|b [|c s]]]; unfold fence, tick; simpl;
    rewrite ?andb_false_r, ?andb_true_r, ?andb_assoc; reflexivity.
Qed.

(** What [find_sep] finds: the text splits at the fence, and no fence
    begins in the text before it. *)
Lemma find_fence s a b :
  find_sep fence s = Some (a, b) ->
  s = a +:+ fence +:+ b /\ occurs fence (a +:+ "``") = false.
Proof.
  revert a. induction s as [|c s IH]; intros a; [discriminate|].
  cbn [find_sep]. destruct (starts fence (String c s)) eqn:Es.
  - intros [= <- <-]. split; [|reflexivity].
    rewrite starts_fence in Es. destruct s as [|c2 [|c3 s]]; try discriminate.
    apply andb_true_iff in Es as [Es E3]. apply andb_true_iff in Es as [E1 E2].
    apply Ascii.eqb_eq in E1, E2, E3. subst. reflexivity.
  - destruct (find_sep fence s) as [[a' b']|]; [|discriminate].
    intros [= <- <-]. destruct (IH a' eq_refl) as [E Hocc]. split.
    + simpl. rewrite E at 1. reflexivity.
    + cbn [append occurs]. rewrite Hocc, orb_false_r.
      destruct (starts fence (String c (a' +:+ "``"))) eqn:Es'; [|reflexivity].
      rewrite E in Es. change (String c (a' +:+ fence +:+ b')) with (String c a' +:+ fence +:+ b') in Es.
      assert (G : starts fence ((String c a' +:+ "``") +:+ "`" +:+ b') = true).
      { apply starts_app. exact Es'. }
      rewrite append_assoc in G. simpl in G. simpl in Es. congruence.
Qed.

Lemma find_fence_none s : find_sep fence s = None -> occurs fence s = false.
Proof.
  intros H. rewrite <- includes_occurs. unfold includes. rewrite H. reflexivity.
Qed.

(** Taking one fence out of a text that holds just one leaves none. *)
Lemma occurs_joined a b :
  occurs fence (a +:+ "``") = false -> occurs fence b = false ->
  occurs fence (a +:+ b) = false.
Proof.
  intros Ha Hb. induction a as [|c a IH]; [exact Hb|].
  cbn [append occurs] in *. apply orb_false_iff in Ha as [Hs Ha].
  rewrite (IH Ha), orb_false_r.
  rewrite starts_fence in *.
  destruct a as [|c2 [|c3 a]]; cbn [append] in *.
  - change (Ascii.eqb tick tick) with true in Hs. rewrite !andb_true_r in Hs.
    destruct b as [|b1 [|b2 b]]; [reflexivity|reflexivity|]. rewrite Hs. reflexivity.
  - change (Ascii.eqb tick tick) with true in Hs. rewrite !andb_true_r in Hs.
    destruct b as [|b1 b]; [reflexivity|]. rewrite Hs. reflexivity.
  - exact Hs.
Qed.

Lemma length_append_fence a b :
  3 <= String.length (a +:+ fence +:+ b).
Proof. rewrite !length_append. simpl. lia. Qed.

(** ** [extractCode] *)

Lemma extractCode_cases s :
  let t := trim s in
  (occurs fence t = false /\ extractCode s = t)
  \/ (exists a b, find_sep fence t = Some (a, b) /\ find_sep fence b = None
                  /\ extractCode s = trim (a +:+ b))
  \/ (exists a b a2 b2, find_sep fence t = Some (a, b) /\ find_sep fence b = Some (a2, b2)
                        /\ extractCode s = trim (strip_word_line a2)).
Proof.
  intros t. unfold extractCode. fold t. rewrite includes_occurs.
  destruct (occurs fence t) eqn:Ho; [|left; auto]. right.
  rewrite <- includes_occurs in Ho. unfold includes in Ho.
  destruct (find_sep fence t) as [[a b]|] eqn:E1; [|discriminate].
  destruct (find_fence t a b E1) as [Et _].
  pose proof (length_append_fence a b) as Hlen. rewrite <- Et in Hlen.
  unfold split, remove_all.
  destruct (String.length t) as [|[|n]] eqn:El; try lia.
  cbn [split_fuel remove_all_fuel]. rewrite E1.
  destruct (find_sep fence b) as [[a2 b2]|] eqn:E2.
  - right. exists a, b, a2, b2. split; [first [exact E1|reflexivity]|]. split; [first [exact E2|reflexivity]|].
    cbn [Datatypes.length].
    destruct (split_fuel n fence b2) as [|p ps] eqn:Es; [|reflexivity].
    destruct n; simpl in Es; [discriminate|].
    destruct (find_sep fence b2) as [[? ?]|]; discriminate.
  - left. exists a, b. split; [first [exact E1|reflexivity]|]. split; [first [exact E2|reflexivity]|].
    simpl. destruct n; simpl; rewrite ?E2; reflexivity.
Qed.

Lemma extractCode_trimmed s : trim (extractCode s) = extractCode s.
Proof.
  destruct (extractCode_cases s) as [[_ ->]|[(a & b & _ & _ & ->)|(a & b & a2 & b2 & _ & _ & ->)]];
    apply trim_idem.
Qed.

Lemma extractCode_no_fence s : occurs fence (extractCode s) = false.
Proof.
  destruct (extractCode_cases s)
    as [[H ->]|[(a & b & E1 & E2 & ->)|(a & b & a2 & b2 & E1 & E2 & ->)]].
  - exact H.
  - apply occurs_trim, occurs_joined.
    + apply (find_fence _ _ _ E1).
    + apply find_fence_none, E2.
  - apply occurs_trim.
    destruct (find_fence _ _ _ E2) as [_ H]. apply occurs_app_l_false in H.
    destruct (strip_word_line_suffix a2) as [x Ex]. rewrite Ex in H.
    apply occurs_app_r_false in H. exact H.
Qed.

Lemma extractCode_gives_bare_code_aux s :
  trim (extractCode s) = extractCode s /\ includes fence (extractCode s) = false.
Proof.
  split; [apply extractCode_trimmed|rewrite includes_occurs; apply extractCode_no_fence].
Qed.

(** X16.  Whatever the text, the code that [extractCode] returns has no
    white space at either end and contains no Markdown fence; so
    extracting again changes nothing. *)
Theorem extractCode_gives_bare_code :
  forall (s : string),
    trim (extractCode s) = extractCode s
    /\ includes fence (extractCode s) = false
    /\ extractCode (extractCode s) = extractCode s.
Proof.
  intros s. split; [apply extractCode_trimmed|].
  split; [rewrite includes_occurs; apply extractCode_no_fence|].
  unfold extractCode at 1. rewrite extractCode_trimmed, includes_occurs, extractCode_no_fence.
  reflexivity.
Qed.

(** ** A fenced block *)

Definition no_tick (s : string) : bool :=
  forallb_string (fun c => negb (Ascii.eqb tick c)) s.

Definition nl : string := String "010"%char EmptyString.

Lemma find_fence_app a b : no_tick a = true -> find_sep fence (a +:+ fence +:+ b) = Some (a, b).
Proof.
  intros Ha. induction a as [|c a IH]; [reflexivity|].
  simpl in Ha. apply andb_true_iff in Ha as [Hc Ha].
  cbn [append find_sep]. rewrite starts_fence.
  apply negb_true_iff in Hc.
  assert (E : match a +:+ fence +:+ b with
              | String b0 (String c0 _) => Ascii.eqb tick c && Ascii.eqb tick b0 && Ascii.eqb tick c0
              | _ => false
              end = false).
  { rewrite Hc. destruct (a +:+ fence +:+ b) as [|? [|? ?]]; reflexivity. }
  rewrite E, (IH Ha). reflexivity.
Qed.

Lemma drop_while_app_fence x y :
  drop_while is_white (x +:+ fence +:+ y) = drop_while is_white x +:+ fence +:+ y.
Proof.
  induction x as [|c x IH]; [reflexivity|]. simpl. destruct (is_white c); [exact IH|reflexivity].
Qed.

Lemma trim_end_fence y : trim_end (fence +:+ y) = fence +:+ trim_end y.
Proof.
  unfold fence. cbn [append]. rewrite !trim_end_cons.
  destruct (trim_end y); reflexivity.
Qed.

Lemma trim_end_app_fence x y : trim_end (x +:+ fence +:+ y) = x +:+ fence +:+ trim_end y.
Proof.
  induction x as [|c x IH]; [apply trim_end_fence|].
  cbn [append]. rewrite trim_end_cons, IH.
  destruct x; reflexivity.
Qed.

Lemma no_tick_drop_while f s : no_tick s = true -> no_tick (drop_while f s) = true.
Proof.
  induction s as [|c s IH]; [reflexivity|]. simpl. intros H.
  destruct (f c); [|exact H]. apply andb_true_iff in H as [_ H]. apply IH, H.
Qed.

Lemma word_no_tick c : is_word c = true -> negb (Ascii.eqb tick c) = true.
Proof.
  destruct c as [[] [] [] [] [] [] [] []]; vm_compute; intros H;
    try discriminate H; reflexivity.
Qed.

Lemma trim_nl s : trim (nl +:+ s) = trim s.
Proof. reflexivity. Qed.

Lemma strip_word_line_tag lang code :
  forallb_string is_word lang = true ->
  trim (strip_word_line (lang +:+ nl +:+ code)) = trim code.
Proof.
  intros Hl. unfold strip_word_line.
  rewrite (span_run is_word lang (nl +:+ code) Hl) by reflexivity.
  destruct lang as [|l0 lang]; [apply trim_nl|]. reflexivity.
Qed.

(** X17.  A fenced block is unwrapped.  For a text that holds, between
    two fences, an optional language tag of word characters, a line
    break and the code, and that holds no backquote elsewhere, the
    result is the code without the white space around it: the text
    before the first fence, the tag and the text after the second fence
    are dropped. *)
Theorem extractCode_unwraps_a_fenced_block :
  forall (before lang code behind : string),
    no_tick before = true -> forallb_string is_word lang = true -> no_tick code = true ->
    extractCode (before +:+ fence +:+ lang +:+ nl +:+ code +:+ fence +:+ behind)
    = trim code.
Proof.
  intros before lang code behind Hb Hl Hc.
  pose proof (extractCode_cases
                (before +:+ fence +:+ lang +:+ nl +:+ code +:+ fence +:+ behind)) as Hcases.
  cbv zeta in Hcases.
  set (t := trim (before +:+ fence +:+ lang +:+ nl +:+ code +:+ fence +:+ behind)) in *.
  set (a := drop_while is_white before).
  assert (Et : t = a +:+ fence +:+ (lang +:+ nl +:+ code) +:+ fence +:+ trim_end behind).
  { unfold t, trim, a. rewrite drop_while_app_fence.
    replace (drop_while is_white before +:+ fence +:+ lang +:+ nl +:+ code +:+ fence +:+ behind)
      with ((drop_while is_white before +:+ fence +:+ lang +:+ nl +:+ code) +:+ fence +:+ behind)
      by (rewrite !append_assoc; reflexivity).
    rewrite trim_end_app_fence, !append_assoc. reflexivity. }
  assert (Hmid : no_tick (lang +:+ nl +:+ code) = true).
  { unfold no_tick. rewrite !forallb_append. fold (no_tick code). rewrite Hc.
    rewrite (forallb_string_impl _ _ _ word_no_tick Hl). reflexivity. }
  assert (E1 : find_sep fence t
               = Some (a, (lang +:+ nl +:+ code) +:+ fence +:+ trim_end behind)).
  { rewrite Et. apply find_fence_app, no_tick_drop_while, Hb. }
  assert (E2 : find_sep fence ((lang +:+ nl +:+ code) +:+ fence +:+ trim_end behind)
               = Some (lang +:+ nl +:+ code, trim_end behind)).
  { apply find_fence_app, Hmid. }
  destruct Hcases
    as [[H _]|[(a' & b' & F1 & F2 & _)|(a' & b' & a2 & b2 & F1 & F2 & ->)]].
  - rewrite <- includes_occurs in H. unfold includes in H. rewrite E1 in H. discriminate.
  - rewrite E1 in F1.
    assert (Eb : b' = (lang +:+ nl +:+ code) +:+ fence +:+ trim_end behind) by congruence.
    rewrite Eb, E2 in F2. discriminate.
  - rewrite E1 in F1.
    assert (Eb : b' = (lang +:+ nl +:+ code) +:+ fence +:+ trim_end behind) by congruence.
    rewrite Eb, E2 in F2.
    assert (Ea : a2 = lang +:+ nl +:+ code) by congruence. rewrite Ea.
    apply strip_word_line_tag, Hl.
Qed.

Lemma extractCode_unwraps_a_fenced_block_witness :
  extractCode ("Here you go: " +:+ fence +:+ "python" +:+ nl +:+ "print(1) " +:+ fence +:+ " Bye")
  = "print(1)".
Proof.
  exact (extractCode_unwraps_a_fenced_block "Here you go: " "python" "print(1) " " Bye"
           eq_refl eq_refl eq_refl).
Defined.

(** ** The three rounds *)

Definition failed (r : Reply) : Prop := exists e, attempt r = inl e.

Definition pattern : list Effect := [Fetch; Sleep 400; Fetch; Sleep 800; Fetch].

(** What is thrown in the end, for the error of the third round. *)
Definition thrown_at_last (e : Thrown) : Thrown :=
  match e with
  | ErrorObj name message => ErrorObj name message
  | NonError _ => Error "Groq request failed"
  end.

(** X18.  [convertHandwritingToPython] makes at most three requests and
    stops at the first that succeeds, returning its code; it pauses 400
    ms after a first failure and 800 ms after a second and never after
    the third; when all three fail it throws the error of the third (or
    "Groq request failed" when what was thrown is not an [Error]).  The
    code it returns has no white space around it and no fence in it. *)
Theorem convert_tries_three_times :
  forall (replies : nat -> Reply),
    let r := convertHandwritingToPython replies in
    (exists k, k < 3 /\ fst r = take (2 * k + 1) pattern
               /\ (forall j, j < k -> failed (replies j))
               /\ match snd r with
                  | inr code =>
                      attempt (replies k) = inr code
                      /\ trim code = code /\ includes fence code = false
                  | inl e =>
                      k = 2
                      /\ exists e3, attempt (replies 2) = inl e3 /\ e = thrown_at_last e3
                  end).
Proof.
  intros replies r. subst r. unfold convertHandwritingToPython.
  assert (Hcode : forall k code, attempt (replies k) = inr code ->
                                 trim code = code /\ includes fence code = false).
  { intros k code E. unfold attempt in E.
    destruct (replies k) as [e|st tx|[e|[c|]]]; try discriminate E.
    destruct (Svg.nonempty (trim c)); [|discriminate E]. injection E as <-.
    destruct (extractCode_gives_bare_code_aux c) as [H1 H2]. auto. }
  cbn [rounds]. 
  destruct (attempt (replies 0)) as [e0|c0] eqn:E0.
  2: { exists 0. split; [lia|]. split; [reflexivity|]. split; [intros j; lia|].
       simpl. split; [exact E0|]. apply (Hcode 0), E0. }
  destruct (attempt (replies 1)) as [e1|c1] eqn:E1.
  2: { exists 1. split; [lia|]. split; [reflexivity|]. split.
       - intros j Hj. assert (j = 0) as -> by lia. exists e0. exact E0.
       - simpl. split; [exact E1|]. apply (Hcode 1), E1. }
  assert (Hf : forall j, j < 2 -> failed (replies j)).
  { intros j Hj. destruct j as [|[|j]]; [exists e0|exists e1|lia]; assumption. }
  destruct (attempt (replies 2)) as [e2|c2] eqn:E2.
  - exists 2. split; [lia|]. split; [reflexivity|]. split; [exact Hf|].
    simpl. split; [reflexivity|]. exists e2. split; [reflexivity|].
    destruct e2; reflexivity.
  - exists 2. split; [lia|]. split; [reflexivity|]. split; [exact Hf|].
    simpl. split; [exact E2|]. apply (Hcode 2), E2.
Qed.

End GroqFacts.

(* ================================================================== *)
(** * The settings *)
(* ================================================================== *)

Module SettingsFacts.

Import Project Settings.
Local Open Scope list_scope.

Lemma DEFAULT_MODEL_nonempty : DEFAULT_MODEL <> EmptyString.
Proof. discriminate. Qed.

Lemma loadSettings_defaults (C : Codec) (st : Storage) :
  has_window st = false \/ read_fails st <> None \/ items st !! STORAGE_KEY = None ->
  loadSettings st = defaults.
Proof.
  unfold loadSettings, getItem.
  destruct (has_window st); simpl; [|reflexivity].
  destruct (read_fails st) as [e|]; simpl; [reflexivity|].
  destruct (items st !! STORAGE_KEY); simpl; [|reflexivity].
  intros [?|[?|?]]; congruence.
Qed.

(** X19.  Whatever the storage holds, and whether or not it can be read
    or parsed, [loadSettings] returns settings of version 1 with a model
    that is not empty; without a [window], when reading throws, and when
    nothing is stored under the key, they are the defaults. *)
Theorem loadSettings_is_never_without_model :
  forall (C : Codec) (st : Storage),
    version (loadSettings st) = 1
    /\ model (loadSettings st) <> EmptyString
    /\ (has_window st = false \/ read_fails st <> None \/ items st !! STORAGE_KEY = None ->
        loadSettings st = defaults).
Proof.
  intros C st. unfold loadSettings.
  destruct (has_window st) eqn:Hw; simpl.
  2: { repeat split; auto; discriminate. }
  unfold getItem. rewrite Hw. simpl.
  destruct (read_fails st) as [e|] eqn:Hr; simpl.
  { repeat split; auto; discriminate. }
  destruct (items st !! STORAGE_KEY) as [raw|] eqn:Hi; simpl.
  2: { repeat split; auto; discriminate. }
  assert (G : forall r : result Settings,
             (forall s, r = inr s -> version s = 1 /\ model s <> EmptyString) ->
             version (match r with inr s => s | inl _ => defaults end) = 1
             /\ model (match r with inr s => s | inl _ => defaults end) <> EmptyString).
  { intros [e|s] Hs; [split; [reflexivity|discriminate]|apply Hs; reflexivity]. }
  split; [apply G|split; [apply G|]].
  3: { intros [?|[?|?]]; congruence. }
  all: intros s; destruct (Svg.nonempty raw); [|intros [= <-]; split; [reflexivity|discriminate]];
    destruct (JSON_parse raw) as [e|v]; simpl; [discriminate|];
    destruct (member "version" v) as [e|ver]; simpl; [discriminate|];
    destruct (negb _); [intros [= <-]; split; [reflexivity|discriminate]|];
    destruct (member "groqKey" v) as [e|k]; simpl; [discriminate|];
    destruct (member "model" v) as [e|m]; simpl; [discriminate|];
    intros [= <-]; split; [reflexivity|]; simpl;
    destruct m as [[| | |ms| |]|]; try discriminate;
    destruct ms; simpl; discriminate.
Qed.

(** The value that [JSON.parse] gives for printed settings. *)
Definition settings_json (s : Settings) : json :=
  JObject [("version", JNumber (num (Z.of_nat (version s))));
           ("groqKey", JString (groqKey s));
           ("model", JString (model s))].

Definition round_trips `{Codec} (s : Settings) : Prop :=
  JSON_stringify s <> EmptyString
  /\ JSON_parse (JSON_stringify s) = inr (settings_json s).

Lemma setItem_items st key value st' :
  setItem st key value = inr st' ->
  has_window st' = true /\ read_fails st' = read_fails st
  /\ items st' = <[key := value]> (items st).
Proof.
  unfold setItem. destruct (has_window st) eqn:Hw; simpl; [|discriminate].
  destruct (write_fails st); [discriminate|]. intros [= <-]. auto.
Qed.

Lemma removeItem_items st key st' :
  removeItem st key = inr st' ->
  has_window st' = true /\ read_fails st' = read_fails st
  /\ items st' = delete key (items st).
Proof.
  unfold removeItem. destruct (has_window st) eqn:Hw; simpl; [|discriminate].
  destruct (write_fails st); [discriminate|]. intros [= <-]. auto.
Qed.

Lemma load_stored `{Codec} (st : Storage) (s : Settings) :
  has_window st = true -> read_fails st = None ->
  items st !! STORAGE_KEY = Some (JSON_stringify s) ->
  version s = 1 -> round_trips s ->
  loadSettings st
  = mkSettings 1 (groqKey s) (if Svg.nonempty (model s) then model s else DEFAULT_MODEL).
Proof.
  intros Hw Hr Hi Hv [Hne Hp]. unfold loadSettings, getItem. rewrite Hw, Hr. simpl.
  rewrite Hi. simpl.
  destruct (JSON_stringify s) as [|c raw] eqn:E; [contradiction|]. simpl.
  rewrite Hp. simpl. rewrite Hv. reflexivity.
Qed.

Lemma saved_settings_are_loaded_aux (C : Codec) (st st' : Storage) (s : Settings) :
  version s = 1 -> round_trips s -> read_fails st = None ->
  saveSettings st s = inr st' ->
  loadSettings st'
  = mkSettings 1 (groqKey s) (if Svg.nonempty (model s) then model s else DEFAULT_MODEL)
  /\ (model s <> EmptyString -> loadSettings st' = s)
  /\ (forall k, k <> STORAGE_KEY -> items st' !! k = items st !! k).
Proof.
  intros Hv Hrt Hr Hs.
  destruct (setItem_items _ _ _ _ Hs) as (Hw & Hr' & Hi).
  assert (L : loadSettings st'
              = mkSettings 1 (groqKey s)
                           (if Svg.nonempty (model s) then model s else DEFAULT_MODEL)).
  { apply load_stored; auto.
    - congruence.
    - rewrite Hi. apply lookup_insert_eq. }
  split; [exact L|]. split.
  - intros Hm. rewrite L. destruct s as [v k m]. simpl in *. subst v.
    destruct m; [contradiction|reflexivity].
  - intros k Hk. rewrite Hi. apply lookup_insert_ne. congruence.
Qed.

(** X20.  Settings that are saved are loaded again.  When the storage
    can be read and [JSON.parse] gives back the value that
    [JSON.stringify] printed, [loadSettings] after a [saveSettings] that
    did not throw returns the key that was saved, and the model that was
    saved, or the default model where that was empty; so settings with
    a model are returned as they were.  No other item of the storage is
    touched. *)
Theorem saved_settings_are_loaded :
  forall (C : Codec) (st st' : Storage) (s : Settings),
    version s = 1 -> round_trips s -> read_fails st = None ->
    saveSettings st s = inr st' ->
    loadSettings st'
    = mkSettings 1 (groqKey s) (if Svg.nonempty (model s) then model s else DEFAULT_MODEL)
    /\ (model s <> EmptyString -> loadSettings st' = s)
    /\ (forall k, k <> STORAGE_KEY -> items st' !! k = items st !! k).
Proof. intros C st st' s. apply saved_settings_are_loaded_aux. Qed.

(** A codec that prints settings as [JSON.stringify] does and reads the
    texts of the given settings back. *)
Definition print (s : Settings) : string :=
  "{" +:+ Json.quote "version" +:+ ":" +:+ String_of_N (N.of_nat (version s)) +:+ ","
      +:+ Json.quote "groqKey" +:+ ":" +:+ Json.quote (groqKey s) +:+ ","
      +:+ Json.quote "model" +:+ ":" +:+ Json.quote (model s) +:+ "}".

Definition codec (known : list Settings) : Codec :=
  {| JSON_parse := fun text =>
       match List.find (fun s => String.eqb (print s) text) known with
       | Some s => inr (settings_json s)
       | None => inl (ErrorObj "SyntaxError" "Unexpected token in JSON")
       end;
     JSON_stringify := print |}.

Definition my_settings : Settings := mkSettings 1 "gsk_1" "llama".

Definition browser : Storage :=
  mkStorage true None None {["codepencil:notebook:v1" := "{}"]}.

Definition saved_browser : Storage :=
  mkStorage true None None
            (<[STORAGE_KEY := print my_settings]> {["codepencil:notebook:v1" := "{}"]}).

Lemma my_settings_round_trip : round_trips (H := codec [my_settings]) my_settings.
Proof. split; [discriminate|]. vm_compute. reflexivity. Qed.

Lemma saved_settings_are_loaded_witness :
  saveSettings (H := codec [my_settings]) browser my_settings = inr saved_browser
  /\ loadSettings (H := codec [my_settings]) saved_browser = my_settings
  /\ items saved_browser !! "codepencil:notebook:v1" = Some "{}".
Proof.
  split; [reflexivity|].
  destruct (saved_settings_are_loaded (codec [my_settings]) browser saved_browser my_settings
              eq_refl my_settings_round_trip eq_refl eq_refl) as (_ & H2 & H3).
  split; [apply H2; discriminate|].
  rewrite H3 by discriminate. apply lookup_singleton_eq.
Defined.

Lemma model_or_default_nonempty m : model_or_default m <> EmptyString.
Proof.
  unfold model_or_default. destruct (Groq.trim m) eqn:E; simpl; [discriminate|discriminate].
Qed.

(** X21.  The settings panel.  After its [save] (that did not throw)
    [loadSettings] returns exactly what the panel saved: the key without
    the white space around it, and the model without the white space
    around it, or the default model when nothing is left of it.  After
    its [clear], [loadSettings] returns the defaults, which are also
    what the panel shows then.  Neither touches another item of the
    storage. *)
Theorem panel_saves_and_clears :
  forall (C : Codec) (st st' : Storage) (key model : string),
    read_fails st = None ->
    (round_trips (mkSettings 1 (Groq.trim key) (model_or_default model)) ->
     panel_save st key model = inr st' ->
     loadSettings st' = mkSettings 1 (Groq.trim key) (model_or_default model)
     /\ forall k, k <> STORAGE_KEY -> items st' !! k = items st !! k)
    /\ (forall fields, panel_clear st = inr (st', fields) ->
          loadSettings st' = defaults
          /\ fields = (groqKey defaults, Settings.model defaults)
          /\ forall k, k <> STORAGE_KEY -> items st' !! k = items st !! k).
Proof.
  intros C st st' key model Hr. split.
  - intros Hrt Hs. unfold panel_save in Hs.
    destruct (saved_settings_are_loaded_aux C st st'
                (mkSettings 1 (Groq.trim key) (model_or_default model)) eq_refl Hrt Hr Hs)
      as (_ & H2 & H3).
    split; [apply H2, model_or_default_nonempty|exact H3].
  - intros fields Hc. unfold panel_clear, clearSettings in Hc.
    destruct (removeItem st STORAGE_KEY) as [e|st1] eqn:E; simpl in Hc; [discriminate|].
    injection Hc as <- <-.
    destruct (removeItem_items _ _ _ E) as (Hw & Hr' & Hi).
    split; [|split; [reflexivity|]].
    + apply (loadSettings_defaults C). right. right. rewrite Hi. apply lookup_delete_eq.
    + intros k Hk. rewrite Hi. apply lookup_delete_ne. congruence.
Qed.

Lemma panel_saves_and_clears_witness :
  panel_save (H := codec [my_settings]) browser " gsk_1 " "llama " = inr saved_browser
  /\ loadSettings (H := codec [my_settings]) saved_browser = my_settings.
Proof.
  split; [reflexivity|].
  exact (proj1 (proj1 (panel_saves_and_clears (codec [my_settings]) browser saved_browser
                         " gsk_1 " "llama " eq_refl)
                      my_settings_round_trip eq_refl)).
Defined.

End SettingsFacts.

(* ================================================================== *)
(** * The codec on all strokes and on all documents *)
(* ================================================================== *)

Module CodecFacts.

Import Xml Svg JsFacts XmlFacts SvgFacts.
Local Open Scope list_scope.

(** ** Strokes of no point and of one point *)

(** The points that the encoder writes for a stroke: for a stroke of one
    point, the point and a second one 0.1 to the right and below. *)
Definition written_points (stroke : Stroke) : Stroke :=
  match stroke with
  | [q] => [q; mkPoint (add (px q) tenth) (add (py q) tenth) (pp q) (pt q)]
  | _ => stroke
  end.

Definition has_points (stroke : Stroke) : bool :=
  match stroke with [] => false | _ => true end.

Lemma strokeToPathD_written stroke :
  strokeToPathD stroke = strokeToPathD (written_points stroke).
Proof.
  destruct stroke as [|q [|q1 rest]]; try reflexivity.
  unfold written_points, strokeToPathD. cbn [map join].
  unfold moveTo, lineTo. cbn [px py]. rewrite !append_assoc. reflexivity.
Qed.

Lemma written_points_length stroke :
  has_points stroke = true -> 2 <= length (written_points stroke).
Proof. destruct stroke as [|q [|q1 rest]]; simpl; intros; try discriminate; lia. Qed.

Lemma strokeToPathD_nonempty stroke : nonempty (strokeToPathD stroke) = has_points stroke.
Proof. destruct stroke as [|q [|q1 rest]]; reflexivity. Qed.

Lemma path_data_points strokes :
  path_data strokes = map strokeToPathD (List.filter has_points strokes).
Proof.
  unfold path_data. induction strokes as [|s strokes IH]; [reflexivity|].
  cbn [map List.filter]. rewrite strokeToPathD_nonempty, IH.
  destruct (has_points s); reflexivity.
Qed.

Lemma decode_encode_all strokes width height strokeWidth :
  Forall (fun stroke => Forall good_point (written_points stroke)) strokes ->
  dec_strokes (svgToStrokes (strokesToSvg strokes width height strokeWidth))
  = map (fun stroke => map decoded_point (written_points stroke))
        (List.filter has_points strokes).
Proof.
  intros Hgood.
  rewrite dec_strokes_svgToStrokes, parse_strokesToSvg, paths_of_generated, path_data_points.
  rewrite path_strokes_generated.
  - induction Hgood as [|s l Hs _ IH]; [reflexivity|].
    cbn [List.filter]. destruct (has_points s) eqn:Hp; [|exact IH].
    cbn [map flat_map]. rewrite IH, strokeToPathD_written.
    rewrite (parsePathD_strokeToPathD _ (written_points_length s Hp) Hs).
    destruct (written_points s) eqn:Ew; [|reflexivity].
    pose proof (written_points_length s Hp) as Hl. rewrite Ew in Hl. simpl in Hl. lia.
  - apply Forall_forall. intros d Hd. apply list_elem_of_fmap in Hd as (s & -> & Hs).
    rewrite strokeToPathD_nonempty.
    apply list_elem_of_In, filter_In in Hs as [_ Hs]. exact Hs.
Qed.

Definition good_points (stroke : Stroke) : Prop :=
  Forall (fun q => good_coord (px q) /\ good_coord (py q)) stroke.

Lemma decoded_close q :
  good_coord (px q) /\ good_coord (py q) -> close_point q (decoded_point q).
Proof.
  intros [Hx Hy].
  destruct (decoded_coord_close _ Hx) as [Cx Fx], (decoded_coord_close _ Hy) as [Cy Fy].
  repeat split; assumption.
Qed.

(** The value of a sum without rounding. *)
Lemma to_Q_plus a b e : (to_Q (Dec (a + b) e) == to_Q (Dec a e) + to_Q (Dec b e))%Q.
Proof.
  unfold to_Q. destruct (0 <=? e)%Z.
  - unfold Qeq, Qplus, inject_Z. simpl. lia.
  - unfold Qeq, Qplus. simpl. generalize (Z.to_pos (10 ^ (- e))). intros d.
    rewrite Pos2Z.inj_mul. nia.
Qed.

Lemma to_Q_scale m e d :
  (0 <= d)%Z -> (to_Q (Dec (m * 10 ^ d) (e - d)) == to_Q (Dec m e))%Q.
Proof.
  intros Hd.
  destruct (Z.leb_spec 0 (e - d)) as [H1|H1].
  - rewrite !to_Q_nonneg_exp by lia.
    replace (10 ^ e)%Z with (10 ^ d * 10 ^ (e - d))%Z
      by (rewrite <- Z.pow_add_r by lia; f_equal; lia).
    rewrite Z.mul_assoc. reflexivity.
  - rewrite (to_Q_neg_exp _ (e - d)) by lia.
    assert (P : (0 < 10 ^ (- (e - d)))%Z) by (apply pow10_pos; lia).
    destruct (Z.leb_spec 0 e) as [H2|H2].
    + rewrite to_Q_nonneg_exp by lia. unfold Qeq, inject_Z. simpl.
      rewrite Z2Pos.id by exact P.
      replace (10 ^ d)%Z with (10 ^ e * 10 ^ (- (e - d)))%Z
        by (rewrite <- Z.pow_add_r by lia; f_equal; lia).
      ring.
    + rewrite to_Q_neg_exp by lia. unfold Qeq. simpl.
      rewrite !Z2Pos.id by (try exact P; apply pow10_pos; lia).
      replace (10 ^ (- (e - d)))%Z with (10 ^ d * 10 ^ (- e))%Z
        by (rewrite <- Z.pow_add_r by lia; f_equal; lia).
      ring.
Qed.

Lemma to_Q_add m1 e1 m2 e2 :
  (to_Q (add (Dec m1 e1) (Dec m2 e2)) == to_Q (Dec m1 e1) + to_Q (Dec m2 e2))%Q.
Proof.
  unfold add. rewrite to_Q_plus.
  set (e := Z.min e1 e2).
  rewrite <- (to_Q_scale m1 e1 (e1 - e)), <- (to_Q_scale m2 e2 (e2 - e)) by lia.
  replace (e1 - (e1 - e))%Z with e by lia. replace (e2 - (e2 - e))%Z with e by lia.
  reflexivity.
Qed.

(** A coordinate rounded to two decimals and below 10^9 in absolute
    value.  There the sum [x + 0.1] that the code computes on doubles
    is off the decimal sum by less than 0.000001, so that [toFixed(2)]
    prints the decimal sum for it. *)
Definition small_coord (x : number) : Prop :=
  two_decimals x /\ (Qabs (to_Q x) < inject_Z (10 ^ 9))%Q.

Lemma small_coord_good x : small_coord x -> good_coord x.
Proof.
  intros [Ht Hb]. split; [exact Ht|]. split; [apply Ht|].
  eapply Qlt_trans; [exact Hb|]. reflexivity.
Qed.

Lemma small_coord_tenth x : small_coord x -> good_coord (add x tenth).
Proof.
  intros [[Hf [n Hn]] Hb]. destruct x as [| |m e]; try discriminate Hf.
  assert (E : (to_Q (add (Dec m e) tenth) == (n + 10) # 100)%Q).
  { unfold tenth. rewrite to_Q_add, Hn. unfold Qeq, Qplus. simpl. lia. }
  split; [split; [reflexivity|exists (n + 10)%Z; exact E]|]. split; [reflexivity|].
  rewrite E. rewrite Hn in Hb. unfold Qlt, Qabs, inject_Z in *. simpl in *. lia.
Qed.

Lemma small_coord_hundredths (n : Z) :
  (Z.abs n <? 10 ^ 11)%Z = true -> small_coord (Dec n (-2)).
Proof.
  intros Hn. apply Z.ltb_lt in Hn. split; [split; [reflexivity|exists n; reflexivity]|].
  unfold Qlt, Qabs, to_Q, inject_Z. simpl. lia.
Qed.

(** The strokes whose round trip is stated: every coordinate is rounded
    to two decimals and below 10^21 in absolute value, and the
    coordinates of a stroke of one point, to which the encoder adds
    0.1, are below 10^9. *)
Definition fits (stroke : Stroke) : Prop :=
  match stroke with
  | [q] => small_coord (px q) /\ small_coord (py q)
  | _ => good_points stroke
  end.

Lemma fits_written stroke : fits stroke -> good_points (written_points stroke).
Proof.
  destruct stroke as [|q [|q1 rest]]; cbn [fits written_points]; intros Hf; try exact Hf.
  destruct Hf as [Hx Hy]. unfold good_points.
  apply Forall_cons. split; [split; apply small_coord_good; assumption|].
  apply Forall_cons. split; [|constructor].
  cbn [px py]. split; apply small_coord_tenth; assumption.
Qed.

(** What the decoder reads of the written points. *)
Lemma written_come_back strokes :
  Forall fits strokes ->
  Forall (fun stroke => Forall good_point (written_points stroke)) strokes
  /\ Forall2 (Forall2 close_point)
             (map written_points (List.filter has_points strokes))
             (map (fun stroke => map decoded_point (written_points stroke))
                  (List.filter has_points strokes)).
Proof.
  intros Hfit.
  assert (Hgood : Forall (fun stroke => good_points (written_points stroke)) strokes).
  { eapply Forall_impl; [exact Hfit|]. exact fits_written. }
  clear Hfit. split.
  - eapply Forall_impl; [exact Hgood|].
    intros s Hs. eapply Forall_impl; [exact Hs|].
    intros q [Hx Hy]. split; apply good_coord_fixed; assumption.
  - assert (G : Forall (fun stroke => good_points (written_points stroke))
                       (List.filter has_points strokes)).
    { apply Forall_forall. intros s Hs. apply list_elem_of_In, filter_In in Hs as [Hs _].
      rewrite Forall_forall in Hgood. apply Hgood, list_elem_of_In, Hs. }
    clear Hgood.
    induction G as [|s l Hs _ IH]; [constructor|].
    cbn [map]. constructor; [|exact IH].
    induction Hs as [|q st Hq _ IHq]; [constructor|].
    cbn [map]. constructor; [apply decoded_close, Hq|exact IHq].
Qed.

(** X22.  What comes back of strokes of any length.  For strokes whose
    coordinates are multiples of 0.01 below 10^21 in absolute value,
    and below 10^9 in a stroke of one point, decoding the encoded
    document gives one stroke for each stroke that has points, in
    order: a stroke without points is lost; a stroke of one point comes
    back as two points, the point and one 0.1 further right and down; a
    longer stroke comes back point by point.  Each point is within 0.01
    of the written one, with pressure 0.5 and timestamp 0. *)
Theorem round_trip_of_all_strokes :
  forall (strokes : list Stroke) (width height : number) (strokeWidth : option number),
    Forall fits strokes ->
    let decoded := dec_strokes (svgToStrokes (strokesToSvg strokes width height strokeWidth)) in
    length decoded = length (List.filter has_points strokes)
    /\ Forall2 (Forall2 close_point)
               (map written_points (List.filter has_points strokes)) decoded.
Proof.
  intros strokes width height strokeWidth Hfit decoded.
  destruct (written_come_back strokes Hfit) as [Hgood Hclose].
  assert (E : decoded = map (fun stroke => map decoded_point (written_points stroke))
                            (List.filter has_points strokes)).
  { apply decode_encode_all, Hgood. }
  rewrite E. split; [apply length_map|exact Hclose].
Qed.

Definition one_dot : Stroke := [mkPoint (Dec 150 (-2)) (Dec 200 (-2)) (num 1) (num 3)].

Lemma round_trip_of_all_strokes_witness :
  dec_strokes (svgToStrokes (strokesToSvg [[]; one_dot; []] (num 800) (num 320) None))
  = [[mkPoint (Dec 150 (-2)) (Dec 200 (-2)) half (num 0);
      mkPoint (Dec 160 (-2)) (Dec 210 (-2)) half (num 0)]]
  /\ length (dec_strokes (svgToStrokes (strokesToSvg [[]; one_dot; []] (num 800) (num 320) None)))
     = 1.
Proof.
  split; [vm_compute; reflexivity|].
  refine (proj1 (round_trip_of_all_strokes [[]; one_dot; []] (num 800) (num 320) None _)).
  repeat constructor; apply small_coord_hundredths; reflexivity.
Defined.

(** ** Any document *)

Lemma parsePathD_points d :
  Forall (fun q => pp q = half /\ pt q = num 0
                   /\ isNaN (px q) = false /\ isNaN (py q) = false)
         (parsePathD d).
Proof.
  unfold parsePathD. generalize (exec_all (String.length d) d). intros l.
  induction l as [|[xs ys] l IH]; [constructor|].
  cbn [flat_map].
  destruct (isNaN (parseFloat xs)) eqn:Ex; simpl; [exact IH|].
  destruct (isNaN (parseFloat ys)) eqn:Ey; simpl; [exact IH|].
  constructor; [|exact IH]. simpl. auto.
Qed.

(** X23.  Whatever the text, [svgToStrokes] returns no stroke without
    points and no point with a coordinate that is NaN; every point it
    returns has pressure 0.5 and timestamp 0. *)
Theorem decoded_strokes_are_well_formed :
  forall (svgString : string),
    Forall (fun stroke =>
              stroke <> []
              /\ Forall (fun q => pp q = half /\ pt q = num 0
                                  /\ isNaN (px q) = false /\ isNaN (py q) = false)
                        stroke)
           (dec_strokes (svgToStrokes svgString)).
Proof.
  intros svgString. rewrite dec_strokes_svgToStrokes. unfold path_strokes.
  generalize (querySelectorAll (parseFromString svgString) "path"). intros paths.
  induction paths as [|path paths IH]; [constructor|].
  cbn [flat_map]. apply Forall_app. split; [|exact IH].
  destruct (present (getAttribute path "d")) as [d|]; [|constructor].
  pose proof (parsePathD_points d) as Hp.
  destruct (parsePathD d) as [|q st]; [constructor|].
  constructor; [|constructor]. split; [discriminate|exact Hp].
Qed.

End CodecFacts.

(* ================================================================== *)
(** * Persistence: what a save writes and what a load brings back *)
(* ================================================================== *)

Module PersistenceFacts.

Import Xml Svg Project JsFacts SaveFacts LoadFacts AdapterFacts XmlFacts SvgFacts CodecFacts.
Local Open Scope list_scope.

(** ** A save stops at the first operation that throws *)

(** The operations of [ops] that are performed, and the error of the
    first that throws, if one does. *)
Fixpoint until_fault (fault : FsOp -> option Thrown) (ops : list FsOp)
    : list FsOp * option Thrown :=
  match ops with
  | [] => ([], None)
  | o :: rest =>
      match fault o with
      | Some e => ([], Some e)
      | None => let '(performed, r) := until_fault fault rest in (o :: performed, r)
      end
  end.

Definition ended (log : list FsOp) (r : list FsOp * option Thrown) : list FsOp * result unit :=
  (log ++ fst r, match snd r with Some e => inl e | None => inr tt end).

(** The computation performs [ops] in order until one throws. *)
Definition performs (fault : FsOp -> option Thrown) (m : Writer unit) (ops : list FsOp) : Prop :=
  forall log, m log = ended log (until_fault fault ops).

Lemma performs_perform fault o : performs fault (perform fault o) [o].
Proof.
  intros log. unfold perform, ended. simpl. destruct (fault o); simpl.
  - rewrite app_nil_r. reflexivity.
  - reflexivity.
Qed.

Lemma until_fault_app fault ops1 ops2 :
  until_fault fault (ops1 ++ ops2)
  = match snd (until_fault fault ops1) with
    | Some e => until_fault fault ops1
    | None => (fst (until_fault fault ops1) ++ fst (until_fault fault ops2),
               snd (until_fault fault ops2))
    end.
Proof.
  induction ops1 as [|o ops1 IH]; simpl.
  - destruct (until_fault fault ops2); reflexivity.
  - destruct (fault o); [reflexivity|]. rewrite IH.
    destruct (until_fault fault ops1) as [p [e|]]; simpl; [reflexivity|].
    destruct (until_fault fault ops2); reflexivity.
Qed.

Lemma performs_bind fault m1 m2 ops1 ops2 :
  performs fault m1 ops1 -> performs fault m2 ops2 ->
  performs fault (m1 ;;; m2) (ops1 ++ ops2).
Proof.
  intros H1 H2 log. unfold wbind. rewrite H1, until_fault_app. unfold ended.
  destruct (until_fault fault ops1) as [p [e|]]; simpl; [reflexivity|].
  rewrite H2. unfold ended. simpl. rewrite app_assoc. reflexivity.
Qed.

Lemma performs_write_file fault name content :
  performs fault (write_file fault name content) (file_ops name content).
Proof.
  unfold write_file, file_ops.
  repeat (apply (performs_bind fault _ _ [_]); [apply performs_perform|]).
  apply performs_perform.
Qed.

Lemma performs_write_cells fault cells : forall i sw cw,
  performs fault (write_cells fault cells i sw cw) (cell_ops cells i sw cw).
Proof.
  induction cells as [|c cells IH]; intros i sw cw.
  - intros log. unfold ended. simpl. rewrite app_nil_r. reflexivity.
  - cbn [write_cells cell_ops]. apply performs_bind; [apply performs_write_file|apply IH].
Qed.

Lemma until_fault_prefix fault ops :
  exists rest, ops = fst (until_fault fault ops) ++ rest
    /\ Forall (fun o => fault o = None) (fst (until_fault fault ops))
    /\ match snd (until_fault fault ops) with
       | Some e => exists o rest', rest = o :: rest' /\ fault o = Some e
       | None => rest = []
       end.
Proof.
  induction ops as [|o ops (rest & E & Hall & Hr)]; simpl.
  - exists []. repeat split. constructor.
  - destruct (fault o) as [e|] eqn:Ef.
    + exists (o :: ops). simpl. repeat split; [constructor|]. eauto.
    + destruct (until_fault fault ops) as [p r]. simpl in *.
      exists rest. split; [rewrite E at 1; reflexivity|]. split; [|exact Hr].
      constructor; assumption.
Qed.

Section save.

Context `{Host}.

(** The operations of a save that nothing stops. *)
Definition all_ops (cells : list Cell) (sw cw : number) : list FsOp :=
  cell_ops cells 0 sw cw
  ++ file_ops "manifest.json" (JSON_stringify (createManifest cells sw)).

Lemma save_directory_performs fault cells sw cw :
  performs fault (save_directory fault cells sw cw) (all_ops cells sw cw).
Proof.
  unfold save_directory, all_ops.
  apply performs_bind; [apply performs_write_cells|apply performs_write_file].
Qed.

Lemma saveProject_stops hasFsa picked fault cells sw cw :
  let r := saveProject hasFsa picked fault cells sw cw in
  exists rest,
    all_ops cells sw cw = fst r ++ rest
    /\ Forall (fun o => fault o = None) (fst r)
    /\ (snd r = save_success <-> rest = [])
    /\ (hasFsa = false -> r = ([], save_failure "File System Access API not supported"))
    /\ (forall e, hasFsa = true -> picked = inl e ->
          r = ([], save_failure (catch_picker "Save failed" e)))
    /\ (forall u o rest', hasFsa = true -> picked = inr u -> rest = o :: rest' ->
          exists e, fault o = Some e
                    /\ snd r = save_failure (catch_picker "Save failed" e)).
Proof.
  intros r. subst r. unfold saveProject.
  assert (Hne : all_ops cells sw cw <> []).
  { unfold all_ops. intros E. apply app_eq_nil in E as [_ E]. discriminate. }
  destruct hasFsa; simpl.
  2: { exists (all_ops cells sw cw). repeat split; try constructor; try discriminate.
       intros E. contradiction. }
  destruct picked as [e|u]; simpl.
  { exists (all_ops cells sw cw). repeat split; try constructor; try discriminate.
    - intros E. contradiction.
    - intros e' _ [= <-]. reflexivity. }
  rewrite (save_directory_performs fault cells sw cw []). unfold ended. simpl.
  destruct (until_fault_prefix fault (all_ops cells sw cw)) as (rest & E & Hall & Hr).
  exists rest. destruct (until_fault fault (all_ops cells sw cw)) as [p [e|]]; simpl in *.
  - destruct Hr as (o & rest' & -> & Hf). repeat split; auto; try discriminate.
    intros u' o' rest'' _ _ [= <- <-]. eauto.
  - subst rest. repeat split; auto; try discriminate.
Qed.

End save.

(** X24.  A save through the directory handle performs the operations
    of a complete save (for each cell in order: get the handle of its
    document, create the writable, write, close; then the same for the
    manifest) in that order until one of them throws: the log is an
    initial part of that sequence, it is all of it exactly when the
    save reports success, and otherwise the result carries the message
    of the operation at which it stopped ("Cancelled" for an
    [AbortError]).  Without the File System Access API, or when the
    picker throws, nothing is written. *)
Theorem save_stops_at_the_first_fault :
  forall (H : Host) (hasFsa : bool) (picked : result unit) (fault : FsOp -> option Thrown)
         (cells : list Cell) (strokeWidth canvasWidth : number),
    let r := saveProject hasFsa picked fault cells strokeWidth canvasWidth in
    exists rest,
      all_ops cells strokeWidth canvasWidth = fst r ++ rest
      /\ Forall (fun o => fault o = None) (fst r)
      /\ (snd r = save_success <-> rest = [])
      /\ (hasFsa = false -> r = ([], save_failure "File System Access API not supported"))
      /\ (forall e, hasFsa = true -> picked = inl e ->
            r = ([], save_failure (catch_picker "Save failed" e)))
      /\ (forall u o rest', hasFsa = true -> picked = inr u -> rest = o :: rest' ->
            exists e, fault o = Some e
                      /\ snd r = save_failure (catch_picker "Save failed" e)).
Proof. intros H hasFsa picked fault cells sw cw. apply saveProject_stops. Qed.

(** ** The archive that is exported *)

Lemma zip_add_fresh (zip : list (string * string)) name content :
  name ∉ zip.*1 -> zip_add zip name content = zip ++ [(name, content)].
Proof.
  induction zip as [|[k v] zip IH]; intros Hn; [reflexivity|]. simpl.
  destruct (String.eqb_spec k name) as [->|Hne].
  - exfalso. apply Hn. left.
  - f_equal. apply IH. intros Hin. apply Hn. right. exact Hin.
Qed.

(** The documents of the cells under their names, the first having
    index [i]. *)
Definition documents (i : nat) (cells : list Cell) (sw cw : number) : list (string * string) :=
  imap (fun j cell => (cell_filename (i + j), cell_document cell sw cw)) cells.

Lemma documents_cons i c cells sw cw :
  documents i (c :: cells) sw cw
  = (cell_filename i, cell_document c sw cw) :: documents (S i) cells sw cw.
Proof.
  unfold documents. rewrite imap_cons, Nat.add_0_r. f_equal.
  apply imap_ext. intros j x _. simpl. do 2 f_equal. lia.
Qed.

Lemma documents_names i cells sw cw :
  (documents i cells sw cw).*1 = map cell_filename (seq i (length cells)).
Proof.
  revert i. induction cells as [|c cells IH]; intros i; [reflexivity|].
  rewrite documents_cons. simpl. f_equal. apply IH.
Qed.

Lemma add_cells_documents cells : forall (zip : list (string * string)) i sw cw,
  (forall k j, k ∈ zip.*1 -> k <> cell_filename (i + j)) ->
  add_cells zip cells i sw cw = zip ++ documents i cells sw cw.
Proof.
  induction cells as [|c cells IH]; intros zip i sw cw Hz.
  - simpl. rewrite app_nil_r. reflexivity.
  - cbn [add_cells]. rewrite zip_add_fresh.
    + rewrite IH.
      * rewrite documents_cons, <- app_assoc. reflexivity.
      * intros k j Hk. rewrite fmap_app in Hk. apply elem_of_app in Hk as [Hk|Hk].
        -- replace (S i + j) with (i + S j) by lia. apply Hz, Hk.
        -- apply list_elem_of_singleton in Hk. simpl in Hk. subst k.
           intros E. apply cell_filename_inj in E. lia.
    + intros Hin. apply (Hz _ 0 Hin). rewrite Nat.add_0_r. reflexivity.
Qed.

Lemma cell_filenames_nodup i n : NoDup (map cell_filename (seq i n)).
Proof.
  apply NoDup_fmap_2; [|apply NoDup_seq].
  intros a b. apply cell_filename_inj.
Qed.

Section export.

Context `{Host}.

Lemma build_archive_members cells sw cw :
  build_archive cells sw cw
  = documents 0 cells sw cw
    ++ [("manifest.json", JSON_stringify (createManifest cells sw))]
  /\ NoDup (build_archive cells sw cw).*1.
Proof.
  assert (E : build_archive cells sw cw
              = documents 0 cells sw cw
                ++ [("manifest.json", JSON_stringify (createManifest cells sw))]).
  { unfold build_archive. rewrite (add_cells_documents cells [] 0 sw cw).
    - simpl. apply zip_add_fresh. rewrite documents_names.
      intros Hin. apply list_elem_of_fmap in Hin as (j & E & _).
      symmetry in E. apply cell_filename_not_manifest in E. exact E.
    - intros k j Hk. inversion Hk. }
  split; [exact E|]. rewrite E, fmap_app, documents_names. simpl.
  apply NoDup_app. split; [apply cell_filenames_nodup|]. split.
  - intros k Hk Hm. apply list_elem_of_singleton in Hm. subst k.
    apply list_elem_of_fmap in Hk as (j & E' & _).
    symmetry in E'. apply cell_filename_not_manifest in E'. exact E'.
  - apply NoDup_singleton.
Qed.

End export.


(** ** Loading without a manifest *)

Section scan.

Context `{Host}.

Lemma scan_cells_live_readable (files : list (string * Blob)) texts : forall n,
  map snd files = map Readable texts ->
  scan_cells_live files n = inr (imap (fun j text => scanned_cell (n + j) text) texts).
Proof.
  revert texts. induction files as [|[name b] files IH]; intros [|t texts] n E;
    try discriminate; [reflexivity|].
  simpl in E. injection E as -> E. cbn [scan_cells_live read_text bind].
  rewrite (IH texts (S n) E). cbn [bind]. rewrite imap_cons, Nat.add_0_r. do 2 f_equal.
  apply imap_ext. intros j x _. simpl. f_equal. lia.
Qed.

Lemma scan_cells_live_unreadable (files : list (string * Blob)) before e after : forall n,
  map snd files = map Readable before ++ Unreadable e :: after ->
  scan_cells_live files n = inl e.
Proof.
  revert before. induction files as [|[name b] files IH]; intros [|t before] n E;
    try discriminate.
  - simpl in E. injection E as -> _. reflexivity.
  - simpl in E. injection E as -> E. cbn [scan_cells_live read_text bind].
    rewrite (IH before (S n) E). reflexivity.
Qed.

Lemma loadProject_scan (d : list (string * DirEntry)) n :
  manifest_cells (read_manifest_live d) = None ->
  let files := sort_by compare_names (omap svg_entry d) in
  files ≡ₚ omap svg_entry d
  /\ (forall texts, map snd files = map Readable texts ->
        loadProject true (inr d) n
        = outcome "No cells found in project"
                  (imap (fun j text => scanned_cell (n + j) text) texts)
                  (read_manifest_live d))
  /\ (forall before e after,
        map snd files = map Readable before ++ Unreadable e :: after ->
        loadProject true (inr d) n = load_failure (catch_picker "Load failed" e)).
Proof.
  intros Hm files. split; [apply sort_by_perm|]. split.
  - intros texts E. unfold loadProject, load_directory. simpl. rewrite Hm.
    fold files. rewrite (scan_cells_live_readable files texts n E). simpl.
    destruct (imap _ texts); reflexivity.
  - intros before e after E. unfold loadProject, load_directory. simpl. rewrite Hm.
    fold files. rewrite (scan_cells_live_unreadable files before e after n E). reflexivity.
Qed.

End scan.


Definition unreadable : Thrown := ErrorObj "NotReadableError" "The file could not be read.".

Definition dir_scan : Directory :=
  [("b.svg", FileEntry (Unreadable unreadable));
   ("notes.txt", FileEntry (Readable "x"));
   ("a.svg", FileEntry (Readable svg_a))].


(** ** The ids of the cells that are loaded *)

Section ids.

Context `{Host}.

Definition fresh_ids (n : nat) (cells : list Cell) : Prop :=
  map cell_id cells = map id (seq n (length cells)).

Lemma fresh_ids_cons n c cells :
  cell_id c = id n -> fresh_ids (S n) cells -> fresh_ids n (c :: cells).
Proof. unfold fresh_ids. intros E Hc. simpl. rewrite E, Hc. reflexivity. Qed.

Lemma load_cells_live_ids d infos : forall n, fresh_ids n (load_cells_live d infos n).
Proof.
  induction infos as [|info infos IH]; intros n; [reflexivity|].
  cbn [load_cells_live].
  destruct (await fileHandle := getFileHandle d (mc_file info) in read_text fileHandle);
    [apply IH|].
  apply fresh_ids_cons; [reflexivity|apply IH].
Qed.

Lemma scan_cells_live_ids files : forall n cells,
  scan_cells_live files n = inr cells -> fresh_ids n cells.
Proof.
  induction files as [|[name b] files IH]; intros n cells.
  - intros [= <-]. reflexivity.
  - cbn [scan_cells_live]. destruct (read_text b) as [e|text]; simpl; [discriminate|].
    destruct (scan_cells_live files (S n)) as [e|cells'] eqn:E; simpl; [discriminate|].
    intros [= <-]. apply fresh_ids_cons; [reflexivity|apply IH, E].
Qed.

Lemma load_cells_zip_ids zip infos : forall n cells,
  load_cells_zip zip infos n = inr cells -> fresh_ids n cells.
Proof.
  induction infos as [|info infos IH]; intros n cells.
  - intros [= <-]. reflexivity.
  - cbn [load_cells_zip]. destruct (zip_file zip (mc_file info)) as [b|]; [|apply IH].
    destruct (read_text b) as [e|text]; simpl; [discriminate|].
    destruct (load_cells_zip zip infos (S n)) as [e|cells'] eqn:E; simpl; [discriminate|].
    intros [= <-]. apply fresh_ids_cons; [reflexivity|apply IH, E].
Qed.

Lemma scan_cells_zip_ids zip names : forall n cells,
  scan_cells_zip zip names n = inr cells -> fresh_ids n cells.
Proof.
  induction names as [|name names IH]; intros n cells.
  - intros [= <-]. reflexivity.
  - cbn [scan_cells_zip]. destruct (zip_file zip name) as [b|]; [|apply IH].
    destruct (read_text b) as [e|text]; simpl; [discriminate|].
    destruct (scan_cells_zip zip names (S n)) as [e|cells'] eqn:E; simpl; [discriminate|].
    intros [= <-]. apply fresh_ids_cons; [reflexivity|apply IH, E].
Qed.

Lemma loadProject_ids hasFsa picked n cells :
  loaded_cells (loadProject hasFsa picked n) = Some cells -> fresh_ids n cells.
Proof.
  unfold loadProject. destruct hasFsa; simpl; [|discriminate].
  destruct picked as [e|d]; simpl; [discriminate|].
  unfold load_directory.
  destruct (manifest_cells (read_manifest_live d)) as [infos|].
  - simpl. pose proof (load_cells_live_ids d infos n) as Hi.
    destruct (load_cells_live d infos n); simpl; [discriminate|].
    intros [= <-]. exact Hi.
  - destruct (scan_cells_live _ n) as [e|cs] eqn:E; simpl; [discriminate|].
    pose proof (scan_cells_live_ids _ _ _ E) as Hi.
    destruct cs; simpl; [discriminate|]. intros [= <-]. exact Hi.
Qed.

Lemma importProjectFromZip_ids jszip loaded n cells :
  loaded_cells (importProjectFromZip jszip loaded n) = Some cells -> fresh_ids n cells.
Proof.
  unfold importProjectFromZip. destruct jszip as [e|u]; simpl; [discriminate|].
  destruct loaded as [e|zip]; simpl; [discriminate|].
  unfold load_archive.
  destruct (read_manifest_zip zip) as [e|m]; simpl; [discriminate|].
  destruct (manifest_cells m) as [infos|].
  - destruct (load_cells_zip zip infos n) as [e|cs] eqn:E; simpl; [discriminate|].
    pose proof (load_cells_zip_ids _ _ _ _ E) as Hi.
    destruct cs; simpl; [discriminate|]. intros [= <-]. exact Hi.
  - destruct (scan_cells_zip zip _ n) as [e|cs] eqn:E; simpl; [discriminate|].
    pose proof (scan_cells_zip_ids _ _ _ _ E) as Hi.
    destruct cs; simpl; [discriminate|]. intros [= <-]. exact Hi.
Qed.

End ids.

(** X27.  The cells that a load returns carry new ids: the cell at
    position [j] has the id of the [j]-th call of [id()] that the load
    makes, and a load makes one call for each cell it returns and none
    for a document it skips.  That holds for both adapters, with or
    without a manifest; the ids under which the cells were saved are not
    kept.  So the loaded ids are pairwise distinct where [id()] does
    not repeat itself. *)
Theorem loaded_cells_get_new_ids :
  forall (H : Host) (n : nat) (cells : list Cell),
    (forall hasFsa picked,
        loaded_cells (loadProject hasFsa picked n) = Some cells ->
        map cell_id cells = map id (seq n (length cells)))
    /\ (forall jszip loaded,
          loaded_cells (importProjectFromZip jszip loaded n) = Some cells ->
          map cell_id cells = map id (seq n (length cells)))
    /\ ((forall i j, id i = id j -> i = j) ->
        map cell_id cells = map id (seq n (length cells)) ->
        NoDup (map cell_id cells)).
Proof.
  intros H n cells. split; [|split].
  - intros hasFsa picked. apply loadProject_ids.
  - intros jszip loaded. apply importProjectFromZip_ids.
  - intros Hinj ->. apply NoDup_fmap_2; [exact Hinj|apply NoDup_seq].
Qed.

Lemma loaded_cells_get_new_ids_witness :
  (map cell_id <$> loaded_cells (loadProject (H := demo_host) true (inr dir_ba) 5))
  = Some ["id-5"; "id-6"].
Proof.
  destruct (loaded_cells (loadProject (H := demo_host) true (inr dir_ba) 5)) as [cells|] eqn:E;
    [|vm_compute in E; discriminate].
  simpl. f_equal.
  rewrite (proj1 (loaded_cells_get_new_ids demo_host 5 cells) true (inr dir_ba) E).
  assert (L : length cells = 2).
  { vm_compute in E. injection E as <-. reflexivity. }
  rewrite L. reflexivity.
Defined.

(** ** The dimensions of a generated document *)

Lemma append_nonempty_l (a b : string) : a <> EmptyString -> a +:+ b <> EmptyString.
Proof. destruct a; [congruence|discriminate]. Qed.

Lemma append_nonempty_r (a b : string) : b <> EmptyString -> a +:+ b <> EmptyString.
Proof. destruct a; [intros Hb; exact Hb|discriminate]. Qed.

Lemma signed_exponent_unspaced e : forallb_string unspaced (signed_exponent e) = true.
Proof.
  unfold signed_exponent. rewrite forallb_append, digits_unspaced.
  destruct (0 <=? e)%Z; reflexivity.
Qed.

Lemma toString_pos_unspaced a e : forallb_string unspaced (toString_pos a e) = true.
Proof.
  unfold toString_pos. destruct (strip_zeros _ a e) as [a' e'].
  pose proof (digits_unspaced (Z.to_N a')) as Hd.
  repeat match goal with
         | |- context [if ?b then _ else _] => destruct b
         end;
    rewrite ?forallb_append, ?signed_exponent_unspaced, ?Hd, ?forallb_substring,
      ?forallb_repeat_char by (try exact Hd; reflexivity);
    reflexivity.
Qed.

Lemma toString_pos_nonempty a e : toString_pos a e <> EmptyString.
Proof.
  unfold toString_pos. destruct (strip_zeros _ a e) as [a' e'].
  pose proof (digits_not_empty (Z.to_N a')) as Hd.
  repeat match goal with
         | |- context [if ?b then _ else _] => destruct b
         end.
  - apply append_nonempty_l, Hd.
  - apply append_nonempty_r. discriminate.
  - discriminate.
  - apply append_nonempty_l, Hd.
  - apply append_nonempty_r. discriminate.
Qed.

Lemma toString_unspaced x : forallb_string unspaced (toString x) = true.
Proof.
  destruct x as [|[]|m e]; try reflexivity.
  unfold toString. destruct (m =? 0)%Z; [reflexivity|].
  destruct (m <? 0)%Z; [|apply toString_pos_unspaced].
  rewrite forallb_append, toString_pos_unspaced. reflexivity.
Qed.

Lemma toString_nonempty x : toString x <> EmptyString.
Proof.
  destruct x as [|[]|m e]; try discriminate.
  unfold toString. destruct (m =? 0)%Z; [discriminate|].
  destruct (m <? 0)%Z; [discriminate|apply toString_pos_nonempty].
Qed.

Lemma split_ws_viewBox (w h : string) :
  w <> EmptyString -> forallb_string unspaced w = true ->
  h <> EmptyString -> forallb_string unspaced h = true ->
  split_ws ("0 0 " +:+ w +:+ " " +:+ h) = ["0"; "0"; w; h].
Proof.
  intros Hw1 Hw2 Hh1 Hh2. unfold split_ws. cbn [append split_ws_go].
  change (is_space "0") with false. change (is_space " ") with true. cbv iota.
  cbn [append]. do 2 f_equal.
  rewrite (split_ws_go_word w true EmptyString (String " " h) Hw1 Hw2).
  cbn [append split_ws_go]. change (is_space " ") with true. cbv iota. f_equal.
  rewrite <- (append_nil_r h) at 1.
  rewrite (split_ws_go_word h true EmptyString EmptyString Hh1 Hh2). reflexivity.
Qed.

Lemma dimensions_generated strokes width height strokeWidth :
  let r := svgToStrokes (strokesToSvg strokes width height strokeWidth) in
  dec_width r = or_else (parseFloat (toString width)) (num 800)
  /\ dec_height r = or_else (parseFloat (toString height)) (num 320).
Proof.
  intros r. subst r. unfold svgToStrokes. rewrite parse_strokesToSvg. unfold decode.
  set (root := Elem "svg" _ _).
  change (querySelector (Some root) "svg") with (Some root).
  unfold dimensions.
  change (getAttribute root "viewBox")
    with (Some ("0 0 " +:+ toString width +:+ " " +:+ toString height)).
  unfold present. cbn [append nonempty].
  change (String "0" (String " " (String "0" (String " "
            (toString width +:+ String " " (toString height))))))
    with ("0 0 " +:+ toString width +:+ " " +:+ toString height).
  rewrite split_ws_viewBox
    by (apply toString_nonempty || apply toString_unspaced).
  split; reflexivity.
Qed.

(** X28.  The dimensions of a document that [strokesToSvg] wrote are
    read back from its [viewBox]: the width is what [parseFloat] makes
    of the printed width, and 800 where that is zero or NaN; the height
    likewise, with 320.  So a width or height of zero or NaN is not
    recovered, and the heights 320 and 800 are. *)
Theorem generated_dimensions_are_read_back :
  forall (strokes : list Stroke) (width height : number) (strokeWidth : option number),
    let r := svgToStrokes (strokesToSvg strokes width height strokeWidth) in
    dec_width r = or_else (parseFloat (toString width)) (num 800)
    /\ dec_height r = or_else (parseFloat (toString height)) (num 320)
    /\ (truthy width = false -> dec_width r = num 800)
    /\ (truthy height = false -> dec_height r = num 320)
    /\ (height = num 320 -> dec_height r = num 320)
    /\ (width = num 800 -> dec_width r = num 800).
Proof.
  intros strokes width height strokeWidth r.
  destruct (dimensions_generated strokes width height strokeWidth) as [Hw Hh].
  fold r in Hw, Hh.
  assert (F : forall x, truthy x = false -> truthy (parseFloat (toString x)) = false).
  { intros [|[]|m e]; try discriminate; try reflexivity.
    simpl. intros Hm. apply negb_false_iff in Hm. unfold toString. rewrite Hm. reflexivity. }
  split; [exact Hw|]. split; [exact Hh|]. split; [|split; [|split]].
  - intros Ht. rewrite Hw. unfold or_else. rewrite (F _ Ht). reflexivity.
  - intros Ht. rewrite Hh. unfold or_else. rewrite (F _ Ht). reflexivity.
  - intros ->. rewrite Hh. reflexivity.
  - intros ->. rewrite Hw. reflexivity.
Qed.

(** ** Saved and loaded again *)

Section again.

Context `{Host}.

(** What a cell that was saved and loaded again has of the cell that
    was saved; [k] counts the calls of [id()] before it. *)
Definition comes_back (sw cw : number) (k : nat) (c c' : Cell) : Prop :=
  cell_id c' = id k
  /\ cell_recognizedCode c' = cell_recognizedCode c
  /\ cell_height c' = Some (default (num 320) (cell_height c))
  /\ cell_status c' = None /\ cell_error c' = None /\ cell_runStatus c' = None
  /\ cell_stdout c' = None /\ cell_stderr c' = None
  /\ cell_strokes c' = dec_strokes (svgToStrokes (cell_document c sw cw))
  /\ (Forall fits (cell_strokes c) ->
      Forall2 (Forall2 close_point)
              (map written_points (List.filter has_points (cell_strokes c)))
              (cell_strokes c')).

Lemma manifest_cell_comes_back sw cw k i c :
  comes_back sw cw k c (manifest_cell k (entry_of i c) (cell_document c sw cw)).
Proof.
  unfold comes_back, manifest_cell, entry_of.
  cbn [cell_id cell_strokes cell_recognizedCode cell_height cell_status cell_error
       cell_runStatus cell_stdout cell_stderr mc_height mc_recognizedCode].
  split; [reflexivity|]. split; [reflexivity|]. split.
  - unfold cell_document. destruct (cell_height c) as [h|]; [reflexivity|].
    cbn [default]. f_equal.
    rewrite (proj2 (dimensions_generated (cell_strokes c) cw (num 320) (Some sw))).
    reflexivity.
  - repeat (split; [reflexivity|]).
    intros Hg. unfold cell_document.
    destruct (written_come_back (cell_strokes c) Hg) as [Hgood Hclose].
    rewrite (decode_encode_all (cell_strokes c) cw _ (Some sw) Hgood). exact Hclose.
Qed.

Lemma reloaded_comes_back cells sw cw n i c :
  cells !! i = Some c ->
  exists c', reloaded cells sw cw n !! i = Some c' /\ comes_back sw cw (n + i) c c'.
Proof.
  intros Hi. unfold reloaded. rewrite list_lookup_imap, Hi. simpl.
  eexists. split; [reflexivity|]. apply manifest_cell_comes_back.
Qed.

Lemma saved_directory_loads cells sw cw n hasFsa picked fault (d : list (string * DirEntry)) :
  cells <> [] ->
  JSON_parse (JSON_stringify (createManifest cells sw)) = inr (createManifest cells sw) ->
  snd (saveProject hasFsa picked fault cells sw cw) = save_success ->
  dir_holds d (written (fst (saveProject hasFsa picked fault cells sw cw))) ->
  exists cells',
    loadProject true (inr d) n
    = mkLoadResult true (Some (mkNotebook 1 cells')) (Some sw) None
    /\ length cells' = length cells
    /\ forall i c, cells !! i = Some c ->
         exists c', cells' !! i = Some c' /\ comes_back sw cw (n + i) c c'.
Proof.
  intros Hne Hrt Hs Hd. exists (reloaded cells sw cw n). split; [|split].
  - rewrite (load_saved_directory cells sw cw Hne Hrt d _ n
               (saved_log_files cells sw cw hasFsa picked fault Hs) Hd).
    reflexivity.
  - unfold reloaded. apply length_imap.
  - intros i c. apply reloaded_comes_back.
Qed.

(** A directory, or an archive, that holds the manifest of a project
    without cells gives no cells. *)
Lemma empty_directory_fails sw n (d : list (string * DirEntry)) files :
  JSON_parse (JSON_stringify (createManifest [] sw)) = inr (createManifest [] sw) ->
  ("manifest.json", JSON_stringify (createManifest [] sw)) ∈ files ->
  dir_holds d files ->
  loadProject true (inr d) n = load_failure "No cells found in project".
Proof.
  intros Hrt Hm Hd.
  rewrite (loadProject_manifest d (createManifest [] sw) [] n); [reflexivity| |reflexivity].
  unfold read_manifest_live, getFileHandle. rewrite (Hd _ _ Hm). simpl.
  rewrite Hrt. reflexivity.
Qed.

Lemma empty_archive_fails sw n (zip : list (string * ZipEntry)) files :
  JSON_parse (JSON_stringify (createManifest [] sw)) = inr (createManifest [] sw) ->
  ("manifest.json", JSON_stringify (createManifest [] sw)) ∈ files ->
  zip_holds zip files ->
  importProjectFromZip (inr tt) (inr zip) n = load_failure "No cells found in ZIP".
Proof.
  intros Hrt Hm Hz.
  rewrite (importProjectFromZip_manifest zip (createManifest [] sw) [] n);
    [reflexivity| |reflexivity|intros info Hin; inversion Hin].
  unfold read_manifest_zip, zip_file. rewrite (Hz _ _ Hm). simpl.
  rewrite Hrt. reflexivity.
Qed.

End again.

(** X29.  A project that was saved to a directory is loaded again from
    it.  For at least one cell, where [JSON.parse] gives back the
    manifest that [JSON.stringify] printed, the load of a directory that
    holds what a successful save wrote succeeds with the stroke width of
    the save and one cell for each saved cell, in order.  Of a saved
    cell the loaded one keeps the recognized code and the height (320
    if it had none); its strokes are those decoded from its document
    (where the strokes are as in X22, the written points to within
    0.01, pressure and time reset); its id is new; and its status,
    error, run status and outputs are gone. *)
Theorem a_saved_project_is_loaded_again :
  forall (H : Host) (cells : list Cell) (strokeWidth canvasWidth : number) (n : nat)
         (hasFsa : bool) (picked : result unit) (fault : FsOp -> option Thrown)
         (d : list (string * DirEntry)),
    cells <> [] ->
    JSON_parse (JSON_stringify (createManifest cells strokeWidth))
    = inr (createManifest cells strokeWidth) ->
    snd (saveProject hasFsa picked fault cells strokeWidth canvasWidth) = save_success ->
    dir_holds d (written (fst (saveProject hasFsa picked fault cells strokeWidth canvasWidth))) ->
    exists cells',
      loadProject true (inr d) n
      = mkLoadResult true (Some (mkNotebook 1 cells')) (Some strokeWidth) None
      /\ length cells' = length cells
      /\ forall i c, cells !! i = Some c ->
           exists c', cells' !! i = Some c'
                      /\ comes_back strokeWidth canvasWidth (n + i) c c'.
Proof. intros H cells sw cw n hasFsa picked fault d. apply saved_directory_loads. Qed.

Lemma a_saved_project_is_loaded_again_witness :
  exists cells',
    loadProject (H := save_host) true (inr (dir_of (written saved_log))) 0
    = mkLoadResult true (Some (mkNotebook 1 cells')) (Some (num 4)) None
    /\ length cells' = 2.
Proof.
  destruct (a_saved_project_is_loaded_again save_host demo_cells (num 4) (num 800) 0
              true (inr tt) no_fault (dir_of (written saved_log)))
    as (cells' & E & L & _).
  - discriminate.
  - vm_compute. reflexivity.
  - reflexivity.
  - apply held_by_dir. apply (bool_decide_unpack _). vm_compute. exact I.
  - exists cells'. split; [exact E|exact L].
Defined.

(** X30.  A project without cells can be saved but not loaded again.
    The save and the export of an empty list of cells succeed and write
    only the manifest; and, where [JSON.parse] gives back what
    [JSON.stringify] printed, loading a directory or importing an
    archive that holds this manifest fails with "No cells found",
    whatever else the directory or the archive holds. *)
Theorem an_empty_project_cannot_be_loaded :
  forall (H : Host) (strokeWidth canvasWidth : number) (n : nat),
    JSON_parse (JSON_stringify (createManifest [] strokeWidth))
    = inr (createManifest [] strokeWidth) ->
    saveProject true (inr tt) no_fault [] strokeWidth canvasWidth
    = (file_ops "manifest.json" (JSON_stringify (createManifest [] strokeWidth)), save_success)
    /\ exportProjectAsZip (inr tt) (inr tt) [] strokeWidth canvasWidth
       = (Some [("manifest.json", JSON_stringify (createManifest [] strokeWidth))], save_success)
    /\ (forall d : list (string * DirEntry),
          dir_holds d (written (fst (saveProject true (inr tt) no_fault []
                                       strokeWidth canvasWidth))) ->
          loadProject true (inr d) n = load_failure "No cells found in project")
    /\ (forall zip : list (string * ZipEntry),
          zip_holds zip [("manifest.json", JSON_stringify (createManifest [] strokeWidth))] ->
          importProjectFromZip (inr tt) (inr zip) n = load_failure "No cells found in ZIP").
Proof.
  intros H sw cw n Hrt. split; [reflexivity|]. split; [reflexivity|]. split.
  - intros d Hd. apply (empty_directory_fails sw n d _ Hrt) in Hd; [exact Hd|]. left.
  - intros zip Hz. apply (empty_archive_fails sw n zip _ Hrt) in Hz; [exact Hz|]. left.
Qed.

Lemma an_empty_project_cannot_be_loaded_witness :
  loadProject (H := Json.host [createManifest [] (num 4)]) true
    (inr [("cell-001.svg", FileEntry (Readable svg_a));
          ("manifest.json",
           FileEntry (Readable (Json.stringify (createManifest [] (num 4)))))]) 0
  = load_failure "No cells found in project".
Proof.
  refine (proj1 (proj2 (proj2 (an_empty_project_cannot_be_loaded
                                 (Json.host [createManifest [] (num 4)])
                                 (num 4) (num 800) 0 eq_refl))) _ _).
  intros name content Hin. apply list_elem_of_singleton in Hin. injection Hin as -> ->.
  reflexivity.
Defined.

End PersistenceFacts.
